(* ===== verification/_CoqProject ===== *)
-Q . S2P
Prelude.v
Debug.v
Base64.v
GoIO.v
NetHttp.v
Utf8.v
EioPacket.v
EioPayload.v
WebTransport.v
Strconv.v
SioPacket.v
JsonHeader.v
JsonParser.v
JsonBinary.v
JsonText.v
JsonAttachments.v
JsonAcks.v
Handlers.v
Events.v
MapSet.v
Adapter.v
Stores.v
TestStore.v
Broadcast.v
Session.v
RedisStream.v
Queues.v
Backoff.v
EioPolling.v
EioSocket.v
EioServer.v
EioClient.v
EioDirect.v
EioWebSocket.v
EioWebTransport.v
EioPollClient.v
EioDial.v
Dispatch.v
ServerApi.v
ClientQueue.v
ClientManager.v
ClientSocket.v
SioServer.v
SioServerInv.v
SioServerSafety.v
SioClose.v
SioServerFeed.v
EndToEnd.v
