(* ===== verification/Prelude.v ===== *)
(** * Socket.IO for Go: a verification development

    The repository is a Socket.IO server and client in Go.  It is built in two
    layers.  Engine.IO ([engine.io/]) keeps a session between a client and a server
    over HTTP long polling, WebSocket or WebTransport, with heartbeats and a switch
    of transport in mid-session.  Socket.IO (the root package, [parser/] and
    [adapter/]) multiplexes namespaces over a session, carries events with binary
    attachments and acknowledgements, and broadcasts to rooms.  The development
    follows the code: a definition has the name and the control flow of the function
    it models, its comments quote the source where the correspondence is not
    evident, and every theorem is about these definitions.

    ** Conventions

    - A Go function that returns an error, or can panic, returns an [outcome] (this
      file): a value, an error, or a panic with its cause.  [int] and [time.Duration]
      are [Z] with [wrap_s 64] and [wrap_u 64] written where the code can overflow;
      [[]byte] is [bytes], a list of [Byte.byte].
    - Time, random bytes, the order in which Go ranges over a map, and what the network
      and third-party packages do, are arguments.  Where the code relies on their
      documented behaviour, that is a class with laws ([LawfulWriter], [JSONSerializer],
      [PlaceholderJSON], [EventJSON], [AckJSON], [LawfulMapSet], [LawfulSocketStore],
      [LawfulSocketAdapter], [LawfulRedis], [LawfulStreamJSON], [FloatConversions], [LawfulWsConn],
      [LawfulWtStream]) with an instance that shows the laws can hold.  The user's handlers, middlewares and data, and the parser where a client or a
      server uses it, are a record, the environment.
    - Goroutines that share state are step relations: a step is a critical section or
      a channel operation, a run is an interleaving.  A goroutine that was started and has
      not run yet is a task of the state.
    - Loops are structural recursions on what they traverse.  The only fuel is that of
      [WebTransport.webtransport.nextPacket_loop] (its state machine visits at most
      three states, and three turns are given) and of [format_digits] (twenty digits hold
      every 64-bit number).  Where a reading loop runs for ever, its model takes the number of turns
      to look at ([EioDirect.direct.Run]), and the theorems say for every number what was delivered.  That the client's reconnecting ends, in which the code recurs
      as often as its configuration says, is a theorem with an explicit number of steps
      (C22).

    ** Files

    - [Prelude]: the outcome type, integers of machine width, bytes and big-endian
      encodings, list lemmas, the tactics and hint database [sio].
    - [Debug]: [engine.io/debug.go]: a call of [Log] writes one line with the fields that are there ([Log_line]).
    - [Base64], [GoIO], [Strconv], [NetHttp]: what the code uses of Go's standard library:
      [encoding/base64], [io.Writer] and [io.Reader] (as classes; a reader is a stream
      that arrives in chunks of any size), [io.ReadFull], decimal numbers, URLs and headers; [NetHttp] also has
      [engine.io/transport/header.go].
    - [Utf8]: validity of UTF-8 and the replacement of invalid bytes, as JSON packages document them.
    - [EioPacket], [EioPayload]: [engine.io/parser].  Encoding and decoding of packets and
      of payloads are inverse to each other (C6, C7),
      lengths announced are exact, the index loop of [splitByte] is the structural split.
    - [WebTransport]: framing in [engine.io/transport/webtransport].  Frames below 64 KiB
      are read back exactly ([frame_roundtrip]); longer ones desynchronise the stream.
    - [SioPacket], [JsonHeader], [JsonParser]: [parser/packet.go] and the text format and
      reassembly of [parser/json].  The text of a packet is read back
      (C8); the parser's only panic is the one of an unterminated
      namespace (C39); packets with attachments are reassembled, one
      after the other, without leaking into each other ([feed_packets]).
    - [JsonBinary], [JsonAttachments]: the rest of [parser/json].  Go values are an inductive
      type with what reflection asks of them; [deconstructValue], [reconstructValue] and
      [hasBinary] are the walks of [binary.go], which overwrite the values they walk, and
      [Encode] and [decode] use them.  For a class of types (the definition [sendable]) and of values (valid UTF-8 and
      what else a JSON package carries exactly, [json_exact]) an event travels from [Encode] through the
      reassembly to [decode] unchanged (C4); it can be encoded only once
      ([second_encode_fails]), and the number of a placeholder is not checked
      (C40).
    - [JsonText]: a JSON package, with printer, parser and the conversion from and to Go values, for which the laws of
      [EventJSON] and [AckJSON] hold; the witnesses of the theorems on events use it.
    - [JsonAcks]: the packets of acknowledgements, whose arguments have no name, through the same
      functions, and the place for an acknowledgement function that a handler's parameters can have.
    - [Handlers]: [handlerStore] and [eventHandlerStore] of [store.go], with the in-place
      removal from a slice that is being ranged over.  A one-time handler runs at most
      once per registration ([once_at_most_once]); removing one handler works, removing two
      adjacent ones does not.
    - [Events]: [handler.go], [reserved_events.go] and the [*_events.go] files.  An
      acknowledgement is answered or times out, never both ([ack_exclusive]).  The five
      receivers are instances of one registry class, against which it is proved that [OffX]
      never removes anything ([Off_never_removes]).
    - [MapSet], [Adapter]: the sets of golang-set as an interface, and the in-memory adapter
      ([adapter/adapter_memory.go]).  Its two maps refine a membership relation under
      every sequence of joins and leaves (C12).
    - [Stores]: the socket and namespace stores of [store.go]; [nspSocketStore] discharges
      the adapter's [SocketStore] interface; the two maps of [serverSocketStore] stay a
      bijection.
    - [TestStore]: [adapter/utils.go]: a second instance of that interface, lawful as well, and a socket that
      cannot leave a room it has joined twice ([TestSocket_leave_panics]).
    - [Broadcast]: [adapter/broadcast_operator.go] and the adapter's operations on target
      sockets: a broadcast reaches each target once (C14), [SocketsJoin]
      and [SocketsLeave] change exactly the memberships asked for, and chains of operators
      share room sets without disturbing each other ([chain_options]).
    - [Session]: connection state recovery.  Replayed packets are those the adapter would
      have sent (C32), a session is restored as it was persisted, with the packets
      broadcast since its offset, before and while it was disconnected (C33), and the cleaner's
      inverted test drops fresh packets.
    - [RedisStream]: [adapter/adapter_redis_stream.go], with Redis as a class with laws.  A broadcast
      through the stream is delivered once to the selected sockets of every adapter that reads
      it, of whatever namespace (C38), and one with the flag Local as well
      ([local_broadcast_leaves]); a recovered session is sent the packet at its
      offset again (C34).
    - [Queues]: [packet_queue.go] and [poll_queue.go], the latter with any number of overlapping polls.  Both deliver in
      order, once (C30, C31); the first never sleeps on packets, the second
      can.
    - [Backoff]: reconnection delays are positive, bounded ([duration_bounds]) and exponential.
    - [EioPolling]: the polling transport of the server: a poll empties the transport's queue, and its answer decodes to
      the packets that were queued ([poll_response]); a POST is delivered once or refused.
    - [EioSocket]: the server's side of a session as a state machine, with the goroutines by which a polling transport
      sends its last NOOP or CLOSE: an upgrade loses, duplicates and reorders nothing (C24), the end is
      announced once (C26).
    - [EioServer]: session IDs, the store of sessions, the routing of requests and, for a polling session, what its
      transport then does to the socket: no request disturbs another session, and it ends its own only as
      its packets ask for or its errors cause (C27); WebTransport handshakes are not
      authenticated ([webtransport_skips_authenticator]).
    - [EioClient]: the client's socket: connecting, splitting into payloads, packets, closing.
    - [EioDirect]: what the WebSocket and the WebTransport transport share, on both sides: sending
      packet by packet, the reading loop, [Discard] and [close], and their interleavings, over the class
      [Connection].  Over a connection that behaves as [LawfulConnection] says, such a transport
      implements the abstract transport that the socket's model uses (C13).
    - [EioWebSocket], [EioWebTransport]: the two transports as instances, with their handshakes.  A
      session of client and server over either delivers the packets of both, in order, to the
      other (C9, C10).  A WebSocket transport announces its end once and is silent
      afterwards, but for one packet that was already read (C29); a WebTransport one
      goes on delivering ([webtransport_talks_on]).
    - [EioPollClient]: [polling/client.go]: requests, handshake, polling loop, posts.  What the server
      has queued is the answer to the client's poll, what the client posts reaches the server, unchanged
      (C11).
    - [EioDial]: [engine.io/client.go] and the client's side of an upgrade.  [Dial] returns a connected
      socket or an error ([dial_connects]); the requests of the client's transports are routed to the session
      they belong to (C28); the exchange of an upgrade moves client and server to the
      new transport and loses nothing (C25).
    - [Dispatch]: what [client_socket.go] and [server_socket.go] share: the conversion of
      decoded values to a handler's parameters and the making of packets.
    - [ServerApi]: the broadcasting methods of [server.go], [namespace.go] and [server_socket.go], over
      the namespaces with their adapters.  What a socket broadcasts, through any chain of [To], [In] and
      [Except], reaches once every socket addressed, and not itself (C16).
    - [ClientQueue]: [client_packet_queue.go] as a step relation.  Without a reconnection in the
      wrong moment the retry queue emits in order, with bounded retries, and calls every acknowledgement function at most
      once (C19), though not always in that order ([acks_out_of_order]).
    - [ClientManager]: [client_manager.go] and [client_manager_conn.go].  The reconnecting
      goroutine goes from program point to program point ([step_pc]) under [connectMu], others
      wait for it, or are in [open] after a failed dial ([open_failed]).  Reconnecting terminates (C22), a manager that is
      reconnecting has someone who tries (C23), [Close] stops the
      dialing (C37).
    - [ClientSocket]: [client_socket.go]: connecting, the send and receive buffers, events,
      acknowledgements with timeouts, emitters.  What is emitted before the connection is sent
      in order when it is there (C20), acknowledgements are delivered at most
      once (C21), wherever the registration of a handler and the delivery are interrupted; four
      schedules go wrong ([client_socket_goes_wrong]), and a timeout that comes before the handler is stored leaves
      its ID registered ([timeout_before_store]).
    - [SioServer], [SioServerInv], [SioServerSafety]: [server.go], [namespace.go],
      [server_conn.go], [server_socket.go] and [middleware.go] as one state: connections,
      sockets by their addresses, namespaces with an adapter behind the interface
      [SocketAdapter], and the goroutines of received packets.  [SioServerInv] proves the
      invariant, one lemma per operation; [SioServerSafety] has the theorems: the records of
      sockets agree (C5) when the goroutine of a packet is not interleaved, and come
      apart when it is ([stores_come_apart]); a CONNECT is answered by one packet, truthfully
      (C17); middlewares do not get the event's name (C36).
    - [SioClose]: [onClose] of [server_socket.go] statement by statement, called by any number of goroutines at once
      under [closeOnce]: the body runs once (C18), and what it does with the others
      waiting is the one step [SioServer] takes for it (C35).
    - [SioServerFeed]: [onEIOPacket] of [server_conn.go]: the messages of a session become the tasks of
      the server, one for each packet, in order (C15).
    - [EndToEnd]: the sockets of both sides with the parser between them.  An event that a client
      emits is handled on the server (C2), one that the server emits on the client
      (C3), with the arguments that were emitted, in whatever calls its messages arrive; a request
      with an acknowledgement function is answered, by the first of the handler's answers, and that
      function is called with it (C1).  The sockets are connected, the server's without
      middlewares and without a session to recover; what happens otherwise is the subject of
      [ClientSocket] and [SioServerSafety].

    The theorems that carry a claim number are the main properties; the others, such as
    [EioServer.eioserver.upgrade_refused], [ClientManager.manager.manager_gets_stuck] or
    [JsonAttachments.attachments.binary_gaps], record what the code does at the edges.

    ** What is not modelled

    - Values that share pointers, slices or maps with themselves, in [JsonBinary].
    - Third-party packages: the JSON back ends, the WebSocket, WebTransport and Redis connections
      (classes with laws stand for them), [net/http] beyond requests, responses and headers.
    - The aliases of [internal/sync], the wait group and the Engine.IO test server of [internal/utils], which only tests
      use, and the examples: programs that print and wait, on top of the library. *)

From stdpp Require Export base option list gmap strings sets fin_maps.
From Stdlib Require Export ZArith Lia.
From Stdlib Require Export Strings.Byte.

#[global] Set Default Goal Selector "!".

(** ** Scope and automation of the development *)

Declare Scope sio_scope.
Delimit Scope sio_scope with sio.
Create HintDb sio.

(** ** Go's results: a value, an error, or a panic *)

(** The panics the modelled code can raise; [UserPanic] is an explicit call of
    [panic] in the source, [NilMap] a write to a nil map. [Blocked] is not a panic: the goroutine waits forever, for a
    mutex that is not unlocked any more. *)
Inductive go_panic :=
| SliceBounds
| IndexRange
| NilDeref
| NilMap
| UserPanic (msg : string)
| Blocked.

Inductive outcome (E A : Type) :=
| Ret (a : A)
| Err (e : E)
| Panic (why : go_panic).
Arguments Ret {E A} a.
Arguments Err {E A} e.
Arguments Panic {E A} why.

#[export] Instance outcome_ret {E} : MRet (outcome E) := fun A a => Ret a.

#[export] Instance outcome_bind {E} : MBind (outcome E) := fun A B f m =>
  match m with
  | Ret a => f a
  | Err e => Err e
  | Panic why => Panic why
  end.

#[export] Instance outcome_fmap {E} : FMap (outcome E) := fun A B f m =>
  match m with
  | Ret a => Ret (f a)
  | Err e => Err e
  | Panic why => Panic why
  end.

(** [err <- fail_if c e ;] is the shape [if c { return e }]. *)
Definition fail_if {E} (c : bool) (e : E) : outcome E unit :=
  if c then Err e else Ret tt.

Definition is_ret {E A} (m : outcome E A) : bool :=
  match m with Ret _ => true | _ => false end.

Lemma outcome_bind_Ret {E A B} (m : outcome E A) (f : A -> outcome E B) b :
  (m ≫= f) = Ret b <-> exists a, m = Ret a /\ f a = Ret b.
Proof.
  split.
  - destruct m as [a|e|why]; cbn; [eauto|discriminate|discriminate].
  - intros (a & -> & Hf). exact Hf.
Qed.

Lemma outcome_bind_Panic {E A B} (m : outcome E A) (f : A -> outcome E B) why :
  (m ≫= f) = Panic why <-> m = Panic why \/ exists a, m = Ret a /\ f a = Panic why.
Proof.
  split.
  - destruct m as [a|e|why']; cbn; [eauto|discriminate|]. intros [= ->]. by left.
  - intros [->|(a & -> & Hf)]; [reflexivity|exact Hf].
Qed.

(** A [for] loop that decodes every element and returns at the first error. *)
Lemma mapM_outcome_Ret {E A B} (f : A -> outcome E B) l k :
  mapM f l = Ret k <-> Forall2 (fun a b => f a = Ret b) l k.
Proof.
  revert k. induction l as [|a l IH]; intros k; cbn.
  - split; [intros [= <-]; constructor|inversion 1; reflexivity].
  - split.
    + intros (b & Hb & Hk)%outcome_bind_Ret.
      apply outcome_bind_Ret in Hk as (bs & Hbs & [= <-]).
      constructor; [assumption|]. by apply IH.
    + inversion 1 as [|? b ? bs Hb Hbs]; subst.
      rewrite Hb. cbn. apply IH in Hbs. rewrite Hbs. reflexivity.
Qed.

(** ** Bytes *)

Abbreviation byte := Corelib.Init.Byte.byte.
Abbreviation bytes := (list Corelib.Init.Byte.byte).

#[export] Instance byte_eq_decision : EqDecision byte := Byte.byte_eq_dec.

(** [byte] as a number, and the conversion [byte(z)], which keeps the low eight
    bits. *)
Definition b2z (b : byte) : Z := Z.of_N (Byte.to_N b).

Definition z2b (z : Z) : byte :=
  match Byte.of_N (Z.to_N (z mod 256)) with
  | Some b => b
  | None => x00
  end.

Lemma b2z_range b : (0 <= b2z b < 256)%Z.
Proof.
  unfold b2z. pose proof (Byte.to_N_bounded b). lia.
Qed.

Lemma b2z_z2b z : b2z (z2b z) = (z mod 256)%Z.
Proof.
  unfold b2z, z2b. pose proof (Z.mod_pos_bound z 256 ltac:(lia)) as Hz.
  destruct (Byte.of_N (Z.to_N (z mod 256))) as [b|] eqn:E.
  - apply Byte.to_of_N in E. rewrite E. lia.
  - apply Byte.of_N_None_iff in E. lia.
Qed.

Lemma z2b_b2z b : z2b (b2z b) = b.
Proof.
  unfold z2b, b2z. pose proof (Byte.to_N_bounded b).
  rewrite Z.mod_small by lia. rewrite N2Z.id, Byte.of_to_N. reflexivity.
Qed.

Lemma b2z_inj a b : b2z a = b2z b -> a = b.
Proof. intros H. by rewrite <- (z2b_b2z a), H, z2b_b2z. Qed.

Lemma b2z_z2b_small z : (0 <= z < 256)%Z -> b2z (z2b z) = z.
Proof. intros H. rewrite b2z_z2b. by apply Z.mod_small. Qed.

#[export] Hint Resolve b2z_range : sio.

Lemma byte_eqb_eq a b : Byte.eqb a b = true <-> a = b.
Proof. split; [apply Byte.byte_dec_bl|apply Byte.byte_dec_lb]. Qed.

Lemma byte_eqb_refl a : Byte.eqb a a = true.
Proof. by apply byte_eqb_eq. Qed.

(** Go strings are byte sequences; the model keeps them as [string]. *)
Abbreviation to_bytes := String.list_byte_of_string.
Abbreviation of_bytes := String.string_of_list_byte.

Lemma to_bytes_app s1 s2 : to_bytes (s1 ++ s2)%string = to_bytes s1 ++ to_bytes s2.
Proof.
  unfold String.list_byte_of_string.
  induction s1 as [|c s1 IH]; [reflexivity|].
  change (String c s1 +:+ s2)%string with (String c (s1 +:+ s2)%string).
  cbn [String.list_ascii_of_string map app]. by rewrite IH.
Qed.

Lemma of_to_bytes s : of_bytes (to_bytes s) = s.
Proof. apply String.string_of_list_byte_of_string. Qed.

Lemma to_of_bytes l : to_bytes (of_bytes l) = l.
Proof. apply String.list_byte_of_string_of_list_byte. Qed.

(** ** Machine integers *)

Definition wrap_u (w : Z) (z : Z) : Z := (z mod 2 ^ w)%Z.

Definition wrap_s (w : Z) (z : Z) : Z := ((z + 2 ^ (w - 1)) mod 2 ^ w - 2 ^ (w - 1))%Z.

Definition max_int64 : Z := 2 ^ 63 - 1.

Definition max_uint32 : Z := 2 ^ 32 - 1.

Definition max_uint64 : Z := 2 ^ 64 - 1.

Lemma wrap_s_small w z : (0 < w)%Z -> (- 2 ^ (w - 1) <= z < 2 ^ (w - 1))%Z -> wrap_s w z = z.
Proof.
  intros Hw Hz. unfold wrap_s.
  assert (2 ^ w = 2 * 2 ^ (w - 1))%Z as E.
  { rewrite <- Z.pow_succ_r by lia. f_equal. lia. }
  rewrite Z.mod_small by lia. lia.
Qed.

Lemma wrap_u_small w z : (0 <= z < 2 ^ w)%Z -> wrap_u w z = z.
Proof. apply Z.mod_small. Qed.

(** ** Big-endian integers ([encoding/binary]) *)

Fixpoint be_encode (n : nat) (z : Z) : bytes :=
  match n with
  | O => []
  | S n => be_encode n (z / 256) ++ [z2b z]
  end.

Definition be_decode (l : bytes) : Z := fold_left (fun acc b => acc * 256 + b2z b)%Z l 0%Z.

Lemma be_encode_length n z : length (be_encode n z) = n.
Proof.
  revert z. induction n as [|n IH]; intros z; cbn; [reflexivity|].
  rewrite length_app, IH. cbn. lia.
Qed.

Lemma be_decode_encode n z : be_decode (be_encode n z) = (z mod 256 ^ Z.of_nat n)%Z.
Proof.
  unfold be_decode. revert z. induction n as [|n IH]; intros z; cbn [be_encode].
  - cbn. by rewrite Z.mod_1_r.
  - rewrite fold_left_app, IH. cbn [fold_left]. rewrite b2z_z2b.
    rewrite Nat2Z.inj_succ, Z.pow_succ_r by lia.
    rewrite Z.rem_mul_r by lia. lia.
Qed.

(** ** Lists *)

(** [for i := ...; if l[i] == c { break }]: the index loops that look for a
    delimiter are [span]s. *)
Fixpoint span {A} (p : A -> bool) (l : list A) : list A * list A :=
  match l with
  | [] => ([], [])
  | a :: l' => if p a then let '(x, y) := span p l' in (a :: x, y) else ([], l)
  end.

Lemma span_app {A} (p : A -> bool) l1 l2 :
  forallb p l1 = true ->
  (match l2 with [] => true | a :: _ => negb (p a) end) = true ->
  span p (l1 ++ l2) = (l1, l2).
Proof.
  intros H1 H2. induction l1 as [|a l1 IH]; cbn in *.
  - destruct l2 as [|a l2]; cbn; [reflexivity|].
    destruct (p a); [discriminate|reflexivity].
  - apply andb_prop in H1 as [Ha H1]. rewrite Ha, IH by assumption. reflexivity.
Qed.

Lemma span_concat {A} (p : A -> bool) l x y : span p l = (x, y) -> l = x ++ y.
Proof.
  revert x y. induction l as [|a l IH]; intros x y; cbn.
  - intros [= <- <-]. reflexivity.
  - destruct (p a).
    + destruct (span p l) as [u v] eqn:E. intros [= <- <-]. cbn. f_equal. by apply IH.
    + intros [= <- <-]. reflexivity.
Qed.

(** [append(l[:i], l[i+1:]...)] with the bounds check of the slice expression. *)
Definition slice_remove {A} (l : list A) (i : nat) : option (list A) :=
  if i <? length l then Some (take i l ++ drop (S i) l) else None.

Lemma list_lookup_alter_Some {A} (f : A -> A) (l : list A) i j y :
  alter f i l !! j = Some y <-> (j = i /\ exists x, l !! j = Some x /\ y = f x) \/ (j <> i /\ l !! j = Some y).
Proof.
  destruct (decide (j = i)) as [->|Hne].
  - rewrite list_lookup_alter_eq, fmap_Some. naive_solver.
  - rewrite list_lookup_alter_ne by done. naive_solver.
Qed.

(** Rewriting [if b then _ else _] and [match]es in goals and hypotheses. *)
Ltac go_case :=
  repeat match goal with
  | H : context [if ?b then _ else _] |- _ =>
      let E := fresh "E" in destruct b eqn:E; try discriminate
  | |- context [if ?b then _ else _] =>
      let E := fresh "E" in destruct b eqn:E; try discriminate
  end.

Ltac go_inv :=
  repeat match goal with
  | H : Ret _ = Ret _ |- _ => injection H as H; subst
  | H : Err _ = Err _ |- _ => injection H as H; subst
  | H : Ret _ = Err _ |- _ => discriminate H
  | H : Err _ = Ret _ |- _ => discriminate H
  | H : Panic _ = Ret _ |- _ => discriminate H
  | H : Ret _ = Panic _ |- _ => discriminate H
  | H : (_ ≫= _) = Ret _ |- _ => apply outcome_bind_Ret in H as (? & ? & ?)
  | H : Some _ = Some _ |- _ => injection H as H; subst
  | H : (_, _) = (_, _) |- _ => injection H as ? ?; subst
  end.
