(* ===== verification/Debug.v ===== *)
(** * The debugger ([engine.io/debug.go])

    [Log] writes its fields one by one, each followed by a colon when something comes
    after it. The model keeps the writes; the theorem compares them with a definition
    that joins the fields that are there. *)

From S2P Require Import Prelude.

Module debug.
Section debugger.
(** [show] is [fmt.Fprint] of one operand; [W] is what a dynamic context reads. *)
Context {V W : Type} (show : V -> bytes).

(** The writer, which all debuggers made from one another share, is an argument of [Log]. *)
Record printDebugger := mkPrintDebugger {
  context : bytes;
  dynamicContext : option (W -> bytes);
}.

(** [*printDebugger], or [noopDebugger]. *)
Inductive Debugger :=
  | noop
  | print (d : printDebugger).

Definition NewNoopDebugger : Debugger := noop.

Definition NewPrintDebugger : Debugger := print (mkPrintDebugger [] None).

Definition Fprint (b : bytes) (out : bytes) : bytes := out ++ b.

Definition colon : bytes := to_bytes ": ".

Definition present {A} (l : list A) : bool := negb (length l =? 0)%nat.

Fixpoint Log_values (i : nat) (v : list V) (out : bytes) : bytes :=
  match v with
  | [] => out
  | x :: v =>
      let out := if negb (i =? 0)%nat then Fprint colon out else out in
      Log_values (S i) v (Fprint (show x) out)
  end.

Definition dynamic_now (w : W) (d : printDebugger) : bytes :=
  match dynamicContext d with Some f => f w | None => [] end.

Definition print_Log (w : W) (main : bytes) (v : list V) (d : printDebugger) (out : bytes) : bytes :=
  let dynamic := dynamic_now w d in
  let out :=
    if present (context d) then
      let out := Fprint (context d) out in
      if present dynamic || present main || present v then Fprint colon out else out
    else out in
  let out :=
    if present dynamic then
      let out := Fprint dynamic out in
      if present main || present v then Fprint colon out else out
    else out in
  let out :=
    if present main then
      let out := Fprint main out in
      if present v then Fprint colon out else out
    else out in
  let out := Log_values 0 v out in
  Fprint [x0a] out.

Definition Log (w : W) (main : bytes) (v : list V) (d : Debugger) (out : bytes) : bytes :=
  match d with noop => out | print d => print_Log w main v d out end.

Definition WithContext (ctx : bytes) (d : Debugger) : Debugger :=
  match d with noop => noop | print d => print (mkPrintDebugger ctx (dynamicContext d)) end.

Definition WithDynamicContext (ctx : bytes) (dynamic : option (W -> bytes)) (d : Debugger) : Debugger :=
  match d with noop => noop | print d => print (mkPrintDebugger ctx dynamic) end.

(** The reference: the fields with a colon between them. *)
Fixpoint joined (fields : list bytes) : bytes :=
  match fields with
  | [] => []
  | [f] => f
  | f :: fields => f ++ colon ++ joined fields
  end.

Definition line (ctx dynamic main : bytes) (v : list V) : bytes :=
  joined (filter (fun f => f <> []) [ctx; dynamic; main] ++ (show <$> v)) ++ [x0a].

Lemma joined_cons f fields :
  joined (f :: fields) = f ++ (if present fields then colon else []) ++ joined fields.
Proof. destruct fields; cbn; [by rewrite app_nil_r|done]. Qed.

Lemma Log_values_joined i v out :
  Log_values i v out = out ++ (if negb (i =? 0)%nat && present v then colon else []) ++ joined (show <$> v).
Proof.
  revert i out. induction v as [|x v IH]; intros i out; cbn [Log_values].
  - rewrite andb_false_r. cbn. by rewrite app_nil_r.
  - rewrite IH. cbn [fmap list_fmap]. rewrite joined_cons.
    assert (present (show <$> v) = present v) as -> by (unfold present; by rewrite length_fmap).
    destruct i; unfold Fprint; cbn [Nat.eqb negb andb present length]; by rewrite <- !app_assoc.
Qed.

Lemma present_true {A} (l : list A) : l <> [] -> present l = true.
Proof. by destruct l. Qed.

Lemma fields_empty (l : list bytes) : filter (fun f => f <> []) ([] :: l) = filter (fun f => f <> []) l.
Proof. by rewrite filter_cons_False by (intros H; by apply H). Qed.

Lemma fields_cons c f (l : list bytes) :
  filter (fun f => f <> []) ((c :: f) :: l) = (c :: f) :: filter (fun f => f <> []) l.
Proof. by rewrite filter_cons_True by done. Qed.

(** What [Log] writes is one line: the fields that are not empty and the values, in this order,
    with a colon between two of them and none before the first or after the last. *)
Theorem Log_line w main v d out :
  Log w main v (print d) out = out ++ line (context d) (dynamic_now w d) main v.
Proof.
  unfold Log, print_Log, line. rewrite Log_values_joined. cbn [Nat.eqb negb andb].
  assert (present (show <$> v) = present v) as Hv by (unfold present; by rewrite length_fmap).
  unfold Fprint. destruct (context d) as [|c ctx], (dynamic_now w d) as [|y dyn], main as [|z main];
    repeat (rewrite fields_empty || rewrite fields_cons); rewrite ?filter_nil; cbn [present length Nat.eqb negb orb app];
    rewrite ?joined_cons, ?Hv; cbn [present length Nat.eqb negb];
    destruct (present v); by rewrite ?Hv, <- ?app_assoc, ?app_nil_l.
Qed.

(** The contexts a debugger is given replace those it had; of a no-op debugger nothing is written. *)
Theorem Log_with_context c f w main v d out :
  Log w main v (WithDynamicContext c (Some f) d) out =
  match d with noop => out | print _ => out ++ line c (f w) main v end.
Proof. destruct d; [done|]. cbn [WithDynamicContext]. by rewrite Log_line. Qed.
End debugger.
End debug.
