(* ===== verification/Base64.v ===== *)
(** * [encoding/base64], standard alphabet

    The part of Go's standard library that the Engine.IO packet codec uses:
    [StdEncoding.EncodedLen], [StdEncoding.Encode] as the stream encoder of
    [base64.NewEncoder] calls it (a sequence of [Write]s and the one of
    [Close]), and [StdEncoding.Decode].  The offset that Go's
    [CorruptInputError] carries is left out. *)

From S2P Require Import Prelude.

#[local] Open Scope Z_scope.

(** ** The alphabet *)

Definition encodeStd : bytes :=
  to_bytes "ABCDEFGHIJKLMNOPQRSTUVWXYZabcdefghijklmnopqrstuvwxyz0123456789+/".

Definition padChar : byte := "="%byte.

Definition enc_char (v : Z) : byte := nth (Z.to_nat v) encodeStd x00.

Fixpoint index_of (c : byte) (l : bytes) (i : Z) : option Z :=
  match l with
  | [] => None
  | x :: l' => if Byte.eqb x c then Some i else index_of c l' (i + 1)
  end.

(** [decodeMap]: the value of a character, [None] where the table holds 0xff. *)
Definition dec_char (c : byte) : option Z := index_of c encodeStd 0.

Definition is_newline (c : byte) : bool := Byte.eqb c x0a || Byte.eqb c x0d.

(** ** Encoding *)

Definition sextet (v k : Z) : Z := Z.land (Z.shiftr v k) 63.

Definition join3 (a b c : Z) : Z := Z.lor (Z.shiftl a 16) (Z.lor (Z.shiftl b 8) c).

Fixpoint b64_encode (l : bytes) : bytes :=
  match l with
  | a :: b :: c :: l' =>
      let v := join3 (b2z a) (b2z b) (b2z c) in
      enc_char (sextet v 18) :: enc_char (sextet v 12)
        :: enc_char (sextet v 6) :: enc_char (sextet v 0) :: b64_encode l'
  | [a; b] =>
      let v := join3 (b2z a) (b2z b) 0 in
      [enc_char (sextet v 18); enc_char (sextet v 12); enc_char (sextet v 6); padChar]
  | [a] =>
      let v := join3 (b2z a) 0 0 in
      [enc_char (sextet v 18); enc_char (sextet v 12); padChar; padChar]
  | [] => []
  end.

(** [EncodedLen(n) = (n + 2) / 3 * 4]. *)
Definition EncodedLen (n : Z) : Z := (n + 2) / 3 * 4.

(** The stream encoder: [Write] hands the writer blocks of at most 768 input
    bytes (its buffer of 1024 output bytes), in multiples of three, and keeps
    the last one or two bytes; [Close] writes those.  [encoder_write] gives the
    list of blocks written and the bytes kept. *)
Fixpoint encoder_write (fuel : nat) (l : bytes) : list bytes * bytes :=
  match fuel with
  | O => ([], l)
  | S fuel =>
      if (length l <? 3)%nat then ([], l)
      else
        let nn := Nat.min 768 (length l - length l mod 3) in
        let '(ws, rest) := encoder_write fuel (drop nn l) in
        (b64_encode (take nn l) :: ws, rest)
  end.

(** ** Decoding *)

Fixpoint skip_newlines (l : bytes) : bytes :=
  match l with
  | c :: l' => if is_newline c then skip_newlines l' else l
  | [] => []
  end.

Definition join4 (x y z w : Z) : Z :=
  Z.lor (Z.shiftl x 18) (Z.lor (Z.shiftl y 12) (Z.lor (Z.shiftl z 6) w)).

Definition quantum (v : Z) : bytes := [z2b (Z.shiftr v 16); z2b (Z.shiftr v 8); z2b v].

(** [decodeQuantum] iterated: [q] holds the sextets of the quantum being read;
    [None] is a [CorruptInputError]. *)
Fixpoint b64_decode_from (q : list Z) (src : bytes) : option bytes :=
  match src with
  | [] => match q with [] => Some [] | _ => None end
  | c :: src' =>
      match dec_char c with
      | Some v =>
          match q with
          | [x; y; z] => out ← b64_decode_from [] src'; Some (quantum (join4 x y z v) ++ out)
          | _ => b64_decode_from (q ++ [v]) src'
          end
      | None =>
          if is_newline c then b64_decode_from q src'
          else if negb (Byte.eqb c padChar) then None
          else
            match q with
            | [x; y] =>
                match skip_newlines src' with
                | d :: rest =>
                    if Byte.eqb d padChar then
                      match skip_newlines rest with
                      | [] => Some (take 1 (quantum (join4 x y 0 0)))
                      | _ => None
                      end
                    else None
                | [] => None
                end
            | [x; y; z] =>
                match skip_newlines src' with
                | [] => Some (take 2 (quantum (join4 x y z 0)))
                | _ => None
                end
            | _ => None
            end
      end
  end.

Definition b64_decode (src : bytes) : option bytes := b64_decode_from [] src.

#[global] Arguments dec_char : simpl never.
#[global] Arguments enc_char : simpl never.
#[global] Arguments sextet : simpl never.
#[global] Arguments join3 : simpl never.
#[global] Arguments join4 : simpl never.
#[global] Arguments quantum : simpl never.

(** ** Bit manipulation as arithmetic *)

Lemma lor_shiftl_add x y n : 0 <= n -> 0 <= y < 2 ^ n -> Z.lor (Z.shiftl x n) y = x * 2 ^ n + y.
Proof.
  intros Hn Hy.
  assert (Z.land (Z.shiftl x n) y = 0) as E.
  { apply Z.bits_inj'. intros m Hm. rewrite Z.land_spec, Z.bits_0.
    destruct (Z.ltb_spec m n).
    - rewrite Z.shiftl_spec_low by lia. reflexivity.
    - rewrite <- (Z.mod_small y (2 ^ n)) by lia.
      rewrite Z.mod_pow2_bits_high by lia. apply andb_false_r. }
  rewrite <- Z.lxor_lor, <- Z.add_nocarry_lxor by assumption.
  rewrite Z.shiftl_mul_pow2 by lia. reflexivity.
Qed.

Lemma sextet_arith v k : 0 <= k -> sextet v k = (v / 2 ^ k) mod 64.
Proof.
  intros Hk. unfold sextet. rewrite Z.shiftr_div_pow2 by lia.
  change 63 with (Z.ones 6). by rewrite Z.land_ones.
Qed.

Lemma join3_arith a b c :
  0 <= b < 256 -> 0 <= c < 256 -> join3 a b c = a * 65536 + b * 256 + c.
Proof.
  intros Hb Hc. unfold join3.
  rewrite (lor_shiftl_add b c 8) by lia. rewrite lor_shiftl_add by lia. lia.
Qed.

Lemma join4_arith x y z w :
  0 <= y < 64 -> 0 <= z < 64 -> 0 <= w < 64 ->
  join4 x y z w = x * 262144 + y * 4096 + z * 64 + w.
Proof.
  intros Hy Hz Hw. unfold join4.
  rewrite (lor_shiftl_add z w 6) by lia. rewrite (lor_shiftl_add y _ 12) by lia.
  rewrite lor_shiftl_add by lia. lia.
Qed.

Lemma sextet_range v k : 0 <= k -> 0 <= sextet v k < 64.
Proof. intros Hk. rewrite sextet_arith by lia. apply Z.mod_pos_bound. lia. Qed.

(** Regrouping: three bytes cut into four sextets and joined again. *)
Lemma regroup a b c :
  0 <= a < 256 -> 0 <= b < 256 -> 0 <= c < 256 ->
  let v := join3 a b c in
  join4 (sextet v 18) (sextet v 12) (sextet v 6) (sextet v 0) = v.
Proof.
  intros Ha Hb Hc v. rewrite join4_arith by (apply sextet_range; lia).
  rewrite !sextet_arith by lia. subst v. rewrite join3_arith by lia.
  change (2 ^ 18) with 262144. change (2 ^ 12) with 4096. change (2 ^ 6) with 64.
  change (2 ^ 0) with 1.
  Z.div_mod_to_equations. lia.
Qed.

Lemma quantum_join3 a b c :
  quantum (join3 (b2z a) (b2z b) (b2z c)) = [a; b; c].
Proof.
  pose proof (b2z_range a). pose proof (b2z_range b). pose proof (b2z_range c).
  unfold quantum. rewrite !Z.shiftr_div_pow2 by lia. rewrite join3_arith by lia.
  change (2 ^ 16) with 65536. change (2 ^ 8) with 256.
  repeat f_equal; apply b2z_inj; rewrite b2z_z2b; Z.div_mod_to_equations; lia.
Qed.

(** ** The alphabet is injective *)

Lemma dec_enc_char v : 0 <= v < 64 -> dec_char (enc_char v) = Some v.
Proof.
  intros Hv.
  assert (forallb (fun i => bool_decide (dec_char (enc_char (Z.of_nat i)) = Some (Z.of_nat i)))
            (seq 0 64) = true) as H by (vm_compute; reflexivity).
  rewrite forallb_forall in H. specialize (H (Z.to_nat v)).
  rewrite Z2Nat.id in H by lia. rewrite bool_decide_eq_true in H. apply H.
  apply in_seq. lia.
Qed.

Lemma dec_pad : dec_char padChar = None.
Proof. reflexivity. Qed.

(** No character of an encoding is the delimiter of payloads (30). *)
Lemma enc_char_not_rs v : Byte.eqb (enc_char v) x1e = false.
Proof.
  unfold enc_char. destruct (Nat.lt_ge_cases (Z.to_nat v) 64) as [H|H].
  - assert (forallb (fun i => negb (Byte.eqb (nth i encodeStd x00) x1e)) (seq 0 64) = true) as F
      by (vm_compute; reflexivity).
    rewrite forallb_forall in F. specialize (F (Z.to_nat v)).
    apply negb_true_iff, F, in_seq. lia.
  - rewrite nth_overflow by exact H. reflexivity.
Qed.

(** ** Round trip *)

Lemma list_ind3 {A} (P : list A -> Prop) :
  P [] -> (forall a, P [a]) -> (forall a b, P [a; b]) ->
  (forall a b c l, P l -> P (a :: b :: c :: l)) -> forall l, P l.
Proof.
  intros H0 H1 H2 H3 l.
  induction l as [l IH] using (induction_ltof1 _ (@length A)).
  destruct l as [|a [|b [|c l]]]; auto.
  apply H3, IH. unfold ltof. cbn. lia.
Qed.

#[local] Ltac dec_step :=
  repeat (rewrite dec_enc_char by (apply sextet_range; lia); cbn); rewrite ?dec_pad; cbn.

Lemma b64_decode_encode l : b64_decode (b64_encode l) = Some l.
Proof.
  unfold b64_decode. induction l as [|a|a b|a b c l IH] using list_ind3.
  - reflexivity.
  - cbn. dec_step.
    pose proof (regroup (b2z a) 0 0 (b2z_range a) ltac:(lia) ltac:(lia)) as R.
    pose proof (b2z_range a).
    assert (sextet (join3 (b2z a) 0 0) 6 = 0 /\ sextet (join3 (b2z a) 0 0) 0 = 0) as [E1 E2].
    { rewrite !sextet_arith, !join3_arith by lia. change (2 ^ 6) with 64. change (2 ^ 0) with 1.
      split; Z.div_mod_to_equations; lia. }
    cbn zeta in R. rewrite E1, E2 in R. rewrite R. change 0 with (b2z x00).
    by rewrite quantum_join3.
  - cbn. dec_step.
    pose proof (b2z_range a). pose proof (b2z_range b).
    pose proof (regroup (b2z a) (b2z b) 0 ltac:(lia) ltac:(lia) ltac:(lia)) as R.
    assert (sextet (join3 (b2z a) (b2z b) 0) 0 = 0) as E2.
    { rewrite !sextet_arith, !join3_arith by lia. change (2 ^ 0) with 1.
      Z.div_mod_to_equations; lia. }
    cbn zeta in R. rewrite E2 in R. rewrite R. change 0 with (b2z x00).
    by rewrite quantum_join3.
  - cbn. dec_step. rewrite IH. cbn.
    pose proof (regroup (b2z a) (b2z b) (b2z c) (b2z_range a) (b2z_range b) (b2z_range c)) as R.
    cbn zeta in R. rewrite R, quantum_join3. reflexivity.
Qed.

Lemma b64_encode_length l : Z.of_nat (length (b64_encode l)) = EncodedLen (Z.of_nat (length l)).
Proof.
  unfold EncodedLen. induction l as [|a|a b|a b c l IH] using list_ind3; try reflexivity.
  cbn [b64_encode length]. Z.div_mod_to_equations. lia.
Qed.

Lemma b64_encode_no_rs l : forallb (fun c => negb (Byte.eqb c x1e)) (b64_encode l) = true.
Proof.
  induction l as [|a|a b|a b c l IH] using list_ind3; cbn [b64_encode forallb];
    rewrite ?enc_char_not_rs, ?IH; reflexivity.
Qed.

(** ** The stream encoder writes the encoding *)

Lemma b64_encode_app l1 l2 :
  (length l1 mod 3 = 0)%nat -> b64_encode (l1 ++ l2) = b64_encode l1 ++ b64_encode l2.
Proof.
  induction l1 as [|a|a b|a b c l IH] using list_ind3; intros H;
    [reflexivity|discriminate|discriminate|].
  cbn [b64_encode app]. rewrite IH; [reflexivity|].
  cbn [length] in H. replace (S (S (S (length l)))) with (length l + 1 * 3)%nat in H by lia.
  by rewrite Nat.Div0.mod_add in H.
Qed.

Lemma encoder_write_concat fuel l ws rest :
  encoder_write fuel l = (ws, rest) -> concat ws ++ b64_encode rest = b64_encode l.
Proof.
  revert l ws rest. induction fuel as [|fuel IH]; intros l ws rest; cbn [encoder_write].
  - intros [= <- <-]. reflexivity.
  - destruct (Nat.ltb_spec (length l) 3).
    { intros [= <- <-]. reflexivity. }
    set (nn := Nat.min 768 (length l - length l mod 3)).
    destruct (encoder_write fuel (drop nn l)) as [ws' rest'] eqn:E. intros [= <- <-].
    apply IH in E. cbn [concat]. rewrite <- (app_assoc (b64_encode (take nn l))), E.
    rewrite <- b64_encode_app.
    + by rewrite take_drop.
    + rewrite length_take. pose proof (Nat.Div0.mod_le (length l) 3).
      rewrite Nat.min_l by lia. subst nn.
      destruct (Nat.min_spec 768 (length l - length l mod 3)) as [[? ->]|[? ->]]; [reflexivity|].
      rewrite (Nat.div_mod_eq (length l) 3) at 1.
      rewrite Nat.add_sub, Nat.mul_comm. apply Nat.Div0.mod_mul.
Qed.

Lemma encoder_write_rest fuel l ws rest :
  (length l <= fuel)%nat -> encoder_write fuel l = (ws, rest) -> (length rest < 3)%nat.
Proof.
  revert l ws rest. induction fuel as [|fuel IH]; intros l ws rest Hf; cbn [encoder_write].
  - intros [= <- <-]. lia.
  - destruct (Nat.ltb_spec (length l) 3).
    { intros [= <- <-]. lia. }
    set (nn := Nat.min 768 (length l - length l mod 3)).
    destruct (encoder_write fuel (drop nn l)) as [ws' rest'] eqn:E. intros [= <- <-].
    apply IH in E; [assumption|]. rewrite length_drop.
    assert (1 <= nn)%nat; [|lia].
    pose proof (Nat.mod_upper_bound (length l) 3 ltac:(lia)). subst nn. lia.
Qed.
