(* ===== verification/GoIO.v ===== *)
(** * [io.Writer], [io.ByteWriter] and [io.Reader]

    The interfaces of Go's [io] package through which the codecs write and read,
    as classes with the laws the package documents, and the two instances the
    development needs: a [bytes.Buffer], and a stream that arrives in chunks.
    [ReadFull] is the loop of [io.ReadAtLeast]. *)

From S2P Require Import Prelude.

(** ** Writers *)

(** [w_writeByte] is present when the writer also implements [io.ByteWriter]
    (the type assertion [w.(io.ByteWriter)] succeeds). *)
Class IoWriter (W E : Type) := {
  w_write : bytes -> W -> W * option E;
  w_writeByte : option (byte -> W -> W * option E);
}.

(** What the documentation of [io.Writer] and [io.ByteWriter] promises: a write
    that reports no error has appended all of its argument, and [WriteByte] is a
    [Write] of one byte. *)
Class LawfulWriter (W E : Type) `{IoWriter W E} := {
  w_contents : W -> bytes;
  w_write_ok p w w' : w_write p w = (w', None) -> w_contents w' = w_contents w ++ p;
  w_writeByte_ok f b w : w_writeByte = Some f -> f b w = w_write [b] w;
}.

(** A writer that never reports an error, such as [bytes.Buffer]. *)
Class InfallibleWriter (W E : Type) `{IoWriter W E} :=
  w_infallible : forall p w, (w_write p w).2 = None.

Section writes.
Context {W E : Type} `{IoWriter W E}.

(** Writes in sequence, stopping at the first error. *)
Fixpoint write_all (ps : list bytes) (w : W) : W * option E :=
  match ps with
  | [] => (w, None)
  | p :: ps =>
      let '(w', e) := w_write p w in
      match e with
      | Some _ => (w', e)
      | None => write_all ps w'
      end
  end.

Context {LW : LawfulWriter W E}.

Lemma write_all_ok ps w w' :
  write_all ps w = (w', None) -> w_contents w' = w_contents w ++ concat ps.
Proof.
  revert w. induction ps as [|p ps IH]; intros w; cbn.
  - intros [= <-]. by rewrite app_nil_r.
  - destruct (w_write p w) as [w1 [e|]] eqn:E1; [discriminate|].
    intros H2. apply IH in H2. apply w_write_ok in E1. by rewrite H2, E1, app_assoc.
Qed.

Lemma write_all_infallible ps w : InfallibleWriter W E -> (write_all ps w).2 = None.
Proof.
  intros HI. revert w. induction ps as [|p ps IH]; intros w; cbn; [reflexivity|].
  specialize (HI p w). destruct (w_write p w) as [w1 [e|]]; [discriminate|]. apply IH.
Qed.
End writes.

(** [bytes.Buffer] *)
#[export] Instance buffer_writer {E} : IoWriter bytes E := {
  w_write p w := (w ++ p, None);
  w_writeByte := Some (fun b w => (w ++ [b], None));
}.

#[export] Program Instance buffer_lawful {E} : LawfulWriter bytes E := {
  w_contents w := w;
}.
Next Obligation. intros E p w w' [= <-]. reflexivity. Qed.
Next Obligation. intros E f b w [= <-]. reflexivity. Qed.

#[export] Instance buffer_infallible {E} : InfallibleWriter bytes E := fun p w => eq_refl.

(** A writer that accepts a given number of writes and then fails: the shape of
    a connection that is lost. *)
#[export] Instance failing_writer : IoWriter (nat * bytes) unit := {
  w_write p w :=
    match w.1 with
    | O => (w, Some tt)
    | S n => ((n, w.2 ++ p), None)
    end;
  w_writeByte := None;
}.

(** ** Readers *)

Inductive io_error := EOF | ErrUnexpectedEOF | ErrLimitReached | ErrRead.

#[export] Instance io_error_eq_decision : EqDecision io_error.
Proof. solve_decision. Defined.

(** A stream: the chunks the network delivers, in order, then end of file. *)
Abbreviation stream := (list bytes).

(** [Read(p)] with [len(p) = n]: at most one chunk, the rest of it stays. *)
Definition stream_read (n : nat) (s : stream) : stream * bytes * option io_error :=
  match s with
  | [] => ([], [], Some EOF)
  | c :: s' =>
      if n <? length c then (drop n c :: s', take n c, None) else (s', c, None)
  end.

Abbreviation read_fn := (nat -> stream -> stream * bytes * option io_error).

(** [io.ReadFull(r, buf)] is [io.ReadAtLeast(r, buf, len(buf))]:
    [for n < min && err == nil { nn, err = r.Read(buf[n:]); n += nn }], and then
    the error is dropped when [n >= min] and becomes [ErrUnexpectedEOF] when it
    is [EOF] after some bytes. [acc] is what was read so far, [want] what is
    left of the buffer. *)
Fixpoint ReadAtLeast (rd : read_fn) (fuel : nat) (acc : bytes) (want : nat) (s : stream)
    : stream * bytes * option io_error :=
  match want with
  | O => (s, acc, None)
  | S _ =>
      match fuel with
      | O => (s, acc, Some ErrRead)
      | S fuel =>
          let '(s', p, err) := rd want s in
          let acc' := acc ++ p in
          match err with
          | None => ReadAtLeast rd fuel acc' (want - length p) s'
          | Some e =>
              if want <=? length p then (s', acc', None)
              else if bool_decide (e = EOF) && negb (length acc' =? 0)
              then (s', acc', Some ErrUnexpectedEOF)
              else (s', acc', Some e)
          end
      end
  end.

(** Each [Read] of a stream either fills the buffer or uses up a chunk, so the
    number of chunks plus one is enough fuel ([ReadFull_stream] below). *)
Definition ReadFull (rd : read_fn) (n : nat) (s : stream) : stream * bytes * option io_error :=
  ReadAtLeast rd (S (length s)) [] n s.

(** [io.ReadAll] of a stream that ends with end of file. *)
Definition ReadAll (s : stream) : bytes := concat s.

(** Reading [n] bytes of a stream that holds them succeeds and leaves the rest,
    however the stream is cut into chunks. *)
Lemma ReadAtLeast_stream fuel acc n s :
  (length s < fuel)%nat -> n <= length (concat s) ->
  exists s', ReadAtLeast stream_read fuel acc n s = (s', acc ++ take n (concat s), None) /\
    concat s' = drop n (concat s).
Proof.
  revert acc n s. induction fuel as [|fuel IH]; intros acc n s Hf Hn; [lia|].
  destruct n as [|n].
  { exists s. cbn. rewrite app_nil_r. split; reflexivity. }
  destruct s as [|c s]; cbn [concat] in *; [cbn in Hn; lia|].
  cbn [ReadAtLeast stream_read]. rewrite length_app in Hn. cbn [length] in Hf.
  destruct (Nat.ltb_spec (S n) (length c)) as [Hc|Hc].
  - rewrite length_take, Nat.min_l by lia. rewrite Nat.sub_diag.
    exists (drop (S n) c :: s). split.
    + rewrite take_app_le by lia. destruct fuel; reflexivity.
    + cbn [concat]. by rewrite drop_app_le by lia.
  - destruct (IH (acc ++ c) (S n - length c) s) as (s' & E & Hs'); [lia|lia|].
    rewrite E. exists s'. rewrite take_app_ge, drop_app_ge by lia. rewrite <- app_assoc.
    split; [reflexivity|exact Hs'].
Qed.

Lemma ReadFull_stream n s :
  n <= length (concat s) ->
  exists s', ReadFull stream_read n s = (s', take n (concat s), None) /\
    concat s' = drop n (concat s).
Proof. intros Hn. apply (ReadAtLeast_stream (S (length s)) [] n s); [lia|exact Hn]. Qed.
