(* ===== verification/NetHttp.v ===== *)
(** * URLs and headers ([net/url], [net/http], [engine.io/transport/header.go])

    What the transports use of Go's [net/url] and [net/http]: the query of a URL as a map of
    values, header keys in their canonical form, and the header that the transports of a client
    share, [RequestHeader]. The mutex of [RequestHeader] makes each method one step. *)

From S2P Require Import Prelude.

(** ** [url.Values] and [url.URL] *)

Abbreviation Values := (gmap string (list string)).

Definition Values_Set (key value : string) (q : Values) : Values := <[key := [value]]> q.

Definition Values_Get (key : string) (q : Values) : string :=
  match q !! key with
  | Some (v :: _) => v
  | _ => ""
  end.

(** [RawQuery] is kept as the values it stands for: [Query()] parses it, [Encode()] prints
    values in the order of their keys. *)
Record URL := mkURL {
  Scheme : string;
  Host : string;
  Path : string;
  RawQuery : Values;
}.

Definition with_query (q : Values) (u : URL) : URL := mkURL (Scheme u) (Host u) (Path u) q.

Definition with_scheme (s : string) (u : URL) : URL := mkURL s (Host u) (Path u) (RawQuery u).

Lemma Values_Get_Set k k' v q :
  Values_Get k (Values_Set k' v q) = if String.eqb k k' then v else Values_Get k q.
Proof.
  unfold Values_Get, Values_Set. destruct (String.eqb_spec k k') as [->|Hne].
  - by rewrite lookup_insert_eq.
  - by rewrite lookup_insert_ne.
Qed.

(** ** Header keys ([textproto.CanonicalMIMEHeaderKey]) *)

(** The bytes of a token of RFC 7230. *)
Definition validHeaderFieldByte (c : byte) : bool :=
  let z := b2z c in
  ((48 <=? z) && (z <=? 57) || (65 <=? z) && (z <=? 90) || (97 <=? z) && (z <=? 122))%Z ||
  existsb (Byte.eqb c) (to_bytes "!#$%&'*+-.^_`|~").

Definition upper (c : byte) : byte := if ((97 <=? b2z c) && (b2z c <=? 122))%Z then z2b (b2z c - 32) else c.
Definition lower (c : byte) : byte := if ((65 <=? b2z c) && (b2z c <=? 90))%Z then z2b (b2z c + 32) else c.

(** [up] is set for the first byte and after each hyphen. *)
Fixpoint canonical_loop (up : bool) (s : bytes) : bytes :=
  match s with
  | [] => []
  | c :: s' => (if up then upper c else lower c) :: canonical_loop (Byte.eqb c "-"%byte) s'
  end.

Definition CanonicalHeaderKey (s : string) : string :=
  let b := to_bytes s in
  if forallb validHeaderFieldByte b then of_bytes (canonical_loop true b) else s.

(** ** [http.Header]: a map, or nil *)

Abbreviation Header := (option (gmap string (list string))).

(** [Clone] copies the map and its slices, and gives nil for nil. *)
Definition Header_Clone (h : Header) : Header := h.

Definition Header_Set (key value : string) (h : Header) : outcome unit Header :=
  match h with
  | None => Panic NilMap
  | Some m => Ret (Some (<[CanonicalHeaderKey key := [value]]> m))
  end.

Definition Header_Get (key : string) (h : Header) : string :=
  match h with
  | None => ""
  | Some m => Values_Get (CanonicalHeaderKey key) m
  end.

Definition Header_Del (key : string) (h : Header) : Header := delete (CanonicalHeaderKey key) <$> h.

(** ** [RequestHeader] *)

Module requestheader.

Record RequestHeader := mkRequestHeader { header : Header }.

Definition NewRequestHeader (h : Header) : RequestHeader := mkRequestHeader (Header_Clone h).

Definition get_Header (r : RequestHeader) : Header := Header_Clone (header r).

Definition Set_ (key value : string) (r : RequestHeader) : outcome unit RequestHeader :=
  mkRequestHeader <$> Header_Set key value (header r).

Definition Get (key : string) (r : RequestHeader) : string := Header_Get key (header r).

Definition Del (key : string) (r : RequestHeader) : RequestHeader := mkRequestHeader (Header_Del key (header r)).

(** *** Lemmas *)

Lemma upper_idem c : upper (upper c) = upper c.
Proof. destruct c; vm_compute; reflexivity. Qed.

Lemma lower_idem c : lower (lower c) = lower c.
Proof. destruct c; vm_compute; reflexivity. Qed.

Lemma hyphen_case c : Byte.eqb (upper c) "-"%byte = Byte.eqb c "-"%byte /\ Byte.eqb (lower c) "-"%byte = Byte.eqb c "-"%byte.
Proof. destruct c; vm_compute; auto. Qed.

Lemma valid_case c : validHeaderFieldByte (upper c) = validHeaderFieldByte c /\ validHeaderFieldByte (lower c) = validHeaderFieldByte c.
Proof. destruct c; vm_compute; auto. Qed.

Lemma canonical_loop_idem up s : canonical_loop up (canonical_loop up s) = canonical_loop up s.
Proof.
  revert up. induction s as [|c s IH]; intros up; cbn; [done|].
  destruct (hyphen_case c) as [Hu Hl].
  destruct up; rewrite ?Hu, ?Hl, ?upper_idem, ?lower_idem; by rewrite IH.
Qed.

Lemma canonical_loop_valid up s : forallb validHeaderFieldByte (canonical_loop up s) = forallb validHeaderFieldByte s.
Proof.
  revert up. induction s as [|c s IH]; intros up; cbn; [done|]. rewrite IH.
  destruct (valid_case c) as [Hu Hl]. destruct up; by rewrite ?Hu, ?Hl.
Qed.

Lemma CanonicalHeaderKey_idem s : CanonicalHeaderKey (CanonicalHeaderKey s) = CanonicalHeaderKey s.
Proof.
  unfold CanonicalHeaderKey at 2 3. destruct (forallb _ _) eqn:E.
  - unfold CanonicalHeaderKey. rewrite to_of_bytes, canonical_loop_valid, E. by rewrite canonical_loop_idem.
  - unfold CanonicalHeaderKey. by rewrite E.
Qed.

(** What is set is read back under every spelling of the key with the same canonical form, and
    other keys are not disturbed; a key that is deleted reads as the empty string. *)
Theorem RequestHeader_set_get key value r r' :
  Set_ key value r = Ret r' ->
  forall k, Get k r' = (if String.eqb (CanonicalHeaderKey k) (CanonicalHeaderKey key) then value else Get k r) /\
    Get key (Del key r') = "".
Proof.
  unfold Set_, Header_Set, Get, Header_Get. destruct (header r) as [m|]; cbn; [|discriminate].
  intros [= <-] k. cbn [header]. split.
  - apply (Values_Get_Set (CanonicalHeaderKey k) (CanonicalHeaderKey key) value m).
  - cbn. unfold Values_Get. by rewrite lookup_delete_eq.
Qed.

Lemma RequestHeader_set_get_witness :
  Get "X-TOKEN" (mkRequestHeader (Some {["X-Token" := ["a"]]})) = "a".
Proof.
  exact (proj1 (RequestHeader_set_get "x-token" "a" (NewRequestHeader (Some ∅))
    (mkRequestHeader (Some {["X-Token" := ["a"]]})) eq_refl "X-TOKEN")).
Defined.

(** A [RequestHeader] that was made without headers cannot be set: [NewRequestHeader(nil)], which is
    also what [Dial] makes when none is configured, keeps a nil map. *)
Theorem RequestHeader_nil_panics key value : Set_ key value (NewRequestHeader None) = Panic NilMap.
Proof. reflexivity. Qed.

End requestheader.
