(* ===== verification/Utf8.v ===== *)
(** * UTF-8 ([unicode/utf8], as JSON packages use it)

    [encoding/json] writes strings as UTF-8 and documents that it replaces invalid bytes by
    the character U+FFFD instead of refusing them: a string that is not valid does not
    arrive as it was sent. *)

From S2P Require Import Prelude.
#[local] Open Scope Z_scope.

(** Byte [c] is in the range from [lo] to [hi]. *)
Definition between (lo hi : Z) (c : byte) : bool := (lo <=? b2z c) && (b2z c <=? hi).

Definition continuation : byte -> bool := between 128 191.

(** The second bytes that may follow the first byte [c] of a character of three or four bytes: no longer encodings than
    needed, no surrogates and nothing beyond U+10FFFF. *)
Definition second_byte (c : byte) : byte -> bool :=
  if b2z c =? 224 then between 160 191
  else if b2z c =? 237 then between 128 159
  else if b2z c =? 240 then between 144 191
  else if b2z c =? 244 then between 128 143
  else continuation.

(** The replacement character. *)
Definition rune_error : bytes := [xef; xbf; xbd].

(** [utf8.Valid]. *)
Fixpoint utf8_valid (s : bytes) : bool :=
  match s with
  | [] => true
  | c0 :: s1 =>
      if between 0 127 c0 then utf8_valid s1
      else if between 194 223 c0 then match s1 with c1 :: s2 => continuation c1 && utf8_valid s2 | _ => false end
      else if between 224 239 c0 then
        match s1 with c1 :: c2 :: s3 => second_byte c0 c1 && continuation c2 && utf8_valid s3 | _ => false end
      else if between 240 244 c0 then
        match s1 with
        | c1 :: c2 :: c3 :: s4 => second_byte c0 c1 && continuation c2 && continuation c3 && utf8_valid s4
        | _ => false
        end
      else false
  end.

(** What is written of a string: every byte that does not belong to a valid character is replaced. *)
Fixpoint to_valid (s : bytes) : bytes :=
  match s with
  | [] => []
  | c0 :: s1 =>
      let bad := rune_error ++ to_valid s1 in
      if between 0 127 c0 then c0 :: to_valid s1
      else if between 194 223 c0 then
        match s1 with c1 :: s2 => if continuation c1 then c0 :: c1 :: to_valid s2 else bad | _ => bad end
      else if between 224 239 c0 then
        match s1 with
        | c1 :: c2 :: s3 => if second_byte c0 c1 && continuation c2 then c0 :: c1 :: c2 :: to_valid s3 else bad
        | _ => bad
        end
      else if between 240 244 c0 then
        match s1 with
        | c1 :: c2 :: c3 :: s4 =>
            if second_byte c0 c1 && continuation c2 && continuation c3 then c0 :: c1 :: c2 :: c3 :: to_valid s4 else bad
        | _ => bad
        end
      else bad
  end.

(** Induction by characters of up to four bytes. *)
Lemma bytes_ind4 (P : bytes -> Prop) :
  (forall s, (forall s', (length s' < length s)%nat -> P s') -> P s) -> forall s, P s.
Proof.
  intros HP s. assert (forall n s', (length s' <= n)%nat -> P s') as HA.
  { intros n. induction n as [|n IH]; intros s' Hs; apply HP; intros s'' Hs''; [lia|]. apply IH. lia. }
  by apply (HA (length s)).
Qed.

(** A valid string is written as it is. *)
Lemma to_valid_id s : utf8_valid s = true -> to_valid s = s.
Proof.
  induction s as [s IH] using bytes_ind4. destruct s as [|c0 s1]; [done|]. cbn [utf8_valid to_valid].
  destruct (between 0 127 c0); [intros H; f_equal; apply IH; [cbn; lia|done]|].
  destruct (between 194 223 c0).
  { destruct s1 as [|c1 s2]; [done|]. intros [-> H]%andb_prop. do 2 f_equal. apply IH; [cbn; lia|done]. }
  destruct (between 224 239 c0).
  { destruct s1 as [|c1 [|c2 s3]]; [done..|]. intros [[-> ->]%andb_prop H]%andb_prop. cbn [andb]. do 3 f_equal.
    apply IH; [cbn; lia|done]. }
  destruct (between 240 244 c0); [|done].
  destruct s1 as [|c1 [|c2 [|c3 s4]]]; [done..|].
  intros [[[-> ->]%andb_prop ->]%andb_prop H]%andb_prop. cbn [andb]. do 4 f_equal. apply IH; [cbn; lia|done].
Qed.

(** An invalid byte is not refused but replaced. *)
Example to_valid_replaces : utf8_valid [xff] = false /\ to_valid ["a"%byte; xff] = "a"%byte :: rune_error.
Proof. split; vm_compute; reflexivity. Qed.
