(* ===== verification/EioPacket.v ===== *)
(** * Engine.IO packets ([engine.io/parser/packet.go], [byte_writer.go], [handshake.go])

    The packet type and its character, [NewPacket], [EncodedLen], [Encode] to an
    arbitrary writer, [Decode], [DecodeWithLen] and [ParseHandshakeResponse], with the
    round trip between encoding and decoding, the exact length of an encoding
    and what a writer failure does. *)

From S2P Require Import Prelude Base64 GoIO.

Module eioparser.

(** ** Packet types *)

Inductive PacketType :=
| PacketTypeOpen
| PacketTypeClose
| PacketTypePing
| PacketTypePong
| PacketTypeMessage
| PacketTypeUpgrade
| PacketTypeNoop.

#[export] Instance PacketType_eq_decision : EqDecision PacketType.
Proof. solve_decision. Defined.

(** The constants are numbered by [iota]. *)
Definition PacketType_num (t : PacketType) : Z :=
  match t with
  | PacketTypeOpen => 0
  | PacketTypeClose => 1
  | PacketTypePing => 2
  | PacketTypePong => 3
  | PacketTypeMessage => 4
  | PacketTypeUpgrade => 5
  | PacketTypeNoop => 6
  end.

Definition packetTypeMax : Z := PacketType_num PacketTypeNoop.

(** The conversion [PacketType(b)] of a number up to [packetTypeMax]. *)
Definition PacketType_of_num (z : Z) : option PacketType :=
  [PacketTypeOpen; PacketTypeClose; PacketTypePing; PacketTypePong;
   PacketTypeMessage; PacketTypeUpgrade; PacketTypeNoop] !! Z.to_nat z.

Inductive error :=
| errInvalidPacketSize
| errInvalidPacketType
| errCorruptInput
| errOpenExpected
| errUnmarshal
| errIO (e : io_error).

Definition ToChar (p : PacketType) : byte := z2b (PacketType_num p + 48).

Definition FromChar (b : byte) : outcome error PacketType :=
  if ((b2z b <? 48) || (48 + packetTypeMax <? b2z b))%Z then Err errInvalidPacketType
  else
    match PacketType_of_num (b2z b - 48) with
    | Some t => Ret t
    | None => Err errInvalidPacketType
    end.

Definition base64Prefix : byte := "b"%byte.

(** ** Packets *)

Record Packet := mkPacket {
  IsBinary : bool;
  Typ : PacketType;
  Data : bytes;
}.

#[export] Instance Packet_eq_decision : EqDecision Packet.
Proof. solve_decision. Defined.

Definition NewPacket (packetType : PacketType) (isBinary : bool) (data : bytes)
    : outcome error Packet :=
  if negb (bool_decide (packetType = PacketTypeMessage)) && isBinary
  then Err errInvalidPacketType
  else Ret (mkPacket isBinary packetType data).

Definition EncodedLen (p : Packet) (supportsBinary : bool) : Z :=
  if IsBinary p then
    if supportsBinary then Z.of_nat (length (Data p))
    else 1 + Base64.EncodedLen (Z.of_nat (length (Data p)))
  else 1 + Z.of_nat (length (Data p)).

(** *** Encoding to a writer *)

Section encode.
Context {W E : Type} `{IoWriter W E}.

(** [byteWriter{w: w}.WriteByte] *)
Definition byteWriter_WriteByte (b : byte) (w : W) : W * option E := w_write [b] w.

(** [bw, ok := w.(io.ByteWriter); if !ok { bw = byteWriter{w: w} }] *)
Definition WriteByte (b : byte) (w : W) : W * option E :=
  match w_writeByte with
  | Some f => f b w
  | None => byteWriter_WriteByte b w
  end.

(** [encoder.Write(data)] followed by the deferred [encoder.Close()], whose
    error nobody looks at; [Close] writes nothing when [Write] failed or when no
    byte is left over. *)
Definition base64_stream (data : bytes) (w : W) : W * option E :=
  let '(blocks, rest) := encoder_write (length data) data in
  let '(w', e) := write_all blocks w in
  match e with
  | Some _ => (w', e)
  | None => if length rest =? 0 then (w', None) else ((w_write (b64_encode rest) w').1, None)
  end.

Definition Encode (p : Packet) (supportsBinary : bool) (w : W) : W * option E :=
  if IsBinary p then
    if supportsBinary then w_write (Data p) w
    else
      let '(w1, err) := WriteByte base64Prefix w in
      match err with
      | Some _ => (w1, err)
      | None => base64_stream (Data p) w1
      end
  else
    let '(w1, err) := WriteByte (ToChar (Typ p)) w in
    match err with
    | Some _ => (w1, err)
    | None => w_write (Data p) w1
    end.
End encode.

(** *** Decoding *)

Definition decode (data : bytes) (binaryFrame : bool) : outcome error Packet :=
  if binaryFrame then Ret (mkPacket true PacketTypeMessage data)
  else
    match data with
    | [] => Err errInvalidPacketSize
    | packetType :: data' =>
        if Byte.eqb packetType base64Prefix then
          match b64_decode data' with
          | Some d => Ret (mkPacket true PacketTypeMessage d)
          | None => Err errCorruptInput
          end
        else
          t ← FromChar packetType;
          Ret (mkPacket false t data')
    end.

(** [Decode(r, binaryFrame)] of a stream that ends normally. *)
Definition Decode (s : stream) (binaryFrame : bool) : outcome error Packet :=
  decode (ReadAll s) binaryFrame.

(** [DecodeWithLen(r, binaryFrame, len)]: [make([]byte, len)] panics on a
    negative length. *)
Definition DecodeWithLen (rd : read_fn) (binaryFrame : bool) (len : Z) (s : stream)
    : stream * outcome error Packet :=
  if (len <? 0)%Z then (s, Panic SliceBounds)
  else
    let '(s', buf, err) := ReadFull rd (Z.to_nat len) s in
    match err with
    | Some e => (s', Err (errIO e))
    | None => (s', decode buf binaryFrame)
    end.

(** ** The handshake *)

Record HandshakeResponse := mkHandshakeResponse {
  hrSID : string;
  hrUpgrades : list string;
  hrPingInterval : Z;
  hrPingTimeout : Z;
  hrMaxPayload : Z;
}.

(** [time.Duration(ms) * time.Millisecond] in 64-bit arithmetic. *)
Definition millisecond : Z := 1000000.

Definition GetPingInterval (hr : HandshakeResponse) : Z :=
  wrap_s 64 (hrPingInterval hr * millisecond).

Definition GetPingTimeout (hr : HandshakeResponse) : Z :=
  wrap_s 64 (hrPingTimeout hr * millisecond).

(** [unmarshal] stands for [json.Unmarshal(p.Data, hr)]. *)
Definition ParseHandshakeResponse (unmarshal : bytes -> option HandshakeResponse) (p : Packet)
    : outcome error HandshakeResponse :=
  if negb (bool_decide (Typ p = PacketTypeOpen)) then Err errOpenExpected
  else
    match unmarshal (Data p) with
    | Some hr => Ret hr
    | None => Err errUnmarshal
    end.

(** ** Reference encoding, and lemmas *)

(** The bytes of a packet on the wire. *)
Definition encoding (p : Packet) (supportsBinary : bool) : bytes :=
  if IsBinary p then
    if supportsBinary then Data p else base64Prefix :: b64_encode (Data p)
  else ToChar (Typ p) :: Data p.

(** The packets that [NewPacket] makes. *)
Definition wf (p : Packet) : bool :=
  negb (IsBinary p) || bool_decide (Typ p = PacketTypeMessage).

Lemma NewPacket_wf t ib d p : NewPacket t ib d = Ret p -> wf p = true /\ p = mkPacket ib t d.
Proof.
  unfold NewPacket, wf. case_bool_decide; destruct ib; cbn; intros [= <-];
    cbn; rewrite ?bool_decide_eq_true_2 by assumption; done.
Qed.

Lemma FromChar_ToChar t : FromChar (ToChar t) = Ret t.
Proof. by destruct t. Qed.

Lemma FromChar_Ret b t : FromChar b = Ret t -> b = ToChar t.
Proof.
  intros H. destruct b; vm_compute in H; try discriminate H;
    injection H as <-; reflexivity.
Qed.

Lemma ToChar_not_prefix t : Byte.eqb (ToChar t) base64Prefix = false.
Proof. by destruct t. Qed.

Lemma ToChar_not_rs t : Byte.eqb (ToChar t) x1e = false.
Proof. by destruct t. Qed.

Lemma decode_encoding p sb :
  wf p = true -> decode (encoding p sb) (IsBinary p && sb) = Ret p.
Proof.
  destruct p as [ib t d]. unfold wf, encoding. cbn. intros Hwf.
  destruct ib; cbn in Hwf |- *.
  - apply bool_decide_eq_true in Hwf as ->. destruct sb; cbn; [reflexivity|].
    by rewrite b64_decode_encode.
  - rewrite ToChar_not_prefix, FromChar_ToChar. reflexivity.
Qed.

Lemma decode_wf data bf p : decode data bf = Ret p -> wf p = true.
Proof.
  unfold decode. destruct bf; [by intros [= <-]|].
  destruct data as [|c data]; [discriminate|].
  destruct (Byte.eqb c base64Prefix).
  - destruct (b64_decode data); [by intros [= <-]|discriminate].
  - destruct (FromChar c); cbn; intros H; [injection H as <-|discriminate|discriminate].
    reflexivity.
Qed.

Lemma decode_total data bf : match decode data bf with Panic _ => False | _ => True end.
Proof.
  unfold decode. destruct bf; [exact I|]. destruct data as [|c data]; [exact I|].
  destruct (Byte.eqb c base64Prefix); [destruct (b64_decode data); exact I|].
  unfold FromChar. destruct (_ || _); [exact I|].
  destruct (PacketType_of_num _); exact I.
Qed.

Lemma EncodedLen_encoding p sb : EncodedLen p sb = Z.of_nat (length (encoding p sb)).
Proof.
  unfold EncodedLen, encoding. destruct (IsBinary p), sb; cbn [length];
    rewrite <- ?b64_encode_length; lia.
Qed.

Section encode_lemmas.
Context {W E : Type} `{LawfulWriter W E}.

Lemma WriteByte_write b w : WriteByte b w = w_write [b] w.
Proof.
  unfold WriteByte, byteWriter_WriteByte.
  destruct w_writeByte eqn:Ef; [|reflexivity]. by apply w_writeByte_ok.
Qed.

Lemma base64_stream_infallible data w :
  InfallibleWriter W E ->
  (base64_stream data w).2 = None /\
  w_contents (base64_stream data w).1 = w_contents w ++ b64_encode data.
Proof.
  intros HI. unfold base64_stream.
  destruct (encoder_write (length data) data) as [blocks rest] eqn:Ew.
  pose proof (write_all_infallible blocks w HI) as HN.
  destruct (write_all blocks w) as [w' e] eqn:Eb. cbn in HN. subst e.
  apply encoder_write_concat in Ew. apply write_all_ok in Eb.
  destruct (Nat.eqb_spec (length rest) 0) as [E0|E0]; (split; [reflexivity|]); cbn [fst].
  - apply nil_length_inv in E0 as ->. cbn in Ew. by rewrite <- Ew, app_nil_r, Eb.
  - pose proof (HI (b64_encode rest) w') as Hn.
    destruct (w_write (b64_encode rest) w') as [w'' e''] eqn:Er. cbn in Hn |- *. subst e''.
    apply w_write_ok in Er. by rewrite Er, Eb, <- app_assoc, Ew.
Qed.

Lemma Encode_infallible p sb w :
  InfallibleWriter W E ->
  (Encode p sb w).2 = None /\
  w_contents (Encode p sb w).1 = w_contents w ++ encoding p sb.
Proof.
  intros HI. unfold Encode, encoding. rewrite !WriteByte_write.
  assert (forall q v, (w_write q v).2 = None /\ w_contents (w_write q v).1 = w_contents v ++ q) as HW.
  { intros q v. pose proof (HI q v) as Hn. destruct (w_write q v) as [v' e'] eqn:Eq.
    cbn in Hn |- *. subst e'. split; [reflexivity|]. by apply w_write_ok. }
  destruct (IsBinary p), sb; [apply HW| | |].
  all: match goal with |- context [w_write [?c] ?v] =>
    pose proof (HW [c] v) as [H1 H2]; destruct (w_write [c] v) as [w1 e1] end;
    cbn in H1, H2; subst e1.
  - destruct (base64_stream_infallible (Data p) w1 HI) as [-> ->].
    split; [reflexivity|]. by rewrite H2, <- app_assoc.
  - destruct (HW (Data p) w1) as [-> ->]. split; [reflexivity|]. by rewrite H2, <- app_assoc.
  - destruct (HW (Data p) w1) as [-> ->]. split; [reflexivity|]. by rewrite H2, <- app_assoc.
Qed.
End encode_lemmas.

(** A writer that has no [WriteByte] and, as long as [R] holds, takes what it is given. *)
Lemma Encode_appends {W E} `{IoWriter W E} (R : bytes -> W -> Prop) p sb b w :
  w_writeByte (W := W) (E := E) = None ->
  (forall q b w, R b w -> exists w', w_write q w = (w', None) /\ R (b ++ q) w') ->
  IsBinary p = false \/ sb = true -> R b w ->
  exists w', Encode p sb w = (w', None) /\ R (b ++ encoding p sb) w'.
Proof.
  intros HB HW Hsb HR. unfold Encode, encoding, WriteByte, byteWriter_WriteByte. rewrite HB. destruct (IsBinary p).
  - destruct Hsb as [?| ->]; [done|]. by apply HW.
  - destruct (HW [ToChar (Typ p)] b w HR) as (w1 & -> & H1). destruct (HW (Data p) _ w1 H1) as (w2 & -> & H2).
    exists w2. split; [done|]. by rewrite <- app_assoc in H2.
Qed.

Lemma Encode_buffer p sb (w : bytes) :
  Encode (E := unit) p sb w = (w ++ encoding p sb, None).
Proof.
  pose proof (Encode_infallible (W := bytes) (E := unit) p sb w buffer_infallible) as [H1 H2].
  destruct (Encode p sb w) as [w' e]. cbn in H1, H2. by subst.
Qed.

(** ** Properties *)

(** C6: The round trip of a packet. Whatever packet [NewPacket] makes, encoding it
    to a buffer succeeds, appends to what the buffer holds, and decoding the
    bytes that were appended gives the packet back; the frame is read as binary
    exactly when the packet is binary and was written raw. *)
Theorem packet_roundtrip t ib d p sb (buf : bytes) :
  NewPacket t ib d = Ret p ->
  exists enc, Encode (E := unit) p sb buf = (buf ++ enc, None) /\
    decode enc (ib && sb) = Ret p.
Proof.
  intros H. apply NewPacket_wf in H as [Hwf ->].
  exists (encoding (mkPacket ib t d) sb). rewrite Encode_buffer. split; [reflexivity|].
  by apply decode_encoding.
Qed.

Lemma packet_roundtrip_witness :
  exists enc, Encode (E := unit) (mkPacket true PacketTypeMessage [x01; x02; xff; x00]) false []
                = ([] ++ enc, None) /\
    decode enc false = Ret (mkPacket true PacketTypeMessage [x01; x02; xff; x00]).
Proof.
  apply (packet_roundtrip PacketTypeMessage true [x01; x02; xff; x00]
           (mkPacket true PacketTypeMessage [x01; x02; xff; x00]) false []).
  reflexivity.
Defined.

(** [EncodedLen] is exact. On every writer that keeps the contract of
    [io.Writer] and reports no error, [Encode] writes precisely as many bytes as
    [EncodedLen] announces, which is what the [Content-Length] header and the
    WebTransport frame header are computed from. *)
Theorem EncodedLen_exact {W E} `{LawfulWriter W E} (HI : InfallibleWriter W E) p sb w :
  let '(w', err) := Encode p sb w in
  err = None /\
  Z.of_nat (length (w_contents w')) = (Z.of_nat (length (w_contents w)) + EncodedLen p sb)%Z.
Proof.
  pose proof (Encode_infallible p sb w HI) as [H1 H2].
  destruct (Encode p sb w) as [w' err]. cbn in H1, H2. split; [exact H1|].
  rewrite H2, length_app, EncodedLen_encoding. lia.
Qed.

Lemma EncodedLen_exact_witness :
  let '(w', err) := Encode (W := bytes) (E := unit) (mkPacket true PacketTypeMessage [x01; x02]) false [x30] in
  err = None /\ length w' = 6%nat.
Proof.
  pose proof (EncodedLen_exact (W := bytes) (E := unit) buffer_infallible
    (mkPacket true PacketTypeMessage [x01; x02]) false [x30]) as H.
  revert H. vm_compute. intros [_ H]. split; reflexivity.
Defined.

(** Decoding is total and canonical. [decode] never panics, whatever the
    bytes; what it accepts is a packet that [NewPacket] could have made; and
    the only frame that decodes to a given text packet is its encoding. *)
Theorem decode_canonical data bf :
  match decode data bf with
  | Ret p =>
      NewPacket (Typ p) (IsBinary p) (Data p) = Ret p /\
      (IsBinary p = false -> forall sb, encoding p sb = data)
  | Err _ => True
  | Panic _ => False
  end.
Proof.
  pose proof (decode_total data bf) as HT.
  destruct (decode data bf) as [p|e|why] eqn:Ed; [|exact I|exact HT].
  pose proof (decode_wf _ _ _ Ed) as Hwf. split.
  - destruct p as [ib t d]. unfold wf in Hwf. unfold NewPacket. cbn in *.
    destruct ib; cbn in *; [apply bool_decide_eq_true in Hwf as ->; reflexivity|].
    by rewrite andb_false_r.
  - intros Hb sb. unfold decode in Ed. destruct bf; [injection Ed as <-; discriminate|].
    destruct data as [|c data]; [discriminate|].
    destruct (Byte.eqb c base64Prefix).
    { destruct (b64_decode data); [injection Ed as <-; discriminate|discriminate]. }
    destruct (FromChar c) as [t|e|w] eqn:Ec; cbn in Ed; [|discriminate|discriminate].
    injection Ed as <-. unfold encoding. cbn. by rewrite (FromChar_Ret _ _ Ec).
Qed.

(** A write failure can go unnoticed. The error of the deferred
    [encoder.Close()] is dropped, so on a writer that fails after the prefix
    character, [Encode] of a binary packet of one or two bytes in base64 mode
    reports success although none of the packet's data was written. *)
Theorem Encode_close_error_dropped d :
  0 < length d < 3 ->
  Encode (W := nat * bytes) (E := unit) (mkPacket true PacketTypeMessage d) false (1, [])
    = ((0, [base64Prefix]), None).
Proof.
  destruct d as [|a [|b [|c d]]]; cbn; intros H; try lia; reflexivity.
Qed.

Lemma Encode_close_error_dropped_witness :
  Encode (W := nat * bytes) (E := unit) (mkPacket true PacketTypeMessage [x01; x02]) false (1, [])
    = ((0, [base64Prefix]), None).
Proof. apply (Encode_close_error_dropped [x01; x02]). cbn. lia. Defined.

End eioparser.
