(* ===== verification/EioPayload.v ===== *)
(** * Engine.IO payloads ([engine.io/parser/payload.go])

    A payload is the body of a polling request or response: packets separated by
    the record separator (30). The loops of [EncodedPayloadsLen],
    [EncodePayloads], [splitByte] and [DecodePayloads] are written with the
    indices of the source; [splitByte] is shown equal to a structural split, of
    which joining is the inverse. *)

From S2P Require Import Prelude Base64 GoIO EioPacket.
Import eioparser.

Module payload.

#[local] Arguments decode : simpl never.

Definition payloadDelimiter : byte := x1e.

(** [for i, packet := range packets { l += ...; if i != len(packets)-1 { l += 1 } }] *)
Fixpoint EncodedPayloadsLen_loop (total i : nat) (l : Z) (packets : list Packet) : Z :=
  match packets with
  | [] => l
  | packet :: packets' =>
      let l := (l + EncodedLen packet false)%Z in
      let l := if negb (i =? total - 1) then (l + 1)%Z else l in
      EncodedPayloadsLen_loop total (S i) l packets'
  end.

Definition EncodedPayloadsLen (packets : list Packet) : Z :=
  EncodedPayloadsLen_loop (length packets) 0 0 packets.

Section encode.
Context {W E : Type} `{IoWriter W E}.

Fixpoint EncodePayloads_loop (total i : nat) (w : W) (packets : list Packet) : W * option E :=
  match packets with
  | [] => (w, None)
  | packet :: packets' =>
      let '(w1, err) := Encode packet false w in
      match err with
      | Some _ => (w1, err)
      | None =>
          if negb (i =? total - 1) then
            let '(w2, err) := WriteByte payloadDelimiter w1 in
            match err with
            | Some _ => (w2, err)
            | None => EncodePayloads_loop total (S i) w2 packets'
            end
          else EncodePayloads_loop total (S i) w1 packets'
      end
  end.

Definition EncodePayloads (packets : list Packet) (w : W) : W * option E :=
  EncodePayloads_loop (length packets) 0 w packets.
End encode.

(** [splitByte]: [todo] is what the loop has not read of [buf], [i] its index. *)
Fixpoint splitByte_loop (buf : bytes) (delim : byte) (buffers : list bytes) (last i : nat)
    (todo : bytes) : list bytes * nat :=
  match todo with
  | [] => (buffers, last)
  | c :: todo' =>
      if Byte.eqb c delim then
        let buffers :=
          if i =? length buf then buffers ++ [[]]
          else buffers ++ [take (i - last) (drop last buf)] in
        splitByte_loop buf delim buffers (i + 1) (S i) todo'
      else splitByte_loop buf delim buffers last (S i) todo'
  end.

Definition splitByte (buf : bytes) (delim : byte) : list bytes :=
  let '(buffers, last) := splitByte_loop buf delim [] 0 0 buf in
  if length buffers =? 0 then buffers ++ [buf]
  else if last <=? length buf then buffers ++ [drop last buf]
  else buffers.

Definition DecodePayloads (s : stream) : outcome error (list Packet) :=
  mapM (fun sp => decode sp false) (splitByte (ReadAll s) payloadDelimiter).

(** ** Reference split and join *)

Fixpoint split_on (delim : byte) (buf : bytes) : list bytes :=
  match buf with
  | [] => [[]]
  | c :: buf' =>
      if Byte.eqb c delim then [] :: split_on delim buf'
      else
        match split_on delim buf' with
        | chunk :: chunks => (c :: chunk) :: chunks
        | [] => [[c]]
        end
  end.

Fixpoint join (delim : byte) (chunks : list bytes) : bytes :=
  match chunks with
  | [] => []
  | [c] => c
  | c :: chunks' => c ++ delim :: join delim chunks'
  end.

Lemma split_on_nonempty delim buf : split_on delim buf <> [].
Proof.
  destruct buf as [|c buf]; cbn; [discriminate|].
  destruct (Byte.eqb c delim); [discriminate|]. by destruct (split_on delim buf).
Qed.

Lemma split_on_app delim pre buf :
  forallb (fun c => negb (Byte.eqb c delim)) pre = true ->
  split_on delim (pre ++ buf) =
  match split_on delim buf with
  | chunk :: chunks => (pre ++ chunk) :: chunks
  | [] => [pre]
  end.
Proof.
  induction pre as [|c pre IH]; cbn; intros H.
  - pose proof (split_on_nonempty delim buf). by destruct (split_on delim buf).
  - apply andb_prop in H as [Hc H]. apply negb_true_iff in Hc. rewrite Hc, IH by exact H.
    pose proof (split_on_nonempty delim buf). by destruct (split_on delim buf).
Qed.

Lemma split_join delim chunks :
  chunks <> [] ->
  Forall (fun ch => forallb (fun c => negb (Byte.eqb c delim)) ch = true) chunks ->
  split_on delim (join delim chunks) = chunks.
Proof.
  intros Hne HF. induction HF as [|ch chunks Hch HF IH]; [done|].
  destruct chunks as [|ch' chunks].
  - cbn [join]. rewrite <- (app_nil_r ch) at 1. rewrite split_on_app by exact Hch.
    cbn. by rewrite app_nil_r.
  - cbn [join]. rewrite split_on_app by exact Hch. cbn [split_on].
    rewrite byte_eqb_refl, app_nil_r. f_equal. by apply IH.
Qed.

(** The loop of the source computes the reference split. *)
Lemma splitByte_loop_spec buf delim buffers last i pre todo :
  buf = pre ++ todo -> i = length pre -> last <= i ->
  forallb (fun c => negb (Byte.eqb c delim)) (drop last pre) = true ->
  let '(buffers', last') := splitByte_loop buf delim buffers last i todo in
  last' <= length buf /\
  buffers' ++ [drop last' buf] = buffers ++ split_on delim (drop last pre ++ todo) /\
  (buffers' = [] -> last' = 0 \/ last' = last).
Proof.
  revert buffers last i pre. induction todo as [|c todo IH]; intros buffers last i pre Hbuf Hi Hl Hp;
    cbn [splitByte_loop].
  - subst. rewrite !app_nil_r. split; [lia|]. split; [|auto].
    f_equal. rewrite <- (app_nil_r (drop last pre)) at 2. rewrite split_on_app by exact Hp.
    cbn. by rewrite app_nil_r.
  - destruct (Byte.eqb c delim) eqn:Ec.
    + assert ((i =? length buf) = false) as ->.
      { apply Nat.eqb_neq. subst. rewrite length_app. cbn. lia. }
      assert (take (i - last) (drop last buf) = drop last pre) as ->.
      { subst. rewrite drop_app_le by lia. rewrite take_app_le; [|rewrite length_drop; lia].
        apply take_ge. rewrite length_drop. lia. }
      specialize (IH (buffers ++ [drop last pre]) (i + 1) (S i) (pre ++ [c])).
      assert (drop (i + 1) (pre ++ [c]) = []) as Ed.
      { apply drop_ge. rewrite length_app. cbn. lia. }
      rewrite Ed in IH.
      destruct (splitByte_loop _ _ _ _ _ todo) as [buffers' last'].
      destruct IH as (H1 & H2 & H3).
      * subst. by rewrite <- app_assoc.
      * rewrite length_app. cbn. lia.
      * lia.
      * reflexivity.
      * split; [exact H1|]. split.
        -- rewrite H2. cbn [app]. rewrite (split_on_app delim (drop last pre)) by exact Hp.
           cbn [split_on]. rewrite Ec, app_nil_r, <- app_assoc. reflexivity.
        -- intros ->. exfalso. cbn in H2. apply (f_equal length) in H2.
           pose proof (split_on_nonempty delim todo) as Hn.
           destruct (split_on delim todo); [done|].
           rewrite !length_app in H2. cbn in H2. lia.
    + specialize (IH buffers last (S i) (pre ++ [c])).
      destruct (splitByte_loop _ _ _ _ _ todo) as [buffers' last'].
      destruct IH as (H1 & H2 & H3).
      * subst. by rewrite <- app_assoc.
      * rewrite length_app. cbn. lia.
      * lia.
      * rewrite drop_app_le by lia. rewrite forallb_app, Hp. cbn. by rewrite Ec.
      * split; [exact H1|]. split; [|exact H3].
        rewrite H2. rewrite drop_app_le by lia. by rewrite <- app_assoc.
Qed.

Lemma splitByte_split_on buf delim : splitByte buf delim = split_on delim buf.
Proof.
  unfold splitByte.
  pose proof (splitByte_loop_spec buf delim [] 0 0 [] buf eq_refl eq_refl ltac:(lia) eq_refl) as H.
  destruct (splitByte_loop buf delim [] 0 0 buf) as [buffers last].
  destruct H as (H1 & H2 & H3). cbn in H2.
  destruct (Nat.eqb_spec (length buffers) 0) as [E|E].
  - apply nil_length_inv in E as ->. destruct (H3 eq_refl) as [E|E]; subst last; exact H2.
  - destruct (Nat.leb_spec last (length buf)); [exact H2|lia].
Qed.

(** ** What is written *)

Lemma EncodePayloads_loop_buffer total i w ps :
  i + length ps = total ->
  EncodePayloads_loop (E := unit) total i w ps =
  (w ++ join payloadDelimiter ((fun p => encoding p false) <$> ps), None).
Proof.
  revert i w. induction ps as [|p ps IH]; intros i w Hi; cbn [EncodePayloads_loop].
  - cbn. by rewrite app_nil_r.
  - rewrite Encode_buffer. cbn [length] in Hi.
    destruct ps as [|p' ps].
    + cbn in Hi. replace (i =? total - 1) with true by (symmetry; apply Nat.eqb_eq; lia).
      cbn. reflexivity.
    + replace (i =? total - 1) with false
        by (symmetry; apply Nat.eqb_neq; cbn in Hi; lia).
      rewrite WriteByte_write. cbn [w_write buffer_writer negb].
      rewrite IH by (cbn in Hi |- *; lia). cbn [fmap list_fmap join].
      by rewrite <- !app_assoc.
Qed.

Lemma EncodePayloads_buffer ps w :
  EncodePayloads (E := unit) ps w =
  (w ++ join payloadDelimiter ((fun p => encoding p false) <$> ps), None).
Proof. by apply EncodePayloads_loop_buffer. Qed.

(** The packets whose encoding holds no separator: binary ones always, text
    ones when their data has none. *)
Definition separable (p : Packet) : bool :=
  IsBinary p || forallb (fun c => negb (Byte.eqb c payloadDelimiter)) (Data p).

Lemma separable_encoding p :
  separable p = true ->
  forallb (fun c => negb (Byte.eqb c payloadDelimiter)) (encoding p false) = true.
Proof.
  unfold separable, encoding. destruct (IsBinary p); cbn; intros H.
  - apply b64_encode_no_rs.
  - by rewrite ToChar_not_rs, H.
Qed.

Lemma EncodedPayloadsLen_loop_spec total i l ps :
  i + length ps = total ->
  EncodedPayloadsLen_loop total i l ps =
  (l + Z.of_nat (length (join payloadDelimiter ((fun p => encoding p false) <$> ps))))%Z.
Proof.
  revert i l. induction ps as [|p ps IH]; intros i l Hi; cbn [EncodedPayloadsLen_loop].
  - cbn. lia.
  - cbn [length] in Hi. rewrite IH by lia. rewrite EncodedLen_encoding.
    destruct ps as [|p' ps].
    + replace (i =? total - 1) with true by (symmetry; apply Nat.eqb_eq; cbn in Hi; lia).
      cbn. lia.
    + replace (i =? total - 1) with false by (symmetry; apply Nat.eqb_neq; cbn in Hi; lia).
      cbn [fmap list_fmap join negb]. rewrite !length_app. cbn [length]. lia.
Qed.

(** Reading back what was written. *)
Lemma payload_decodes ps (s : stream) :
  ps <> [] ->
  Forall (fun p => wf p = true) ps -> Forall (fun p => separable p = true) ps ->
  ReadAll s = join payloadDelimiter ((fun p => encoding p false) <$> ps) ->
  DecodePayloads s = Ret ps.
Proof.
  intros Hne Hwf Hsep Hs. unfold DecodePayloads. rewrite Hs, splitByte_split_on, split_join.
  - apply mapM_outcome_Ret. apply Forall2_fmap_l. apply Forall_Forall2_diag.
    eapply Forall_impl; [exact Hwf|]. intros p Hp.
    pose proof (decode_encoding p false Hp) as H. by rewrite andb_false_r in H.
  - by destruct ps.
  - apply Forall_fmap. eapply Forall_impl; [exact Hsep|]. intros p Hp. by apply separable_encoding.
Qed.

(** ** Properties *)

(** C7: The round trip of a payload. A non-empty list of packets, each made by
    [NewPacket] and, if it is a text packet, with no record separator in its
    data, is written by [EncodePayloads] without an error and read back unchanged
    from the bytes written, however the network cuts them into chunks. *)
Theorem payload_roundtrip ps :
  ps <> [] ->
  Forall (fun p => wf p = true) ps -> Forall (fun p => separable p = true) ps ->
  exists out, EncodePayloads (W := bytes) (E := unit) ps [] = (out, None) /\
    forall s : stream, ReadAll s = out -> DecodePayloads s = Ret ps.
Proof.
  intros Hne Hwf Hsep. rewrite EncodePayloads_buffer.
  eexists. split; [reflexivity|]. intros s Hs. by apply payload_decodes.
Qed.

Lemma payload_roundtrip_witness :
  let ps := [mkPacket false PacketTypePing (to_bytes "probe");
             mkPacket true PacketTypeMessage [x01; x02; xff]] in
  exists out, EncodePayloads (W := bytes) (E := unit) ps [] = (out, None) /\
    forall s : stream, ReadAll s = out -> DecodePayloads s = Ret ps.
Proof.
  apply (payload_roundtrip
    [mkPacket false PacketTypePing (to_bytes "probe");
     mkPacket true PacketTypeMessage [x01; x02; xff]]).
  - discriminate.
  - repeat constructor.
  - repeat constructor.
Defined.

(** [EncodedPayloadsLen] is the number of bytes [EncodePayloads] writes,
    separators included, so that the [Content-Length] of a poll response is
    right. *)
Theorem EncodedPayloadsLen_exact ps (w w' : bytes) :
  EncodePayloads (E := unit) ps w = (w', None) ->
  Z.of_nat (length w') = (Z.of_nat (length w) + EncodedPayloadsLen ps)%Z.
Proof.
  rewrite EncodePayloads_buffer. intros [= <-].
  unfold EncodedPayloadsLen. rewrite EncodedPayloadsLen_loop_spec by reflexivity.
  rewrite length_app. lia.
Qed.

Lemma EncodedPayloadsLen_exact_witness :
  Z.of_nat (length (to_bytes "2" ++ [x1e] ++ to_bytes "bAQI=")) =
  (0 + EncodedPayloadsLen [mkPacket false PacketTypePing []; mkPacket true PacketTypeMessage [x01; x02]])%Z.
Proof.
  apply (EncodedPayloadsLen_exact
    [mkPacket false PacketTypePing []; mkPacket true PacketTypeMessage [x01; x02]] []).
  vm_compute. reflexivity.
Defined.

(** The index loop of [splitByte] computes the structural split: the
    chunks between the separators, none of them containing one, whose join is
    the buffer. In particular there is always at least one chunk. *)
Theorem splitByte_correct buf delim :
  let chunks := splitByte buf delim in
  join delim chunks = buf /\
  length chunks = S (length (filter (fun c => Byte.eqb c delim) buf)) /\
  Forall (fun ch => forallb (fun c => negb (Byte.eqb c delim)) ch = true) chunks.
Proof.
  intros chunks. subst chunks. rewrite splitByte_split_on.
  induction buf as [|c buf (IH1 & IH2 & IH3)]; [repeat constructor|].
  pose proof (split_on_nonempty delim buf) as Hn.
  cbn [split_on]. rewrite filter_cons.
  destruct (Byte.eqb c delim) eqn:Ec.
  - apply byte_eqb_eq in Ec as ->. rewrite decide_True by exact I.
    repeat split.
    + destruct (split_on delim buf) as [|chunk chunks]; [done|].
      change (delim :: join delim (chunk :: chunks) = delim :: buf). by rewrite IH1.
    + cbn [length]. by rewrite IH2.
    + by constructor.
  - rewrite decide_False by (intros []).
    destruct (split_on delim buf) as [|chunk chunks]; [done|].
    repeat split.
    + rewrite <- IH1. by destruct chunks.
    + exact IH2.
    + inversion IH3; subst. constructor; [|assumption]. cbn. by rewrite Ec.
Qed.

(** A payload is accepted only if every chunk is: [DecodePayloads] returns as
    many packets as there are separators plus one, the i-th being the decoding
    of the i-th chunk, and never panics. An empty body is an error, not an
    empty list of packets. *)
Theorem DecodePayloads_all s :
  match DecodePayloads s with
  | Ret ps => Forall2 (fun ch p => decode ch false = Ret p) (splitByte (ReadAll s) payloadDelimiter) ps
  | Err _ => Exists (fun ch => is_ret (decode ch false) = false) (splitByte (ReadAll s) payloadDelimiter)
  | Panic _ => False
  end /\ (ReadAll s = [] -> DecodePayloads s = Err errInvalidPacketSize).
Proof.
  split; [|by unfold DecodePayloads; intros ->].
  unfold DecodePayloads. generalize (splitByte (ReadAll s) payloadDelimiter) as l.
  intros l. destruct (mapM _ l) as [ps|e|why] eqn:Em.
  - by apply mapM_outcome_Ret in Em.
  - revert e Em. induction l as [|ch l IH]; cbn; [discriminate|]. intros e.
    destruct (decode ch false) as [p|e'|w] eqn:Ed;
      [|intros _; apply Exists_cons_hd; cbv beta; by rewrite Ed|intros _; apply Exists_cons_hd; cbv beta; by rewrite Ed].
    cbn. destruct (mapM _ l) as [ps|e'|w] eqn:El; cbn; [discriminate| |discriminate].
    intros _. apply Exists_cons_tl. by eapply IH.
  - revert why Em. induction l as [|ch l IH]; cbn; [discriminate|]. intros why.
    pose proof (decode_total ch false) as HT.
    destruct (decode ch false) as [p|e'|w] eqn:Ed; cbn; [|discriminate|destruct HT].
    destruct (mapM _ l) as [ps|e'|w] eqn:El; cbn; [discriminate|discriminate|].
    intros _. by eapply IH.
Qed.

End payload.
