(* ===== verification/WebTransport.v ===== *)
(** * WebTransport framing ([engine.io/transport/webtransport/packet.go], [limited_reader.go])

    A WebTransport connection is a byte stream; [send] puts a length header in
    front of each packet and [nextPacket], a small state machine, reads it back.
    The limited reader is the guard the server reads through. *)

From S2P Require Import Prelude Base64 GoIO EioPacket.
Import eioparser.

Module webtransport.

#[local] Open Scope Z_scope.

(** ** Sending *)

Definition frame_header (encodedLen : Z) (isBinary : bool) : bytes :=
  let header :=
    if encodedLen <? 126 then [z2b encodedLen]
    else if encodedLen <? 65536 then z2b 126 :: be_encode 2 (wrap_u 16 encodedLen)
    else z2b 127 :: be_encode 8 (wrap_u 64 encodedLen) in
  if isBinary then
    match header with
    | h :: t => z2b (Z.lor (b2z h) 0x80) :: t
    | [] => []
    end
  else header.

Definition send {W E} `{IoWriter W E} (packet : Packet) (w : W) : W * option E :=
  let header := frame_header (EncodedLen packet true) (IsBinary packet) in
  let '(w', err) := w_write header w in
  match err with
  | Some _ => (w', err)
  | None => Encode packet true w'
  end.

(** ** Receiving *)

Inductive frame_state := ReadHeader | ReadExtendedLen16 | ReadExtendedLen64 | ReadPayload.

(** The [for { switch state ... }] loop. The transitions are ReadHeader ->
    (ReadExtendedLen16 | ReadExtendedLen64)? -> ReadPayload, so three turns are
    enough; running out of fuel is a panic that no theorem allows. *)
Fixpoint nextPacket_loop (rd : read_fn) (fuel : nat) (firstByte : byte) (state : frame_state)
    (expectedLen : Z) (isBinary : bool) (r : stream) : stream * outcome error Packet :=
  match fuel with
  | O => (r, Panic (UserPanic "fuel"))
  | S fuel =>
      match state with
      | ReadHeader =>
          let expectedLen := Z.land (b2z firstByte) 0x7f in
          let isBinary := Z.land (b2z firstByte) 0x80 =? 0x80 in
          let state :=
            if expectedLen <? 126 then ReadPayload
            else if expectedLen =? 126 then ReadExtendedLen16
            else ReadExtendedLen64 in
          nextPacket_loop rd fuel firstByte state expectedLen isBinary r
      | ReadExtendedLen16 =>
          let '(r', header, err) := ReadFull rd 2 r in
          match err with
          | Some e => (r', Err (errIO e))
          | None => nextPacket_loop rd fuel firstByte ReadPayload (be_decode header) isBinary r'
          end
      | ReadExtendedLen64 =>
          let '(r', header, err) := ReadFull rd 8 r in
          match err with
          | Some e => (r', Err (errIO e))
          | None =>
              (* int(binary.BigEndian.Uint32(header[:])) *)
              nextPacket_loop rd fuel firstByte ReadPayload (be_decode (take 4 header)) isBinary r'
          end
      | ReadPayload => DecodeWithLen rd isBinary expectedLen r
      end
  end.

Definition nextPacket (rd : read_fn) (r : stream) : stream * outcome error Packet :=
  let '(r', firstByte, err) := ReadFull rd 1 r in
  match err, firstByte with
  | Some e, _ => (r', Err (errIO e))
  | None, b :: _ => nextPacket_loop rd 3 b ReadHeader 0 false r'
  | None, [] => (r', Panic IndexRange)
  end.

(** ** The limited reader *)

Definition limitedReader_Read (limit : Z) : read_fn := fun n s =>
  let '(s', p, err) := stream_read n s in
  (s', p, if limit <? Z.of_nat (length p) then Some ErrLimitReached else err).

(** ** Lemmas *)

Definition frame (p : Packet) : bytes :=
  frame_header (EncodedLen p true) (IsBinary p) ++ encoding p true.

Lemma send_buffer p (w : bytes) : send (E := unit) p w = (w ++ frame p, None).
Proof.
  unfold send, frame. cbn [w_write buffer_writer]. rewrite Encode_buffer. by rewrite <- app_assoc.
Qed.

Lemma EncodedLen_nonneg p sb : 0 <= EncodedLen p sb.
Proof. rewrite EncodedLen_encoding. lia. Qed.

(** The header byte: seven bits of length, one of kind. *)
Lemma header_byte n (b : bool) :
  0 <= n < 128 ->
  let h := if b then z2b (Z.lor (b2z (z2b n)) 0x80) else z2b n in
  Z.land (b2z h) 0x7f = n /\ (Z.land (b2z h) 0x80 =? 0x80) = b.
Proof.
  intros Hn.
  assert (forallb (fun i =>
      let n := Z.of_nat i in
      let h := z2b (Z.lor (b2z (z2b n)) 0x80) in
      (Z.land (b2z h) 0x7f =? n) && (Z.land (b2z h) 0x80 =? 0x80) &&
      (Z.land (b2z (z2b n)) 0x7f =? n) && negb (Z.land (b2z (z2b n)) 0x80 =? 0x80))
      (seq 0 128) = true) as F by (vm_compute; reflexivity).
  rewrite forallb_forall in F. specialize (F (Z.to_nat n)). rewrite Z2Nat.id in F by lia.
  cbn zeta in F. rewrite !andb_true_iff, negb_true_iff, !Z.eqb_eq in F.
  destruct F as [[[F1 F2] F3] F4]; [apply in_seq; lia|].
  destruct b; cbn zeta; split; try assumption. by apply Z.eqb_eq.
Qed.

Lemma ReadFull_1 s b rest :
  concat s = b :: rest -> exists s', ReadFull stream_read 1 s = (s', [b], None) /\ concat s' = rest.
Proof.
  intros E. destruct (ReadFull_stream 1 s) as (s' & H1 & H2).
  - rewrite E. cbn. lia.
  - exists s'. rewrite E in H1, H2. cbn in H1, H2. rewrite drop_0 in H2. split; [exact H1|exact H2].
Qed.

Lemma ReadFull_app n s pre rest :
  concat s = pre ++ rest -> n = length pre ->
  exists s', ReadFull stream_read n s = (s', pre, None) /\ concat s' = rest.
Proof.
  intros E Hn. destruct (ReadFull_stream n s) as (s' & H1 & H2).
  - rewrite E, length_app. lia.
  - exists s'. rewrite H1, H2, E. subst n. by rewrite take_app_length, drop_app_length.
Qed.

(** A reader that does as the stream for reads of at most [l] bytes. *)
Definition reads_like_stream (rd : read_fn) (l : Z) : Prop :=
  forall n s, Z.of_nat n <= l -> ReadFull rd n s = ReadFull stream_read n s.

Lemma DecodeWithLen_encoding rd p s rest :
  reads_like_stream rd (EncodedLen p true) ->
  wf p = true -> concat s = encoding p true ++ rest ->
  exists s', DecodeWithLen rd (IsBinary p) (EncodedLen p true) s = (s', Ret p) /\
    concat s' = rest.
Proof.
  intros HR Hwf E. unfold DecodeWithLen.
  pose proof (EncodedLen_nonneg p true). destruct (Z.ltb_spec (EncodedLen p true) 0); [lia|].
  destruct (ReadFull_app (Z.to_nat (EncodedLen p true)) s (encoding p true) rest E) as (s' & H1 & H2).
  { rewrite EncodedLen_encoding. lia. }
  rewrite HR, H1 by lia. exists s'. split; [|exact H2]. f_equal.
  pose proof (decode_encoding p true Hwf) as D. by rewrite andb_true_r in D.
Qed.

Lemma frame_header_cons n b :
  exists m t, frame_header n b = (if b then z2b (Z.lor (b2z (z2b m)) 0x80) else z2b m) :: t /\
    (n < 126 /\ m = n /\ t = [] \/
     126 <= n < 65536 /\ m = 126 /\ t = be_encode 2 (wrap_u 16 n) \/
     65536 <= n /\ m = 127 /\ t = be_encode 8 (wrap_u 64 n)).
Proof.
  unfold frame_header. destruct (Z.ltb_spec n 126).
  - exists n, []. split; [by destruct b|]. left. done.
  - destruct (Z.ltb_spec n 65536).
    + exists 126, (be_encode 2 (wrap_u 16 n)). split; [by destruct b|]. right. left. repeat split; lia.
    + exists 127, (be_encode 8 (wrap_u 64 n)). split; [by destruct b|]. right. right. repeat split; lia.
Qed.

(** A frame at the beginning of a stream is read back, and the stream is left after it. *)
Lemma nextPacket_frame rd p (s : stream) (rest : bytes) :
  reads_like_stream rd (Z.max 2 (EncodedLen p true)) ->
  wf p = true -> EncodedLen p true < 65536 -> concat s = frame p ++ rest ->
  exists s', nextPacket rd s = (s', Ret p) /\ concat s' = rest.
Proof.
  intros HR Hwf Hlen. unfold frame.
  assert (reads_like_stream rd (EncodedLen p true)) as HR' by (intros n s0 Hn; apply HR; lia).
  pose proof (EncodedLen_nonneg p true) as Hpos.
  destruct (frame_header_cons (EncodedLen p true) (IsBinary p)) as (m & t & -> & Hm).
  intros Hs. cbn [app] in Hs. destruct (ReadFull_1 _ _ _ Hs) as (s1 & H1 & Hs1).
  unfold nextPacket. rewrite HR, H1 by lia. cbn [nextPacket_loop].
  destruct (header_byte m (IsBinary p) ltac:(lia)) as [E1 E2]. cbn zeta in E1, E2.
  rewrite E1, E2.
  destruct Hm as [(Hm & -> & ->)|[(Hm & -> & ->)|(Hm & _)]]; [| |lia].
  - destruct (Z.ltb_spec (EncodedLen p true) 126); [|lia]. by apply DecodeWithLen_encoding.
  - destruct (ReadFull_app 2 s1 (be_encode 2 (wrap_u 16 (EncodedLen p true))) (encoding p true ++ rest))
      as (s2 & H2 & Hs2).
    + rewrite Hs1. by rewrite <- app_assoc.
    + by rewrite be_encode_length.
    + change (126 <? 126) with false. change (126 =? 126) with true. cbv iota.
      rewrite HR, H2, be_decode_encode, wrap_u_small by lia.
      rewrite Z.mod_small by lia. by apply DecodeWithLen_encoding.
Qed.

(** ** Properties *)

(** The round trip of a frame. A packet whose encoding is shorter than 64 KiB,
    is sent to a buffer without an error, and read back from any stream that holds
    the bytes sent and then anything else, in chunks of whatever sizes, it is the
    packet sent, with the stream left exactly after the frame. *)
Theorem frame_roundtrip p :
  wf p = true -> EncodedLen p true < 65536 ->
  exists out, send (E := unit) p [] = (out, None) /\
    forall (s : stream) (rest : bytes), concat s = out ++ rest ->
      exists s', nextPacket stream_read s = (s', Ret p) /\ concat s' = rest.
Proof.
  intros Hwf Hlen. rewrite send_buffer. eexists. split; [reflexivity|].
  intros s rest Hs. by apply nextPacket_frame.
Qed.

Lemma frame_roundtrip_witness :
  let p := mkPacket true PacketTypeMessage [x01; x02; xff] in
  exists out, send (E := unit) p [] = (out, None) /\
    forall (s : stream) (rest : bytes), concat s = out ++ rest ->
      exists s', nextPacket stream_read s = (s', Ret p) /\ concat s' = rest.
Proof.
  apply (frame_roundtrip (mkPacket true PacketTypeMessage [x01; x02; xff])).
  - reflexivity.
  - vm_compute. reflexivity.
Defined.

(** A frame of three bytes, cut in the middle and followed by the next one. *)
Example frame_cut :
  nextPacket stream_read [[x83; x01]; [x02; xff; x07]] =
    ([[x07]], Ret (mkPacket true PacketTypeMessage [x01; x02; xff])).
Proof. vm_compute. reflexivity. Qed.

(** Frames of 64 KiB and more are misread. The sender writes the length in
    eight bytes, the receiver looks at the first four of them, which are zero
    below 4 GiB: it takes the frame to be empty, delivers an empty binary packet
    (or fails on a text one), and leaves the whole payload in the stream, to be
    read as the next frames. *)
Theorem frame_long_desync p (s : stream) (out rest : bytes) :
  65536 <= EncodedLen p true < 2 ^ 32 ->
  send (E := unit) p [] = (out, None) -> concat s = out ++ rest ->
  exists s',
    nextPacket stream_read s =
      (s', if IsBinary p then Ret (mkPacket true PacketTypeMessage [])
           else Err errInvalidPacketSize) /\
    concat s' = encoding p true ++ rest.
Proof.
  intros Hlen. rewrite send_buffer. intros [= <-]. cbn [app]. unfold frame.
  destruct (frame_header_cons (EncodedLen p true) (IsBinary p)) as (m & t & -> & Hm).
  intros Hs. cbn [app] in Hs. destruct (ReadFull_1 _ _ _ Hs) as (s1 & H1 & Hs1).
  unfold nextPacket. rewrite H1. cbn [nextPacket_loop].
  destruct Hm as [(Hm & _)|[(Hm & _)|(_ & -> & ->)]]; [lia|lia|].
  destruct (header_byte 127 (IsBinary p) ltac:(lia)) as [E1 E2]. cbn zeta in E1, E2.
  rewrite E1, E2.
  destruct (ReadFull_app 8 s1 (be_encode 8 (wrap_u 64 (EncodedLen p true))) (encoding p true ++ rest))
    as (s2 & H2 & Hs2).
  { rewrite Hs1. by rewrite <- app_assoc. }
  { by rewrite be_encode_length. }
  change (127 <? 126) with false. change (127 =? 126) with false. cbv iota.
  rewrite H2.
  assert (be_decode (take 4 (be_encode 8 (wrap_u 64 (EncodedLen p true)))) = 0) as ->.
  { rewrite wrap_u_small by lia.
    change (be_encode 8 (EncodedLen p true)) with
      ((((be_encode 4 (EncodedLen p true / 256 / 256 / 256 / 256)
        ++ [z2b (EncodedLen p true / 256 / 256 / 256)]) ++ [z2b (EncodedLen p true / 256 / 256)])
        ++ [z2b (EncodedLen p true / 256)]) ++ [z2b (EncodedLen p true)]).
    rewrite <- !app_assoc, take_app_le by (rewrite be_encode_length; lia).
    rewrite take_ge by (rewrite be_encode_length; lia).
    rewrite be_decode_encode. rewrite !Z.div_div by lia.
    rewrite Z.div_small by lia. reflexivity. }
  exists s2. split; [|exact Hs2]. by destruct (IsBinary p).
Qed.

(** The hypotheses of [frame_long_desync] hold for a packet of 65536 bytes. *)
Lemma frame_long_desync_witness :
  let p := mkPacket true PacketTypeMessage (repeat x07 (Z.to_nat 65536)) in
  exists s', nextPacket stream_read [frame p] = (s', Ret (mkPacket true PacketTypeMessage [])) /\
    concat s' = encoding p true ++ [].
Proof.
  cbn zeta.
  apply (frame_long_desync (mkPacket true PacketTypeMessage (repeat x07 (Z.to_nat 65536)))
           [frame (mkPacket true PacketTypeMessage (repeat x07 (Z.to_nat 65536)))]
           (frame (mkPacket true PacketTypeMessage (repeat x07 (Z.to_nat 65536)))) []).
  - unfold EncodedLen. cbn [IsBinary Data]. rewrite repeat_length. lia.
  - by rewrite send_buffer.
  - reflexivity.
Defined.

Lemma limited_first_chunk limit n c s :
  (n <= length c)%nat ->
  ReadFull (limitedReader_Read limit) n (c :: s) = ReadFull stream_read n (c :: s).
Proof.
  intros Hn. unfold ReadFull. cbn [length ReadAtLeast]. destruct n as [|n]; [reflexivity|].
  unfold limitedReader_Read. cbn [stream_read].
  assert ((S n <= length (take (S n) c))%nat) as HL by (rewrite length_take; lia).
  destruct (Nat.ltb_spec (S n) (length c)) as [H|H].
  - destruct (limit <? _)%Z.
    + destruct (Nat.leb_spec (S n) (length (take (S n) c))); [|lia].
      rewrite length_take, Nat.min_l, Nat.sub_diag by lia. reflexivity.
    + rewrite length_take, Nat.min_l, Nat.sub_diag by lia. reflexivity.
  - assert (S n = length c) as E by lia. rewrite E, Nat.sub_diag. destruct (limit <? _)%Z.
    + by rewrite Nat.leb_refl.
    + reflexivity.
Qed.

(** Reads of at most the limit are not affected by it. *)
Lemma limited_reads_like_stream limit l : l <= limit -> reads_like_stream (limitedReader_Read limit) l.
Proof.
  intros Hl n s Hn. unfold ReadFull. generalize (@nil byte) as acc. generalize (S (length s)) as fuel.
  assert (Z.of_nat n <= limit) as Hn' by lia. clear Hn. revert n s Hn'.
  intros n s Hn fuel. revert n s Hn. induction fuel as [|fuel IH]; intros n s Hn acc; [done|].
  destruct n as [|n]; [done|]. cbn [ReadAtLeast]. unfold limitedReader_Read at 1.
  assert (length (stream_read (S n) s).1.2 <= S n)%nat as HL.
  { destruct s as [|c s]; cbn [stream_read]; [cbn; lia|].
    destruct (Nat.ltb_spec (S n) (length c)); cbn [fst snd]; [rewrite length_take|]; lia. }
  destruct (stream_read (S n) s) as [[s' b] err]. cbn in HL.
  destruct (Z.ltb_spec limit (Z.of_nat (length b))); [lia|]. destruct err; [done|]. apply IH. lia.
Qed.

(** The read limit does not limit. The limited reader reports
    [ErrLimitReached] together with the bytes it has read, and [io.ReadFull]
    drops an error that comes with the last bytes it needs: a read of any size
    that the next chunk can satisfy succeeds under every limit. *)
Theorem read_limit_unenforced limit n c s :
  (n <= length c)%nat ->
  exists s', ReadFull (limitedReader_Read limit) n (c :: s) = (s', take n c, None) /\
    concat s' = drop n c ++ concat s.
Proof.
  intros Hn. rewrite limited_first_chunk by exact Hn.
  destruct (ReadFull_stream n (c :: s)) as (s' & H1 & H2).
  { cbn. rewrite length_app. lia. }
  exists s'. rewrite H1, H2. cbn [concat]. by rewrite take_app_le, drop_app_le by lia.
Qed.

Lemma read_limit_unenforced_witness :
  exists s', ReadFull (limitedReader_Read 2) 5 [repeat x41 10] = (s', repeat x41 5, None) /\
    concat s' = drop 5 (repeat x41 10) ++ [].
Proof. apply (read_limit_unenforced 2 5 (repeat x41 10) []). cbn. lia. Defined.

(** Disabling the limit disables long reads. With [DisableMaxBufferSize]
    the limit is 0, and a zero limit is not treated as "none": whenever the
    first chunk is non-empty and too short for the read, the read fails with
    [ErrLimitReached]. *)
Theorem zero_limit_rejects n c s :
  (0 < length c < n)%nat ->
  ReadFull (limitedReader_Read 0) n (c :: s) = (s, c, Some ErrLimitReached).
Proof.
  intros Hc. unfold ReadFull. cbn [length ReadAtLeast]. destruct n as [|n]; [lia|].
  unfold limitedReader_Read. cbn [stream_read].
  destruct (Nat.ltb_spec (S n) (length c)); [lia|].
  destruct (Z.ltb_spec 0 (Z.of_nat (length c))); [|lia].
  destruct (Nat.leb_spec (S n) (length c)); [lia|]. reflexivity.
Qed.

Lemma zero_limit_rejects_witness :
  ReadFull (limitedReader_Read 0) 5 [[x41; x42]; [x43; x44; x45]] =
  ([[x43; x44; x45]], [x41; x42], Some ErrLimitReached).
Proof. apply (zero_limit_rejects 5 [x41; x42] [[x43; x44; x45]]). cbn. lia. Defined.

End webtransport.
