(* ===== verification/Strconv.v ===== *)
(** * [strconv]: decimal numbers

    [strconv.Itoa], [strconv.FormatUint(x, 10)] and [strconv.ParseUint(s, 10, 0)]
    as the Socket.IO header codec uses them, with the round trip. *)

From S2P Require Import Prelude.

#[local] Open Scope Z_scope.

Definition digit (d : Z) : byte := z2b (48 + d).

Definition is_digit (c : byte) : bool := (48 <=? b2z c) && (b2z c <=? 57).

(** The digits of [n], most significant first, in front of [acc]. *)
Fixpoint format_digits (fuel : nat) (n : Z) (acc : bytes) : bytes :=
  match fuel with
  | O => acc
  | S fuel =>
      if n <? 10 then digit n :: acc
      else format_digits fuel (n / 10) (digit (n mod 10) :: acc)
  end.

(** Twenty digits hold every 64-bit number. *)
Definition FormatUint (n : Z) : bytes := format_digits 20 n [].

Definition Itoa (n : Z) : bytes :=
  if n <? 0 then "-"%byte :: format_digits 20 (- n) [] else format_digits 20 n [].

Inductive num_error := ErrSyntax | ErrRange.

(** The loop of [ParseUint]: the digit check comes before the overflow check, and
    both stop the scan. *)
Fixpoint ParseUint_loop (n : Z) (s : bytes) : Z + num_error :=
  match s with
  | [] => inl n
  | c :: s' =>
      if is_digit c then
        let n1 := n * 10 + (b2z c - 48) in
        if max_uint64 <? n1 then inr ErrRange else ParseUint_loop n1 s'
      else inr ErrSyntax
  end.

Definition ParseUint (s : bytes) : Z + num_error :=
  match s with
  | [] => inr ErrSyntax
  | _ => ParseUint_loop 0 s
  end.

(** ** Round trip *)

Lemma b2z_digit d : 0 <= d < 10 -> b2z (digit d) = 48 + d.
Proof. intros H. unfold digit. apply b2z_z2b_small. lia. Qed.

Lemma is_digit_digit d : 0 <= d < 10 -> is_digit (digit d) = true.
Proof. intros H. unfold is_digit. rewrite b2z_digit by exact H. lia. Qed.

Lemma format_digits_digits fuel n acc :
  0 <= n -> forallb is_digit acc = true -> forallb is_digit (format_digits fuel n acc) = true.
Proof.
  revert n acc. induction fuel as [|fuel IH]; intros n acc Hn Ha; cbn [format_digits]; [exact Ha|].
  destruct (Z.ltb_spec n 10).
  - cbn. rewrite is_digit_digit by lia. exact Ha.
  - apply IH; [apply Z.div_pos; lia|]. cbn. rewrite is_digit_digit; [exact Ha|].
    apply Z.mod_pos_bound. lia.
Qed.

Lemma format_digits_nonempty fuel n acc : (0 < fuel)%nat -> format_digits fuel n acc <> [].
Proof.
  revert n acc. induction fuel as [|fuel IH]; intros n acc Hf; [lia|]. cbn.
  destruct (n <? 10); [discriminate|]. destruct fuel as [|fuel]; [cbn; discriminate|].
  apply IH. lia.
Qed.

(** Parsing the digits of [n] after a prefix worth [m] gives [m * 10^k + n]. *)
Lemma parse_format fuel n acc :
  (0 < fuel)%nat -> 0 <= n < 10 ^ Z.of_nat fuel -> n <= max_uint64 ->
  ParseUint_loop 0 (format_digits fuel n acc) = ParseUint_loop n acc.
Proof.
  revert n acc. induction fuel as [|fuel IH]; intros n acc Hf Hn Hm; [lia|]. cbn [format_digits].
  unfold max_uint64 in *.
  destruct (Z.ltb_spec n 10).
  - cbn [ParseUint_loop]. rewrite is_digit_digit, b2z_digit by lia.
    unfold max_uint64. destruct (Z.ltb_spec (2 ^ 64 - 1) (0 * 10 + (48 + n - 48))); [lia|].
    f_equal. lia.
  - destruct fuel as [|fuel]; [cbn in Hn; lia|].
    rewrite Nat2Z.inj_succ, Z.pow_succ_r in Hn by lia.
    rewrite IH; [|lia| |].
    + cbn [ParseUint_loop]. pose proof (Z.mod_pos_bound n 10 ltac:(lia)).
      rewrite is_digit_digit, b2z_digit by lia.
      replace (n / 10 * 10 + (48 + n mod 10 - 48)) with n
        by (pose proof (Z.div_mod n 10 ltac:(lia)); lia).
      unfold max_uint64. destruct (Z.ltb_spec (2 ^ 64 - 1) n); [lia|]. reflexivity.
    + split; [apply Z.div_pos; lia|]. apply Z.div_lt_upper_bound; lia.
    + apply (Z.le_trans _ n); [|lia]. apply Z.div_le_upper_bound; lia.
Qed.

Lemma FormatUint_digits n : 0 <= n -> forallb is_digit (FormatUint n) = true.
Proof. intros Hn. by apply format_digits_digits. Qed.

Lemma FormatUint_nonempty n : FormatUint n <> [].
Proof. apply format_digits_nonempty. lia. Qed.

Lemma ParseUint_FormatUint n : 0 <= n <= max_uint64 -> ParseUint (FormatUint n) = inl n.
Proof.
  intros Hn. unfold ParseUint. pose proof (FormatUint_nonempty n).
  destruct (FormatUint n) as [|c s] eqn:E; [done|]. rewrite <- E.
  unfold FormatUint. rewrite parse_format; [reflexivity|lia| |lia].
  unfold max_uint64 in Hn. lia.
Qed.

Lemma Itoa_FormatUint n : 0 <= n -> Itoa n = FormatUint n.
Proof. intros Hn. unfold Itoa. destruct (Z.ltb_spec n 0); [lia|reflexivity]. Qed.

Lemma ParseUint_range s n : ParseUint s = inl n -> 0 <= n <= max_uint64.
Proof.
  unfold ParseUint. destruct s as [|c s]; [discriminate|].
  assert (forall s m, 0 <= m <= max_uint64 -> ParseUint_loop m s = inl n -> 0 <= n <= max_uint64) as H.
  { clear. intros s. induction s as [|c s IH]; intros m Hm; cbn [ParseUint_loop].
    - by intros [= <-].
    - destruct (is_digit c) eqn:Ed; [|discriminate].
      destruct (Z.ltb_spec max_uint64 (m * 10 + (b2z c - 48))); [discriminate|].
      apply IH. unfold is_digit in Ed. lia. }
  apply H. unfold max_uint64. lia.
Qed.
