(* ===== verification/SioPacket.v ===== *)
(** * Socket.IO packet headers ([parser/packet.go]) *)

From S2P Require Import Prelude.

Module parser.

Inductive PacketType :=
| PacketTypeConnect
| PacketTypeDisconnect
| PacketTypeEvent
| PacketTypeAck
| PacketTypeConnectError
| PacketTypeBinaryEvent
| PacketTypeBinaryAck.

#[export] Instance PacketType_eq_decision : EqDecision PacketType.
Proof. solve_decision. Defined.

Definition PacketType_num (t : PacketType) : Z :=
  match t with
  | PacketTypeConnect => 0
  | PacketTypeDisconnect => 1
  | PacketTypeEvent => 2
  | PacketTypeAck => 3
  | PacketTypeConnectError => 4
  | PacketTypeBinaryEvent => 5
  | PacketTypeBinaryAck => 6
  end.

Definition packetTypeMax : Z := PacketType_num PacketTypeBinaryAck.

Definition PacketType_of_num (z : Z) : option PacketType :=
  [PacketTypeConnect; PacketTypeDisconnect; PacketTypeEvent; PacketTypeAck;
   PacketTypeConnectError; PacketTypeBinaryEvent; PacketTypeBinaryAck] !! Z.to_nat z.

Definition ToChar (p : PacketType) : byte := z2b (PacketType_num p + 48).

(** [None] is [errInvalidPacketType]. *)
Definition FromChar (b : byte) : option PacketType :=
  if ((b2z b <? 48) || (48 + packetTypeMax <? b2z b))%Z then None
  else PacketType_of_num (b2z b - 48).

(** [ID] is a pointer to a [uint64], [Attachments] an [int]. *)
Record PacketHeader := mkPacketHeader {
  Typ : PacketType;
  Namespace : string;
  ID : option Z;
  Attachments : Z;
}.

#[export] Instance PacketHeader_eq_decision : EqDecision PacketHeader.
Proof. solve_decision. Defined.

Definition IsBinary (p : PacketHeader) : bool :=
  bool_decide (Typ p = PacketTypeBinaryEvent) || bool_decide (Typ p = PacketTypeBinaryAck).

Definition IsEvent (p : PacketHeader) : bool :=
  bool_decide (Typ p = PacketTypeEvent) || bool_decide (Typ p = PacketTypeBinaryEvent).

Definition IsAck (p : PacketHeader) : bool :=
  bool_decide (Typ p = PacketTypeAck) || bool_decide (Typ p = PacketTypeBinaryAck).

Lemma sio_FromChar_ToChar t : FromChar (ToChar t) = Some t.
Proof. by destruct t. Qed.

End parser.
