(* ===== verification/JsonHeader.v ===== *)
(** * The Socket.IO header codec ([encodeString] and [parseHeader] of [parser/json])

    [encodeString] ([parser/json/encode.go]) prints a packet header and its JSON
    text, [parseHeader] ([parser/json/decode.go]) reads them back. The JSON
    serializer is the interface of [parser/json/serializer]: a parameter. *)

From S2P Require Import Prelude Strconv SioPacket.
Import parser.

(** The two operations of [serializer.JSONSerializer] that the header codec calls,
    over the values [V] a program sends: [NewEncoder(&buf).Encode(v)], giving what
    it writes, and [Unmarshal(data, &v)] with [v] a [[]string]. [None] is an error. *)
Class JSONSerializer (V : Type) := {
  json_Encode : V -> option bytes;
  json_UnmarshalStrings : bytes -> option (list string);
}.

Module jsonparser.

Inductive error :=
| errInvalidPacketSize
| errMalformedPacket
| errInvalidPacketType
| errNum (e : num_error)
| errJSON
| errNumBuffers
| errMaxAttachmentsExceeded
| errNilArgument
| errNonPtrArgument
| errBinaryCannotBeAPtr
| errNonSettableValue
| errInvalidPlaceholderNumValue
| errInvalidNumberOfBuffers.

Section header.
Context {V : Type} `{JSONSerializer V}.

(** ** Printing *)

(** Everything [encodeString] writes before the JSON text. *)
Definition header_text (header : PacketHeader) : bytes :=
  ToChar (Typ header) ::
  (if IsBinary header then Itoa (Attachments header) ++ ["-"%byte] else []) ++
  (if negb (bool_decide (Namespace header = "")) && negb (bool_decide (Namespace header = "/"))
   then to_bytes (Namespace header) ++ [","%byte] else []) ++
  (match ID header with Some id => FormatUint id | None => [] end).

(** [if len(b) != 0 && b[len(b)-1] == '\n' { b = b[:len(b)-1] }] *)
Definition remove_newline (b : bytes) : bytes :=
  match last b with
  | Some c => if Byte.eqb c x0a then take (length b - 1) b else b
  | None => b
  end.

(** [v = None] is the placeholder [_empty], for which no JSON is written. *)
Definition encodeString (header : PacketHeader) (v : option V) : outcome error bytes :=
  match v with
  | None => Ret (header_text header)
  | Some v =>
      match json_Encode v with
      | None => Err errJSON
      | Some written => Ret (remove_newline (header_text header ++ written))
      end
  end.

(** ** Parsing *)

Definition is_not (c : byte) (x : byte) : bool := negb (Byte.eqb x c).

(** The attachment count of a binary packet: what is before the first ['-'], then the
    data after it; when nothing is after it, the data keeps the ['-']. *)
Definition parse_attachments (data : bytes) : outcome error (Z * bytes) :=
  match span (is_not "-"%byte) data with
  | (_, []) => Err errMalformedPacket
  | (digits, dash :: rest) =>
      match ParseUint digits with
      | inr e => Err (errNum e)
      | inl attachments =>
          Ret (wrap_s 64 attachments, match rest with [] => [dash] | _ => rest end)
      end
  end.

(** The namespace, up to the first comma; [data = data[i+1:]] panics when there is
    none. *)
Definition parse_namespace (data : bytes) : outcome error (string * bytes) :=
  match data with
  | c :: _ =>
      if Byte.eqb c "/"%byte then
        match span (is_not ","%byte) data with
        | (_, []) => Panic SliceBounds
        | (nsp, _ :: rest) => Ret (of_bytes nsp, rest)
        end
      else Ret ("/"%string, data)
  | [] => Ret ("/"%string, data)
  end.

Definition parse_id (data : bytes) : outcome error (option Z * bytes) :=
  match data with
  | c :: _ =>
      if is_digit c then
        let '(digits, rest) := span is_digit data in
        match ParseUint digits with
        | inr e => Err (errNum e)
        | inl num => Ret (Some num, rest)
        end
      else Ret (None, data)
  | [] => Ret (None, data)
  end.

(** The loop over [end]: the bytes before the first double quote whose predecessor
    [data[end-1]] (here [prev]) is not a backslash. *)
Fixpoint scan_close (prev : byte) (data : bytes) : option bytes :=
  match data with
  | [] => None
  | c :: data' =>
      if Byte.eqb c x22 && negb (Byte.eqb prev x5c) then Some []
      else s ← scan_close c data'; Some (c :: s)
  end.

Definition parse_event_name (data : bytes) : outcome error string :=
  match span (is_not x22) data with
  | (_, []) => Err errMalformedPacket
  | (_, quote :: rest) =>
      match scan_close quote rest with
      | None => Err errMalformedPacket
      | Some name =>
          let tmp := "["%byte :: quote :: name ++ [x22; "]"%byte] in
          match json_UnmarshalStrings tmp with
          | None => Err errJSON
          | Some [eventName] => Ret eventName
          | Some _ => Err errMalformedPacket
          end
      end
  end.

Definition parseHeader (data : bytes) : outcome error (PacketHeader * bytes * string) :=
  match data with
  | [] => Err errInvalidPacketSize
  | c :: data =>
      match FromChar c with
      | None => Err errInvalidPacketType
      | Some typ =>
          let isBinary := IsBinary (mkPacketHeader typ "" None 0) in
          let isEvent := IsEvent (mkPacketHeader typ "" None 0) in
          '(attachments, data) ← (if isBinary then parse_attachments data else Ret (0%Z, data));
          '(namespace, data) ← parse_namespace data;
          '(id, data) ← parse_id data;
          eventName ← (if isEvent then parse_event_name data else Ret ""%string);
          Ret (mkPacketHeader typ namespace id attachments, data, eventName)
      end
  end.

(** ** Well-formed headers and texts *)

(** A namespace as [Server.Of] and [Manager.socket] normalise it, without a comma. *)
Definition wf_namespace (nsp : string) : bool :=
  match to_bytes nsp with
  | c :: rest => Byte.eqb c "/"%byte && forallb (is_not ","%byte) rest
  | [] => true
  end.

Definition wf_header (h : PacketHeader) : bool :=
  wf_namespace (Namespace h) &&
  (match ID h with Some id => (0 <=? id)%Z && (id <=? max_uint64)%Z | None => true end) &&
  (if IsBinary h then (0 <=? Attachments h)%Z && (Attachments h <=? max_int64)%Z
   else (Attachments h =? 0)%Z).

(** What [parseHeader] gives for the namespace: the empty one is ["/"]. *)
Definition normalize (h : PacketHeader) : PacketHeader :=
  mkPacketHeader (Typ h) (if bool_decide (Namespace h = "") then "/"%string else Namespace h)
    (ID h) (Attachments h).

(** A JSON text that starts as an array, an object or a string does; packets carry
    arrays or objects. *)
Definition opens_json (text : bytes) : bool :=
  match text with
  | c :: _ => Byte.eqb c "["%byte || Byte.eqb c "{"%byte
  | [] => false
  end.

(** The inside of a JSON string as [scan_close] understands it: no quote that is
    not preceded by a backslash, and no backslash at the end. *)
Fixpoint scannable (prev : byte) (name : bytes) : bool :=
  match name with
  | [] => negb (Byte.eqb prev x5c)
  | c :: name' => negb (Byte.eqb c x22 && negb (Byte.eqb prev x5c)) && scannable c name'
  end.

(** The text of an event [name]: an array whose first element is the JSON string
    [esc] of the name. *)
Definition event_text (name : string) (text : bytes) : Prop :=
  exists esc rest,
    text = "["%byte :: x22 :: esc ++ x22 :: rest /\
    scannable x22 esc = true /\
    json_UnmarshalStrings ("["%byte :: x22 :: esc ++ [x22; "]"%byte]) = Some [name].

(** ** Lemmas *)

Lemma last_cons_snoc (l : bytes) c : last (l ++ [c]) = Some c.
Proof. apply last_snoc. Qed.

Lemma remove_newline_snoc b : remove_newline (b ++ [x0a]) = b.
Proof.
  unfold remove_newline. rewrite last_snoc. cbn [Byte.eqb].
  rewrite byte_eqb_refl, length_app. cbn [length].
  replace (length b + 1 - 1) with (length b) by lia. apply take_app_length.
Qed.

Lemma scan_close_scannable prev esc rest :
  scannable prev esc = true -> scan_close prev (esc ++ x22 :: rest) = Some esc.
Proof.
  revert prev. induction esc as [|c esc IH]; intros prev; cbn [scannable scan_close app].
  - intros Hp. by rewrite byte_eqb_refl, Hp.
  - intros [Hc Hs]%andb_prop. apply negb_true_iff in Hc. rewrite Hc, IH by exact Hs. reflexivity.
Qed.

Lemma parse_event_name_text name text : event_text name text -> parse_event_name text = Ret name.
Proof.
  intros (esc & rest & -> & Hs & Hu). unfold parse_event_name.
  cbn [span is_not]. cbn [negb Byte.eqb]. unfold is_not at 1. cbn.
  rewrite scan_close_scannable by exact Hs. by rewrite Hu.
Qed.

Lemma digits_no_dash l : forallb is_digit l = true -> forallb (is_not "-"%byte) l = true.
Proof.
  intros Hl. rewrite forallb_forall in Hl |- *. intros c Hc. specialize (Hl c Hc).
  unfold is_not. destruct (Byte.eqb c "-") eqn:E; [|reflexivity].
  apply byte_eqb_eq in E as ->. discriminate.
Qed.

Lemma parse_attachments_text n rest :
  (0 <= n <= max_int64)%Z -> rest <> [] ->
  parse_attachments (Itoa n ++ "-"%byte :: rest) = Ret (n, rest).
Proof.
  intros Hn Hr. unfold parse_attachments. rewrite Itoa_FormatUint by lia.
  unfold max_int64 in Hn.
  rewrite span_app; [|apply digits_no_dash, FormatUint_digits; lia|reflexivity].
  rewrite ParseUint_FormatUint by (unfold max_uint64; lia).
  rewrite wrap_s_small by lia. by destruct rest.
Qed.

Lemma parse_namespace_text nsp rest :
  wf_namespace nsp = true -> nsp <> ""%string ->
  parse_namespace (to_bytes nsp ++ ","%byte :: rest) = Ret (nsp, rest).
Proof.
  unfold wf_namespace, parse_namespace. intros Hw Hne.
  destruct (to_bytes nsp) as [|c l] eqn:E.
  { exfalso. apply Hne. by rewrite <- (of_to_bytes nsp), E. }
  apply andb_prop in Hw as [Hc Hl]. cbn [app]. rewrite Hc.
  change (c :: l ++ ","%byte :: rest) with ((c :: l) ++ ","%byte :: rest).
  rewrite span_app; [|cbn; rewrite Hl; apply byte_eqb_eq in Hc as ->; reflexivity|reflexivity].
  f_equal. by rewrite <- E, of_to_bytes.
Qed.

Lemma parse_namespace_none rest :
  match rest with c :: _ => negb (Byte.eqb c "/"%byte) | [] => true end = true ->
  parse_namespace rest = Ret ("/"%string, rest).
Proof.
  unfold parse_namespace. destruct rest as [|c rest]; [reflexivity|].
  intros Hc. apply negb_true_iff in Hc. by rewrite Hc.
Qed.

Lemma opens_json_head text :
  opens_json text = true ->
  exists c l, text = c :: l /\ is_digit c = false /\ Byte.eqb c "/"%byte = false.
Proof.
  unfold opens_json. destruct text as [|c l]; [discriminate|].
  intros [E|E]%orb_prop; apply byte_eqb_eq in E as ->; eauto.
Qed.

Lemma parse_id_some id rest :
  (0 <= id <= max_uint64)%Z ->
  match rest with c :: _ => negb (is_digit c) | [] => true end = true ->
  parse_id (FormatUint id ++ rest) = Ret (Some id, rest).
Proof.
  intros Hid Hr. unfold parse_id.
  pose proof (FormatUint_nonempty id) as Hne. pose proof (FormatUint_digits id ltac:(lia)) as Hd.
  pose proof (ParseUint_FormatUint id Hid) as Hp.
  destruct (FormatUint id) as [|c l]; [done|]. cbn [app].
  pose proof Hd as Hd'. cbn in Hd'. apply andb_prop in Hd' as [Hc _]. rewrite Hc.
  change (c :: l ++ rest) with ((c :: l) ++ rest). rewrite span_app by (exact Hd || exact Hr).
  by rewrite Hp.
Qed.

Lemma parse_id_none rest :
  match rest with c :: _ => negb (is_digit c) | [] => true end = true ->
  parse_id rest = Ret (None, rest).
Proof.
  unfold parse_id. destruct rest as [|c rest]; [reflexivity|].
  intros Hc. apply negb_true_iff in Hc. by rewrite Hc.
Qed.

End header.

(** The part of the text after the type and the attachments. *)
Definition tail_text (h : PacketHeader) : bytes :=
  (if negb (bool_decide (Namespace h = "")) && negb (bool_decide (Namespace h = "/"))
   then to_bytes (Namespace h) ++ [","%byte] else []) ++
  (match ID h with Some id => FormatUint id | None => [] end).

Lemma header_text_tail h :
  header_text h =
  ToChar (Typ h) :: (if IsBinary h then Itoa (Attachments h) ++ ["-"%byte] else []) ++ tail_text h.
Proof. reflexivity. Qed.

Definition starts_plain (text : bytes) : bool :=
  match text with
  | c :: _ => negb (is_digit c) && negb (Byte.eqb c "/"%byte)
  | [] => true
  end.

Lemma tail_parse h text :
  wf_header h = true -> starts_plain text = true ->
  exists rest, parse_namespace (tail_text h ++ text) = Ret (Namespace (normalize h), rest) /\
    parse_id rest = Ret (ID h, text).
Proof.
  unfold wf_header, starts_plain. intros Hw Ht.
  apply andb_prop in Hw as [[Hn Hid]%andb_prop _].
  assert (match text with c :: _ => negb (is_digit c) | [] => true end = true) as Ht1.
  { destruct text; [reflexivity|]. by apply andb_prop in Ht as [? _]. }
  set (rest := match ID h with Some id => FormatUint id | None => [] end ++ text).
  assert (parse_id rest = Ret (ID h, text)) as Hpid.
  { subst rest. destruct (ID h) as [id|]; [|by apply parse_id_none].
    apply parse_id_some; [lia|exact Ht1]. }
  exists rest. split; [|exact Hpid].
  unfold tail_text, normalize. cbn [Namespace].
  destruct (negb (bool_decide (Namespace h = "")) && negb (bool_decide (Namespace h = "/"))) eqn:E.
  - rewrite <- !app_assoc. apply andb_prop in E as [E1 E2].
    apply negb_true_iff, bool_decide_eq_false in E1. rewrite bool_decide_eq_false_2 by exact E1.
    by apply parse_namespace_text.
  - cbn [app]. fold rest. rewrite parse_namespace_none.
    + f_equal. f_equal. apply andb_false_iff in E as [E|E]; apply negb_false_iff, bool_decide_eq_true in E;
        rewrite E; reflexivity.
    + subst rest. destruct (ID h) as [id|]; cbn [app].
      * pose proof (FormatUint_nonempty id). pose proof (FormatUint_digits id ltac:(lia)) as Hd.
        destruct (FormatUint id) as [|c l]; [done|]. cbn in Hd |- *.
        apply andb_prop in Hd as [Hc _]. destruct (Byte.eqb c "/") eqn:Ec; [|reflexivity].
        apply byte_eqb_eq in Ec as ->. discriminate.
      * destruct text; [reflexivity|]. by apply andb_prop in Ht as [_ ?].
Qed.

Lemma IsBinary_typ h : IsBinary (mkPacketHeader (Typ h) "" None 0) = IsBinary h.
Proof. reflexivity. Qed.

Section roundtrip.
Context {V : Type} `{JSONSerializer V}.

(** Reading a printed header in front of a text. *)
Lemma parseHeader_text h text :
  wf_header h = true -> starts_plain text = true -> (IsBinary h = true -> text <> []) ->
  parseHeader (header_text h ++ text) =
  eventName ← (if IsEvent h then parse_event_name text else Ret ""%string);
  Ret (normalize h, text, eventName).
Proof.
  intros Hw Ht Hb. rewrite header_text_tail. cbn [app parseHeader]. rewrite sio_FromChar_ToChar.
  destruct (tail_parse h text Hw Ht) as (rest & Hn & Hi).
  change (IsBinary (mkPacketHeader (Typ h) "" None 0)) with (IsBinary h).
  change (IsEvent (mkPacketHeader (Typ h) "" None 0)) with (IsEvent h).
  assert ((if IsBinary h
           then parse_attachments
             (((if IsBinary h then Itoa (Attachments h) ++ ["-"%byte] else []) ++ tail_text h) ++ text)
           else Ret (0%Z, ((if IsBinary h then Itoa (Attachments h) ++ ["-"%byte] else [])
             ++ tail_text h) ++ text)) = Ret (Attachments h, tail_text h ++ text)) as ->.
  { unfold wf_header in Hw. apply andb_prop in Hw as [_ Ha]. destruct (IsBinary h).
    - rewrite <- !app_assoc. cbn [app]. apply parse_attachments_text; [lia|].
      specialize (Hb eq_refl). destruct text; [done|]. by destruct (tail_text h).
    - cbn [app]. apply Z.eqb_eq in Ha. by rewrite Ha. }
  cbn [mbind outcome_bind]. rewrite Hn. cbn [mbind outcome_bind]. rewrite Hi.
  cbn [mbind outcome_bind]. destruct h; reflexivity.
Qed.
End roundtrip.

(** ** A serializer for witnesses: lists of strings without characters to escape *)

Fixpoint json_list (l : list string) : bytes :=
  match l with
  | [] => []
  | [s] => x22 :: to_bytes s ++ [x22]
  | s :: l' => (x22 :: to_bytes s ++ [x22; ","%byte]) ++ json_list l'
  end.

(** Reads [["..."]], one string without quotes or backslashes. *)
Definition plain_unmarshal (data : bytes) : option (list string) :=
  match data with
  | a :: b :: rest =>
      if Byte.eqb a "["%byte && Byte.eqb b x22 then
        match span (fun c => negb (Byte.eqb c x22) && negb (Byte.eqb c x5c)) rest with
        | (s, [q; z]) => if Byte.eqb q x22 && Byte.eqb z "]"%byte then Some [of_bytes s] else None
        | _ => None
        end
      else None
  | _ => None
  end.

Definition plain_serializer : JSONSerializer (list string) := {|
  json_Encode l := Some ("["%byte :: json_list l ++ ["]"%byte; x0a]);
  json_UnmarshalStrings := plain_unmarshal;
|}.

Section properties.
Context {V : Type} `{JSONSerializer V}.

(** C8: The round trip of a packet's text. For every header with a namespace as the
    servers and managers make them (a leading slash, no comma), an ack ID in
    range and, for a binary packet, an attachment count in range, and for a JSON
    serializer that writes the text of the value and a newline: [encodeString]
    succeeds and [parseHeader] of what it gives returns the header (with the empty namespace
    printed as ["/"]), the JSON text, and for an event the event's name. *)
Theorem encodeString_parseHeader h v text name :
  wf_header h = true ->
  json_Encode v = Some (text ++ [x0a]) -> opens_json text = true ->
  (if IsEvent h then event_text name text else name = ""%string) ->
  exists out, encodeString h (Some v) = Ret out /\
    parseHeader out = Ret (normalize h, text, name).
Proof.
  intros Hw Hj Ho Hname. unfold encodeString. rewrite Hj, app_assoc, remove_newline_snoc.
  eexists. split; [reflexivity|].
  destruct (opens_json_head _ Ho) as (c & l & -> & Hc1 & Hc2).
  rewrite parseHeader_text; [|exact Hw|cbn; by rewrite Hc1, Hc2|discriminate].
  destruct (IsEvent h).
  - by rewrite (parse_event_name_text _ _ Hname).
  - by subst name.
Qed.

(** The same for the packets without JSON text, such as DISCONNECT. *)
Theorem encodeString_empty_parseHeader h out :
  wf_header h = true -> IsBinary h = false -> IsEvent h = false ->
  encodeString h None = Ret out ->
  parseHeader out = Ret (normalize h, [], ""%string).
Proof.
  intros Hw Hb He Hout. unfold encodeString in Hout.
  assert (out = header_text h ++ []) as -> by (rewrite app_nil_r; congruence).
  rewrite parseHeader_text; [|exact Hw|reflexivity|congruence]. by rewrite He.
Qed.

Lemma parse_namespace_unterminated nsp :
  forallb (is_not ","%byte) nsp = true -> parse_namespace ("/"%byte :: nsp) = Panic SliceBounds.
Proof.
  intros Hn. unfold parse_namespace. rewrite byte_eqb_refl.
  rewrite <- (app_nil_r ("/"%byte :: nsp)), span_app; [reflexivity| |reflexivity]. cbn [forallb]. by rewrite Hn.
Qed.

(** An unterminated namespace panics. A packet of a non-binary type followed by
    a slash and no comma at all makes [parseHeader] slice past the end of its
    input: the text [0/admin], which any client can send, is a panic and not an
    error. *)
Theorem parseHeader_namespace_panic typ nsp :
  IsBinary (mkPacketHeader typ "" None 0) = false ->
  forallb (is_not ","%byte) nsp = true ->
  parseHeader (ToChar typ :: "/"%byte :: nsp) = Panic SliceBounds.
Proof.
  intros Hb Hn. unfold parseHeader. rewrite sio_FromChar_ToChar, Hb. cbn [mbind outcome_bind].
  by rewrite parse_namespace_unterminated.
Qed.

Definition unterminated (data : bytes) : Prop :=
  exists nsp, data = "/"%byte :: nsp /\ forallb (is_not ","%byte) nsp = true.

Lemma span_nil_all {A} (p : A -> bool) l x : span p l = (x, []) -> forallb p l = true.
Proof.
  revert x. induction l as [|a l IH]; intros x; cbn; [reflexivity|].
  destruct (p a) eqn:E; [|discriminate]. destruct (span p l) as [u v] eqn:Es.
  intros [= <- ->]. by apply (IH u).
Qed.

Lemma parse_namespace_panic data why :
  parse_namespace data = Panic why -> why = SliceBounds /\ unterminated data.
Proof.
  unfold parse_namespace. destruct data as [|c data]; [discriminate|].
  destruct (Byte.eqb c "/") eqn:Ec; [|discriminate]. apply byte_eqb_eq in Ec as ->.
  destruct (span _ _) as [x [|y rest]] eqn:Es; [|discriminate]. intros [= <-].
  split; [reflexivity|]. exists data. split; [reflexivity|].
  apply span_nil_all in Es. cbn in Es. exact Es.
Qed.

(** What stands between the type of a packet and its namespace: for a binary packet the number of attachments and a dash. *)
Definition count_text (binary : bool) (count : bytes) : Prop :=
  if binary then exists digits n, count = digits ++ ["-"%byte] /\ forallb is_digit digits = true /\ ParseUint digits = inl n
  else count = [].

Lemma ParseUint_digits_only s n : ParseUint s = inl n -> forallb is_digit s = true.
Proof.
  assert (forall s m, ParseUint_loop m s = inl n -> forallb is_digit s = true) as HL.
  { clear s. intros s. induction s as [|c s IH]; intros m; [done|]. cbn. destruct (is_digit c); [|discriminate].
    destruct (_ <? _)%Z; [discriminate|]. apply IH. }
  unfold ParseUint. destruct s; [discriminate|]. apply HL.
Qed.

(** Behind the number of attachments comes what the text has behind the dash, unless that is nothing. *)
Lemma parse_attachments_slash data n rest :
  parse_attachments data = Ret (n, "/"%byte :: rest) -> exists count, count_text true count /\ data = count ++ "/"%byte :: rest.
Proof.
  unfold parse_attachments. destruct (span _ data) as [digits [|dash behind]] eqn:Es; [discriminate|].
  assert (Byte.eqb dash "-"%byte = true) as ->%byte_eqb_eq.
  { clear -Es. revert digits Es. induction data as [|c data IH]; intros digits; cbn; [discriminate|]. unfold is_not at 1.
    destruct (Byte.eqb c "-"%byte) eqn:E; cbn; [by intros [= _ <- _]|]. destruct (span _ data) as [x y]. intros [= _ ->]. by eapply IH. }
  apply span_concat in Es as ->. destruct (ParseUint digits) as [m|] eqn:Ep; [|discriminate]. intros [= _ Hr].
  destruct behind as [|c behind]; [discriminate|]. injection Hr as -> ->.
  exists (digits ++ ["-"%byte]). split; [|by rewrite <- app_assoc]. exists digits, m. split; [done|]. split; [by eapply ParseUint_digits_only|done].
Qed.

Lemma parse_attachments_count count rest :
  count_text true count -> exists n, parse_attachments (count ++ "/"%byte :: rest) = Ret (n, "/"%byte :: rest).
Proof.
  intros (digits & n & -> & Hd & Hn). exists (wrap_s 64 n). unfold parse_attachments. rewrite <- app_assoc. cbn [app].
  rewrite span_app; [|by apply digits_no_dash|reflexivity]. by rewrite Hn.
Qed.

Lemma parse_attachments_no_panic data why : parse_attachments data <> Panic why.
Proof.
  unfold parse_attachments. destruct (span _ data) as [x [|y rest]]; [discriminate|].
  by destruct (ParseUint x).
Qed.

Lemma parse_id_no_panic data why : parse_id data <> Panic why.
Proof.
  unfold parse_id. destruct data as [|c data]; [discriminate|].
  destruct (is_digit c); [|discriminate]. destruct (span _ _) as [x y]. by destruct (ParseUint x).
Qed.

Lemma parse_event_name_no_panic data why : parse_event_name data <> Panic why.
Proof.
  unfold parse_event_name. destruct (span _ data) as [x [|y rest]]; [discriminate|].
  destruct (scan_close _ _); [|discriminate].
  by destruct (json_UnmarshalStrings _) as [[|? [|? ?]]|].
Qed.

(** C39: An unterminated namespace is the only panic, and always one. Whatever the serializer, [parseHeader] panics
    exactly on the texts that consist of the character of a packet type, for a binary type the decimal number of attachments
    and a dash, and then a slash and further bytes among which is no comma; the panic is that of slicing out of bounds. *)
Theorem parseHeader_panic_only data why :
  parseHeader data = Panic why <->
  why = SliceBounds /\ exists c typ count nsp, FromChar c = Some typ /\ count_text (IsBinary (mkPacketHeader typ "" None 0)) count /\
    data = c :: count ++ "/"%byte :: nsp /\ forallb (is_not ","%byte) nsp = true.
Proof.
  split.
  - destruct data as [|c data]; cbn [parseHeader]; [discriminate|].
    destruct (FromChar c) as [typ|] eqn:Ec; [|discriminate].
    intros [HP|([n data'] & Ha & HP)]%outcome_bind_Panic.
    { destruct (IsBinary _); [by apply parse_attachments_no_panic in HP|discriminate]. }
    apply outcome_bind_Panic in HP as [HP|([nsp data2] & Hn & HP)].
    { apply parse_namespace_panic in HP as [-> (nsp & -> & Hu)]. split; [reflexivity|]. exists c, typ.
      destruct (IsBinary _); [apply parse_attachments_slash in Ha as (count & Hc & ->)|injection Ha as _ ->]; [by exists count, nsp|].
      by exists [], nsp. }
    apply outcome_bind_Panic in HP as [HP|([id data3] & Hi & HP)]; [by apply parse_id_no_panic in HP|].
    apply outcome_bind_Panic in HP as [HP|(ev & He & HP)]; [|discriminate].
    destruct (IsEvent _); [by apply parse_event_name_no_panic in HP|discriminate].
  - intros (-> & c & typ & count & nsp & Hc & Hcount & -> & Hn). cbn [parseHeader]. rewrite Hc.
    destruct (IsBinary _).
    + destruct (parse_attachments_count count nsp Hcount) as (n & ->). cbn [mbind outcome_bind]. by rewrite parse_namespace_unterminated.
    + rewrite Hcount. cbn [app mbind outcome_bind]. by rewrite parse_namespace_unterminated.
Qed.

(** The attachment limit can be bypassed. The count is parsed as a 64-bit unsigned
    number and converted to a signed one, so a count of [2^63] or more becomes
    negative: no such count exceeds a positive limit, and no number of
    attachments completes the packet. *)
Theorem attachments_overflow n rest :
  (2 ^ 63 <= n <= max_uint64)%Z -> rest <> [] ->
  exists k, parse_attachments (FormatUint n ++ "-"%byte :: rest) = Ret (k, rest) /\ (k < 0)%Z.
Proof.
  intros Hn Hr. exists (n - 2 ^ 64)%Z. unfold max_uint64 in Hn. split; [|lia].
  unfold parse_attachments.
  rewrite span_app; [|apply digits_no_dash, FormatUint_digits; lia|reflexivity].
  rewrite ParseUint_FormatUint by (unfold max_uint64; lia).
  unfold wrap_s. change (2 ^ (64 - 1))%Z with (2 ^ 63)%Z.
  replace ((n + 2 ^ 63) mod 2 ^ 64)%Z with (n - 2 ^ 63)%Z; [by destruct rest; [done|f_equal; f_equal; lia]|].
  apply Z.mod_unique_pos with 1%Z; lia.
Qed.

Lemma scan_close_no_quote prev name :
  forallb (is_not x22) name = true -> scan_close prev name = None.
Proof.
  revert prev. induction name as [|c name IH]; intros prev; cbn [forallb scan_close]; [reflexivity|].
  unfold is_not at 1. intros [Hc Hn]%andb_prop. apply negb_true_iff in Hc.
  rewrite Hc. cbn. by rewrite IH.
Qed.

Lemma scan_close_skip prev name rest :
  forallb (is_not x22) name = true ->
  scan_close prev (name ++ x5c :: x22 :: rest) =
  s ← scan_close x22 rest; Some (name ++ x5c :: x22 :: s).
Proof.
  revert prev. induction name as [|c name IH]; intros prev; cbn [forallb app].
  - intros _. cbn. by destruct (scan_close x22 rest).
  - unfold is_not at 1. intros [Hc Hn]%andb_prop. apply negb_true_iff in Hc.
    cbn [scan_close]. rewrite Hc. cbn [andb]. rewrite IH by exact Hn.
    by destruct (scan_close x22 rest).
Qed.

(** An event name that ends in a backslash is not recognised. In JSON such a
    name ends in two backslashes, and the scan for the closing quote looks one
    byte back only: it takes the quote for an escaped one, and an event without
    further strings is rejected as malformed. *)
Theorem event_name_trailing_backslash name rest :
  forallb (is_not x22) name = true -> forallb (is_not x22) rest = true ->
  parse_event_name ("["%byte :: x22 :: (name ++ [x5c; x5c]) ++ x22 :: rest) = Err errMalformedPacket.
Proof.
  intros Hn Hr. unfold parse_event_name. cbn [span is_not]. unfold is_not at 1. cbn.
  rewrite <- app_assoc. cbn [app].
  replace (name ++ x5c :: x5c :: x22 :: rest) with ((name ++ [x5c]) ++ x5c :: x22 :: rest)
    by (rewrite <- app_assoc; reflexivity).
  rewrite scan_close_skip.
  - by rewrite scan_close_no_quote.
  - rewrite forallb_app, Hn. reflexivity.
Qed.

End properties.

(** ** Witnesses *)

Lemma event_name_trailing_backslash_witness :
  @parse_event_name _ plain_serializer
    ("["%byte :: x22 :: (to_bytes "dir" ++ [x5c; x5c]) ++ x22 :: to_bytes ",1]") = Err errMalformedPacket.
Proof.
  apply (@event_name_trailing_backslash _ plain_serializer (to_bytes "dir") (to_bytes ",1]"));
    reflexivity.
Defined.

Definition sample_header : PacketHeader :=
  mkPacketHeader PacketTypeBinaryEvent "/admin" (Some 12%Z) 2.

Lemma encodeString_parseHeader_witness :
  exists out, @encodeString _ plain_serializer sample_header (Some ["hi"%string]) = Ret out /\
    @parseHeader _ plain_serializer out =
      Ret (normalize sample_header, "["%byte :: x22 :: to_bytes "hi" ++ [x22] ++ to_bytes "]", "hi"%string).
Proof.
  apply (@encodeString_parseHeader _ plain_serializer sample_header ["hi"%string]).
  - reflexivity.
  - reflexivity.
  - reflexivity.
  - exists (to_bytes "hi"), (to_bytes "]"). repeat split.
Defined.

Example sample_text :
  @encodeString _ plain_serializer sample_header (Some ["hi"%string]) =
    Ret (to_bytes "52-/admin,12[" ++ x22 :: to_bytes "hi" ++ [x22] ++ to_bytes "]").
Proof. vm_compute. reflexivity. Qed.

Lemma encodeString_empty_parseHeader_witness :
  @parseHeader _ plain_serializer (to_bytes "1/admin,") =
  Ret (mkPacketHeader PacketTypeDisconnect "/admin" None 0, [], ""%string).
Proof.
  change (mkPacketHeader PacketTypeDisconnect "/admin" None 0)
    with (normalize (mkPacketHeader PacketTypeDisconnect "/admin" None 0)).
  apply (@encodeString_empty_parseHeader _ plain_serializer); reflexivity.
Defined.

Lemma parseHeader_namespace_panic_witness :
  @parseHeader _ plain_serializer (to_bytes "0/admin") = Panic SliceBounds.
Proof.
  apply (@parseHeader_namespace_panic _ plain_serializer PacketTypeConnect (to_bytes "admin"));
    reflexivity.
Defined.

Lemma parseHeader_panic_only_witness :
  @parseHeader _ plain_serializer (to_bytes "51-/x") = Panic SliceBounds.
Proof.
  apply (@parseHeader_panic_only _ plain_serializer). split; [reflexivity|].
  exists "5"%byte, PacketTypeBinaryEvent, (to_bytes "1-"), (to_bytes "x"). split; [reflexivity|]. split; [|by split].
  exists (to_bytes "1"), 1%Z. by split_and!.
Defined.

Lemma attachments_overflow_witness :
  exists k, parse_attachments (FormatUint (2 ^ 63) ++ to_bytes "-[]") = Ret (k, to_bytes "[]") /\ (k < 0)%Z.
Proof.
  apply (attachments_overflow (2 ^ 63) (to_bytes "[]")); [unfold max_uint64; lia|discriminate].
Defined.

End jsonparser.
