(* ===== verification/JsonParser.v ===== *)
(** * The packet reassembler ([Parser.Add] of [parser/json])

    A binary packet arrives as its text followed by its attachments, each in a
    message of its own. [Parser.Add] ([parser/json/decode.go]) is a state machine
    fed one message at a time; the reconstructor ([parser/json/binary.go]) holds a
    packet whose attachments are still awaited. [Add] calls [finish] at most
    once: its result here is the packet handed to [finish], if any. *)

From S2P Require Import Prelude Strconv SioPacket JsonHeader.
Import parser jsonparser.

Module reassembly.

Record reconstructor := mkReconstructor {
  r_header : PacketHeader;
  r_eventName : string;
  r_buffers : list bytes;
  r_remaining : Z;
}.

(** [addBuffer]; [remaining] is an [int]. *)
Definition addBuffer (r : reconstructor) (buf : bytes) : reconstructor * bool :=
  let remaining := wrap_s 64 (r_remaining r - 1) in
  (mkReconstructor (r_header r) (r_eventName r) (r_buffers r ++ [buf]) remaining,
   (remaining =? 0)%Z).

Record Parser := mkParser {
  p_r : option reconstructor;
  p_maxAttachments : Z;
}.

(** [NewCreator(maxAttachments, json)()] *)
Definition NewParser (maxAttachments : Z) : Parser := mkParser None maxAttachments.

Definition Reset (p : Parser) : Parser := mkParser None (p_maxAttachments p).

(** What [finish] is called with: the header, the event's name, and the buffers the
    [decode] closure will read. *)
Definition finished : Type := PacketHeader * string * list bytes.

Section add.
Context {V : Type} `{JSONSerializer V}.

Definition Add (p : Parser) (data : bytes) : Parser * outcome error (option finished) :=
  match p_r p with
  | None =>
      match parseHeader data with
      | Err e => (p, Err e)
      | Panic why => (p, Panic why)
      | Ret (header, buf, eventName) =>
          let r := mkReconstructor header eventName [buf] (Attachments header) in
          let p := mkParser (Some r) (p_maxAttachments p) in
          if ((0 <? p_maxAttachments p) && (p_maxAttachments p <? Attachments header))%Z
          then (p, Err errMaxAttachmentsExceeded)
          else if negb (IsBinary header) || (Attachments header =? 0)%Z
          then (mkParser None (p_maxAttachments p), Ret (Some (header, eventName, r_buffers r)))
          else (p, Ret None)
      end
  | Some r =>
      let '(r, ok) := addBuffer r data in
      if ok then (mkParser None (p_maxAttachments p), Ret (Some (r_header r, r_eventName r, r_buffers r)))
      else (mkParser (Some r) (p_maxAttachments p), Ret None)
  end.

(** Feeding messages one after the other, as [onEIOPacket] does: the packets
    finished so far; the first error stops. *)
Fixpoint feed (p : Parser) (msgs : list bytes) : Parser * list finished * option (outcome error unit) :=
  match msgs with
  | [] => (p, [], None)
  | m :: msgs =>
      let '(p, res) := Add p m in
      match res with
      | Ret fin =>
          let '(p, fins, err) := feed p msgs in
          (p, match fin with Some f => f :: fins | None => fins end, err)
      | Err e => (p, [], Some (Err e))
      | Panic why => (p, [], Some (Panic why))
      end
  end.

(** ** Lemmas *)

Lemma feed_app p p' p'' ms1 ms2 f1 f2 err :
  feed p ms1 = (p', f1, None) -> feed p' ms2 = (p'', f2, err) ->
  feed p (ms1 ++ ms2) = (p'', f1 ++ f2, err).
Proof.
  revert p f1. induction ms1 as [|m ms1 IH]; intros p f1; cbn [feed app].
  - intros [= -> <-] H2. exact H2.
  - destruct (Add p m) as [q [fin|e|why]]; [|discriminate|discriminate].
    destruct (feed q ms1) as [[q' fs] er] eqn:Eq. intros [= -> <- ->] H2.
    rewrite (IH q fs Eq H2). by destruct fin.
Qed.

(** The attachments of a waiting packet: as many as it waits for complete it. *)
Lemma feed_attachments r max atts :
  (1 <= Z.of_nat (length atts) <= max_int64)%Z -> r_remaining r = Z.of_nat (length atts) ->
  feed (mkParser (Some r) max) atts =
  (mkParser None max, [(r_header r, r_eventName r, r_buffers r ++ atts)], None).
Proof.
  revert r. induction atts as [|a atts IH]; intros r Hn Hr; [cbn in Hn; lia|].
  cbn [feed Add p_r p_maxAttachments]. unfold addBuffer. cbn [length] in Hn, Hr.
  unfold max_int64 in Hn. rewrite wrap_s_small by lia. rewrite Hr.
  destruct atts as [|a' atts].
  - cbn. reflexivity.
  - destruct (Z.eqb_spec (Z.of_nat (S (length (a' :: atts))) - 1) 0) as [E|E]; [cbn in E; lia|].
    rewrite IH.
    + cbn. by rewrite <- app_assoc.
    + unfold max_int64. cbn [length] in *. lia.
    + cbn [r_remaining length]. lia.
Qed.

Lemma Add_text p data header buf eventName :
  p_r p = None -> parseHeader data = Ret (header, buf, eventName) ->
  (p_maxAttachments p <= 0 \/ Attachments header <= p_maxAttachments p)%Z ->
  Add p data =
  if negb (IsBinary header) || (Attachments header =? 0)%Z
  then (p, Ret (Some (header, eventName, [buf])))
  else (mkParser (Some (mkReconstructor header eventName [buf] (Attachments header))) (p_maxAttachments p), Ret None).
Proof.
  intros Hr Hp Hm. destruct p as [pr max]. cbn in *. subst pr. unfold Add. cbn [p_r p_maxAttachments].
  rewrite Hp.
  destruct ((0 <? max) && (max <? Attachments header))%Z eqn:E; [lia|].
  reflexivity.
Qed.

(** ** Properties *)

(** Reassembly. An idle parser that is fed the text of a binary packet and then
    exactly as many attachments as the text announces (within the limit, if
    there is one) is idle again at the end, has called [finish] exactly once,
    with the header and the name of the text and with the JSON text followed by
    the attachments in the order of arrival, and has reported no error. *)
Theorem feed_binary_packet p text atts header buf eventName :
  p_r p = None ->
  parseHeader text = Ret (header, buf, eventName) -> IsBinary header = true ->
  Attachments header = Z.of_nat (length atts) -> (Attachments header <= max_int64)%Z ->
  (p_maxAttachments p <= 0 \/ Attachments header <= p_maxAttachments p)%Z ->
  feed p (text :: atts) = (p, [(header, eventName, buf :: atts)], None).
Proof.
  intros Hr Hp Hb Ha Hmx Hm. cbn [feed]. rewrite (Add_text _ _ _ _ _ Hr Hp Hm), Hb. cbn [negb orb].
  destruct (Z.eqb_spec (Attachments header) 0) as [E|E].
  - destruct atts; [reflexivity|cbn in Ha; lia].
  - rewrite feed_attachments by (cbn; lia). destruct p as [pr max]. cbn in *. by subst pr.
Qed.

(** The packets of a sequence of messages. *)
Lemma feed_all p pkts :
  p_r p = None ->
  Forall (fun '(text, atts, (header, eventName, bufs)) =>
    exists buf, parseHeader text = Ret (header, buf, eventName) /\
      bufs = buf :: atts /\
      (if IsBinary header then Attachments header = Z.of_nat (length atts) else atts = []) /\
      (Attachments header <= max_int64)%Z /\
      (p_maxAttachments p <= 0 \/ Attachments header <= p_maxAttachments p)%Z) pkts ->
  feed p (concat ((fun '(text, atts, _) => text :: atts) <$> pkts)) = (p, snd <$> pkts, None).
Proof.
  intros Hr HF. induction HF as [|[[text atts] [[header name] bufs]] pkts Hx HF IH]; [reflexivity|].
  destruct Hx as (buf & Hp & -> & Hc & Hmx & Hm). cbn [fmap list_fmap concat].
  apply (feed_app p p p (text :: atts) _ [(header, name, buf :: atts)] (snd <$> pkts)); [|exact IH].
  cbn [feed]. rewrite (Add_text _ _ _ _ _ Hr Hp Hm).
  destruct (IsBinary header) eqn:Eb; cbn [negb orb].
  - destruct (Z.eqb_spec (Attachments header) 0) as [E|E].
    + destruct atts; [reflexivity|cbn in Hc; lia].
    + rewrite feed_attachments by (cbn; lia). destruct p as [pr max]. cbn in *. by subst pr.
  - by subst atts.
Qed.

(** Packets do not leak into each other. A sequence of packets, each a text
    with the attachments it announces (none for a packet that is not binary),
    fed to an idle parser message by message, finishes as exactly those packets
    in order. *)
Theorem feed_packets p pkts :
  p_r p = None ->
  Forall (fun '(text, atts, (header, eventName, bufs)) =>
    exists buf, parseHeader text = Ret (header, buf, eventName) /\
      bufs = buf :: atts /\
      (if IsBinary header then Attachments header = Z.of_nat (length atts) else atts = []) /\
      (Attachments header <= max_int64)%Z /\
      (p_maxAttachments p <= 0 \/ Attachments header <= p_maxAttachments p)%Z) pkts ->
  feed p (concat ((fun '(text, atts, _) => text :: atts) <$> pkts)) = (p, snd <$> pkts, None).
Proof. apply feed_all. Qed.

(** A rejected packet stays in the parser. When the announced attachments
    exceed the limit, [Add] reports it but has already installed the
    reconstructor: the next message is taken for the first attachment of the
    rejected packet, not for a packet. [Reset] makes the parser idle again. *)
Theorem Add_max_attachments p data header buf eventName next :
  p_r p = None -> parseHeader data = Ret (header, buf, eventName) ->
  (0 < p_maxAttachments p < Attachments header)%Z -> (Attachments header <= max_int64)%Z ->
  let '(p', res) := Add p data in
  res = Err errMaxAttachmentsExceeded /\
  Add p' next = (mkParser (Some (mkReconstructor header eventName [buf; next] (Attachments header - 1)))
                   (p_maxAttachments p), Ret None) /\
  Reset p' = p.
Proof.
  intros Hr Hp Hm Hmx. destruct p as [pr max]. cbn in *. subst pr. unfold Add at 1. cbn [p_r p_maxAttachments].
  rewrite Hp. destruct ((0 <? max) && (max <? Attachments header))%Z eqn:E; [|lia].
  split; [reflexivity|]. split; [|reflexivity].
  unfold Add, addBuffer. cbn [p_r r_remaining r_header r_eventName r_buffers p_maxAttachments].
  unfold max_int64 in Hmx. rewrite wrap_s_small by lia.
  destruct (Z.eqb_spec (Attachments header - 1) 0); [lia|]. reflexivity.
Qed.
End add.

(** ** Witnesses *)

Definition sample_text : bytes := to_bytes "52-/admin,12[" ++ x22 :: to_bytes "hi" ++ [x22] ++ to_bytes "]".

Definition sample_json : bytes := "["%byte :: x22 :: to_bytes "hi" ++ [x22] ++ to_bytes "]".

Lemma feed_binary_packet_witness :
  @feed _ plain_serializer (NewParser 5) [sample_text; [x01]; [x02; x03]] =
  (NewParser 5, [(sample_header, "hi"%string, [sample_json; [x01]; [x02; x03]])], None).
Proof.
  apply (@feed_binary_packet _ plain_serializer (NewParser 5) sample_text [[x01]; [x02; x03]]
           sample_header sample_json "hi"%string).
  - reflexivity.
  - vm_compute. reflexivity.
  - reflexivity.
  - reflexivity.
  - vm_compute. discriminate.
  - right. vm_compute. discriminate.
Defined.

Lemma feed_packets_witness :
  @feed _ plain_serializer (NewParser 0) [sample_text; [x01]; [x02]; to_bytes "1/admin,"] =
  (NewParser 0, [(sample_header, "hi"%string, [sample_json; [x01]; [x02]]);
     (mkPacketHeader PacketTypeDisconnect "/admin" None 0, ""%string, [[]])], None).
Proof.
  apply (@feed_packets _ plain_serializer (NewParser 0)
    [(sample_text, [[x01]; [x02]], (sample_header, "hi"%string, [sample_json; [x01]; [x02]]));
     (to_bytes "1/admin,", [], (mkPacketHeader PacketTypeDisconnect "/admin" None 0, ""%string, [[]]))]).
  - reflexivity.
  - repeat apply Forall_cons_2; [exists sample_json|exists []|by apply Forall_nil_2].
    all: split; [vm_compute; reflexivity|]; split; [reflexivity|]; split; [reflexivity|];
      split; [vm_compute; discriminate|left; reflexivity].
Defined.

Lemma Add_max_attachments_witness :
  let '(p', res) := @Add _ plain_serializer (NewParser 1) sample_text in
  res = Err errMaxAttachmentsExceeded /\
  @Add _ plain_serializer p' sample_text =
    (mkParser (Some (mkReconstructor sample_header "hi" [sample_json; sample_text] 1)) 1, Ret None) /\
  Reset p' = NewParser 1.
Proof.
  apply (@Add_max_attachments _ plain_serializer (NewParser 1) sample_text sample_header sample_json
           "hi"%string sample_text).
  - reflexivity.
  - vm_compute. reflexivity.
  - vm_compute. split; reflexivity.
  - vm_compute. discriminate.
Defined.

End reassembly.
