(* ===== verification/JsonBinary.v ===== *)
(** * Binary attachments ([parser/json/binary.go], [Encode] and [decode])

    [Encode] ([parser/json/encode.go]) walks the value it sends by reflection, takes
    the contents of every [Binary] out of it as an attachment and leaves the JSON text
    of a placeholder in its place; [decode] ([parser/json/decode.go]) lets the JSON
    package fill new values of the handler's types and walks these to put the
    attachments back. The walks change the values in place: a walk of the model returns
    the value as the caller sees it afterwards, also when it fails half way.

    A value is the tree that reflection sees. Pointers, slices and maps that are
    reachable twice, or from themselves, are outside the model. *)

From S2P Require Import Prelude Strconv SioPacket JsonHeader JsonParser.
Import parser jsonparser reassembly.

Module binary.

#[local] Set Warnings "-register-all".

(** ** Go values and their types *)

(** A field of a struct: whether it is exported, which the walks ask, and the key under which a JSON
    package always writes it, by its name or its tag. It has none when its tag is ["-"] or has options, or
    when it is embedded. *)
Record field := mkField { f_exported : bool; f_key : option string }.

#[export] Instance field_eq_decision : EqDecision field.
Proof. solve_decision. Defined.

(** [TBytes true] is a byte slice type with the method [SocketIOBinary], [TBytes false]
    any other; [TIface] is [any]; [TFunc] is any type of functions. The key type of a map is given by
    whether its kind is [String]. *)
Inductive gty :=
| TBool
| TInt
| TFloat64
| TString
| TBytes (binary : bool)
| TSlice (elem : gty)
| TStruct (fields : list (field * gty))
| TMap (stringKeys : bool) (elem : gty)
| TPtr (elem : gty)
| TIface
| TFunc.

(** A nil slice or map is one without elements. The integer of [GFloat64] is what Go's conversion to [int] gives; a function is given by its address. *)
Inductive gval :=
| GBool (b : bool)
| GInt (z : Z)
| GFloat64 (z : Z)
| GString (s : string)
| GBytes (binary : bool) (b : bytes)
| GSlice (elem : gty) (els : list gval)
| GStruct (fields : list (field * gval))
| GMap (stringKeys : bool) (elem : gty) (entries : list (string * gval))
| GPtr (elem : gty) (v : option gval)
| GIface (v : option gval)
| GFunc (ptr : option Z).

#[export] Instance gty_eq_decision : EqDecision gty.
Proof.
  refine (fix go t1 t2 : Decision (t1 = t2) :=
    match t1, t2 with
    | TBool, TBool | TInt, TInt | TFloat64, TFloat64 | TString, TString | TIface, TIface | TFunc, TFunc => left eq_refl
    | TBytes b1, TBytes b2 => cast_if (decide (b1 = b2))
    | TSlice e1, TSlice e2 | TPtr e1, TPtr e2 => cast_if (go e1 e2)
    | TMap k1 e1, TMap k2 e2 => cast_if_and (decide (k1 = k2)) (go e1 e2)
    | TStruct f1, TStruct f2 =>
        cast_if ((fix fields (l1 l2 : list (field * gty)) : Decision (l1 = l2) :=
          match l1, l2 with
          | [], [] => left eq_refl
          | (b1, u1) :: l1, (b2, u2) :: l2 =>
              cast_if_and3 (decide (b1 = b2)) (go u1 u2) (fields l1 l2)
          | _, _ => right _
          end) f1 f2)
    | _, _ => right _
    end); clear go; abstract congruence.
Defined.

Fixpoint typeOf (v : gval) : gty :=
  match v with
  | GBool _ => TBool
  | GInt _ => TInt
  | GFloat64 _ => TFloat64
  | GString _ => TString
  | GBytes binary _ => TBytes binary
  | GSlice e _ => TSlice e
  | GStruct fs => TStruct (map (fun '(fd, f) => (fd, typeOf f)) fs)
  | GMap k e _ => TMap k e
  | GPtr e _ => TPtr e
  | GIface _ => TIface
  | GFunc _ => TFunc
  end.

(** What Go's type system ensures of a value; an interface does not hold an
    interface. *)
Fixpoint wf (v : gval) : bool :=
  match v with
  | GSlice e els => forallb (fun x => bool_decide (typeOf x = e) && wf x) els
  | GStruct fs => forallb (fun '(_, f) => wf f) fs
  | GMap _ e entries => forallb (fun '(_, x) => bool_decide (typeOf x = e) && wf x) entries
  | GPtr e (Some x) => bool_decide (typeOf x = e) && wf x
  | GIface (Some x) => negb (bool_decide (typeOf x = TIface)) && wf x
  | _ => true
  end.

(** ** Reflection *)

(** [if k == reflect.Interface || k == reflect.Ptr { rv = rv.Elem() }] for a value that
    can be set or not. [k] gets the value reached, whether it can be set, and how it sits
    in the value started from; [nil] is the result for the invalid value that [Elem] of
    a nil pointer or interface is. *)
Definition elem_if {A} (canSet : bool) (v : gval) (nil : A)
    (k : bool -> gval -> (gval -> gval) -> A) : A :=
  match v with
  | GIface None | GPtr _ None => nil
  | GIface (Some w) => k false w (fun w => GIface (Some w))
  | GPtr e (Some w) => k true w (fun w => GPtr e (Some w))
  | _ => k canSet v (fun w => w)
  end.

(** The variable [original]: the value the walk was called with, as far as the code
    asks about it (its kind, whether it can be set, whether an interface holds a
    pointer). *)
Inductive origin :=
| OSelf
| OPtr (canSet : bool)
| OIface (canSet holdsPtr : bool).

Definition origin_of (canSet : bool) (v : gval) : origin :=
  match v with
  | GPtr _ _ => OPtr canSet
  | GIface (Some (GPtr _ _)) => OIface canSet true
  | GIface _ => OIface canSet false
  | _ => OSelf
  end.

(** The element kinds of the slices that are walked: [reflect.Ptr], [reflect.Interface],
    [reflect.Struct] and [reflect.Slice]. *)
Definition walked (elem : gty) : bool :=
  match elem with
  | TPtr _ | TIface | TStruct _ | TSlice _ | TBytes _ => true
  | _ => false
  end.

(** [reflect.New(t)] with the byte slice [b] of that type as contents. *)
Definition new_bytes (binary : bool) (b : bytes) : gval := GPtr (TBytes binary) (Some (GBytes binary b)).

(** [rv.SetMapIndex(mk, x)] with [x] such a pointer: the entry's new value; it panics
    when the map's elements are not of an interface or pointer type. *)
Definition set_map_index {E} (elem : gty) (x : gval) : outcome E gval :=
  match elem with
  | TIface => Ret (GIface (Some x))
  | TPtr _ => Ret x
  | _ => Panic (UserPanic "reflect.Value.SetMapIndex: value is not assignable")
  end.

(** Setting a byte slice [rv] that a walk has reached: in place if it can be set;
    otherwise [original] becomes a pointer to it, if that can be set and is an interface
    ([reflect.Set] panics for the type of a pointer). [rebuild] puts the slice back
    where it was. *)
Definition set_bytes (canSet : bool) (original : origin) (rebuild : gval -> gval) (binary : bool) (b : bytes) :
    outcome error gval :=
  if canSet then Ret (rebuild (GBytes binary b))
  else
    match original with
    | OIface true _ => Ret (GIface (Some (new_bytes binary b)))
    | OPtr true => Panic (UserPanic "reflect.Set: value is not assignable")
    | _ => Err errNonSettableValue
    end.

(** The operations of [serializer.JSONSerializer] the walks and [decode] call, on the
    types they are called at: [Marshal] and [Unmarshal] of a [placeholder] (its [Num]),
    [Unmarshal] to a slice of pointers to new values of the given types, and to one such
    pointer (the values pointed to). *)
Class ValueJSON := {
  value_serializer :: JSONSerializer gval;
  json_MarshalPlaceholder : Z -> option bytes;
  json_UnmarshalPlaceholder : bytes -> option Z;
  json_UnmarshalArgs : bytes -> list gty -> option (list gval);
  json_UnmarshalValue : bytes -> gty -> option gval;
}.

Section walks.
Context `{ValueJSON}.

(** ** Taking binary values out *)

(** The state of a deconstructing walk: what has become of the value, [*numBuffers],
    and the buffers or the error. *)
Definition walk_result (A : Type) : Type := A * Z * outcome error (list bytes).

(** A loop of a walk over elements, fields or entries; the first error ends it and
    leaves the rest as it is. *)
Fixpoint walk_each {A} (f : A -> Z -> walk_result A) (l : list A) (n : Z) : walk_result (list A) :=
  match l with
  | [] => ([], n, Ret [])
  | x :: l =>
      let '(x, n, r) := f x n in
      match r with
      | Ret b =>
          let '(l, n, r) := walk_each f l n in
          (x :: l, n, (fun bs => b ++ bs) <$> r)
      | Err e => (x :: l, n, Err e)
      | Panic why => (x :: l, n, Panic why)
      end
  end.

Definition rebuilt {A B} (rebuild : A -> B) (w : walk_result A) : walk_result B :=
  let '(x, n, r) := w in (rebuild x, n, r).

(** [set] is the code's way of storing the placeholder's text at this place. A byte
    slice that is not a [Binary] gives a nil buffer. *)
Definition deconstructBinaryValue (v : gval) (binary : bool) (b : bytes) (n : Z)
    (set : bytes -> outcome error gval) : walk_result gval :=
  if binary then
    match json_MarshalPlaceholder n with
    | None => (v, n + 1, Err errJSON)%Z
    | Some pBuf =>
        match set pBuf with
        | Ret v => (v, n + 1, Ret [b])%Z
        | Err e => (v, n + 1, Err e)%Z
        | Panic why => (v, n + 1, Panic why)%Z
        end
    end
  else (v, n, Ret [[]]).

(** [deconstructValue] over its [switch], which is [sw]. *)
Definition deconstructValue_with (sw : bool -> gval -> origin -> (gval -> gval) -> Z -> walk_result gval)
    (canSet : bool) (v : gval) (n : Z) : walk_result gval :=
  elem_if canSet v (v, n, Ret []) (fun canSet1 rv rebuild1 =>
    elem_if canSet1 rv (v, n, Ret []) (fun canSet2 rv rebuild2 =>
      sw canSet2 rv (origin_of canSet v) (fun w => rebuild1 (rebuild2 w)) n)).

(** A field of a struct that can be set or not; unexported fields are skipped. *)
Definition deconstructField (value : bool -> gval -> Z -> walk_result gval) (canSet : bool)
    (f : field * gval) (n : Z) : walk_result (field * gval) :=
  let '(fd, fv) := f in
  elem_if (canSet && f_exported fd) fv (f, n, Ret []) (fun canSet fv rebuild =>
    if f_exported fd then rebuilt (fun fv => (fd, rebuild fv)) (value canSet fv n)
    else (f, n, Ret [])).

(** An entry of a map with elements of type [elem]. *)
Definition deconstructEntry (value : bool -> gval -> Z -> walk_result gval) (elem : gty)
    (entry : string * gval) (n : Z) : walk_result (string * gval) :=
  let '(mk, original) := entry in
  elem_if false original (entry, n, Ret []) (fun canSet mv rebuild =>
    match mv with
    | GBytes binary b =>
        rebuilt (pair mk) (deconstructBinaryValue original binary b n
          (fun buf => set_map_index elem (new_bytes binary buf)))
    | _ => rebuilt (fun mv => (mk, rebuild mv)) (value canSet mv n)
    end).

(** The [switch] of [deconstructValue] on the kind of [rv]. *)
Fixpoint deconstructSwitch (canSet : bool) (rv : gval) (original : origin) (rebuild : gval -> gval) (n : Z) :
    walk_result gval :=
  match rv with
  | GSlice e els =>
      if walked e
      then rebuilt (fun els => rebuild (GSlice e els))
             (walk_each (deconstructValue_with deconstructSwitch true) els n)
      else (rebuild rv, n, Ret [])
  | GBytes binary b =>
      match original with
      | OPtr _ | OIface _ true => (rebuild rv, n, Err errBinaryCannotBeAPtr)
      | _ => deconstructBinaryValue (rebuild rv) binary b n (set_bytes canSet original rebuild binary)
      end
  | GStruct fs =>
      let '(canSet, rebuild) :=
        match canSet, original with
        | false, OIface true _ => (true, fun w => GIface (Some (GPtr (typeOf rv) (Some w))))
        | _, _ => (canSet, rebuild)
        end in
      rebuilt (fun fs => rebuild (GStruct fs))
        (walk_each (deconstructField (deconstructValue_with deconstructSwitch) canSet) fs n)
  | GMap k e entries =>
      rebuilt (fun entries => rebuild (GMap k e entries))
        (walk_each (deconstructEntry (deconstructValue_with deconstructSwitch) e) entries n)
  | _ => (rebuild rv, n, Ret [])
  end.

Definition deconstructValue : bool -> gval -> Z -> walk_result gval :=
  deconstructValue_with deconstructSwitch.

(** [reflect.ValueOf(v)] cannot be set. *)
Definition deconstructPacket (v : gval) : walk_result gval := deconstructValue false v 0.

(** ** Looking for binary values *)

Definition hasBinary_with (sw : gval -> bool) (v : gval) : bool :=
  elem_if false v false (fun _ rv _ => elem_if false rv false (fun _ rv _ => sw rv)).

Fixpoint hasBinarySwitch (rv : gval) : bool :=
  match rv with
  | GSlice e els => walked e && existsb (hasBinary_with hasBinarySwitch) els
  | GBytes binary _ => binary
  | GStruct fs =>
      existsb (fun '(fd, f) => if f_exported fd then hasBinary_with hasBinarySwitch f else false) fs
  | GMap _ _ entries => existsb (fun '(_, x) => hasBinary_with hasBinarySwitch x) entries
  | _ => false
  end.

Definition hasBinary : gval -> bool := hasBinary_with hasBinarySwitch.

(** ** [Encode] *)

(** A packet encoded: the header and the value, which are the caller's, as they are
    afterwards, and the buffers. *)
Definition encoded : Type := PacketHeader * option gval * outcome error (list bytes).

Definition encodeBinary (maxAttachments : Z) (header : PacketHeader) (v : gval) : encoded :=
  match deconstructPacket v with
  | (v, _, Err e) => (header, Some v, Err e)
  | (v, _, Panic why) => (header, Some v, Panic why)
  | (v, numBuffers, Ret buffers) =>
      if negb (numBuffers =? Z.of_nat (length buffers))%Z then (header, Some v, Err errNumBuffers)
      else if ((0 <? maxAttachments) && (maxAttachments <? numBuffers))%Z
      then (header, Some v, Err errMaxAttachmentsExceeded)
      else
        let header := mkPacketHeader (Typ header) (Namespace header) (ID header) numBuffers in
        (header, Some v, (fun s => s :: buffers) <$> encodeString header (Some v))
  end.

(** [v = None] is the nil argument, for which the packet carries no JSON. *)
Definition Encode (maxAttachments : Z) (header : PacketHeader) (v : option gval) : encoded :=
  match v with
  | Some (GPtr _ None) => (header, v, Err errNilArgument)
  | None => (header, None, (fun s => [s]) <$> encodeString header None)
  | Some ((GPtr _ (Some _) | GStruct _) as rv) =>
      let binary typ :=
        encodeBinary maxAttachments (mkPacketHeader typ (Namespace header) (ID header) (Attachments header)) rv in
      match Typ header, hasBinary rv with
      | PacketTypeEvent, true => binary PacketTypeBinaryEvent
      | PacketTypeAck, true => binary PacketTypeBinaryAck
      | _, _ => (header, v, (fun s => [s]) <$> encodeString header v)
      end
  | Some _ => (header, v, Err errNonPtrArgument)
  end.

(** ** Putting binary values back *)

(** [num := p.Num + 1; ... buf := r.buffers[num]], as both places have it. *)
Definition attachment (buffers : list bytes) (num : Z) : outcome error bytes :=
  let num := wrap_s 64 (num + 1) in
  if (Z.of_nat (length buffers) <=? num)%Z then Err errInvalidPlaceholderNumValue
  else if (num <? 0)%Z then Panic IndexRange
  else match buffers !! Z.to_nat num with Some buf => Ret buf | None => Panic IndexRange end.

Definition reconstructBinaryValue (buffers : list bytes) (v : gval) (binary : bool) (b : bytes)
    (set : bytes -> outcome error gval) : outcome error gval :=
  if binary then
    match json_UnmarshalPlaceholder b with
    | None => Err errJSON
    | Some num => attachment buffers num ≫= set
    end
  else Ret v.

Fixpoint outcome_each {A} (f : A -> outcome error A) (l : list A) : outcome error (list A) :=
  match l with
  | [] => Ret []
  | x :: l => x ← f x; l ← outcome_each f l; Ret (x :: l)
  end.

Definition reconstructValue_with (sw : bool -> gval -> origin -> (gval -> gval) -> outcome error gval)
    (canSet : bool) (v : gval) : outcome error gval :=
  elem_if canSet v (Ret v) (fun canSet1 rv rebuild1 =>
    elem_if canSet1 rv (Ret v) (fun canSet2 rv rebuild2 =>
      sw canSet2 rv (origin_of canSet v) (fun w => rebuild1 (rebuild2 w)))).

Definition reconstructField (value : bool -> gval -> outcome error gval) (canSet : bool)
    (f : field * gval) : outcome error (field * gval) :=
  let '(fd, fv) := f in
  elem_if (canSet && f_exported fd) fv (Ret f) (fun canSet fv rebuild =>
    if f_exported fd then (fun fv => (fd, rebuild fv)) <$> value canSet fv else Ret f).

(** A value of an entry, without its interface. *)
Definition content (v : gval) : gval := match v with GIface (Some w) => w | _ => v end.

(** The number of the placeholder that a map with two string keys is, as the JSON
    package decodes it to [any]. *)
Definition placeholder_num (stringKeys : bool) (entries : list (string * gval)) : option Z :=
  let num pholder num :=
    match content pholder, content num with
    | GBool true, GFloat64 n => Some n
    | _, _ => None
    end in
  match entries with
  | [(k0, v0); (k1, v1)] =>
      if negb stringKeys then None
      else if bool_decide (k0 = "_placeholder") && bool_decide (k1 = "num") then num v0 v1
      else if bool_decide (k1 = "_placeholder") && bool_decide (k0 = "num") then num v1 v0
      else None
  | _ => None
  end.

Definition reconstructEntry (buffers : list bytes) (value : bool -> gval -> outcome error gval) (elem : gty)
    (entry : string * gval) : outcome error (string * gval) :=
  let '(mk, original) := entry in
  elem_if false original (Ret entry) (fun canSet mv rebuild =>
    match mv with
    | GMap stringKeys _ entries =>
        match (if bool_decide (elem = TIface) then placeholder_num stringKeys entries else None) with
        | Some n => (fun buf => (mk, GIface (Some (GBytes false buf)))) <$> attachment buffers n
        | None => (fun mv => (mk, rebuild mv)) <$> value canSet mv
        end
    | GBytes binary b =>
        pair mk <$> reconstructBinaryValue buffers original binary b
          (fun buf => set_map_index elem (new_bytes binary buf))
    | GSlice _ _ => Ret entry
    | _ => (fun mv => (mk, rebuild mv)) <$> value canSet mv
    end).

Fixpoint reconstructSwitch (buffers : list bytes) (canSet : bool) (rv : gval) (original : origin)
    (rebuild : gval -> gval) : outcome error gval :=
  match rv with
  | GSlice e els =>
      if walked e
      then (fun els => rebuild (GSlice e els)) <$>
             outcome_each (reconstructValue_with (reconstructSwitch buffers) true) els
      else Ret (rebuild rv)
  | GBytes binary b =>
      reconstructBinaryValue buffers (rebuild rv) binary b (set_bytes canSet original rebuild binary)
  | GStruct fs =>
      (fun fs => rebuild (GStruct fs)) <$>
        outcome_each (reconstructField (reconstructValue_with (reconstructSwitch buffers)) canSet) fs
  | GMap k e entries =>
      (fun entries => rebuild (GMap k e entries)) <$>
        outcome_each (reconstructEntry buffers (reconstructValue_with (reconstructSwitch buffers)) e) entries
  | _ => Ret (rebuild rv)
  end.

Definition reconstructValue (buffers : list bytes) : bool -> gval -> outcome error gval :=
  reconstructValue_with (reconstructSwitch buffers).

(** The values [reconstruct] walks are pointers, which cannot be set themselves. *)
Definition reconstructPacket (buffers : list bytes) (values : list gval) : outcome error (list gval) :=
  outcome_each (reconstructValue buffers false) values.

(** ** [decode] *)

(** The type a value is made for: [None] is a nil type, for which it is [any]. *)
Definition convertType (typ : option gty) : gty :=
  match typ with
  | None => TIface
  | Some (TPtr t) => t
  | Some t => t
  end.

Definition newPointer (v : gval) : gval := GPtr (typeOf v) (Some v).

Definition unmarshalArgs (payload : bytes) (types : list gty) : outcome error (list gval) :=
  match json_UnmarshalArgs payload types with
  | None => Err errJSON
  | Some values => Ret (newPointer <$> values)
  end.

Definition reconstruct (header : PacketHeader) (buffers : list bytes) (types : list (option gty)) :
    outcome error (list gval) :=
  match buffers with
  | [] => Err errInvalidNumberOfBuffers
  | payload :: _ =>
      let types := convertType <$> types in
      values ← unmarshalArgs payload (if IsEvent header then TString :: types else types);
      reconstructPacket buffers (if IsEvent header then drop 1 values else values)
  end.

Definition decode (header : PacketHeader) (buffers : list bytes) (types : list (option gty)) :
    outcome error (list gval) :=
  match buffers with
  | [payload] =>
      let types := convertType <$> types in
      if IsEvent header then
        match payload with
        | [] => Err errMalformedPacket
        | _ => drop 1 <$> unmarshalArgs payload (TString :: types)
        end
      else
        let or_else text := match payload with [] => to_bytes text | _ => payload end in
        match types with
        | [t] =>
            if negb (IsAck header) then
              match json_UnmarshalValue (or_else "{}"%string) t with
              | None => Err errJSON
              | Some v => Ret [newPointer v]
              end
            else unmarshalArgs (or_else "[]"%string) types
        | _ => unmarshalArgs (or_else "[]"%string) types
        end
  | _ => reconstruct header buffers types
  end.
End walks.

(** ** Types are preserved *)

Fixpoint gsize (v : gval) : nat :=
  match v with
  | GSlice _ els => S (sum_list_with gsize els)
  | GStruct fs => S (sum_list_with (fun '(_, f) => gsize f) fs)
  | GMap _ _ entries => S (sum_list_with (fun '(_, x) => gsize x) entries)
  | GPtr _ (Some x) | GIface (Some x) => S (gsize x)
  | _ => 1
  end.

Lemma sum_list_with_in {A} (f : A -> nat) l x : x ∈ l -> f x <= sum_list_with f l.
Proof. induction 1; cbn; lia. Qed.

Lemma forallb_in {A} (f : A -> bool) l x : forallb f l = true -> x ∈ l -> f x = true.
Proof. intros Hf Hx. apply (proj1 (forallb_forall f l) Hf), list_elem_of_In, Hx. Qed.

(** Whatever of type [t] is put in the place of [rebuild], the whole is a well-typed
    value of type [T]. *)
Definition context (t : gty) (rebuild : gval -> gval) (T : gty) : Prop :=
  forall w, wf w = true -> typeOf w = t -> wf (rebuild w) = true /\ typeOf (rebuild w) = T.

Definition kept (T : gty) (v : gval) : Prop := wf v = true /\ typeOf v = T.

Lemma context_id t : context t (fun w => w) t.
Proof. by intros w Hw Ht. Qed.

Lemma context_compose t1 t2 t3 r1 r2 :
  context t1 r1 t2 -> context t2 r2 t3 -> context t1 (fun w => r2 (r1 w)) t3.
Proof. intros H1 H2 w Hw Ht. destruct (H1 w Hw Ht) as [Hw' Ht']. by apply H2. Qed.

Lemma elem_if_inv {A} (P : A -> Prop) canSet v nil k :
  wf v = true -> P nil ->
  (forall s w r, wf w = true -> gsize w <= gsize v -> context (typeOf w) r (typeOf v) ->
     (forall t, typeOf v = TPtr t -> t = typeOf w) -> P (k s w r)) ->
  P (elem_if canSet v nil k).
Proof.
  intros Hwf Hnil Hk. destruct v as [| | | | | | | |e [w|]|[w|]|]; cbn [elem_if]; try done.
  all: try by (apply Hk; [done|lia|apply context_id|discriminate]).
  - cbn [wf] in Hwf. apply andb_prop in Hwf as [Ht Hw]. apply bool_decide_eq_true in Ht.
    apply Hk; [done|cbn; lia| |intros t; cbn; congruence]. intros w' Hw' Ht'. cbn [wf typeOf].
    rewrite Hw', bool_decide_true by congruence. done.
  - cbn [wf] in Hwf. apply andb_prop in Hwf as [Ht Hw].
    apply Hk; [done|cbn; lia| |discriminate]. intros w' Hw' Ht'. cbn [wf typeOf].
    by rewrite Hw', Ht', Ht.
Qed.

(** [original] is replaced only where it is an interface. *)
Definition origin_ok (original : origin) (T : gty) : Prop :=
  match original with OIface _ _ => T = TIface | _ => True end.

Lemma origin_of_ok canSet v : origin_ok (origin_of canSet v) (typeOf v).
Proof. by destruct v as [| | | | | | | | |[[]|]|]. Qed.

Lemma set_bytes_kept canSet original rebuild binary b v T :
  context (TBytes binary) rebuild T -> origin_ok original T ->
  set_bytes canSet original rebuild binary b = Ret v -> kept T v.
Proof.
  intros Hc Ho. unfold set_bytes. destruct canSet; [by intros [= <-]; apply Hc|].
  destruct original as [|[]|[] p]; try discriminate. cbn in Ho. intros [= <-]. subst T.
  by destruct binary.
Qed.

Lemma set_map_index_kept {E} elem binary b (v : gval) :
  (forall t, elem = TPtr t -> t = TBytes binary) ->
  set_map_index (E := E) elem (new_bytes binary b) = Ret v -> kept elem v.
Proof.
  intros Hp. destruct elem; try discriminate; intros [= <-].
  - rewrite (Hp _ eq_refl). by destruct binary.
  - by destruct binary.
Qed.

Section typing.
Context `{ValueJSON}.

Lemma walk_each_Forall2 {A} (R : A -> A -> Prop) f (l : list A) n :
  (forall x, R x x) -> (forall x n, x ∈ l -> R x (f x n).1.1) ->
  Forall2 R l (walk_each f l n).1.1.
Proof.
  intros Hr. revert n. induction l as [|x l IH]; intros n Hf; cbn [walk_each]; [constructor|].
  pose proof (Hf x n ltac:(left)) as Hx. destruct (f x n) as [[x' n'] [b|e|why]]; cbn in *.
  - assert (Hl : Forall2 R l (walk_each f l n').1.1) by (apply IH; intros; apply Hf; by right).
    destruct (walk_each f l n') as [[l' n''] r]. by constructor.
  - constructor; [done|]. by apply Forall_Forall2_diag, Forall_true.
  - constructor; [done|]. by apply Forall_Forall2_diag, Forall_true.
Qed.

(** A value keeps its type; so does the value of a field or of an entry. *)
Definition keeps (x y : gval) : Prop := wf x = true -> kept (typeOf x) y.
Definition keeps_snd {K} (x y : K * gval) : Prop := y.1 = x.1 /\ keeps x.2 y.2.

Lemma slice_kept e els els' :
  wf (GSlice e els) = true -> Forall2 keeps els els' -> kept (TSlice e) (GSlice e els').
Proof.
  intros Hwf Hk. split; [|done]. cbn [wf] in *. induction Hk as [|x y els els' Hx _ IH]; [done|].
  cbn [forallb] in *. apply andb_prop in Hwf as [Hwx Hwf]. apply andb_prop in Hwx as [Ht Hwx].
  destruct (Hx Hwx) as [-> ->]. by rewrite Ht, IH.
Qed.

Lemma map_kept k e entries entries' :
  wf (GMap k e entries) = true -> Forall2 keeps_snd entries entries' -> kept (TMap k e) (GMap k e entries').
Proof.
  intros Hwf Hk. split; [|done]. cbn [wf] in *.
  induction Hk as [|[s x] [s' y] entries entries' [Hs Hx] _ IH]; [done|]. cbn in *.
  apply andb_prop in Hwf as [Hwx Hwf]. apply andb_prop in Hwx as [Ht Hwx].
  destruct (Hx Hwx) as [Hw' Ht']. cbn in *. by rewrite Hw', Ht', Ht, IH.
Qed.

Lemma struct_kept fs fs' :
  wf (GStruct fs) = true -> Forall2 keeps_snd fs fs' -> kept (typeOf (GStruct fs)) (GStruct fs').
Proof.
  intros Hwf Hk. unfold kept. cbn [wf typeOf] in *.
  induction Hk as [|[s x] [s' y] fs fs' [Hs Hx] _ IH]; [done|]. cbn in *.
  apply andb_prop in Hwf as [Hwx Hwf]. destruct (Hx Hwx) as [Hw' Ht'], (IH Hwf) as [Hw Ht]. cbn in *.
  injection Ht as Ht. split; [by rewrite Hw', Hw|]. by rewrite Hs, Ht', Ht.
Qed.

Lemma deconstructBinaryValue_kept v binary b n set T :
  kept T v -> (forall p v', set p = Ret v' -> kept T v') ->
  kept T (deconstructBinaryValue v binary b n set).1.1.
Proof.
  intros Hv Hs. unfold deconstructBinaryValue. destruct binary; [|done].
  destruct (json_MarshalPlaceholder n) as [p|]; [|done].
  destruct (set p) eqn:E; cbn; eauto.
Qed.

(** What the induction gives for values up to a size. *)
Definition switch_keeps (m : nat) (sw : bool -> gval -> origin -> (gval -> gval) -> gval -> Prop) : Prop :=
  forall s w o r v T, gsize w <= m -> wf w = true -> context (typeOf w) r T -> origin_ok o T ->
    sw s w o r v -> kept T v.

Lemma value_keeps_with m sw s v n :
  switch_keeps m (fun s w o r v => exists n, (sw s w o r n).1.1 = v) -> gsize v <= m ->
  keeps v (deconstructValue_with sw s v n).1.1.
Proof.
  intros Hsw Hm Hwf. unfold deconstructValue_with.
  apply elem_if_inv; [done|done|]. intros s1 w1 r1 Hw1 Hg1 Hc1 _.
  apply elem_if_inv; [done|done|]. intros s2 w2 r2 Hw2 Hg2 Hc2 _.
  eapply Hsw; [| |exact (context_compose _ _ _ _ _ Hc2 Hc1)|apply origin_of_ok|eauto]; [lia|done].
Qed.

Lemma field_keeps m value canSet f n :
  gsize f.2 <= m -> (forall s v n, gsize v <= m -> keeps v (value s v n).1.1) ->
  keeps_snd f (deconstructField value canSet f n).1.1.
Proof.
  intros Hm Hv. destruct f as [[exported key] fv]. cbn in Hm. split.
  - destruct fv as [| | | | | | | |? []|[]|], exported; try done; cbn; by destruct (value _ _ _) as [[]].
  - intros Hwf. cbn [snd] in *. unfold deconstructField. apply elem_if_inv; [done|done|].
    intros s w r Hw Hg Hc _. cbn [f_exported]. destruct exported; [|done].
    pose proof (Hv s w n ltac:(lia) Hw) as [Hw' Ht']. unfold rebuilt.
    destruct (value s w n) as [[w' n'] res]. by apply Hc.
Qed.

Lemma entry_keeps m value e entry n :
  typeOf entry.2 = e -> wf entry.2 = true ->
  gsize entry.2 <= m -> (forall s v n, gsize v <= m -> keeps v (value s v n).1.1) ->
  keeps_snd entry (deconstructEntry value e entry n).1.1.
Proof.
  intros He Hwf Hm Hv. destruct entry as [mk x]. cbn [snd] in *.
  unfold deconstructEntry. apply elem_if_inv; [done|done|]. intros s w r Hw Hg Hc Hp.
  assert (Hother : keeps_snd (mk, x) (rebuilt (fun mv => (mk, r mv)) (value s w n)).1.1).
  { pose proof (Hv s w n ltac:(lia) Hw) as [Hw' Ht']. unfold rebuilt.
    destruct (value s w n) as [[w' n'] res]. split; [done|]. intros _. by apply Hc. }
  destruct w; try exact Hother. clear Hother.
  assert (Hk : kept e (deconstructBinaryValue x binary b n
      (fun buf => set_map_index e (new_bytes binary buf))).1.1).
  { apply deconstructBinaryValue_kept; [done|]. intros p v' Hset.
    eapply set_map_index_kept; [|exact Hset]. intros t ->. by apply Hp. }
  destruct (deconstructBinaryValue _ _ _ _ _) as [[v' n'] res]. split; [done|]. intros _. by subst e.
Qed.

Lemma deconstructSwitch_keeps m :
  switch_keeps m (fun s w o r v => exists n, (deconstructSwitch s w o r n).1.1 = v).
Proof.
  induction m as [|m IH]; intros s w o r v T Hm Hwf Hc Ho [n <-]; [by destruct w as [| | | | | | | |? []|[]|]; cbn in Hm; lia|].
  assert (Hv : forall s v n, gsize v <= m -> keeps v (deconstructValue_with deconstructSwitch s v n).1.1)
    by (intros; by apply (value_keeps_with m)).
  destruct w as [| | | |binary b|e els|fs|k e entries|e w|w|]; cbn [deconstructSwitch];
    try (by apply Hc).
  - assert (Hr : kept T (r (GBytes binary b))) by by apply Hc.
    assert (Hd : kept T (deconstructBinaryValue (r (GBytes binary b)) binary b n (set_bytes s o r binary)).1.1).
    { apply deconstructBinaryValue_kept; [done|]. intros p v'. by apply set_bytes_kept. }
    by destruct o as [|[]|? []].
  - destruct (walked e); [|by apply Hc].
    assert (HF : Forall2 keeps els (walk_each (deconstructValue_with deconstructSwitch true) els n).1.1).
    { apply walk_each_Forall2; [by intros x Hx|]. intros x n' Hx. apply Hv.
      pose proof (sum_list_with_in gsize els x Hx). cbn in Hm. lia. }
    destruct (walk_each _ els n) as [[els' n'] res]. destruct (slice_kept e els els' Hwf HF) as [Hw' Ht']. by apply Hc.
  - assert (Hc' : forall s' r', (s', r') = match s, o with
        | false, OIface true _ => (true, fun w => GIface (Some (GPtr (typeOf (GStruct fs)) (Some w))))
        | _, _ => (s, r) end -> context (typeOf (GStruct fs)) r' T).
    { intros s' r' E. destruct s, o as [|c|[] p]; simplify_eq; try done. cbn in Ho. subst T.
      intros x Hx Ht. split; [|done]. cbn [wf]. rewrite Hx, (bool_decide_true (typeOf x = _)) by done. done. }
    destruct (match s, o with false, OIface true _ => _ | _, _ => _ end) as [s' r'].
    assert (HF : Forall2 keeps_snd fs (walk_each (deconstructField (deconstructValue_with deconstructSwitch) s') fs n).1.1).
    { apply walk_each_Forall2; [by intros x|]. intros x n' Hx. apply (field_keeps m); [|done].
      pose proof (sum_list_with_in (fun '(_, f) => gsize f) fs x Hx). destruct x. cbn in *. lia. }
    destruct (walk_each _ fs n) as [[fs' n'] res]. destruct (struct_kept fs fs' Hwf HF) as [Hw' Ht']. by apply (Hc' _ _ eq_refl).
  - assert (HF : Forall2 keeps_snd entries (walk_each (deconstructEntry (deconstructValue_with deconstructSwitch) e) entries n).1.1).
    { apply walk_each_Forall2; [by intros x|]. intros x n' Hx.
      pose proof (sum_list_with_in (fun '(_, f) => gsize f) entries x Hx) as Hs.
      pose proof (forallb_in _ _ _ Hwf Hx) as Hwx. destruct x as [mk x]. apply andb_prop in Hwx as [Ht Hwx].
      apply bool_decide_eq_true in Ht. apply (entry_keeps m); [done|done|cbn in *; lia|done]. }
    destruct (walk_each _ entries n) as [[entries' n'] res]. destruct (map_kept k e entries entries' Hwf HF) as [Hw' Ht']. by apply Hc.
Qed.

End typing.

End binary.
