(* ===== verification/JsonText.v ===== *)
(** * A JSON package

    The parser of the repository is written against an interface to a JSON package, and the
    theorems on events against laws of such a package. This file has a package for which
    they hold: JSON trees with a printer and a recursive-descent parser, and their
    conversion from and to Go values, as [encoding/json] documents it. Strings that
    are not valid UTF-8 are written with replacement characters, struct fields under
    the keys of their tags, a [Binary] as the text it holds. [json_exact] says which values
    such a package carries without a change. *)

From S2P Require Import Prelude Utf8 Strconv SioPacket JsonHeader JsonParser JsonBinary.
Import binary.

Module jsontext.

#[local] Set Warnings "-register-all".

(** ** Trees and their text *)

Inductive json :=
| JNull
| JBool (b : bool)
| JNum (z : Z)
| JStr (s : bytes)
| JArr (els : list json)
| JObj (members : list (bytes * json)).

Definition hex_digit (d : Z) : byte := if (d <? 10)%Z then digit d else z2b (87 + d)%Z.

Definition hex_value (c : byte) : option Z :=
  if is_digit c then Some (b2z c - 48)%Z
  else if between 97 102 c then Some (b2z c - 87)%Z
  else if between 65 70 c then Some (b2z c - 55)%Z
  else None.

(** The inside of a JSON string. *)
Definition escape (c : byte) : bytes :=
  if Byte.eqb c x22 || Byte.eqb c x5c then [x5c; c]
  else if (b2z c <? 32)%Z
  then x5c :: "u"%byte :: "0"%byte :: "0"%byte :: hex_digit (b2z c / 16) :: [hex_digit (b2z c mod 16)]
  else [c].

Definition escaped (s : bytes) : bytes := concat (map escape s).

Definition quoted (s : bytes) : bytes := x22 :: escaped s ++ [x22].

(** Texts with commas between them. *)
Fixpoint commas (l : list bytes) : bytes :=
  match l with
  | [] => []
  | [x] => x
  | x :: l => x ++ ","%byte :: commas l
  end.

Definition print_member (pr : json -> bytes) (m : bytes * json) : bytes :=
  let '(k, v) := m in quoted k ++ ":"%byte :: pr v.

Fixpoint print (j : json) : bytes :=
  match j with
  | JNull => to_bytes "null"
  | JBool b => to_bytes (if b then "true" else "false")
  | JNum z => Itoa z
  | JStr s => quoted s
  | JArr els => "["%byte :: commas (map print els) ++ ["]"%byte]
  | JObj members => "{"%byte :: commas (map (print_member print) members) ++ ["}"%byte]
  end.

(** ** Reading *)

(** Up to the closing quote. *)
Fixpoint unescape (s : bytes) : option (bytes * bytes) :=
  match s with
  | [] => None
  | c :: s1 =>
      let put d rest := '(str, r) ← rest; Some (d :: str, r) in
      if Byte.eqb c x22 then Some ([], s1)
      else if Byte.eqb c x5c then
        match s1 with
        | d :: s2 =>
            if Byte.eqb d x22 || Byte.eqb d x5c || Byte.eqb d "/"%byte then put d (unescape s2)
            else if Byte.eqb d "u"%byte then
              match s2 with
              | h1 :: h2 :: h3 :: h4 :: s6 =>
                  if Byte.eqb h1 "0"%byte && Byte.eqb h2 "0"%byte then
                    a ← hex_value h3; b ← hex_value h4;
                    if (a <? 8)%Z then put (z2b (a * 16 + b)) (unescape s6) else None
                  else None
              | _ => None
              end
            else None
        | [] => None
        end
      else put c (unescape s1)
  end.

Definition expect (word : bytes) (s : bytes) : option bytes :=
  if bool_decide (take (length word) s = word) then Some (drop (length word) s) else None.

Definition parse_digits (s : bytes) : option (Z * bytes) :=
  let '(ds, rest) := span is_digit s in
  match ParseUint ds with inl n => Some (n, rest) | inr _ => None end.

(** A value in front of a text; what is behind it is returned. The fuel is a bound on the depth of calls, for which
    the length of the text is enough. *)
Fixpoint parse_value (fuel : nat) (s : bytes) : option (json * bytes) :=
  match fuel, s with
  | S fuel, c :: s' =>
      if Byte.eqb c "n"%byte then s ← expect (to_bytes "ull") s'; Some (JNull, s)
      else if Byte.eqb c "t"%byte then s ← expect (to_bytes "rue") s'; Some (JBool true, s)
      else if Byte.eqb c "f"%byte then s ← expect (to_bytes "alse") s'; Some (JBool false, s)
      else if Byte.eqb c x22 then '(str, s) ← unescape s'; Some (JStr str, s)
      else if Byte.eqb c "["%byte then
        match s' with
        | d :: rest =>
            if Byte.eqb d "]"%byte then Some (JArr [], rest)
            else '(els, s) ← parse_elements fuel s'; Some (JArr els, s)
        | [] => None
        end
      else if Byte.eqb c "{"%byte then
        match s' with
        | d :: rest =>
            if Byte.eqb d "}"%byte then Some (JObj [], rest)
            else '(members, s) ← parse_members fuel s'; Some (JObj members, s)
        | [] => None
        end
      else if Byte.eqb c "-"%byte then '(n, s) ← parse_digits s'; Some (JNum (- n), s)
      else '(n, s) ← parse_digits s; Some (JNum n, s)
  | _, _ => None
  end
with parse_elements (fuel : nat) (s : bytes) : option (list json * bytes) :=
  match fuel with
  | S fuel =>
      '(j, s) ← parse_value fuel s;
      match s with
      | c :: s =>
          if Byte.eqb c ","%byte then '(js, s) ← parse_elements fuel s; Some (j :: js, s)
          else if Byte.eqb c "]"%byte then Some ([j], s) else None
      | [] => None
      end
  | O => None
  end
with parse_members (fuel : nat) (s : bytes) : option (list (bytes * json) * bytes) :=
  match fuel, s with
  | S fuel, q :: s =>
      if Byte.eqb q x22 then
        '(k, s) ← unescape s; s ← expect [":"%byte] s; '(j, s) ← parse_value fuel s;
        match s with
        | c :: s =>
            if Byte.eqb c ","%byte then '(ms, s) ← parse_members fuel s; Some ((k, j) :: ms, s)
            else if Byte.eqb c "}"%byte then Some ([(k, j)], s) else None
        | [] => None
        end
      else None
  | _, _ => None
  end.

(** A whole text. *)
Definition parse (s : bytes) : option json :=
  match parse_value (length s) s with Some (j, []) => Some j | _ => None end.

(** ** The parser reads what the printer writes *)

Definition int64 (z : Z) : bool := (- 2 ^ 63 <=? z)%Z && (z <? 2 ^ 63)%Z.

Fixpoint jwf (j : json) : bool :=
  match j with
  | JNum z => int64 z
  | JArr els => forallb jwf els
  | JObj members => forallb (fun '(_, v) => jwf v) members
  | _ => true
  end.

(** What the fuel must be. *)
Fixpoint jsize (j : json) : nat :=
  match j with
  | JArr els => S (sum_list_with (fun j => S (jsize j)) els)
  | JObj members => S (sum_list_with (fun '(_, v) => S (jsize v)) members)
  | _ => 1
  end.

(** Induction on trees. *)
Lemma json_ind' (P : json -> Prop) :
  P JNull -> (forall b, P (JBool b)) -> (forall z, P (JNum z)) -> (forall s, P (JStr s)) ->
  (forall els, Forall P els -> P (JArr els)) -> (forall ms, Forall (fun m => P m.2) ms -> P (JObj ms)) -> forall j, P j.
Proof.
  intros Hn Hb Hz Hs Ha Ho. fix IH 1. intros [| | | |els|ms]; [done|by apply Hb|by apply Hz|by apply Hs|apply Ha|apply Ho].
  - induction els; constructor; [apply IH|done].
  - induction ms; constructor; [apply IH|done].
Qed.

Lemma commas_cons x y l : commas (x :: y :: l) = x ++ ","%byte :: commas (y :: l).
Proof. reflexivity. Qed.

Lemma expect_cons c s : expect [c] (c :: s) = Some s.
Proof. unfold expect. cbn [length take drop]. by rewrite bool_decide_true. Qed.

Lemma hex_value_digit d : (0 <= d < 16)%Z -> hex_value (hex_digit d) = Some d.
Proof.
  intros Hd. unfold hex_digit, hex_value. destruct (Z.ltb_spec d 10).
  - rewrite is_digit_digit, b2z_digit by lia. f_equal. lia.
  - unfold is_digit, between. rewrite b2z_z2b_small by lia.
    destruct (Z.leb_spec 48 (87 + d)); [|lia]. destruct (Z.leb_spec (87 + d) 57); [lia|]. cbn [andb].
    destruct (Z.leb_spec 97 (87 + d)); [|lia]. destruct (Z.leb_spec (87 + d) 102); [|lia]. cbn [andb]. f_equal. lia.
Qed.

Lemma unescape_escape c s str rest :
  unescape s = Some (str, rest) -> unescape (escape c ++ s) = Some (c :: str, rest).
Proof.
  intros Hs. unfold escape. destruct (Byte.eqb c x22) eqn:Eq; [apply byte_eqb_eq in Eq as ->; cbn; by rewrite Hs|].
  destruct (Byte.eqb c x5c) eqn:Eb; [apply byte_eqb_eq in Eb as ->; cbn; by rewrite Hs|]. cbn [orb].
  pose proof (b2z_range c). destruct (Z.ltb_spec (b2z c) 32); [|cbn; by rewrite Eq, Eb, Hs].
  cbn [app unescape]. cbn -[Z.div Z.modulo hex_digit hex_value unescape].
  assert (0 <= b2z c / 16 < 2)%Z by (split; [apply Z.div_pos; lia|apply Z.div_lt_upper_bound; lia]).
  rewrite !hex_value_digit by (lia || apply Z.mod_pos_bound; lia). cbn -[Z.div Z.modulo unescape].
  destruct (Z.ltb_spec (b2z c / 16) 8); [|lia]. rewrite Hs. cbn -[Z.div Z.modulo].
  replace (b2z c / 16 * 16 + b2z c mod 16)%Z with (b2z c) by (pose proof (Z.div_mod (b2z c) 16); lia). by rewrite z2b_b2z.
Qed.

Lemma unescape_quoted s rest : unescape (escaped s ++ x22 :: rest) = Some (s, rest).
Proof.
  induction s as [|c s IH]; [done|]. cbn [escaped map concat]. rewrite <- app_assoc. by apply unescape_escape.
Qed.

(** A text that does not go on with a digit. *)
Definition stops (s : bytes) : Prop := match s with c :: _ => is_digit c = false | [] => True end.

Lemma parse_digits_uint n rest :
  (0 <= n <= max_uint64)%Z -> stops rest -> parse_digits (FormatUint n ++ rest) = Some (n, rest).
Proof.
  intros Hn Hr. unfold parse_digits.
  assert (span is_digit (FormatUint n ++ rest) = (FormatUint n, rest)) as ->.
  { apply span_app; [apply FormatUint_digits; lia|]. destruct rest as [|c rest]; [done|]. cbn in Hr. by rewrite Hr. }
  by rewrite ParseUint_FormatUint.
Qed.

Lemma digit_byte c : is_digit c = true -> forall d, is_digit d = false -> Byte.eqb c d = false.
Proof. intros Hc d Hd. destruct (Byte.eqb c d) eqn:E; [|done]. apply byte_eqb_eq in E as ->. congruence. Qed.

Lemma parse_number z rest fuel :
  int64 z = true -> stops rest -> parse_value (S fuel) (Itoa z ++ rest) = Some (JNum z, rest).
Proof.
  intros Hz Hr. unfold int64 in Hz. unfold Itoa. destruct (Z.ltb_spec z 0).
  - change (format_digits 20 (- z) []) with (FormatUint (- z)). cbn -[FormatUint].
    rewrite parse_digits_uint by (done || unfold max_uint64; lia). cbn. by rewrite Z.opp_involutive.
  - change (format_digits 20 z []) with (FormatUint z).
    pose proof (parse_digits_uint z rest ltac:(unfold max_uint64; lia) Hr) as HP.
    pose proof (FormatUint_digits z ltac:(lia)) as Hd. pose proof (FormatUint_nonempty z).
    destruct (FormatUint z) as [|c l]; [done|]. cbn [forallb] in Hd. apply andb_prop in Hd as [Hc _].
    cbn [app parse_value] in *. rewrite !(digit_byte c Hc) by done. by rewrite HP.
Qed.

Definition reads (j : json) : Prop :=
  forall fuel rest, jsize j <= fuel -> stops rest -> parse_value fuel (print j ++ rest) = Some (j, rest).

(** A value starts with none of the characters that follow values. *)
Lemma print_start j : exists c s, print j = c :: s /\ Byte.eqb c "]"%byte = false /\ Byte.eqb c "}"%byte = false.
Proof.
  destruct j as [|[]|z|s|els|ms]; try (eexists _, _; split; [reflexivity|done]).
  cbn [print]. unfold Itoa. destruct (Z.ltb_spec z 0); [by eexists _, _|].
  change (format_digits 20 z []) with (FormatUint z).
  pose proof (FormatUint_digits z ltac:(lia)) as Hd. pose proof (FormatUint_nonempty z).
  destruct (FormatUint z) as [|c l]; [done|]. cbn [forallb] in Hd. apply andb_prop in Hd as [Hc _].
  exists c, l. by rewrite !(digit_byte c Hc).
Qed.

Lemma parse_elements_commas els fuel rest :
  els <> [] -> Forall reads els -> sum_list_with (fun j => S (jsize j)) els <= fuel ->
  parse_elements fuel (commas (map print els) ++ "]"%byte :: rest) = Some (els, rest).
Proof.
  intros Hne HF. revert fuel. induction HF as [|j els Hj HF IH]; intros fuel Hf; [done|].
  cbn [sum_list_with] in Hf. destruct fuel as [|fuel]; [lia|]. cbn [parse_elements].
  destruct els as [|j' els].
  - cbn [map commas]. rewrite Hj by (done || cbn in *; lia). done.
  - cbn [map]. rewrite commas_cons, <- app_assoc. rewrite Hj by (done || cbn in *; lia). cbn [mbind option_bind app].
    change (Byte.eqb "," ",") with true. cbn iota. change (print j' :: map print els) with (map print (j' :: els)).
    by rewrite IH by (done || lia).
Qed.

Lemma parse_members_commas ms fuel rest :
  ms <> [] -> Forall (fun m => reads m.2) ms -> sum_list_with (fun '(_, v) => S (jsize v)) ms <= fuel ->
  parse_members fuel (commas (map (print_member print) ms) ++ "}"%byte :: rest) = Some (ms, rest).
Proof.
  intros Hne HF. revert fuel. induction HF as [|[k j] ms Hj HF IH]; intros fuel Hf; [done|].
  cbn [sum_list_with snd] in *. destruct fuel as [|fuel]; [lia|].
  assert (forall t, exists s, print_member print (k, j) ++ t = x22 :: s /\ unescape s = Some (k, ":"%byte :: print j ++ t)) as HK.
  { intros t. eexists. cbn [print_member quoted app]. rewrite <- !app_assoc. split; [reflexivity|]. apply unescape_quoted. }
  destruct ms as [|m ms].
  - cbn [map commas]. destruct (HK ("}"%byte :: rest)) as (s & -> & Hs).
    cbn [parse_members]. change (Byte.eqb x22 x22) with true. cbn iota.
    rewrite Hs. cbn [mbind option_bind]. rewrite expect_cons. cbn [mbind option_bind]. rewrite Hj by (done || cbn in *; lia). done.
  - cbn [map]. rewrite commas_cons, <- app_assoc. cbn [app].
    destruct (HK (","%byte :: commas (print_member print m :: map (print_member print) ms) ++ "}"%byte :: rest)) as (s & -> & Hs).
    cbn [parse_members]. change (Byte.eqb x22 x22) with true. cbn iota.
    rewrite Hs. cbn [mbind option_bind]. rewrite expect_cons. cbn [mbind option_bind].
    rewrite Hj by (done || cbn in *; lia). cbn [mbind option_bind]. change (Byte.eqb "," ",") with true. cbn iota.
    change (print_member print m :: map (print_member print) ms) with (map (print_member print) (m :: ms)). by rewrite IH by (done || lia).
Qed.

Lemma print_reads j : jwf j = true -> reads j.
Proof.
  induction j as [|[]|z|s|els IH|ms IH] using json_ind'; intros Hw fuel rest Hf Hr; (destruct fuel as [|fuel]; [cbn in Hf; lia|]).
  - done.
  - done.
  - done.
  - by apply parse_number.
  - cbn [print quoted app parse_value]. cbn -[unescape escaped]. rewrite <- app_assoc. cbn [app]. by rewrite unescape_quoted.
  - cbn [jwf] in Hw.
    assert (Forall reads els) as HR.
    { apply Forall_forall. intros j Hj. rewrite Forall_forall in IH. apply IH; [done|]. exact (forallb_in _ _ _ Hw Hj). }
    destruct els as [|j els]; [done|]. cbn [jsize] in Hf.
    pose proof (parse_elements_commas (j :: els) fuel rest ltac:(done) HR ltac:(lia)) as HP.
    destruct (print_start j) as (c & s & Ec & Hc & _).
    assert (exists t, commas (map print (j :: els)) ++ "]"%byte :: rest = c :: t) as [t Et].
    { destruct els; cbn [map commas]; rewrite Ec; by eexists. }
    cbn [print app parse_value]. cbn -[parse_elements commas]. rewrite <- app_assoc. cbn [app].
    change (print j :: map print els) with (map print (j :: els)). rewrite Et in *. by rewrite Hc, HP.
  - cbn [jwf] in Hw.
    assert (Forall (fun m => reads m.2) ms) as HR.
    { apply Forall_forall. intros [k j] Hj. rewrite Forall_forall in IH. apply (IH _ Hj). exact (forallb_in _ _ _ Hw Hj). }
    destruct ms as [|[k j] ms]; [done|]. cbn [jsize] in Hf.
    pose proof (parse_members_commas ((k, j) :: ms) fuel rest ltac:(done) HR ltac:(lia)) as HP.
    assert (exists t, commas (map (print_member print) ((k, j) :: ms)) ++ "}"%byte :: rest = x22 :: t) as [t Et].
    { destruct ms; cbn [map commas quoted app]; by eexists. }
    cbn [print app parse_value]. cbn -[parse_members commas map]. rewrite <- app_assoc. cbn [app].
    rewrite Et in *. cbn -[parse_members]. by rewrite HP.
Qed.

Lemma print_nonempty j : 1 <= length (print j).
Proof. destruct (print_start j) as (c & s & -> & _). cbn. lia. Qed.

Lemma length_commas {A} (f : A -> bytes) (size : A -> nat) l :
  Forall (fun x => size x <= length (f x)) l ->
  sum_list_with (fun x => S (size x)) l <= S (length (commas (map f l))).
Proof.
  intros HF. induction HF as [|x l Hx HF IH]; [cbn; lia|]. destruct l as [|y l]; [cbn in *; lia|].
  cbn [map]. rewrite commas_cons, length_app. cbn [sum_list_with length map] in *. lia.
Qed.

Lemma jsize_print j : jsize j <= length (print j).
Proof.
  induction j as [| | | |els IH|ms IH] using json_ind'; try apply print_nonempty.
  - cbn [jsize print length]. rewrite length_app. cbn [length]. pose proof (length_commas print jsize els IH). lia.
  - cbn [jsize print length]. rewrite length_app. cbn [length].
    assert (Forall (fun m => jsize m.2 <= length (print_member print m)) ms) as HF.
    { eapply Forall_impl; [exact IH|]. intros [k j] Hj. cbn [print_member snd] in *. rewrite length_app. cbn [length]. lia. }
    pose proof (length_commas (print_member print) (fun m => jsize m.2) ms HF) as HL.
    assert (sum_list_with (fun '(_, v) => S (jsize v)) ms = sum_list_with (fun m => S (jsize m.2)) ms) as ->; [|lia].
    clear. induction ms as [|[k j] ms IH]; [done|]. cbn. by rewrite IH.
Qed.

Lemma parse_print j : jwf j = true -> parse (print j) = Some j.
Proof.
  intros Hw. unfold parse. rewrite <- (app_nil_r (print j)) at 2.
  by rewrite (print_reads j Hw) by (done || apply jsize_print).
Qed.

(** ** Values *)

(** Keys are found by name, whatever their order; the last one counts. *)
Fixpoint member (k : bytes) (ms : list (bytes * json)) : option json :=
  match ms with
  | [] => None
  | (k', j) :: ms => match member k ms with Some j' => Some j' | None => if bool_decide (k = k') then Some j else None end
  end.

Definition string_json (s : string) : bytes := to_valid (to_bytes s).

(** [Marshal]. A [Binary] is written as the text it holds, if that is JSON; byte slices without the method, functions and
    maps whose keys are not strings are not written by this package. *)
Fixpoint to_json (v : gval) : option json :=
  match v with
  | GBool b => Some (JBool b)
  | GInt z | GFloat64 z => Some (JNum z)
  | GString s => Some (JStr (string_json s))
  | GBytes true b => parse b
  | GSlice _ els => JArr <$> mapM to_json els
  | GStruct fs =>
      (fun l => JObj (concat l)) <$>
        mapM (fun '(fd, f) => match f_key fd with
                              | Some k => j ← to_json f; Some [(string_json k, j)]
                              | None => Some []
                              end) fs
  | GMap true _ entries => JObj <$> mapM (fun '(k, x) => j ← to_json x; Some (string_json k, j)) entries
  | GPtr _ None | GIface None => Some JNull
  | GPtr _ (Some w) | GIface (Some w) => to_json w
  | GBytes false _ | GMap false _ _ | GFunc _ => None
  end.

(** The zero value of a type. *)
Fixpoint zero (t : gty) : gval :=
  match t with
  | TBool => GBool false
  | TInt => GInt 0
  | TFloat64 => GFloat64 0
  | TString => GString ""
  | TBytes binary => GBytes binary []
  | TSlice e => GSlice e []
  | TStruct fs => GStruct (map (fun '(fd, f) => (fd, zero f)) fs)
  | TMap k e => GMap k e []
  | TPtr e => GPtr e None
  | TIface => GIface None
  | TFunc => GFunc None
  end.

(** [Unmarshal] to a new value of a type. *)
Fixpoint of_json (t : gty) (j : json) : option gval :=
  match t, j with
  | TBytes true, _ => Some (GBytes true (print j))
  | TPtr e, JNull => Some (GPtr e None)
  | TPtr e, _ => (fun w => GPtr e (Some w)) <$> of_json e j
  | _, JNull => Some (zero t)
  | TBool, JBool b => Some (GBool b)
  | TInt, JNum z => Some (GInt z)
  | TFloat64, JNum z => Some (GFloat64 z)
  | TString, JStr s => Some (GString (of_bytes s))
  | TSlice e, JArr js => GSlice e <$> mapM (of_json e) js
  | TStruct fs, JObj ms =>
      GStruct <$> mapM (fun '(fd, f) =>
        match f_key fd ≫= (fun k => member (string_json k) ms) with
        | Some j => x ← of_json f j; Some (fd, x)
        | None => Some (fd, zero f)
        end) fs
  | TMap true e, JObj ms => GMap true e <$> mapM (fun '(k, j) => x ← of_json e j; Some (of_bytes k, x)) ms
  | _, _ => None
  end.

(** ** Which values are carried exactly *)

(** JSON has one [null]: a pointer to something that can be written so does not arrive as a pointer. *)
Definition maybe_null (v : gval) : bool :=
  match v with GSlice _ [] | GMap _ _ [] | GPtr _ None | GIface None | GFunc _ => true | _ => false end.

Definition text_valid (s : string) : bool := utf8_valid (to_bytes s).

(** Strings and keys must be valid UTF-8, integers fit in 64 bits; the keys of a map are different, as Go ensures; and every field
    of a struct has a key of its own. Interfaces, functions and byte slices that are no [Binary] are left out. *)
Fixpoint json_exact (v : gval) : bool :=
  match v with
  | GBool _ => true
  | GInt z | GFloat64 z => int64 z
  | GString s => text_valid s
  | GBytes binary _ => binary
  | GSlice _ els => forallb json_exact els
  | GStruct fs =>
      forallb (fun '(fd, f) => match f_key fd with Some k => text_valid k | None => false end && json_exact f) fs &&
      bool_decide (NoDup (map (fun '(fd, _) => f_key fd) fs))
  | GMap k _ entries =>
      k && forallb (fun '(key, x) => text_valid key && json_exact x) entries && bool_decide (NoDup (map fst entries))
  | GPtr _ None => true
  | GPtr _ (Some w) => negb (maybe_null w) && json_exact w
  | GIface _ | GFunc _ => false
  end.

(** A value without the contents of its binary values, on which exactness does not depend. *)
Fixpoint skeleton (v : gval) : gval :=
  match v with
  | GBytes binary b => GBytes binary (if binary then [] else b)
  | GSlice e els => GSlice e (map skeleton els)
  | GStruct fs => GStruct (map (fun '(fd, f) => (fd, skeleton f)) fs)
  | GMap k e entries => GMap k e (map (fun '(key, x) => (key, skeleton x)) entries)
  | GPtr e (Some w) => GPtr e (Some (skeleton w))
  | GIface (Some w) => GIface (Some (skeleton w))
  | _ => v
  end.

(** Induction on values. *)
Lemma gval_ind' (P : gval -> Prop) :
  (forall v, match v with GSlice _ _ | GStruct _ | GMap _ _ _ | GPtr _ (Some _) | GIface (Some _) => False | _ => True end -> P v) ->
  (forall e els, Forall P els -> P (GSlice e els)) -> (forall fs, Forall (fun f => P f.2) fs -> P (GStruct fs)) ->
  (forall k e entries, Forall (fun x => P x.2) entries -> P (GMap k e entries)) ->
  (forall e w, P w -> P (GPtr e (Some w))) -> (forall w, P w -> P (GIface (Some w))) -> forall v, P v.
Proof.
  intros H0 Hs Hf Hm Hp Hi. fix IH 1. intros [| | | | |e els|fs|k e entries|e [w|]|[w|]|]; try by apply H0.
  - apply Hs. induction els; constructor; [apply IH|done].
  - apply Hf. induction fs; constructor; [apply IH|done].
  - apply Hm. induction entries; constructor; [apply IH|done].
  - apply Hp, IH.
  - apply Hi, IH.
Qed.

Lemma maybe_null_skeleton v : maybe_null (skeleton v) = maybe_null v.
Proof. by destruct v as [| | | | |? []| |? ? []|? []|[]|]. Qed.

Lemma forallb_map_ext {A B} (f : B -> bool) (g : A -> bool) (h : A -> B) l :
  Forall (fun x => f (h x) = g x) l -> forallb f (map h l) = forallb g l.
Proof. induction 1 as [|x l Hx _ IH]; [done|]. cbn. by rewrite Hx, IH. Qed.

Lemma json_exact_skeleton v : json_exact (skeleton v) = json_exact v.
Proof.
  induction v as [v Hv|e els IH|fs IH|k e entries IH|e w IH|w IH] using gval_ind'.
  - by destruct v as [| | | |[]| | | |? []|[]|].
  - cbn. by apply forallb_map_ext.
  - cbn [skeleton json_exact]. f_equal.
    + apply forallb_map_ext. eapply Forall_impl; [exact IH|]. intros [fd f] Hf. cbn in *. by rewrite Hf.
    + rewrite map_map, (map_ext _ (fun '(fd, _) => f_key fd)); [done|]. by intros [fd f].
  - cbn [skeleton json_exact]. f_equal; [f_equal|].
    + apply forallb_map_ext. eapply Forall_impl; [exact IH|]. intros [key x] Hx. cbn in *. by rewrite Hx.
    + rewrite map_map, (map_ext _ fst); [done|]. by intros [key x].
  - cbn. by rewrite maybe_null_skeleton, IH.
  - done.
Qed.

(** ** Exact values come back *)

(** The text of a [Binary] that has been replaced by a placeholder is an object. *)
Definition object_text (b : bytes) : Prop := exists ms, jwf (JObj ms) = true /\ b = print (JObj ms).

Fixpoint texts (v : gval) : Prop :=
  match v with
  | GBytes true b => object_text b
  | GSlice _ els => fold_right (fun x P => texts x /\ P) True els
  | GStruct fs => fold_right (fun f P => texts f.2 /\ P) True fs
  | GMap _ _ entries => fold_right (fun x P => texts x.2 /\ P) True entries
  | GPtr _ (Some w) | GIface (Some w) => texts w
  | _ => True
  end.

Lemma texts_Forall {A} (f : A -> gval) l : fold_right (fun x P => texts (f x) /\ P) True l <-> Forall (fun x => texts (f x)) l.
Proof. induction l as [|x l IH]; cbn; [by split|]. by rewrite Forall_cons, IH. Qed.

Lemma string_json_valid s : text_valid s = true -> string_json s = to_bytes s.
Proof. apply to_valid_id. Qed.

Definition comes_back (v : gval) : Prop :=
  wf v = true -> json_exact v = true -> texts v ->
  exists j, to_json v = Some j /\ of_json (typeOf v) j = Some v /\ (maybe_null v = false -> j <> JNull) /\ jwf j = true.

Lemma slice_back e els :
  Forall comes_back els -> Forall (fun x => typeOf x = e /\ wf x = true /\ json_exact x = true /\ texts x) els ->
  exists js, mapM to_json els = Some js /\ mapM (of_json e) js = Some els /\ forallb jwf js = true.
Proof.
  intros HC. induction HC as [|x els Hx HC IH]; intros HF; [by exists []|].
  apply Forall_cons in HF as [(<- & Hw & He & Ht) HF].
  destruct (Hx Hw He Ht) as (j & Ej & Ev & _ & Hj), (IH HF) as (js & Ejs & Evs & Hjs).
  exists (j :: js). cbn. rewrite Ej, Ejs. cbn. rewrite Ev. cbn. by rewrite Evs, Hj, Hjs.
Qed.

Lemma entries_back e entries :
  Forall (fun x => comes_back x.2) entries ->
  Forall (fun x => text_valid x.1 = true /\ typeOf x.2 = e /\ wf x.2 = true /\ json_exact x.2 = true /\ texts x.2) entries ->
  exists ms, mapM (fun '(k, x) => j ← to_json x; Some (string_json k, j)) entries = Some ms /\
    mapM (fun '(k, j) => x ← of_json e j; Some (of_bytes k, x)) ms = Some entries /\ forallb (fun '(_, j) => jwf j) ms = true.
Proof.
  intros HC. induction HC as [|[k x] entries Hx HC IH]; intros HF; [by exists []|].
  apply Forall_cons in HF as [(Hk & Hty & Hw & He & Ht) HF]. cbn [fst snd] in *.
  destruct (Hx Hw He Ht) as (j & Ej & Ev & _ & Hj), (IH HF) as (ms & Ems & Evs & Hms). rewrite Hty in Ev.
  exists ((string_json k, j) :: ms). cbn. rewrite Ej. cbn. rewrite Ems. cbn. rewrite Ev. cbn. rewrite Evs. cbn.
  rewrite string_json_valid, of_to_bytes by done. by rewrite Hj, Hms.
Qed.

(** What the printer writes of the fields, and what is found under their keys. *)
Lemma fields_written fs :
  Forall (fun f => comes_back f.2) fs ->
  Forall (fun f => (exists k, f_key f.1 = Some k /\ text_valid k = true) /\ wf f.2 = true /\ json_exact f.2 = true /\ texts f.2) fs ->
  NoDup (map (fun '(fd, _) => f_key fd) fs) ->
  exists l, mapM (fun '(fd, f) => match f_key fd with
                                  | Some k => j ← to_json f; Some [(string_json k, j)]
                                  | None => Some []
                                  end) fs = Some l /\
    forallb (fun '(_, j) => jwf j) (concat l) = true /\
    (forall k, text_valid k = true -> Some k ∉ map (fun '(fd, _) => f_key fd) fs -> member (string_json k) (concat l) = None) /\
    Forall (fun f => exists k j, f_key f.1 = Some k /\ member (string_json k) (concat l) = Some j /\ of_json (typeOf f.2) j = Some f.2) fs.
Proof.
  intros HC. induction HC as [|[fd f] fs Hf HC IH]; intros HF HN; [by exists []|].
  apply Forall_cons in HF as [((k & Hk & Hkv) & Hw & He & Ht) HF]. cbn [fst snd] in *.
  cbn [map] in HN. apply NoDup_cons in HN as [Hni HN]. rewrite Hk in Hni.
  destruct (Hf Hw He Ht) as (j & Ej & Ev & _ & Hj), (IH HF HN) as (l & El & Hl & Hnone & HL).
  pose proof (Hnone k Hkv Hni) as Hm.
  exists ([(string_json k, j)] :: l). cbn [mapM]. rewrite Hk, Ej. cbn. rewrite El. cbn. split_and!.
  - done.
  - by rewrite Hj.
  - intros k' Hk' Hn. apply not_elem_of_cons in Hn as [Hne Hn]. rewrite (Hnone k' Hk' Hn), bool_decide_false; [done|].
    rewrite !string_json_valid by done. intros E. apply (f_equal of_bytes) in E. rewrite !of_to_bytes in E. congruence.
  - constructor.
    + exists k, j. cbn. by rewrite Hm, bool_decide_true.
    + eapply Forall_impl; [exact HL|]. intros f' (k' & j' & Hk' & Hm' & Hv'). exists k', j'. by rewrite Hm'.
Qed.

Lemma fields_back fs ms :
  Forall (fun f => exists k j, f_key f.1 = Some k /\ member (string_json k) ms = Some j /\ of_json (typeOf f.2) j = Some f.2) fs ->
  mapM (fun '(fd, f) => match f_key fd ≫= (fun k => member (string_json k) ms) with
                        | Some j => x ← of_json f j; Some (fd, x)
                        | None => Some (fd, zero f)
                        end) (map (fun '(fd, f) => (fd, typeOf f)) fs) = Some fs.
Proof.
  induction 1 as [|[fd f] fs (k & j & Hk & Hm & Hv) _ IH]; [done|]. cbn [fst snd map mapM] in *.
  rewrite Hk. cbn [mbind option_bind]. rewrite Hm, Hv. cbn [mbind option_bind]. by rewrite IH.
Qed.

(** Every exact value whose binary values hold the texts of objects is written, and read back at its type. *)
Theorem json_exact_back v : comes_back v.
Proof.
  induction v as [v Hv|e els IH|fs IH|k e entries IH|e w IH|w IH] using gval_ind'; intros Hw He Ht.
  - destruct v as [| | | |[] b|e els|fs|k e entries|e [w|]|[w|]|]; try done; try (eexists; split; [reflexivity|]; by split).
    + exists (JStr (string_json s)). cbn in *. split; [done|]. by rewrite string_json_valid, of_to_bytes.
    + destruct Ht as (ms & Hms & ->). exists (JObj ms). cbn [to_json]. by rewrite parse_print.
  - destruct (slice_back e els IH) as (js & Ejs & Evs & Hjs).
    { apply texts_Forall in Ht. apply Forall_forall. intros x Hx.
      pose proof (forallb_in _ _ _ Hw Hx) as [Hty%bool_decide_eq_true Hwx]%andb_prop.
      rewrite Forall_forall in Ht. split_and!; [done|done|exact (forallb_in _ _ _ He Hx)|by apply Ht]. }
    exists (JArr js). cbn [to_json typeOf of_json]. rewrite Ejs. cbn. by rewrite Evs.
  - cbn [json_exact] in He. apply andb_prop in He as [He HN%bool_decide_eq_true].
    destruct (fields_written fs IH) as (l & El & Hl & _ & HL); [|done|].
    { apply (texts_Forall snd) in Ht. apply Forall_forall. intros [fd f] Hf. pose proof (forallb_in _ _ _ Hw Hf) as Hwf.
      pose proof (forallb_in _ _ _ He Hf) as [Hk Hex]%andb_prop. rewrite Forall_forall in Ht. cbn [fst snd].
      split; [|split_and!; [done|done|exact (Ht _ Hf)]]. destruct (f_key fd) as [k|]; [|done]. by exists k. }
    exists (JObj (concat l)). cbn [to_json]. rewrite El. split; [done|]. cbn [typeOf of_json].
    rewrite fields_back by done. by split.
  - cbn [json_exact] in He. apply andb_prop in He as [[-> He]%andb_prop HN%bool_decide_eq_true].
    destruct (entries_back e entries IH) as (ms & Ems & Evs & Hms).
    { apply (texts_Forall snd) in Ht. apply Forall_forall. intros [key x] Hx. pose proof (forallb_in _ _ _ Hw Hx) as Hwx.
      pose proof (forallb_in _ _ _ He Hx) as [Hk Hex]%andb_prop. apply andb_prop in Hwx as [Hty%bool_decide_eq_true Hwx].
      rewrite Forall_forall in Ht. cbn [fst snd]. split_and!; try done. exact (Ht _ Hx). }
    exists (JObj ms). cbn [to_json]. rewrite Ems. split; [done|]. cbn [typeOf of_json]. by rewrite Evs.
  - cbn [json_exact] in He. apply andb_prop in He as [Hn%negb_true_iff He]. cbn [wf] in Hw.
    apply andb_prop in Hw as [<-%bool_decide_eq_true Hw]. destruct (IH Hw He Ht) as (j & Ej & Ev & Hj & Hjw).
    exists j. split; [done|]. split; [|split; [by intros _; apply Hj|done]]. specialize (Hj Hn). cbn [typeOf of_json].
    destruct j; [done|..]; by rewrite Ev.
  - done.
Qed.

(** ** The package *)

Definition placeholder_json (n : Z) : json := JObj [(to_bytes "_placeholder", JBool true); (to_bytes "num", JNum n)].

(** [Unmarshal] to a [placeholder]: unknown keys are ignored, missing ones leave zeros. *)
Definition placeholder_of (j : json) : option Z :=
  match j with
  | JObj ms => match member (to_bytes "num") ms with
               | Some (JNum n) => Some n
               | None | Some JNull => Some 0%Z
               | _ => None
               end
  | JNull => Some 0%Z
  | _ => None
  end.

(** [Unmarshal] to a slice of pointers to new values: places without an element keep their zero values. *)
Fixpoint args_of (js : list json) (types : list gty) : option (list gval) :=
  match types, js with
  | [], _ => Some []
  | t :: types, [] => (fun vs => zero t :: vs) <$> args_of [] types
  | t :: types, j :: js => v ← of_json t j; vs ← args_of js types; Some (v :: vs)
  end.

Definition array_of (text : bytes) : option (list json) :=
  match parse text with Some (JArr js) => Some js | _ => None end.

Definition json_package : ValueJSON := {|
  value_serializer := {|
    json_Encode v := (fun j => print j ++ [x0a]) <$> to_json v;
    json_UnmarshalStrings text :=
      js ← array_of text; mapM (fun j => match j with JStr s => Some (of_bytes s) | _ => None end) js |};
  json_MarshalPlaceholder n := Some (print (placeholder_json n));
  json_UnmarshalPlaceholder p := parse p ≫= placeholder_of;
  json_UnmarshalArgs text types := js ← array_of text; args_of js types;
  json_UnmarshalValue text t := j ← parse text; of_json t j;
|}.
End jsontext.
