(* ===== verification/JsonAttachments.v ===== *)
(** * Attachments travel ([Encode], [Add] and [decode] of [parser/json] together)

    Which values the walks of [JsonBinary] carry: the types for which what
    [deconstructValue] takes out is what [reconstructValue] puts back; then the whole way
    of an event, from [Encode] through the reassembly to [decode]; and the values and
    packets for which it fails. *)

From S2P Require Import Prelude Utf8 Strconv SioPacket JsonHeader JsonParser JsonBinary JsonText.
Import parser jsonparser reassembly binary jsontext.

Module attachments.

#[local] Set Warnings "-register-all".

(** ** The types that are carried *)

Definition scalar (t : gty) : bool :=
  match t with TBool | TInt | TFloat64 | TString => true | _ => false end.

Definition indirect (t : gty) : bool := match t with TPtr _ | TIface => true | _ => false end.

Definition is_ptr (t : gty) : bool := match t with TPtr _ => true | _ => false end.

(** The type of a place after one [Elem]. *)
Definition pointee (t : gty) : gty := match t with TPtr t' => t' | _ => t end.

(** [sendable canSet t]: a place of type [t] that can be set or not. A [Binary] must be
    settable, so it cannot be a field of a struct that is the element of a map; a map can
    hold pointers to [Binary], but no [Binary] and no slices to be walked; slices of maps
    are not walked; a pointer to a [Binary] is refused but as a field or an entry. No byte
    slice but [Binary], no unexported field and no interface. *)
Fixpoint sendable (canSet : bool) (t : gty) : bool :=
  match t with
  | TBool | TInt | TFloat64 | TString => true
  | TBytes binary => binary && canSet
  | TSlice e => scalar e || (walked e && sendable true e)
  | TStruct fs =>
      forallb (fun '(fd, f) =>
        f_exported fd && negb (indirect (pointee f)) && sendable (canSet || is_ptr f) (pointee f)) fs
  | TMap _ e =>
      match pointee e with
      | TBytes binary => binary && is_ptr e
      | TSlice e' => scalar e'
      | TPtr _ | TIface => false
      | _ => sendable (is_ptr e) (pointee e)
      end
  | TPtr t' => match t' with TBytes _ | TPtr _ | TIface => false | _ => sendable true t' end
  | TIface | TFunc => false
  end.

(** The contents of the [Binary] values in a value, in the order of a walk. *)
Fixpoint leaves (v : gval) : list bytes :=
  match v with
  | GBytes true b => [b]
  | GSlice _ els => concat (map leaves els)
  | GStruct fs => concat (map (fun '(_, f) => leaves f) fs)
  | GMap _ _ entries => concat (map (fun '(_, x) => leaves x) entries)
  | GPtr _ (Some x) | GIface (Some x) => leaves x
  | _ => []
  end.

(** The same value up to the order in which Go iterates over its maps. *)
Inductive reorder : gval -> gval -> Prop :=
| reorder_atom v :
    match v with GSlice _ _ | GStruct _ | GMap _ _ _ | GPtr _ (Some _) | GIface (Some _) => False | _ => True end ->
    reorder v v
| reorder_slice e els els' : Forall2 reorder els els' -> reorder (GSlice e els) (GSlice e els')
| reorder_struct fs fs' :
    Forall2 (fun f f' => f'.1 = f.1 /\ reorder f.2 f'.2) fs fs' -> reorder (GStruct fs) (GStruct fs')
| reorder_map k e entries shuffled entries' :
    Permutation entries shuffled ->
    Forall2 (fun x x' => x'.1 = x.1 /\ reorder x.2 x'.2) shuffled entries' ->
    reorder (GMap k e entries) (GMap k e entries')
| reorder_ptr e v v' : reorder v v' -> reorder (GPtr e (Some v)) (GPtr e (Some v'))
| reorder_iface v v' : reorder v v' -> reorder (GIface (Some v)) (GIface (Some v')).

Lemma reorder_indirect v u : reorder v u -> indirect (typeOf u) = indirect (typeOf v).
Proof. by destruct 1. Qed.

Lemma pointee_id t : is_ptr t = false -> pointee t = t.
Proof. by destruct t. Qed.

Lemma scalar_leaves v : scalar (typeOf v) = true -> leaves v = [].
Proof. by destruct v. Qed.

Lemma scalar_slice_leaves e els : wf (GSlice e els) = true -> scalar e = true -> leaves (GSlice e els) = [].
Proof.
  cbn. intros Hwf Hs. induction els as [|x els IH]; [done|]. cbn in *.
  apply andb_prop in Hwf as [[Ht%bool_decide_eq_true Hw]%andb_prop Hwf].
  rewrite scalar_leaves by by rewrite Ht. by apply IH.
Qed.

(** ** What a walk must do *)

Section carry.
Context `{ValueJSON}.

(** Every [Binary] of the value holds the text of a placeholder. *)
Definition placeholder_text (b : bytes) : Prop :=
  exists k, (0 <= k <= max_int64)%Z /\ json_MarshalPlaceholder k = Some b.

Definition on_wire (v : gval) : Prop := Forall placeholder_text (leaves v).

(** The attachments [bufs] with the numbers from [n] are among the buffers of a
    packet, whose first buffer is its text. *)
Definition fits (n : Z) (bufs buffers : list bytes) : Prop :=
  (Z.of_nat (length buffers) <= max_int64)%Z /\
  forall i b, bufs !! i = Some b -> buffers !! S (Z.to_nat n + i) = Some b.

Lemma fits_app n b1 b2 buffers :
  (0 <= n)%Z -> fits n (b1 ++ b2) buffers -> fits n b1 buffers /\ fits (n + Z.of_nat (length b1)) b2 buffers.
Proof.
  intros Hn [Hm Hf]. split; (split; [done|]); intros i b Hi.
  - by apply Hf, lookup_app_l_Some.
  - replace (S (Z.to_nat (n + Z.of_nat (length b1)) + i)) with (S (Z.to_nat n + (length b1 + i))) by lia.
    apply Hf. rewrite lookup_app_r by lia. by replace (length b1 + i - length b1) with i by lia.
Qed.

(** The result of a walk from the number [n]: it has taken out exactly [bufs], and has
    left something that satisfies [P] and is put back in the sense of [back]. *)
Definition carries {A} (n : Z) (bufs : list bytes) (w : walk_result A) (P : A -> Prop)
    (back : list bytes -> A -> Prop) : Prop :=
  exists y, w = (y, n + Z.of_nat (length bufs), Ret bufs)%Z /\ P y /\
    forall buffers, fits n bufs buffers -> back buffers y.

Lemma carries_rebuilt {A B} (r : A -> B) n bufs w (P : A -> Prop) (Q : B -> Prop) back back' :
  carries n bufs w P back -> (forall y, P y -> Q (r y)) ->
  (forall buffers y, P y -> back buffers y -> back' buffers (r y)) ->
  carries n bufs (rebuilt r w) Q back'.
Proof.
  intros (y & -> & HP & Hb) HQ Hr. exists (r y). split; [done|]. split; [by apply HQ|].
  intros buffers Hf. by apply Hr, Hb.
Qed.

Lemma carries_none {A} n (v : A) (P : A -> Prop) back :
  P v -> (forall buffers, back buffers v) -> carries n [] (v, n, Ret []) P back.
Proof. intros HP Hb. exists v. split; [by rewrite Z.add_0_r|]. by split. Qed.

Lemma walk_each_carries {A} (bufs_of : A -> list bytes) f (l : list A) n (P : A -> A -> Prop) back :
  (0 <= n)%Z -> (n + Z.of_nat (length (concat (map bufs_of l))) <= max_int64)%Z ->
  (forall x n, x ∈ l -> (0 <= n)%Z -> (n + Z.of_nat (length (bufs_of x)) <= max_int64)%Z ->
     carries n (bufs_of x) (f x n) (P x) (fun buffers y => back buffers x y)) ->
  carries n (concat (map bufs_of l)) (walk_each f l n) (Forall2 P l)
    (fun buffers ys => Forall2 (back buffers) l ys).
Proof.
  revert n. induction l as [|x l IH]; intros n Hn Hm Hf; [by apply carries_none|].
  cbn [map concat] in *. rewrite length_app in Hm.
  destruct (Hf x n) as (y & Ey & HPy & Hby); [left|done|lia|].
  destruct (IH (n + Z.of_nat (length (bufs_of x)))%Z) as (ys & Eys & HPys & Hbys); [lia|lia| |].
  { intros x' n' Hx' Hn' Hm'. apply Hf; [by right|done|done]. }
  exists (y :: ys). cbn [walk_each]. rewrite Ey, Eys. cbn [fmap outcome_fmap].
  split; [by rewrite length_app, Nat2Z.inj_add, Z.add_assoc|]. split; [by constructor|].
  intros buffers [Hf1 Hf2]%fits_app; [|done]. constructor; auto.
Qed.

(** Putting back, element by element. *)
Lemma outcome_each_back {A} (g : A -> outcome error A) (R S : A -> A -> Prop) xs ys us :
  Forall2 (fun x y => forall u, R y u -> exists v, g u = Ret v /\ S x v) xs ys ->
  Forall2 R ys us -> exists vs, outcome_each g us = Ret vs /\ Forall2 S xs vs.
Proof.
  intros Hb. revert us. induction Hb as [|x y xs ys Hxy _ IH]; intros us Hr.
  - apply Forall2_nil_inv_l in Hr as ->. by exists [].
  - apply Forall2_cons_inv_l in Hr as (u & us' & Hu & Hus & ->).
    destruct (Hxy u Hu) as (v & Ev & Hv), (IH us' Hus) as (vs & Evs & Hvs).
    exists (v :: vs). cbn [outcome_each]. rewrite Ev. cbn [mbind outcome_bind]. rewrite Evs. cbn. auto.
Qed.
End carry.

(** ** The walks carry sendable values *)

(** [Unmarshal] of what [Marshal] wrote for a placeholder gives it back. *)
Class PlaceholderJSON `{ValueJSON} : Prop :=
  placeholder_roundtrip n : (0 <= n <= max_int64)%Z ->
    exists p, json_MarshalPlaceholder n = Some p /\ json_UnmarshalPlaceholder p = Some n.

Section walks_carry.
Context `{PlaceholderJSON}.

(** A walk leaves a value of the same type with placeholders for its binary values, and nothing else changed. *)
Definition left_as (v y : gval) : Prop := typeOf y = typeOf v /\ on_wire y /\ skeleton y = skeleton v.

Definition restores (g : gval -> outcome error gval) (v y : gval) : Prop :=
  forall u, reorder y u -> exists v', g u = Ret v' /\ reorder v v'.

(** The same for the value of a field or of an entry. *)
Definition left_as_snd {K} (x y : K * gval) : Prop := y.1 = x.1 /\ left_as x.2 y.2.

Definition reorder_snd {K} (x x' : K * gval) : Prop := x'.1 = x.1 /\ reorder x.2 x'.2.

Definition restores_snd {K} (g : K * gval -> outcome error (K * gval)) (x y : K * gval) : Prop :=
  forall u, reorder_snd y u -> exists x', g u = Ret x' /\ reorder_snd x x'.

Lemma attachment_fits n b buffers : (0 <= n)%Z -> fits n [b] buffers -> attachment buffers n = Ret b.
Proof.
  intros Hn [Hm Hf]. specialize (Hf 0 b eq_refl). rewrite Nat.add_0_r in Hf.
  pose proof (lookup_lt_Some _ _ _ Hf) as Hl. unfold attachment, max_int64 in *.
  rewrite wrap_s_small by lia.
  destruct (Z.leb_spec (Z.of_nat (length buffers)) (n + 1)); [lia|].
  destruct (Z.ltb_spec (n + 1) 0); [lia|].
  replace (Z.to_nat (n + 1)) with (S (Z.to_nat n)) by lia. by rewrite Hf.
Qed.

Lemma atom_left v : leaves v = [] -> left_as v v.
Proof. intros Hl. split; [done|]. split; [|done]. unfold on_wire. by rewrite Hl. Qed.

Lemma carries_atom n v g :
  leaves v = [] -> (forall buffers u, reorder v u -> g buffers u = Ret u) ->
  carries n (leaves v) (v, n, Ret []) (left_as v) (fun buffers => restores (g buffers) v).
Proof.
  intros Hl Hg. rewrite Hl. apply carries_none; [by apply atom_left|].
  intros buffers u Hu. exists u. by rewrite (Hg buffers u Hu).
Qed.

(** A [Binary], stored by [put] here and there. *)
Lemma carries_binary (put : bytes -> gval) g n v b set :
  leaves v = [b] -> (0 <= n)%Z -> (n + 1 <= max_int64)%Z ->
  (forall p, set p = Ret (put p)) -> put b = v -> reorder v v ->
  (forall p, typeOf (put p) = typeOf v) -> (forall p, leaves (put p) = [p]) -> (forall p, skeleton (put p) = skeleton v) ->
  (forall buffers p u num, reorder (put p) u -> json_UnmarshalPlaceholder p = Some num ->
     g buffers u = put <$> attachment buffers num) ->
  carries n (leaves v) (deconstructBinaryValue v true b n set) (left_as v)
    (fun buffers => restores (g buffers) v).
Proof.
  intros Hl Hn Hm Hset Hb Hrefl Ht Hleaf Hsk Hg. rewrite Hl.
  destruct (placeholder_roundtrip n) as (p & Ep & Eu); [lia|].
  exists (put p). unfold deconstructBinaryValue. rewrite Ep, Hset. split; [done|]. split.
  - split; [apply Ht|]. split; [|apply Hsk]. unfold on_wire. rewrite Hleaf.
    constructor; [exists n; split; [lia|done]|constructor].
  - intros buffers Hf u Hu. exists v. rewrite (Hg _ _ _ _ Hu Eu), (attachment_fits n b) by done.
    split; [cbn; by rewrite Hb|done].
Qed.

(** Away from byte slices, and from the structs of interfaces, where the value sits
    does not matter. *)
Lemma deconstructSwitch_rebuild canSet v original r n :
  (forall binary b, v <> GBytes binary b) -> (canSet = true \/ forall s p, original <> OIface s p) ->
  deconstructSwitch canSet v original r n = rebuilt r (deconstructSwitch canSet v OSelf (fun w => w) n).
Proof.
  intros Hb Hs. destruct v; cbn [deconstructSwitch]; try done.
  - by destruct (Hb binary b).
  - destruct (walked elem); [|done]. unfold rebuilt. by destruct (walk_each _ els n) as [[]].
  - assert (match canSet, original with
      | false, OIface true _ => (true, fun w => GIface (Some (GPtr (typeOf (GStruct fields)) (Some w))))
      | _, _ => (canSet, r) end = (canSet, r)) as ->.
    { destruct canSet; [done|]. destruct Hs as [|Hs]; [done|]. destruct original as [| |[] p]; try done.
      by destruct (Hs true p). }
    assert (match canSet return bool * (gval -> gval) with true | _ => (canSet, fun w => w) end
      = (canSet, fun w => w)) as -> by by destruct canSet.
    unfold rebuilt. by destruct (walk_each _ fields n) as [[]].
  - unfold rebuilt. by destruct (walk_each _ entries n) as [[]].
Qed.

Lemma reconstructSwitch_rebuild buffers canSet v original r :
  (forall binary b, v <> GBytes binary b) ->
  reconstructSwitch buffers canSet v original r = r <$> reconstructSwitch buffers canSet v OSelf (fun w => w).
Proof.
  intros Hb. destruct v; cbn [reconstructSwitch]; try done.
  - by destruct (Hb binary b).
  - destruct (walked elem); [|done]. by destruct (outcome_each _ els).
  - by destruct (outcome_each _ fields).
  - by destruct (outcome_each _ entries).
Qed.

Lemma deconstructValue_direct canSet v n :
  indirect (typeOf v) = false ->
  deconstructValue canSet v n = deconstructSwitch canSet v OSelf (fun w => w) n.
Proof. by destruct v. Qed.

Lemma reconstructValue_direct buffers canSet v :
  indirect (typeOf v) = false ->
  reconstructValue buffers canSet v = reconstructSwitch buffers canSet v OSelf (fun w => w).
Proof. by destruct v. Qed.

(** A pointer to something that is neither a pointer nor a byte slice. *)
Definition plain_target (w : gval) : Prop :=
  indirect (typeOf w) = false /\ forall binary, typeOf w <> TBytes binary.

Lemma plain_target_bytes w : plain_target w -> forall binary b, w <> GBytes binary b.
Proof. intros [_ Hw] binary b ->. by apply (Hw binary). Qed.

Lemma deconstructValue_ptr canSet e w n :
  plain_target w ->
  deconstructValue canSet (GPtr e (Some w)) n =
  rebuilt (fun w => GPtr e (Some w)) (deconstructSwitch true w OSelf (fun w => w) n).
Proof.
  intros Hw. rewrite <- (deconstructSwitch_rebuild true w (OPtr canSet)); [|by apply plain_target_bytes|by left].
  destruct Hw as [Hi _]. by destruct w.
Qed.

Lemma reconstructValue_ptr buffers canSet e w :
  plain_target w ->
  reconstructValue buffers canSet (GPtr e (Some w)) =
  (fun w => GPtr e (Some w)) <$> reconstructSwitch buffers true w OSelf (fun w => w).
Proof.
  intros Hw. rewrite <- (reconstructSwitch_rebuild buffers true w (OPtr canSet)); [|by apply plain_target_bytes].
  destruct Hw as [Hi _]. by destruct w.
Qed.

Lemma reorder_typeOf v u : reorder v u -> plain_target v -> plain_target u.
Proof. intros Hr [Hi Hb]. by destruct Hr; split. Qed.

Definition switch_carries (m : nat) : Prop :=
  forall v canSet n, gsize v <= m -> wf v = true -> sendable canSet (typeOf v) = true ->
    indirect (typeOf v) = false -> (0 <= n)%Z -> (n + Z.of_nat (length (leaves v)) <= max_int64)%Z ->
    carries n (leaves v) (deconstructSwitch canSet v OSelf (fun w => w) n) (left_as v)
      (fun buffers => restores (fun u => reconstructSwitch buffers canSet u OSelf (fun w => w)) v).

(** Under a pointer. *)
Lemma reorder_ptr_inv e y u : reorder (GPtr e (Some y)) u -> exists u', u = GPtr e (Some u') /\ reorder y u'.
Proof. inversion 1 as [? Hf| | | |? ? u' Hu|]; subst; [done|]. eauto. Qed.

Lemma restores_ptr g g' e w y :
  (forall u, reorder y u -> g (GPtr e (Some u)) = (fun w => GPtr e (Some w)) <$> g' u) ->
  restores g' w y -> restores g (GPtr e (Some w)) (GPtr e (Some y)).
Proof.
  intros Hg Hr u (u' & -> & Hu')%reorder_ptr_inv.
  destruct (Hr u' Hu') as (v' & Ev & Hv). exists (GPtr e (Some v')). rewrite (Hg u' Hu'), Ev.
  split; [done|by constructor].
Qed.

Lemma value_carries m v canSet n :
  switch_carries m -> gsize v <= m -> wf v = true -> sendable canSet (typeOf v) = true ->
  (0 <= n)%Z -> (n + Z.of_nat (length (leaves v)) <= max_int64)%Z ->
  carries n (leaves v) (deconstructValue canSet v n) (left_as v)
    (fun buffers => restores (reconstructValue buffers canSet) v).
Proof.
  intros Hsw Hm Hwf Hs Hn Hmax. destruct (indirect (typeOf v)) eqn:Ei.
  - destruct v as [| | | | | | | |e [w|]| |]; try discriminate.
    2: { apply carries_atom; [done|]. intros buffers u Hu. by inversion Hu. }
    cbn [wf] in Hwf. apply andb_prop in Hwf as [He%bool_decide_eq_true Hw].
    assert (Hp : plain_target w) by (rewrite <- He in Hs; split; [|intros b Eb]; by destruct (typeOf w)).
    rewrite deconstructValue_ptr by done.
    eapply carries_rebuilt; [apply (Hsw w true n)| |].
    + cbn in Hm. lia.
    + done.
    + rewrite <- He in Hs. by destruct (typeOf w).
    + apply Hp.
    + done.
    + done.
    + intros y (Ht & Hy & Hk). split; [done|]. split; [done|]. cbn. by rewrite Hk.
    + intros buffers y [Ht Hy] Hb. eapply restores_ptr; [|exact Hb]. intros u Hu.
      apply reconstructValue_ptr. eapply reorder_typeOf; [exact Hu|]. unfold plain_target. by rewrite Ht.
  - rewrite deconstructValue_direct by done.
    destruct (Hsw v canSet n Hm Hwf Hs Ei Hn Hmax) as (y & -> & [Ht Hy] & Hb).
    exists y. split; [done|]. split; [done|]. intros buffers Hf u Hu.
    rewrite reconstructValue_direct; [by apply Hb|]. rewrite (reorder_indirect _ _ Hu). by rewrite Ht.
Qed.

(** A field or an entry around a value. *)
Lemma carries_snd {K} (k : K) (r : gval -> gval) n v x (w : walk_result gval) g g' :
  carries n (leaves v) w (left_as v) (fun buffers => restores (g buffers) v) ->
  x = r v -> leaves x = leaves v ->
  (forall y, typeOf y = typeOf v -> typeOf (r y) = typeOf (r v)) -> (forall y, leaves (r y) = leaves y) ->
  (forall y, skeleton y = skeleton v -> skeleton (r y) = skeleton (r v)) ->
  (forall y u, reorder (r y) u -> exists u', u = r u' /\ reorder y u') ->
  (forall v', reorder v v' -> reorder (r v) (r v')) ->
  (forall buffers y u, typeOf y = typeOf v -> reorder y u ->
     g' buffers (k, r u) = (fun v => (k, r v)) <$> g buffers u) ->
  carries n (leaves x) (rebuilt (fun v => (k, r v)) w) (left_as_snd (k, x))
    (fun buffers => restores_snd (g' buffers) (k, x)).
Proof.
  intros Hw -> Hl Ht Hly Hsk Hinv Hre Hg. rewrite Hl. eapply carries_rebuilt; [exact Hw| |].
  - intros y (Hy & Hwire & Hk). split; [done|]. split; [by apply Ht|]. split; [|by apply Hsk].
    unfold on_wire. cbn [snd]. by rewrite Hly.
  - intros buffers y [Hy _] Hb [k' u] [Ek Hu]. cbn in Ek, Hu. subst k'.
    destruct (Hinv _ _ Hu) as (u' & -> & Hu'). destruct (Hb u' Hu') as (v' & Ev & Hv').
    exists (k, r v'). rewrite (Hg _ y), Ev by done. split; [done|]. split; [done|by apply Hre].
Qed.

Lemma carries_same_snd {K} (k : K) n v g :
  leaves v = [] -> (forall buffers u, reorder v u -> g buffers (k, u) = Ret (k, u)) ->
  carries n (leaves v) ((k, v), n, Ret []) (left_as_snd (k, v)) (fun buffers => restores_snd (g buffers) (k, v)).
Proof.
  intros Hl Hg. rewrite Hl. apply carries_none; [split; [done|by apply atom_left]|].
  intros buffers [k' u] [Ek Hu]. cbn in *. subst k'. exists (k, u). by rewrite Hg.
Qed.

(** The two ways [elem_if] sees a sendable place: through a pointer, or not at all. *)
Lemma elem_if_direct {A} canSet v (nil : A) k :
  indirect (typeOf v) = false -> elem_if canSet v nil k = k canSet v (fun w => w).
Proof. by destruct v. Qed.

Lemma field_carries m canSet f n :
  switch_carries m -> gsize f.2 <= m -> wf f.2 = true ->
  f_exported f.1 && negb (indirect (pointee (typeOf f.2))) && sendable (canSet || is_ptr (typeOf f.2)) (pointee (typeOf f.2)) = true ->
  (0 <= n)%Z -> (n + Z.of_nat (length (leaves f.2)) <= max_int64)%Z ->
  carries n (leaves f.2) (deconstructField deconstructValue canSet f n) (left_as_snd f)
    (fun buffers => restores_snd (reconstructField (reconstructValue buffers) canSet) f).
Proof.
  intros Hsw Hm Hwf Hs Hn Hmax. destruct f as [fd fv]. cbn [fst snd] in *.
  apply andb_prop in Hs as [[Hexp Hi]%andb_prop Hs]. apply negb_true_iff in Hi.
  destruct (indirect (typeOf fv)) eqn:Ei.
  - destruct fv as [| | | | | | | |e [w|]| |]; try discriminate.
    2: { apply carries_same_snd; [done|]. intros buffers u Hu. by inversion Hu. }
    cbn [wf typeOf pointee is_ptr] in *. rewrite orb_true_r in Hs.
    apply andb_prop in Hwf as [He%bool_decide_eq_true Hw]. subst e.
    cbn [deconstructField elem_if]. rewrite Hexp.
    apply (carries_snd fd (fun w' => GPtr (typeOf w) (Some w')) n w _ _
      (fun buffers => reconstructValue buffers true)); try done.
    + apply (value_carries m); try done. cbn in Hm. lia.
    + intros y Hk. cbn. by rewrite Hk.
    + intros y u. apply reorder_ptr_inv.
    + intros v' Hv'. by constructor.
    + intros buffers y u _ _. cbn. by rewrite Hexp.
  - unfold deconstructField. rewrite elem_if_direct by done. rewrite Hexp, andb_true_r.
    rewrite pointee_id in Hs by by destruct (typeOf fv).
    assert (is_ptr (typeOf fv) = false) as Ep by by destruct (typeOf fv).
    rewrite Ep, orb_false_r in Hs.
    apply (carries_snd fd (fun w => w) n fv _ _ (fun buffers => reconstructValue buffers canSet)); try done.
    + by apply (value_carries m).
    + intros y u Hu. by exists u.
    + intros buffers y u Hy Hu. unfold reconstructField. rewrite elem_if_direct; [by rewrite Hexp, andb_true_r|].
      by rewrite (reorder_indirect _ _ Hu), Hy.
Qed.

(** A pointer to a [Binary] in a map. *)
Lemma entry_binary_carries mk b n :
  (0 <= n)%Z -> (n + 1 <= max_int64)%Z ->
  carries n [b] (deconstructEntry deconstructValue (TPtr (TBytes true)) (mk, new_bytes true b) n)
    (left_as_snd (mk, new_bytes true b))
    (fun buffers => restores_snd (reconstructEntry buffers (reconstructValue buffers) (TPtr (TBytes true)))
       (mk, new_bytes true b)).
Proof.
  intros Hn Hm. destruct (placeholder_roundtrip n) as (p & Ep & Eu); [lia|].
  exists (mk, new_bytes true p). cbn [deconstructEntry elem_if new_bytes]. unfold deconstructBinaryValue.
  rewrite Ep. split; [done|]. split.
  - split; [done|]. split; [done|]. split; [|done]. constructor; [exists n; split; [lia|done]|constructor].
  - intros buffers Hf [k u] [Ek Hu]. cbn in Ek, Hu. subst k.
    apply reorder_ptr_inv in Hu as (u' & -> & Hu'). inversion Hu'; subst.
    exists (mk, new_bytes true b). cbn [reconstructEntry elem_if]. unfold reconstructBinaryValue.
    rewrite Eu, (attachment_fits n b) by done. split; [done|]. split; [done|]. by repeat constructor.
Qed.

(** The value of an entry without its pointer; [r] puts the pointer back. *)
Lemma entry_other_carries m canSet mk x v n e (r : gval -> gval) :
  switch_carries m -> gsize v <= m -> wf v = true -> sendable canSet (typeOf v) = true ->
  indirect (typeOf v) = false -> e <> TIface ->
  match typeOf v with TBytes _ | TSlice _ => False | _ => True end ->
  (0 <= n)%Z -> (n + Z.of_nat (length (leaves v)) <= max_int64)%Z ->
  x = r v -> leaves x = leaves v ->
  (forall y, typeOf y = typeOf v -> typeOf (r y) = typeOf (r v)) -> (forall y, leaves (r y) = leaves y) ->
  (forall y, skeleton y = skeleton v -> skeleton (r y) = skeleton (r v)) ->
  (forall y u, reorder (r y) u -> exists u', u = r u' /\ reorder y u') ->
  (forall v', reorder v v' -> reorder (r v) (r v')) ->
  (forall A u (nil : A) k, indirect (typeOf u) = false -> elem_if false (r u) nil k = k canSet u r) ->
  carries n (leaves x) (deconstructEntry deconstructValue e (mk, x) n) (left_as_snd (mk, x))
    (fun buffers => restores_snd (reconstructEntry buffers (reconstructValue buffers) e) (mk, x)).
Proof.
  intros Hsw Hm Hwf Hs Hi He Hk Hn Hmax Hx Hl Ht Hly Hsk Hinv Hre Hel.
  assert (Hd : deconstructEntry deconstructValue e (mk, x) n = rebuilt (fun v => (mk, r v)) (deconstructValue canSet v n)).
  { unfold deconstructEntry. rewrite Hx, Hel by done. by destruct v. }
  rewrite Hd. eapply (carries_snd mk r n v x _ (fun buffers => reconstructValue buffers canSet)); try done.
  - by apply (value_carries m).
  - intros buffers y u Hy Hu. unfold reconstructEntry.
    rewrite Hel by by rewrite (reorder_indirect _ _ Hu), Hy.
    rewrite bool_decide_false by done.
    rewrite <- Hy in Hk. destruct Hu as [u _| | | | |]; try done. by destruct u.
Qed.

Lemma entry_carries m e entry n :
  switch_carries m -> gsize entry.2 <= m -> wf entry.2 = true -> typeOf entry.2 = e ->
  sendable true (TMap true e) = true ->
  (0 <= n)%Z -> (n + Z.of_nat (length (leaves entry.2)) <= max_int64)%Z ->
  carries n (leaves entry.2) (deconstructEntry deconstructValue e entry n) (left_as_snd entry)
    (fun buffers => restores_snd (reconstructEntry buffers (reconstructValue buffers) e) entry).
Proof.
  intros Hsw Hm Hwf He Hs Hn Hmax. destruct entry as [mk x]. cbn [fst snd] in *.
  destruct (indirect (typeOf x)) eqn:Ei.
  - destruct x as [| | | | | | | |t [w|]| |]; try discriminate; [| |by subst e].
    2: { apply carries_same_snd; [done|]. intros buffers u Hu. by inversion Hu. }
    cbn [wf] in Hwf. apply andb_prop in Hwf as [Ht%bool_decide_eq_true Hw]. cbn in He. subst t e.
    destruct (match typeOf w with TBytes _ | TSlice _ => true | _ => false end) eqn:Ek.
    + destruct w as [| | | |binary b|e' els| | | | |]; try discriminate.
      * cbn in Hs. rewrite andb_true_r in Hs. subst binary. by apply entry_binary_carries.
      * cbn in Hs. assert (walked e' = false) as Ew by by destruct e'. cbn [typeOf].
        assert (deconstructEntry deconstructValue (TPtr (TSlice e')) (mk, GPtr (TSlice e') (Some (GSlice e' els))) n
          = ((mk, GPtr (TSlice e') (Some (GSlice e' els))), n, Ret [])) as -> by (cbn; by rewrite Ew).
        apply carries_same_snd; [by apply (scalar_slice_leaves e' els)|].
        intros buffers u (u' & -> & Hu)%reorder_ptr_inv. by inversion Hu; subst.
    + apply (entry_other_carries m true mk _ w n _ (fun w' => GPtr (typeOf w) (Some w'))); try done.
      * cbn in Hm. lia.
      * cbn in Hs. by destruct (typeOf w).
      * cbn in Hs. by destruct (typeOf w).
      * by destruct (typeOf w).
      * intros y Hsk. cbn. by rewrite Hsk.
      * intros y u. apply reorder_ptr_inv.
      * intros v' Hv'. by constructor.
  - cbn [sendable] in Hs. rewrite pointee_id in Hs by (subst e; by destruct (typeOf x)).
    assert (is_ptr e = false) as Ep by (subst e; by destruct (typeOf x)). rewrite Ep in Hs.
    destruct (match typeOf x with TBytes _ | TSlice _ => true | _ => false end) eqn:Ek.
    + destruct x as [| | | |binary b|e' els| | | | |]; try discriminate; subst e; cbn in Hs.
      * by rewrite andb_false_r in Hs.
      * assert (walked e' = false) as Ew by by destruct e'. cbn [typeOf].
        assert (deconstructEntry deconstructValue (TSlice e') (mk, GSlice e' els) n
          = ((mk, GSlice e' els), n, Ret [])) as -> by (cbn; by rewrite Ew).
        apply carries_same_snd; [by apply (scalar_slice_leaves e' els)|].
        intros buffers u Hu. by inversion Hu; subst.
    + apply (entry_other_carries m false mk _ x n _ (fun w => w)); try done.
      * subst e. by destruct (typeOf x).
      * subst e. by destruct (typeOf x).
      * by destruct (typeOf x).
      * intros y u Hu. by exists u.
      * intros A u nil k Hu. by rewrite elem_if_direct.
Qed.

Lemma on_wire_concat {A} (bufs_of : A -> list bytes) l :
  Forall (fun x => Forall placeholder_text (bufs_of x)) l -> Forall placeholder_text (concat (map bufs_of l)).
Proof. induction 1; cbn; [constructor|]. by apply Forall_app_2. Qed.

Lemma left_as_on_wire {K} (xs ys : list (K * gval)) :
  Forall2 left_as_snd xs ys ->
  Forall placeholder_text (concat (map (fun '(_, f) => leaves f) ys)) /\
  map (fun '(k, f) => (k, skeleton f)) ys = map (fun '(k, f) => (k, skeleton f)) xs.
Proof.
  intros HF. split.
  - apply on_wire_concat. induction HF as [|x [k y] xs ys (_ & _ & Hw & _) _ IH]; by constructor.
  - induction HF as [|[k x] [k' y] xs ys (Hk & _ & _ & Hs) _ IH]; [done|]. cbn in *. by rewrite Hk, Hs, IH.
Qed.

Lemma reorder_slice_inv e els u :
  reorder (GSlice e els) u -> exists us, u = GSlice e us /\ Forall2 reorder els us.
Proof. inversion 1; subst; [done|]. eauto. Qed.

Lemma reorder_struct_inv fs u : reorder (GStruct fs) u -> exists us, u = GStruct us /\ Forall2 reorder_snd fs us.
Proof. inversion 1; subst; [done|]. eauto. Qed.

Lemma reorder_map_inv k e entries u :
  reorder (GMap k e entries) u ->
  exists shuffled us, u = GMap k e us /\ Permutation entries shuffled /\ Forall2 reorder_snd shuffled us.
Proof. inversion 1; subst; [done|]. eauto. Qed.

Lemma slice_carries e els n f g :
  (0 <= n)%Z -> (n + Z.of_nat (length (leaves (GSlice e els))) <= max_int64)%Z ->
  (forall x n, x ∈ els -> (0 <= n)%Z -> (n + Z.of_nat (length (leaves x)) <= max_int64)%Z ->
    carries n (leaves x) (f x n) (left_as x) (fun buffers => restores (g buffers) x)) ->
  carries n (leaves (GSlice e els)) (rebuilt (GSlice e) (walk_each f els n)) (left_as (GSlice e els))
    (fun buffers => restores (fun u => match u with
       | GSlice e us => GSlice e <$> outcome_each (g buffers) us | _ => Ret u end) (GSlice e els)).
Proof.
  intros Hn Hm Hf. eapply carries_rebuilt; [by apply (walk_each_carries leaves f els n left_as (fun buffers => restores (g buffers)))|..].
  - intros ys HF. split; [done|]. clear Hm Hf. split.
    + apply on_wire_concat. induction HF as [|x y els ys (_ & Hw & _) _ IH]; by constructor.
    + cbn. f_equal. induction HF as [|x y els ys (_ & _ & Hs) _ IH]; [done|]. cbn. by rewrite Hs, IH.
  - intros buffers ys _ HF u Hu. apply reorder_slice_inv in Hu as (us & -> & Hus).
    destruct (outcome_each_back (g buffers) reorder reorder els ys us HF Hus) as (vs & -> & Hvs).
    exists (GSlice e vs). split; [done|by constructor].
Qed.

Lemma struct_carries fs n f g :
  (0 <= n)%Z -> (n + Z.of_nat (length (leaves (GStruct fs))) <= max_int64)%Z ->
  (forall x n, x ∈ fs -> (0 <= n)%Z -> (n + Z.of_nat (length (leaves x.2)) <= max_int64)%Z ->
    carries n (leaves x.2) (f x n) (left_as_snd x) (fun buffers => restores_snd (g buffers) x)) ->
  carries n (leaves (GStruct fs)) (rebuilt GStruct (walk_each f fs n)) (left_as (GStruct fs))
    (fun buffers => restores (fun u => match u with
       | GStruct us => GStruct <$> outcome_each (g buffers) us | _ => Ret u end) (GStruct fs)).
Proof.
  intros Hn Hm Hf. eapply carries_rebuilt; 
    [apply (walk_each_carries (fun '(_, f) => leaves f) _ _ _ left_as_snd (fun buffers => restores_snd (g buffers))); [done|done|]|..].
  - intros [k x] n' Hx Hn' Hm'. by apply (Hf (k, x)).
  - intros ys HF. destruct (left_as_on_wire _ _ HF) as [Hw Hs]. split; [|split; [done|cbn; by rewrite Hs]].
    cbn. f_equal. clear Hm Hf Hw Hs.
    induction HF as [|[k x] [k' y] fs ys [Hk [Ht _]] _ IH]; [done|]. cbn in *. by rewrite Hk, Ht, IH.
  - intros buffers ys _ HF u Hu. apply reorder_struct_inv in Hu as (us & -> & Hus).
    destruct (outcome_each_back (g buffers) reorder_snd reorder_snd fs ys us HF Hus) as (vs & -> & Hvs).
    exists (GStruct vs). split; [done|by constructor].
Qed.

Lemma map_carries k e entries n f g :
  (0 <= n)%Z -> (n + Z.of_nat (length (leaves (GMap k e entries))) <= max_int64)%Z ->
  (forall x n, x ∈ entries -> (0 <= n)%Z -> (n + Z.of_nat (length (leaves x.2)) <= max_int64)%Z ->
    carries n (leaves x.2) (f x n) (left_as_snd x) (fun buffers => restores_snd (g buffers) x)) ->
  carries n (leaves (GMap k e entries)) (rebuilt (GMap k e) (walk_each f entries n)) (left_as (GMap k e entries))
    (fun buffers => restores (fun u => match u with
       | GMap k e us => GMap k e <$> outcome_each (g buffers) us | _ => Ret u end) (GMap k e entries)).
Proof.
  intros Hn Hm Hf. eapply carries_rebuilt; 
    [apply (walk_each_carries (fun '(_, f) => leaves f) _ _ _ left_as_snd (fun buffers => restores_snd (g buffers))); [done|done|]|..].
  - intros [k' x] n' Hx Hn' Hm'. by apply (Hf (k', x)).
  - intros ys HF. destruct (left_as_on_wire _ _ HF) as [Hw Hs]. split; [done|]. split; [done|]. cbn. by rewrite Hs.
  - intros buffers ys _ HF u Hu. apply reorder_map_inv in Hu as (ys1 & us & -> & Hp & Hus).
    destruct (Permutation_Forall2 Hp (proj1 (Forall2_flip _ _ _) HF)) as (entries1 & Hp1 & HF1).
    destruct (outcome_each_back (g buffers) reorder_snd reorder_snd entries1 ys1 us) as (vs & -> & Hvs);
      [by apply Forall2_flip|done|].
    exists (GMap k e vs). split; [done|]. by econstructor.
Qed.

Lemma carries_ext n v w g g' :
  carries n (leaves v) w (left_as v) (fun buffers => restores (g buffers) v) ->
  (forall buffers y u, typeOf y = typeOf v -> reorder y u -> g' buffers u = g buffers u) ->
  carries n (leaves v) w (left_as v) (fun buffers => restores (g' buffers) v).
Proof.
  intros (y & -> & [Ht Hw] & Hb) Hg. exists y. split; [done|]. split; [done|].
  intros buffers Hf u Hu. rewrite (Hg _ y) by done. by apply Hb.
Qed.

Lemma switch_carries_all m : switch_carries m.
Proof.
  induction m as [|m IH]; intros v canSet n Hm Hwf Hs Hi Hn Hmax;
    [by destruct v as [| | | | | | | |? []|[]|]; cbn in Hm; lia|].
  destruct v as [| | | |binary b|e els|fs|k e entries| | |]; try discriminate.
  1-4: apply carries_atom; [done|]; intros buffers u Hu; by inversion Hu.
  - cbn in Hs. apply andb_prop in Hs as [-> ->]. cbn [deconstructSwitch].
    apply (carries_binary (GBytes true)); try done; [by constructor|].
    intros buffers p u num Hu Eu. inversion Hu; subst. cbn [reconstructSwitch].
    unfold reconstructBinaryValue. by rewrite Eu.
  - cbn [sendable typeOf] in Hs. destruct (scalar e) eqn:Ee.
    + assert (walked e = false) as Ew by by destruct e. cbn [deconstructSwitch]. rewrite Ew.
      apply carries_atom; [by apply scalar_slice_leaves|].
      intros buffers u (us & -> & _)%reorder_slice_inv. cbn. by rewrite Ew.
    + apply andb_prop in Hs as [Ew Hs]. cbn [deconstructSwitch]. rewrite Ew.
      eapply carries_ext; [apply (slice_carries e els n _ (fun buffers => reconstructValue buffers true)); [done|done|]|].
      * intros x n' Hx Hn' Hm'. pose proof (sum_list_with_in gsize els x Hx).
        pose proof (forallb_in _ _ _ Hwf Hx) as [Ht%bool_decide_eq_true Hwx]%andb_prop.
        apply (value_carries m); [done|cbn in Hm; lia|done|by rewrite Ht|done|done].
      * intros buffers y u Hy Hu. destruct y; try done. injection Hy as ->.
        apply reorder_slice_inv in Hu as (us & -> & _). cbn. by rewrite Ew.
  - cbn [deconstructSwitch].
    assert (match canSet return bool * (gval -> gval) with true | _ => (canSet, fun w => w) end
      = (canSet, fun w => w)) as -> by by destruct canSet.
    eapply carries_ext; [apply (struct_carries fs n _
      (fun buffers => reconstructField (reconstructValue buffers) canSet)); [done|done|]|].
    + intros x n' Hx Hn' Hm'. pose proof (sum_list_with_in (fun '(_, f) => gsize f) fs x Hx) as Hsz.
      pose proof (forallb_in _ _ _ Hwf Hx) as Hwx.
      assert (Hsx : (x.1, typeOf x.2) ∈ map (fun '(fd, f) => (fd, typeOf f)) fs).
      { apply list_elem_of_In, in_map_iff. exists x. split; [by destruct x|by apply list_elem_of_In]. }
      pose proof (forallb_in _ _ _ Hs Hsx) as Hsf. destruct x as [fd f].
      apply (field_carries m); [done|cbn in *; lia|done|done|done|done].
    + intros buffers y u Hy Hu. destruct y; try done.
      by apply reorder_struct_inv in Hu as (us & -> & _).
  - cbn [deconstructSwitch].
    eapply carries_ext; [apply (map_carries k e entries n _
      (fun buffers => reconstructEntry buffers (reconstructValue buffers) e)); [done|done|]|].
    + intros x n' Hx Hn' Hm'. pose proof (sum_list_with_in (fun '(_, f) => gsize f) entries x Hx) as Hsz.
      pose proof (forallb_in _ _ _ Hwf Hx) as Hwx. destruct x as [mk x].
      apply andb_prop in Hwx as [Ht%bool_decide_eq_true Hwx].
      apply (entry_carries m); [done|cbn in *; lia|done|done|done|done|done].
    + intros buffers y u Hy Hu. destruct y; try done. injection Hy as -> ->.
      by apply reorder_map_inv in Hu as (ys & us & -> & _).
Qed.

(** [hasBinary] is true exactly of the sendable values with a [Binary]. *)
Lemma existsb_leaves {A} (has : A -> bool) (bufs_of : A -> list bytes) l :
  (forall x, x ∈ l -> has x = negb (bool_decide (bufs_of x = []))) ->
  existsb has l = negb (bool_decide (concat (map bufs_of l) = [])).
Proof.
  induction l as [|x l IH]; intros Hx; [done|]. cbn [existsb map concat].
  rewrite (Hx x) by left. rewrite IH by (intros; apply Hx; by right).
  destruct (bufs_of x) as [|b bs]; [done|]. by rewrite bool_decide_false.
Qed.

(** A place whose type is, but for a pointer, one of the directly sendable ones. *)
Lemma hasBinary_place m v canSet :
  (forall v canSet, gsize v <= m -> wf v = true -> sendable canSet (typeOf v) = true ->
     indirect (typeOf v) = false -> hasBinarySwitch v = negb (bool_decide (leaves v = []))) ->
  gsize v <= m -> wf v = true -> indirect (pointee (typeOf v)) = false ->
  sendable canSet (pointee (typeOf v)) = true ->
  hasBinary v = negb (bool_decide (leaves v = [])).
Proof.
  intros Hsw Hm Hwf Hi Hs. destruct (indirect (typeOf v)) eqn:Ei.
  - destruct v as [| | | | | | | |e [w|]| |]; try done.
    cbn [wf] in Hwf. apply andb_prop in Hwf as [He%bool_decide_eq_true Hw]. cbn in Hi, Hs. subst e.
    cbn [leaves]. rewrite <- (Hsw w canSet); [|cbn in Hm; lia|done|done|done]. by destruct w.
  - rewrite pointee_id in Hs by by destruct (typeOf v). rewrite <- (Hsw v canSet) by done. by destruct v.
Qed.

Lemma map_elem_sendable k e :
  sendable true (TMap k e) = true -> indirect (pointee e) = false /\ exists s, sendable s (pointee e) = true.
Proof.
  cbn [sendable]. intros Hs. destruct (pointee e) eqn:Ep; try done; try (split; [done|]; by exists (is_ptr e)).
  split; [done|]. exists true. cbn. by rewrite Hs.
Qed.

Lemma hasBinarySwitch_leaves m v canSet :
  gsize v <= m -> wf v = true -> sendable canSet (typeOf v) = true -> indirect (typeOf v) = false ->
  hasBinarySwitch v = negb (bool_decide (leaves v = [])).
Proof.
  revert v canSet. induction m as [|m IH]; intros v canSet Hm Hwf Hs Hi;
    [by destruct v as [| | | | | | | |? []|[]|]; cbn in Hm; lia|].
  destruct v as [| | | |binary b|e els|fs|k e entries| | |]; try done.
  - by destruct binary.
  - cbn [sendable typeOf] in Hs. destruct (scalar e) eqn:Ee.
    + rewrite scalar_slice_leaves by done. cbn. by destruct e.
    + apply andb_prop in Hs as [Ew Hs]. cbn [hasBinarySwitch leaves]. rewrite Ew. apply existsb_leaves.
      intros x Hx. pose proof (sum_list_with_in gsize els x Hx).
      pose proof (forallb_in _ _ _ Hwf Hx) as [Ht%bool_decide_eq_true Hwx]%andb_prop.
      apply (hasBinary_place m _ true); [done|cbn in Hm; lia|done|..]; rewrite Ht; by destruct e as [| | | | | | | |[]| |].
  - cbn [hasBinarySwitch leaves]. apply existsb_leaves. intros [fd f] Hx.
    pose proof (sum_list_with_in (fun '(_, f) => gsize f) fs _ Hx) as Hsz. cbn in Hsz.
    pose proof (forallb_in _ _ _ Hwf Hx) as Hwx.
    assert (Hsx : (fd, typeOf f) ∈ map (fun '(fd, f) => (fd, typeOf f)) fs).
    { apply list_elem_of_In, in_map_iff. exists (fd, f). split; [done|by apply list_elem_of_In]. }
    apply (forallb_in _ _ _ Hs) in Hsx as [[-> Hp%negb_true_iff]%andb_prop Hsf]%andb_prop.
    by apply (hasBinary_place m _ (canSet || is_ptr (typeOf f))); [done|cbn in Hm; lia|..].
  - cbn [hasBinarySwitch leaves]. apply existsb_leaves. intros [mk x] Hx.
    pose proof (sum_list_with_in (fun '(_, f) => gsize f) entries _ Hx) as Hsz. cbn in Hsz.
    pose proof (forallb_in _ _ _ Hwf Hx) as [Ht%bool_decide_eq_true Hwx]%andb_prop.
    destruct (map_elem_sendable k e Hs) as [Hp [s Hs']].
    apply (hasBinary_place m _ s); [done|cbn in Hm; lia|done|by rewrite Ht|by rewrite Ht].
Qed.

(** ** Arguments of an event *)

(** What [Emit] passes to [Encode]: [&values], where [values] is a [[]any] that starts
    with the event's name. *)
Definition event_value (name : string) (args : list gval) : gval :=
  GPtr (TSlice TIface) (Some (GSlice TIface
    (GIface (Some (GString name)) :: map (fun a => GIface (Some a)) args))).

(** An argument without its pointer; a handler's parameter is given a value of that
    type. *)
Definition target (a : gval) : gval := match a with GPtr _ (Some w) => w | _ => a end.

(** What an event may carry: values of sendable types, not nil pointers, that a JSON package carries exactly. *)
Definition sendable_arg (a : gval) : Prop :=
  wf a = true /\ sendable true (typeOf a) = true /\ (forall e, a <> GPtr e None) /\ json_exact (target a) = true.

(** How an argument is left: as its target or as a pointer to it. *)
Definition sent_as (d : gval) : Prop := d = target d \/ d = newPointer (target d).

Lemma sendable_arg_target a :
  sendable_arg a ->
  wf (target a) = true /\ sendable true (typeOf (target a)) = true /\ indirect (typeOf (target a)) = false /\
  sent_as a /\ leaves a = leaves (target a) /\ convertType (Some (typeOf a)) = typeOf (target a).
Proof.
  intros (Hwf & Hs & Hnil & _). unfold sent_as, newPointer.
  destruct a as [| | | | | | | |e [w|]| |]; cbn [target]; try (split_and!; auto; done); [|by destruct (Hnil e)].
  cbn [wf] in Hwf. apply andb_prop in Hwf as [He%bool_decide_eq_true Hw]. subst e. cbn in Hs.
  split_and!; auto; by destruct (typeOf w).
Qed.

(** In an interface that can be set, the walk is that of the target, up to a pointer. *)
Lemma deconstructValue_arg a n :
  sendable_arg a -> (0 <= n <= max_int64)%Z ->
  exists wrap, (wrap = (fun w => w) \/ wrap = (fun w => GPtr (typeOf (target a)) (Some w))) /\
    deconstructValue true (GIface (Some a)) n =
    rebuilt (fun w => GIface (Some (wrap w))) (deconstructSwitch true (target a) OSelf (fun w => w) n).
Proof.
  intros Ha Hn. destruct (sendable_arg_target a Ha) as (_ & Hst & Hi & _). destruct Ha as (Hwf & Hs & Hnil & _).
  destruct a as [| | | |binary b|e els|fs|k e entries|e [w|]| |]; cbn [target] in *; try discriminate.
  1-4: by exists (fun w => w); auto.
  - cbn in Hst. rewrite andb_true_r in Hst. subst binary.
    destruct (placeholder_roundtrip n Hn) as (p & Ep & _).
    exists (fun w => GPtr (TBytes true) (Some w)). split; [by right|].
    cbn. unfold deconstructBinaryValue. by rewrite Ep.
  - exists (fun w => w). split; [by left|]. cbn. destruct (walked e); [|done].
    unfold rebuilt. by destruct (walk_each _ els n) as [[]].
  - exists (fun w => GPtr (typeOf (GStruct fs)) (Some w)). split; [by right|]. cbn.
    unfold rebuilt. by destruct (walk_each _ fs n) as [[]].
  - exists (fun w => w). split; [by left|]. cbn. unfold rebuilt. by destruct (walk_each _ entries n) as [[]].
  - cbn [wf] in Hwf. apply andb_prop in Hwf as [He%bool_decide_eq_true Hw]. subst e.
    exists (fun w' => GPtr (typeOf w) (Some w')). split; [by right|].
    assert (Hp : plain_target w) by (split; [done|]; intros b Eb; cbn in Hs; by rewrite Eb in Hs).
    rewrite <- (deconstructSwitch_rebuild true w (OIface true true)); [|by apply plain_target_bytes|by left].
    by destruct w.
Qed.

Lemma reconstructSwitch_settable buffers v original r :
  reconstructSwitch buffers true v original r = r <$> reconstructSwitch buffers true v OSelf (fun w => w).
Proof.
  destruct (decide (exists binary, typeOf v = TBytes binary)) as [[binary Hb]|Hb].
  2: { apply reconstructSwitch_rebuild. intros binary b ->. apply Hb. by exists binary. }
  destruct v; try discriminate. cbn [reconstructSwitch]. unfold reconstructBinaryValue.
  destruct binary0; [|done]. destruct (json_UnmarshalPlaceholder b); [|done]. by destruct (attachment _ _).
Qed.

Lemma reconstructValue_newPointer buffers u :
  indirect (typeOf u) = false ->
  reconstructValue buffers false (newPointer u) =
  (fun w => GPtr (typeOf u) (Some w)) <$> reconstructSwitch buffers true u OSelf (fun w => w).
Proof.
  intros Hi. rewrite <- (reconstructSwitch_settable buffers u (OPtr false)). by destruct u.
Qed.

Definition arg_left_as (a y : gval) : Prop :=
  exists d, y = GIface (Some d) /\ sent_as d /\ left_as (target a) (target d) /\ wf (target d) = true.

(** What a handler's parameter of the argument's type gets. *)
Definition received (a v : gval) : Prop :=
  exists u, v = GPtr (typeOf (target a)) (Some u) /\ reorder (target a) u.

Definition arg_restores (buffers : list bytes) (a y : gval) : Prop :=
  forall d u, y = GIface (Some d) -> typeOf u = typeOf (target d) -> reorder (target d) u ->
    exists v, reconstructValue buffers false (newPointer u) = Ret v /\ received a v.

Lemma arg_carries a n :
  sendable_arg a -> (0 <= n)%Z -> (n + Z.of_nat (length (leaves a)) <= max_int64)%Z ->
  carries n (leaves a) (deconstructValue true (GIface (Some a)) n) (arg_left_as a)
    (fun buffers y => arg_restores buffers a y).
Proof.
  intros Ha Hn Hm. destruct (sendable_arg_target a Ha) as (Hw & Hs & Hi & _ & Hl & _).
  destruct (deconstructValue_arg a n Ha) as (wrap & Hwrap & ->); [lia|]. rewrite Hl in *.
  destruct (switch_carries_all _ (target a) true n (le_n _) Hw Hs Hi Hn Hm) as (y & Ey & [Ht Hy] & Hb).
  assert (Hk : kept (typeOf (target a)) y).
  { eapply (deconstructSwitch_keeps (gsize (target a)) true (target a) OSelf); [done|done|apply context_id|done|].
    exists n. by rewrite Ey. }
  destruct Hk as [Hwy _].
  rewrite Ey. exists (GIface (Some (wrap y))). split; [done|].
  assert (Htarget : target (wrap y) = y).
  { destruct Hwrap as [-> | ->]; [|done]. rewrite <- Ht in Hi. by destruct y. }
  split.
  - exists (wrap y). split; [done|]. unfold sent_as. rewrite Htarget. split_and!; [|done|done].
    destruct Hwrap as [-> | ->]; [by left|]. right. unfold newPointer. by rewrite Ht.
  - intros buffers Hf d u [= <-] Hu Hr. rewrite Htarget in *.
    rewrite reconstructValue_newPointer by by rewrite Hu, Ht.
    destruct (Hb buffers Hf u Hr) as (v' & -> & Hv'). eexists. split; [done|].
    exists v'. by rewrite Hu, Ht.
Qed.

(** The contents of the binary values of all arguments. *)
Definition args_leaves (args : list gval) : list bytes := concat (map leaves args).

Lemma deconstructPacket_event name args :
  deconstructPacket (event_value name args) =
  let '(ys, n, r) := walk_each (deconstructValue true) (map (fun a => GIface (Some a)) args) 0 in
  (GPtr (TSlice TIface) (Some (GSlice TIface (GIface (Some (GString name)) :: ys))), n, r).
Proof.
  change (deconstructPacket (event_value name args)) with
    (rebuilt (fun els => GPtr (TSlice TIface) (Some (GSlice TIface els)))
      (let '(ys, n, r) := walk_each (deconstructValue true) (map (fun a => GIface (Some a)) args) 0 in
       (GIface (Some (GString name)) :: ys, n, (fun bs => [] ++ bs) <$> r))).
  by destruct (walk_each _ _ 0) as [[ys n] []].
Qed.

(** The walk over the arguments. *)
Lemma args_carry args :
  Forall sendable_arg args -> (Z.of_nat (length (args_leaves args)) <= max_int64)%Z ->
  exists ds, walk_each (deconstructValue true) (map (fun a => GIface (Some a)) args) 0 =
      (map (fun d => GIface (Some d)) ds, Z.of_nat (length (args_leaves args)), Ret (args_leaves args)) /\
    Forall2 (fun a d => arg_left_as a (GIface (Some d))) args ds /\
    forall buffers, fits 0 (args_leaves args) buffers ->
      Forall2 (fun a d => arg_restores buffers a (GIface (Some d))) args ds.
Proof.
  intros Ha Hm.
  assert (El : concat (map leaves (map (fun a => GIface (Some a)) args)) = args_leaves args)
    by (unfold args_leaves; by rewrite map_map).
  destruct (walk_each_carries leaves (deconstructValue true) (map (fun a => GIface (Some a)) args) 0
    (fun x y => forall a, x = GIface (Some a) -> arg_left_as a y)
    (fun buffers x y => forall a, x = GIface (Some a) -> arg_restores buffers a y)) as (ys & Ey & HP & Hb).
  - done.
  - by rewrite El.
  - intros x n (a & <- & Hin%list_elem_of_In)%list_elem_of_In%in_map_iff Hn Hmx.
    rewrite Forall_forall in Ha. destruct (arg_carries a n (Ha a Hin) Hn Hmx) as (y & Ew & Hy & Hy').
    exists y. split; [exact Ew|]. split; [by intros ? [= <-]|]. intros buffers Hf ? [= <-]. by apply Hy'.
  - rewrite El in *.
    assert (exists ds, ys = map (fun d => GIface (Some d)) ds) as (ds & ->).
    { apply Forall2_fmap_l in HP. clear -HP. induction HP as [|a y args ys Hy _ (ds & ->)]; [by exists []|].
      destruct (Hy a eq_refl) as (d & -> & _). by exists (d :: ds). }
    exists ds. split; [exact Ey|]. split.
    + apply Forall2_fmap_1 in HP. eapply Forall2_impl; [exact HP|]. intros a d Hd. by apply Hd.
    + intros buffers Hf. specialize (Hb buffers Hf). apply Forall2_fmap_1 in Hb.
      eapply Forall2_impl; [exact Hb|]. intros a d Hd. by apply Hd.
Qed.

Lemma event_carries name args :
  Forall sendable_arg args -> (Z.of_nat (length (args_leaves args)) <= max_int64)%Z ->
  exists ds, deconstructPacket (event_value name args) =
      (event_value name ds, Z.of_nat (length (args_leaves args)), Ret (args_leaves args)) /\
    Forall2 (fun a d => arg_left_as a (GIface (Some d))) args ds /\
    forall buffers, fits 0 (args_leaves args) buffers ->
      Forall2 (fun a d => arg_restores buffers a (GIface (Some d))) args ds.
Proof.
  intros Ha Hm. destruct (args_carry args Ha Hm) as (ds & Ey & HF). exists ds. split; [|exact HF].
  by rewrite deconstructPacket_event, Ey.
Qed.

Lemma args_hasBinary args :
  Forall sendable_arg args ->
  existsb hasBinary (map (fun a => GIface (Some a)) args) = negb (bool_decide (args_leaves args = [])).
Proof.
  intros Ha. unfold args_leaves. rewrite (existsb_leaves _ leaves), map_map; [done|].
  intros x (a & <- & Hin%list_elem_of_In)%list_elem_of_In%in_map_iff.
  rewrite Forall_forall in Ha. destruct (sendable_arg_target a (Ha a Hin)) as (Hw & Hs & Hi & _ & Hl & _).
  cbn [leaves]. rewrite Hl, <- (hasBinarySwitch_leaves (gsize (target a)) (target a) true) by done.
  destruct a as [| | | | | | | |? [w|]| |]; done.
Qed.

Lemma event_hasBinary name args :
  Forall sendable_arg args ->
  hasBinary (event_value name args) = negb (bool_decide (args_leaves args = [])).
Proof. apply args_hasBinary. Qed.

(** What [encodeString] prints for an event is read back by [parseHeader]. *)
Lemma encodeString_reads h v out text name :
  wf_header h = true -> IsEvent h = true -> json_Encode v = Some out -> out = text ++ [x0a] ->
  event_text name text ->
  exists s, encodeString h (Some v) = Ret s /\ parseHeader s = Ret (normalize h, text, name).
Proof.
  intros Hw He Hj -> Hname. unfold encodeString. rewrite Hj, app_assoc, remove_newline_snoc.
  eexists. split; [reflexivity|].
  assert (opens_json text = true) as Ho by by destruct Hname as (esc & rest & -> & _).
  destruct (opens_json_head _ Ho) as (c & l & -> & Hc1 & Hc2).
  rewrite parseHeader_text; [|exact Hw|cbn; by rewrite Hc1, Hc2|discriminate].
  by rewrite He, (parse_event_name_text _ _ Hname).
Qed.
End walks_carry.

(** What is sent of an argument, and that a JSON package carries it exactly. *)
Definition sent_exactly `{ValueJSON} (d : gval) : Prop :=
  sent_as d /\ wf (target d) = true /\ sendable true (typeOf (target d)) = true /\ on_wire (target d) /\
  json_exact (target d) = true.

(** The JSON package carries events: what it writes for a name (valid UTF-8, without a
    backslash at its end) and arguments of sendable types that hold placeholders, and only
    such strings, keys and structs as JSON has a place for ([json_exact]), is a
    line that starts with the name, and [Unmarshal] of it to values of the arguments' types
    gives the arguments, up to the order of maps. [encoding/json] documents this; strings that are not valid UTF-8, which it
    replaces, fields without a key and clashing keys are outside the law. *)
Class EventJSON `{ValueJSON} : Prop := {
  event_placeholder :: PlaceholderJSON;
  event_json name ds out :
    last (to_bytes name) <> Some x5c -> text_valid name = true -> Forall sent_exactly ds ->
    json_Encode (event_value name ds) = Some out ->
    exists text us, out = text ++ [x0a] /\ event_text name text /\
      json_UnmarshalArgs text (TString :: map (fun d => typeOf (target d)) ds) = Some (GString name :: us) /\
      Forall2 (fun d u => typeOf u = typeOf (target d) /\ reorder (target d) u) ds us;
}.

Section events.
Context `{EventJSON}.

Definition event_header (h : PacketHeader) (args : list gval) : PacketHeader :=
  match args_leaves args with
  | [] => h
  | l => mkPacketHeader PacketTypeBinaryEvent (Namespace h) (ID h) (Z.of_nat (length l))
  end.

Lemma event_header_wf h args :
  Typ h = PacketTypeEvent -> wf_header h = true -> (Z.of_nat (length (args_leaves args)) <= max_int64)%Z ->
  wf_header (event_header h args) = true /\ IsEvent (event_header h args) = true /\
  (args_leaves args = [] \/ IsBinary (event_header h args) = true) /\
  (args_leaves args <> [] -> Attachments (event_header h args) = Z.of_nat (length (args_leaves args))).
Proof.
  intros Ht Hw Hm. unfold event_header. destruct (args_leaves args) as [|b bs]; [|clear Ht].
  - split_and!; [done| |by left|done]. unfold IsEvent. by rewrite Ht.
  - unfold wf_header in *. cbn [Typ Namespace ID Attachments] in *.
    apply andb_prop in Hw as [Hw _]. rewrite Hw. split_and!; [|done|by right|done].
    change (IsBinary _) with true. cbn [andb]. lia.
Qed.

(** What is left of the arguments has the types the receiver asks for. *)
Lemma left_types args ds :
  Forall sendable_arg args -> Forall2 (fun a d => arg_left_as a (GIface (Some d))) args ds ->
  convertType <$> map (fun a => Some (typeOf a)) args = map (fun d => typeOf (target d)) ds /\ Forall sent_exactly ds.
Proof.
  intros Ha HF. induction HF as [|a d args ds (d' & [= <-] & Hs & (Ht & Hw & Hk) & Hwf) _ IH]; [done|].
  inversion Ha as [|? ? Ha1 Ha2]; subst. destruct (IH Ha2) as [IH1 IH2].
  destruct (sendable_arg_target a Ha1) as (_ & Hst & _ & _ & _ & Hc). destruct Ha1 as (_ & _ & _ & Hex).
  split; [cbn in *; by rewrite IH1, Hc, Ht|]. constructor; [|done]. unfold sent_exactly. rewrite Ht.
  by rewrite <- json_exact_skeleton, Hk, json_exact_skeleton.
Qed.

Lemma args_left_as args :
  Forall sendable_arg args -> args_leaves args = [] ->
  Forall2 (fun a d => arg_left_as a (GIface (Some d))) args args.
Proof.
  unfold args_leaves. induction 1 as [|a args Ha _ IH]; [constructor|]. cbn [map concat].
  intros [Hl Hls]%app_nil. constructor; [|by apply IH].
  destruct (sendable_arg_target a Ha) as (Hw & _ & _ & Hs & Hl' & _).
  exists a. split_and!; [done|done| |done]. apply atom_left. congruence.
Qed.

(** What [Encode] does with an event of sendable arguments. *)
Lemma Encode_event max h name args :
  Forall sendable_arg args -> Typ h = PacketTypeEvent ->
  (Z.of_nat (length (args_leaves args)) <= max_int64)%Z ->
  (max <= 0 \/ Z.of_nat (length (args_leaves args)) <= max)%Z ->
  exists ds, Encode max h (Some (event_value name args)) =
      (event_header h args, Some (event_value name ds),
       (fun s => s :: args_leaves args) <$> encodeString (event_header h args) (Some (event_value name ds))) /\
    Forall2 (fun a d => arg_left_as a (GIface (Some d))) args ds /\
    (args_leaves args = [] -> ds = args) /\
    (args_leaves args <> [] -> forall buffers, fits 0 (args_leaves args) buffers ->
      Forall2 (fun a d => arg_restores buffers a (GIface (Some d))) args ds).
Proof.
  intros Ha Ht Hm Hmax.
  assert (HE : Encode max h (Some (event_value name args)) =
    if hasBinary (event_value name args)
    then encodeBinary max (mkPacketHeader PacketTypeBinaryEvent (Namespace h) (ID h) (Attachments h)) (event_value name args)
    else (h, Some (event_value name args), (fun s => [s]) <$> encodeString h (Some (event_value name args)))).
  { unfold Encode, event_value. rewrite Ht. by destruct (hasBinary _). }
  rewrite HE, event_hasBinary by done. unfold event_header.
  destruct (args_leaves args) as [|b bs] eqn:El.
  - exists args. split; [done|]. split; [by apply args_left_as|done].
  - rewrite bool_decide_false by done. cbn [negb].
    destruct (event_carries name args Ha) as (ds & Ed & HF & Hb); [by rewrite El|]. rewrite El in *.
    exists ds. split; [|done]. unfold encodeBinary. rewrite Ed, Z.eqb_refl. cbn [negb].
    destruct ((0 <? max) && (max <? Z.of_nat (length (b :: bs))))%Z eqn:E; [lia|]. done.
Qed.

(** What [decode] makes of the event. *)
Lemma decode_event h args ds us name text :
  Forall sendable_arg args -> IsEvent h = true -> text <> [] ->
  Forall2 (fun a d => arg_left_as a (GIface (Some d))) args ds ->
  json_UnmarshalArgs text (TString :: map (fun d => typeOf (target d)) ds) = Some (GString name :: us) ->
  Forall2 (fun d u => typeOf u = typeOf (target d) /\ reorder (target d) u) ds us ->
  (args_leaves args = [] -> ds = args) ->
  (args_leaves args <> [] ->
    Forall2 (fun a d => arg_restores (text :: args_leaves args) a (GIface (Some d))) args ds) ->
  exists vals, decode h (text :: args_leaves args) (map (fun a => Some (typeOf a)) args) = Ret vals /\
    Forall2 received args vals.
Proof.
  intros Ha He Hne HF Hj Hu Hnil Hb. destruct (left_types args ds Ha HF) as [Hty _].
  unfold decode. destruct (args_leaves args) as [|b bs].
  - rewrite Hty. destruct text as [|c text]; [done|]. rewrite He. unfold unmarshalArgs. rewrite Hj.
    rewrite (Hnil eq_refl) in *. eexists. split; [reflexivity|].
    change (Forall2 received args (newPointer <$> us)). apply Forall2_fmap_r. clear -Hu.
    eapply Forall2_impl; [exact Hu|]. intros a u [Ht Hr]. exists u. by rewrite <- Ht.
  - unfold reconstruct. rewrite Hty, He. unfold unmarshalArgs. rewrite Hj. cbn [mbind outcome_bind].
    change (exists vals, outcome_each (reconstructValue (text :: b :: bs) false) (newPointer <$> us) = Ret vals /\
      Forall2 received args vals).
    specialize (Hb ltac:(done)).
    eapply (outcome_each_back _ (fun d v => exists u, v = newPointer u /\ typeOf u = typeOf (target d) /\ reorder (target d) u)).
    + eapply Forall2_impl; [exact Hb|]. intros a d Hd v (u & -> & Ht & Hr). by eapply Hd.
    + apply Forall2_fmap_r. eapply Forall2_impl; [exact Hu|]. intros d u [Ht Hr]. by exists u.
Qed.

(** The way of an event, with what is written and read on it. *)
Lemma event_carried max h name args p :
  Forall sendable_arg args -> Typ h = PacketTypeEvent -> wf_header h = true ->
  last (to_bytes name) <> Some x5c -> text_valid name = true -> p_r p = None ->
  (Z.of_nat (length (args_leaves args)) < max_int64)%Z ->
  (max <= 0 \/ Z.of_nat (length (args_leaves args)) <= max)%Z ->
  (p_maxAttachments p <= 0 \/ Z.of_nat (length (args_leaves args)) <= p_maxAttachments p)%Z ->
  exists v' res, Encode max h (Some (event_value name args)) = (event_header h args, Some v', res) /\
    match json_Encode v' with
    | None => res = Err errJSON
    | Some out =>
        exists s text vals ds, v' = event_value name ds /\ length ds = length args /\ Forall sent_exactly ds /\ out = text ++ [x0a] /\
          parseHeader s = Ret (normalize (event_header h args), text, name) /\
          res = Ret (s :: args_leaves args) /\
          feed p (s :: args_leaves args) =
            (p, [(normalize (event_header h args), name, text :: args_leaves args)], None) /\
          decode (normalize (event_header h args)) (text :: args_leaves args)
            (map (fun a => Some (typeOf a)) args) = Ret vals /\
          Forall2 received args vals
    end.
Proof.
  intros Ha Ht Hw Hname Hutf Hp Hm Hmax Hpmax.
  destruct (Encode_event max h name args Ha Ht) as (ds & -> & HF & Hnil & Hb); [lia|done|].
  exists (event_value name ds). eexists. split; [reflexivity|].
  destruct (json_Encode (event_value name ds)) as [out|] eqn:Ej; [|unfold encodeString; by rewrite Ej].
  destruct (event_json name ds out Hname Hutf (proj2 (left_types args ds Ha HF)) Ej) as (text & us & -> & Hev & Hun & Hu).
  destruct (event_header_wf h args Ht Hw) as (Hw' & He & Hbin & Hatt); [lia|].
  destruct (encodeString_reads _ _ _ text name Hw' He Ej eq_refl Hev) as (s & -> & Hs).
  destruct (decode_event (normalize (event_header h args)) args ds us name text) as (vals & Ev & Hv); try done.
  { by destruct Hev as (esc & rest & -> & _). }
  { intros Hne. apply (Hb Hne). split; [cbn; lia|]. intros i b Hi. exact Hi. }
  exists s, text, vals, ds. split; [done|]. split; [symmetry; by eapply Forall2_length|].
  split; [exact (proj2 (left_types args ds Ha HF))|]. split; [done|]. split; [done|].
  split; [done|]. split; [|done].
  destruct (decide (args_leaves args = [])) as [E|E].
  - unfold event_header in *. rewrite E in *.
    assert (IsBinary h = false) as Hb0 by (unfold IsBinary; by rewrite Ht).
    assert (Attachments h = 0%Z) as Ha0.
    { unfold wf_header in Hw. rewrite Hb0 in Hw. apply andb_prop in Hw as [_ Hw]. by apply Z.eqb_eq in Hw. }
    cbn [feed]. rewrite (Add_text _ _ _ _ _ Hp Hs) by (cbn in *; lia).
    change (IsBinary (normalize h)) with (IsBinary h). by rewrite Hb0.
  - destruct Hbin as [|Hbin]; [done|].
    apply feed_binary_packet; try done; cbn [normalize Attachments]; rewrite (Hatt E); lia.
Qed.

(** C4: An event travels. Its arguments are of sendable types (nestings of structs, slices, maps and pointers that the
    walks support; no nil pointer) and JSON has a place for all of them: strings and map keys are valid UTF-8,
    every struct field has a key of its own, no inner pointer points to what JSON writes as null. The name is
    valid UTF-8 and does not end in a backslash; the header is well-formed, the receiving parser idle, the number
    of attachments within both limits. Then [Encode] leaves placeholders in the arguments and, unless the JSON
    package refuses them, gives one text and the contents of the [Binary] values as attachments, in order; a
    parser fed these messages finishes exactly this packet and is idle again; and [decode] at the types of the
    arguments gives each handler parameter a pointer to the value sent, up to the order of maps. *)
Theorem event_travels max h name args p :
  Forall sendable_arg args -> Typ h = PacketTypeEvent -> wf_header h = true ->
  last (to_bytes name) <> Some x5c -> text_valid name = true -> p_r p = None ->
  (Z.of_nat (length (args_leaves args)) < max_int64)%Z ->
  (max <= 0 \/ Z.of_nat (length (args_leaves args)) <= max)%Z ->
  (p_maxAttachments p <= 0 \/ Z.of_nat (length (args_leaves args)) <= p_maxAttachments p)%Z ->
  exists v' res, Encode max h (Some (event_value name args)) = (event_header h args, Some v', res) /\
    match json_Encode v' with
    | None => res = Err errJSON
    | Some _ =>
        exists s text vals, res = Ret (s :: args_leaves args) /\
          feed p (s :: args_leaves args) =
            (p, [(normalize (event_header h args), name, text :: args_leaves args)], None) /\
          decode (normalize (event_header h args)) (text :: args_leaves args)
            (map (fun a => Some (typeOf a)) args) = Ret vals /\
          Forall2 received args vals
    end.
Proof.
  intros Ha Ht Hw Hname Hutf Hp Hm Hmax Hpmax. destruct (event_carried max h name args p) as (v' & res & HE & HR); try done.
  exists v', res. split; [done|]. destruct (json_Encode v'); [|done]. destruct HR as (s & text & vals & _ & _ & _ & _ & _ & _ & HR).
  by exists s, text, vals.
Qed.
End events.

(** ** Where it fails *)

Section failures.
Context `{ValueJSON}.

Lemma walk_each_Ret {A} (f : A -> Z -> walk_result A) l n ys n' bufs :
  walk_each f l n = (ys, n', Ret bufs) ->
  Forall2 (fun x y => exists m m' b, f x m = (y, m', Ret b) /\ b ⊆ bufs) l ys.
Proof.
  revert n ys n' bufs. induction l as [|x l IH]; intros n ys n' bufs; cbn [walk_each]; [intros [= <- _]; constructor|].
  destruct (f x n) as [[y m'] [b|e|why]] eqn:Ex; [|discriminate|discriminate].
  destruct (walk_each f l m') as [[ys' m''] [bs|e|why]] eqn:El; [|discriminate|discriminate].
  intros [= <- <- <-]. constructor.
  - exists n, m', b. split; [done|]. set_solver.
  - eapply Forall2_impl; [by eapply IH|]. cbn. intros x0 y0 (m0 & m1 & b0 & E0 & Hs). exists m0, m1, b0. set_solver.
Qed.

(** A [Binary] in an interface is replaced by a pointer; a second walk refuses it. *)
Lemma binary_arg_left b m y m' bufs :
  deconstructValue true (GIface (Some (GBytes true b))) m = (y, m', Ret bufs) ->
  (exists p, y = GIface (Some (new_bytes true p))) /\ bufs = [b].
Proof.
  cbn. unfold deconstructBinaryValue. destruct (json_MarshalPlaceholder m) as [p|]; [|discriminate].
  intros [= <- _ <-]. split; [by exists p|done].
Qed.

(** [&values] for any [[]any]. *)
Definition values_ptr (els : list gval) : gval := GPtr (TSlice TIface) (Some (GSlice TIface els)).

Lemma Encode_values max h els x :
  Typ h = PacketTypeEvent -> x ∈ els -> hasBinary x = true ->
  Encode max h (Some (values_ptr els)) =
  encodeBinary max (mkPacketHeader PacketTypeBinaryEvent (Namespace h) (ID h) (Attachments h)) (values_ptr els).
Proof.
  intros Ht Hx Hb. assert (hasBinary (values_ptr els) = true) as Hv.
  { change (hasBinary (values_ptr els)) with (existsb hasBinary els). apply existsb_exists.
    exists x. split; [by apply list_elem_of_In|done]. }
  unfold Encode, values_ptr in *. by rewrite Ht, Hv.
Qed.

Lemma encodeBinary_Ret max h v h' v' msgs :
  encodeBinary max h v = (h', v', Ret msgs) ->
  exists w n bufs, v' = Some w /\ deconstructPacket v = (w, n, Ret bufs) /\ Typ h' = Typ h /\
    Attachments h' = Z.of_nat (length bufs).
Proof.
  unfold encodeBinary. destruct (deconstructPacket v) as [[w n] [bufs|e|why]]; [|discriminate|discriminate].
  destruct (Z.eqb_spec n (Z.of_nat (length bufs))) as [->|]; [|discriminate]. cbn [negb].
  destruct (_ && _); [discriminate|]. intros [= <- <- _].
  eexists w, _, bufs. split_and!; done.
Qed.

(** A walk that succeeds has succeeded for every element. *)
Lemma deconstruct_values els w n bufs :
  deconstructPacket (values_ptr els) = (w, n, Ret bufs) ->
  exists ys, w = values_ptr ys /\
    Forall2 (fun x y => exists m m' b, deconstructValue true x m = (y, m', Ret b) /\ b ⊆ bufs) els ys.
Proof.
  change (deconstructPacket (values_ptr els)) with (rebuilt values_ptr (walk_each (deconstructValue true) els 0)).
  destruct (walk_each _ els 0) as [[ys n'] r] eqn:Ew. intros [= <- <- ->].
  exists ys. split; [done|]. by eapply walk_each_Ret.
Qed.

(** An event with a [Binary] among its arguments can be encoded once. [Encode] replaces the
    argument in the caller's slice by a pointer to the placeholder's text, and changes the
    caller's header. A second [Encode] of the same slice with a new header, as for a packet of
    the retry queue that is sent again, gives no messages: it fails or panics. A second
    [Encode] with the same header, as for a broadcast that is replayed to a recovered
    session, gives at most the text, without the attachments, of which the header announces
    at least one. *)
Theorem second_encode_fails max h name args b h' v' msgs max2 h2 :
  GBytes true b ∈ args -> Typ h = PacketTypeEvent -> Typ h2 = PacketTypeEvent ->
  Encode max h (Some (event_value name args)) = (h', v', Ret msgs) ->
  (forall msgs2, (Encode max2 h2 v').2 <> Ret msgs2) /\
  Encode max2 h' v' = (h', v', (fun s => [s]) <$> encodeString h' v') /\ (1 <= Attachments h')%Z.
Proof.
  intros Hin Ht Ht2 HE.
  change (event_value name args) with
    (values_ptr (GIface (Some (GString name)) :: map (fun a => GIface (Some a)) args)) in HE.
  assert (Hx : GIface (Some (GBytes true b)) ∈ GIface (Some (GString name)) :: map (fun a => GIface (Some a)) args).
  { right. apply list_elem_of_In, in_map_iff. exists (GBytes true b). split; [done|by apply list_elem_of_In]. }
  rewrite (Encode_values _ _ _ _ Ht Hx) in HE by done.
  apply encodeBinary_Ret in HE as (w & n & bufs & -> & (ys & -> & HF)%deconstruct_values & Ht' & Ha).
  apply list_elem_of_lookup in Hx as [i Hi].
  destruct (Forall2_lookup_l _ _ _ _ _ HF Hi) as (y & Hy & m & m' & bs & [[p ->] ->]%binary_arg_left & Hbs).
  apply list_elem_of_lookup_2 in Hy. split_and!.
  - intros msgs2 HE2. rewrite (Encode_values _ _ _ _ Ht2 Hy) in HE2 by done.
    destruct (encodeBinary _ _ _) as [[h3 v3] r3] eqn:E3. cbn in HE2. subst r3.
    apply encodeBinary_Ret in E3 as (w3 & n3 & bufs3 & _ & (ys3 & _ & HF3)%deconstruct_values & _).
    apply list_elem_of_lookup in Hy as [i3 Hi3].
    destruct (Forall2_lookup_l _ _ _ _ _ HF3 Hi3) as (y3 & _ & m3 & m3' & b3 & E3 & _). discriminate E3.
  - unfold Encode, values_ptr. by rewrite Ht'.
  - rewrite Ha. destruct bufs; [set_solver|]. cbn. lia.
Qed.

(** C40: The number of a placeholder is the sender's. For a parameter of type [Binary] and the
    buffers of a packet, its text first: a number of an attachment gives the attachment; a
    number that is too large is an error; [-1] gives the text of the packet itself; every
    other negative number, and the largest [int], whose increment overflows, is a panic of the
    receiver. *)
Theorem placeholder_number buffers p num :
  json_UnmarshalPlaceholder p = Some num -> (- max_int64 - 1 <= num <= max_int64)%Z ->
  (Z.of_nat (length buffers) <= max_int64)%Z ->
  reconstructPacket buffers [newPointer (GBytes true p)] =
    if (num <? -1)%Z || (num =? max_int64)%Z then Panic IndexRange
    else match buffers !! Z.to_nat (num + 1) with
         | Some b => Ret [newPointer (GBytes true b)]
         | None => Err errInvalidPlaceholderNumValue
         end.
Proof.
  intros Hp Hn Hl. unfold max_int64 in *.
  assert (reconstructPacket buffers [newPointer (GBytes true p)] =
    (fun b => [newPointer (GBytes true b)]) <$> attachment buffers num) as ->.
  { cbn. unfold reconstructBinaryValue. rewrite Hp. by destruct (attachment buffers num). }
  unfold attachment. destruct (Z.eqb_spec num (2 ^ 63 - 1)) as [->|Hne].
  - rewrite orb_true_r. change (wrap_s 64 (2 ^ 63 - 1 + 1)) with (- 2 ^ 63)%Z.
    destruct (Z.leb_spec (Z.of_nat (length buffers)) (- 2 ^ 63)); [lia|]. done.
  - rewrite orb_false_r, wrap_s_small by lia.
    destruct (Z.ltb_spec num (-1)); destruct (Z.ltb_spec (num + 1) 0); try lia;
      destruct (Z.leb_spec (Z.of_nat (length buffers)) (num + 1)); try lia; try done.
    + by rewrite lookup_ge_None_2 by lia.
    + destruct (lookup_lt_is_Some_2 buffers (Z.to_nat (num + 1))) as [b ->]; [lia|done].
Qed.
End failures.

(** ** The laws hold *)

(** The package of [JsonText] is one for which the laws hold, whatever the name and the values. *)

Lemma package_placeholder : @PlaceholderJSON json_package.
Proof.
  intros n Hn. exists (print (placeholder_json n)). split; [done|]. cbn [json_UnmarshalPlaceholder json_package].
  rewrite parse_print; [done|]. cbn. unfold int64, max_int64 in *. rewrite andb_true_r. lia.
Qed.

Lemma texts_leaves v : Forall object_text (leaves v) -> texts v.
Proof.
  assert (forall A (f : A -> gval) l, Forall (fun x => Forall object_text (leaves (f x)) -> texts (f x)) l ->
    Forall object_text (concat (map (fun x => leaves (f x)) l)) -> fold_right (fun x P => texts (f x) /\ P) True l) as HF.
  { intros A f l Hl. induction Hl as [|x l Hx Hl IH]; [done|]. cbn. intros [H1 H2]%Forall_app. by auto. }
  induction v as [v Hv|e els IH|fs IH|k e entries IH|e w IH|w IH] using gval_ind'; intros HL.
  - destruct v as [| | | |[] b|e els|fs|k e entries|e [w|]|[w|]|]; try done. by apply Forall_cons in HL as [? _].
  - by apply (HF _ (fun x => x)).
  - apply (HF _ snd); [done|]. erewrite map_ext; [exact HL|]. by intros [].
  - apply (HF _ snd); [done|]. erewrite map_ext; [exact HL|]. by intros [].
  - by apply IH.
  - by apply IH.
Qed.

Lemma on_wire_texts v : @on_wire json_package v -> texts v.
Proof.
  intros Hw. apply texts_leaves. eapply Forall_impl; [exact Hw|]. intros b (k & Hk & [= <-]).
  exists [(to_bytes "_placeholder", JBool true); (to_bytes "num", JNum k)]. split; [|done]. cbn. unfold int64, max_int64 in *. rewrite andb_true_r. lia.
Qed.

(** What the package writes of arguments, and reads at their types. *)
Lemma package_args ds :
  Forall (@sent_exactly json_package) ds ->
  exists js, mapM to_json (map (fun d => GIface (Some d)) ds) = Some js /\ forallb jwf js = true /\ length js = length ds /\
    args_of js (map (fun d => typeOf (target d)) ds) = Some (map target ds).
Proof.
  induction 1 as [|d ds (Hs & Hw & _ & Hwire & Hex) _ (js & Ejs & Hjs & Hl & Ea)]; [by exists []|].
  destruct (json_exact_back (target d) Hw Hex (on_wire_texts _ Hwire)) as (j & Ej & Ev & _ & Hj).
  exists (j :: js). cbn [map mapM]. assert (to_json (GIface (Some d)) = Some j) as ->.
  { cbn. destruct Hs as [-> | ->]; [|done]. by destruct d as [| | | | | | | |? [[]|]| |]. }
  cbn [mbind option_bind]. rewrite Ejs. cbn. rewrite Hj, Hjs, Hl, Ev. cbn. by rewrite Ea.
Qed.

Lemma reorder_refl v : reorder v v.
Proof.
  induction v as [v Hv|e els IH|fs IH|k e entries IH|e w IH|w IH] using gval_ind'; try by constructor.
  - apply reorder_slice. induction IH; by constructor.
  - apply reorder_struct. induction IH; by constructor.
  - apply (reorder_map k e entries entries); [done|]. induction IH; by constructor.
Qed.

Lemma args_same (ds : list gval) :
  Forall2 (fun d u => typeOf u = typeOf (target d) /\ reorder (target d) u) ds (map target ds).
Proof. induction ds; constructor; [|done]. split; [done|apply reorder_refl]. Qed.

(** The escapes of a JSON string are those that [parseHeader] looks for, but for a backslash at the end. *)
Lemma escaped_scannable prev s :
  (s = [] -> Byte.eqb prev x5c = false) -> last s <> Some x5c -> scannable prev (escaped s) = true.
Proof.
  revert prev. induction s as [|c s IH]; intros prev Hp Hl; [cbn; by rewrite Hp|].
  assert (forall p, (s = [] -> Byte.eqb p x5c = false) -> scannable p (escaped s) = true) as HI.
  { intros p Hp'. apply IH; [done|]. intros E. apply Hl. destruct s; [discriminate|exact E]. }
  change (escaped (c :: s)) with (escape c ++ escaped s). unfold escape.
  destruct (Byte.eqb c x22) eqn:Eq; [apply byte_eqb_eq in Eq as ->; cbn; by apply HI|].
  destruct (Byte.eqb c x5c) eqn:Eb.
  { apply byte_eqb_eq in Eb as ->. cbn. apply HI. intros ->. by destruct (Hl eq_refl). }
  cbn [orb]. pose proof (b2z_range c). destruct (Z.ltb_spec (b2z c) 32).
  - assert (forall d, (0 <= d < 16)%Z -> Byte.eqb (hex_digit d) x22 = false /\ Byte.eqb (hex_digit d) x5c = false) as HD.
    { intros d Hd. unfold hex_digit. assert (d = 0 \/ d = 1 \/ d = 2 \/ d = 3 \/ d = 4 \/ d = 5 \/ d = 6 \/ d = 7 \/ d = 8 \/
        d = 9 \/ d = 10 \/ d = 11 \/ d = 12 \/ d = 13 \/ d = 14 \/ d = 15)%Z as HC by lia.
      by repeat destruct HC as [-> | HC]; [..|subst d]. }
    destruct (HD (b2z c / 16)%Z) as [H1 H2]; [split; [apply Z.div_pos; lia|apply Z.div_lt_upper_bound; lia]|].
    destruct (HD (b2z c mod 16)%Z) as [H3 H4]; [apply Z.mod_pos_bound; lia|].
    cbn -[hex_digit Z.div Z.modulo]. rewrite H1, H3. cbn -[hex_digit Z.div Z.modulo]. apply HI. by intros _.
  - cbn. rewrite Eq. cbn. by apply HI.
Qed.

(** The text of an array that starts with a name. *)
Lemma package_event_text name js :
  last (to_bytes name) <> Some x5c -> text_valid name = true ->
  @event_text _ (@value_serializer json_package) name (print (JArr (JStr (string_json name) :: js))).
Proof.
  intros Hl Hu. rewrite string_json_valid by done.
  assert (print (JArr [JStr (to_bytes name)]) = "["%byte :: x22 :: escaped (to_bytes name) ++ [x22; "]"%byte]) as Hone.
  { cbn -[escaped]. by rewrite <- app_assoc. }
  exists (escaped (to_bytes name)).
  exists (match js with [] => ["]"%byte] | _ => ","%byte :: commas (map print js) ++ ["]"%byte] end). split; [|split].
  - destruct js as [|j js]; [exact Hone|]. cbn [print map]. rewrite commas_cons. cbn [quoted print app]. rewrite <- !app_assoc. done.
  - by apply escaped_scannable.
  - cbn [json_UnmarshalStrings value_serializer json_package]. rewrite <- Hone. unfold array_of. rewrite parse_print by done.
    cbn. by rewrite of_to_bytes.
Qed.

Lemma package_event : @EventJSON json_package.
Proof.
  split; [apply package_placeholder|]. intros name ds out Hl Hu HF Hj.
  destruct (package_args ds HF) as (js & Ejs & Hjs & _ & Ea).
  assert (to_json (event_value name ds) = Some (JArr (JStr (string_json name) :: js))) as Et.
  { unfold event_value. cbn [to_json mapM]. cbn [mbind option_bind]. by rewrite Ejs. }
  cbn [json_Encode value_serializer json_package] in Hj. rewrite Et in Hj. apply (inj Some) in Hj as <-.
  exists (print (JArr (JStr (string_json name) :: js))), (map target ds). split; [reflexivity|]. split; [by apply package_event_text|]. split; [|apply args_same].
  cbn [json_UnmarshalArgs json_package]. unfold array_of. rewrite parse_print by done. cbn. rewrite Ea. cbn.
  by rewrite string_json_valid, of_to_bytes.
Qed.

(** ** Values that are not carried *)

Section gaps.
#[local] Existing Instance json_package.

Definition event0 : PacketHeader := mkPacketHeader PacketTypeEvent "/" None 0.

Definition encode_result (args : list gval) : outcome error (list bytes) :=
  (Encode 0 event0 (Some (event_value "e" args))).2.

Definition arg_after (args : list gval) : list gval :=
  match (Encode 0 event0 (Some (event_value "e" args))).1.2 with
  | Some (GPtr _ (Some (GSlice _ (_ :: ds)))) => ds
  | _ => []
  end.

(** Not every value with binary data travels. An entry of type [Binary] in a map panics in
    [reflect]; a plain byte slice beside a [Binary] makes the number of buffers wrong, and
    the [Binary] has by then been overwritten in the caller's slice; a [Binary] in a field of
    interface type cannot be set; a slice of maps is not searched, so that its binary values
    are not found; and a slice of [Binary] in a map is taken out, but the receiver's walk does
    not enter it and leaves the placeholders' texts. *)
Theorem binary_gaps :
  encode_result [GMap true (TBytes true) [("k"%string, GBytes true [x01])]] =
    Panic (UserPanic "reflect.Value.SetMapIndex: value is not assignable") /\
  encode_result [GBytes true [x01]; GBytes false [x02]] = Err errNumBuffers /\
  (exists p, arg_after [GBytes true [x01]; GBytes false [x02]] =
     [GIface (Some (new_bytes true p)); GIface (Some (GBytes false [x02]))]) /\
  encode_result [GStruct [(mkField true (Some "F"%string), GIface (Some (GBytes true [x01])))]] = Err errNonSettableValue /\
  hasBinary (GSlice (TMap true (TPtr (TBytes true))) [GMap true (TPtr (TBytes true)) [("k"%string, new_bytes true [x01])]]) =
    false /\
  (exists v bufs, deconstructPacket (newPointer (GMap true (TSlice (TBytes true))
       [("k"%string, GSlice (TBytes true) [GBytes true [x01]])])) = (v, 1%Z, Ret bufs) /\
     forall text, reconstructPacket (text :: bufs) [v] = Ret [v]).
Proof.
  split; [vm_compute; reflexivity|]. split; [vm_compute; reflexivity|].
  split; [exists (print (placeholder_json 0)); vm_compute; reflexivity|].
  split; [vm_compute; reflexivity|]. split; [vm_compute; reflexivity|].
  exists (newPointer (GMap true (TSlice (TBytes true))
    [("k"%string, GSlice (TBytes true) [GBytes true (print (placeholder_json 0))])])), [[x01]].
  split; [vm_compute; reflexivity|]. intros text. reflexivity.
Qed.
End gaps.

(** ** Witnesses *)

Definition sample_event_header : PacketHeader := mkPacketHeader PacketTypeEvent "/admin" None 0.

(** A pointer to a struct with a string, a [Binary] and a map of pointers to [Binary], and a slice. *)
Definition sample_fields : list (field * gval) :=
  [(mkField true (Some "name"%string), GString "f"); (mkField true (Some "data"%string), GBytes true [x01]);
   (mkField true (Some "more"%string), GMap true (TPtr (TBytes true)) [("k"%string, new_bytes true [x02; x03])])].

Definition sample_args : list gval := [newPointer (GStruct sample_fields); GSlice TInt [GInt 7; GInt (-8)]].

Lemma sample_args_sendable : Forall sendable_arg sample_args.
Proof. repeat constructor; discriminate. Qed.

Lemma event_travels_witness :
  exists v' s text vals, @Encode json_package 3 sample_event_header (Some (event_value "hi" sample_args)) =
      (event_header sample_event_header sample_args, Some v', Ret [s; [x01]; [x02; x03]]) /\
    @feed _ (@value_serializer json_package) (NewParser 0) [s; [x01]; [x02; x03]] =
      (NewParser 0, [(normalize (event_header sample_event_header sample_args), "hi"%string, [text; [x01]; [x02; x03]])], None) /\
    @decode json_package (normalize (event_header sample_event_header sample_args)) [text; [x01]; [x02; x03]]
      (map (fun a => Some (typeOf a)) sample_args) = Ret vals /\
    Forall2 received sample_args vals.
Proof.
  destruct (@event_travels json_package package_event 3 sample_event_header "hi" sample_args (NewParser 0)) as (v' & res & HE & HR).
  - apply sample_args_sendable.
  - reflexivity.
  - reflexivity.
  - discriminate.
  - reflexivity.
  - reflexivity.
  - reflexivity.
  - right. discriminate.
  - left. reflexivity.
  - assert (@json_Encode _ (@value_serializer json_package) v' <> None) as Hj.
    { apply (f_equal (fun r => r.1.2)) in HE. cbn [fst snd] in HE. vm_compute in HE. injection HE as <-. vm_compute. discriminate. }
    destruct (@json_Encode _ (@value_serializer json_package) v'); [|done]. destruct HR as (s & text & vals & -> & HR). by exists v', s, text, vals.
Defined.

Definition sample_sent : option gval := Some (event_value "hi" [new_bytes true (print (placeholder_json 0))]).

Definition sample_sent_header : PacketHeader := mkPacketHeader PacketTypeBinaryEvent "/admin" None 1.

Lemma second_encode_fails_witness :
  (forall msgs2, (@Encode json_package 0 sample_event_header sample_sent).2 <> Ret msgs2) /\
  @Encode json_package 0 sample_sent_header sample_sent =
    (sample_sent_header, sample_sent, (fun s => [s]) <$> @encodeString _ (@value_serializer json_package) sample_sent_header sample_sent) /\
  (1 <= Attachments sample_sent_header)%Z.
Proof.
  eapply (@second_encode_fails json_package 0 sample_event_header "hi" [GBytes true [x01; x02]] [x01; x02]
    sample_sent_header sample_sent _ 0 sample_event_header).
  - left.
  - reflexivity.
  - reflexivity.
  - vm_compute. reflexivity.
Defined.

Lemma placeholder_number_witness :
  @reconstructPacket json_package [[]; [x01]] [newPointer (GBytes true (print (placeholder_json (-2))))] =
  Panic IndexRange.
Proof.
  apply (@placeholder_number json_package [[]; [x01]] (print (placeholder_json (-2))) (-2)).
  - vm_compute. reflexivity.
  - unfold max_int64. lia.
  - vm_compute. discriminate.
Defined.

End attachments.
