(* ===== verification/JsonAcks.v ===== *)
(** * Acknowledgements travel ([Encode], [Add] and [decode] of [parser/json] together)

    The way of an ACK packet, as [JsonAttachments] has it for events; and of an event whose handler takes an
    acknowledgement function, for which [decode] is asked for one value more than the packet has. *)

From S2P Require Import Prelude Strconv SioPacket JsonHeader JsonParser JsonBinary JsonText JsonAttachments.
Import parser jsonparser reassembly binary jsontext attachments.

Module acks.

#[local] Set Warnings "-register-all".

(** What [sendAckPacket] passes to [Encode]: [&v], where [v] is a [[]any] of the values. *)
Definition ack_value (args : list gval) : gval :=
  GPtr (TSlice TIface) (Some (GSlice TIface (map (fun a => GIface (Some a)) args))).

(** The JSON package writes and reads arrays of arguments also without a name; and reading an array to more
    places than it has elements leaves the others as they were: a nil function for the place of an
    acknowledgement function. *)
Class AckJSON `{ValueJSON} : Prop := {
  ack_event :: EventJSON;
  ack_json ds out :
    Forall sent_exactly ds ->
    json_Encode (ack_value ds) = Some out ->
    exists text us, out = text ++ [x0a] /\ opens_json text = true /\
      json_UnmarshalArgs text (map (fun d => typeOf (target d)) ds) = Some us /\
      Forall2 (fun d u => typeOf u = typeOf (target d) /\ reorder (target d) u) ds us;
  unmarshal_length text types l : json_UnmarshalArgs text types = Some l -> length l = length types;
  unmarshal_short name ds text types l :
    text_valid name = true -> Forall sent_exactly ds ->
    json_Encode (event_value name ds) = Some (text ++ [x0a]) -> length types = length ds ->
    json_UnmarshalArgs text (TString :: types) = Some l ->
    json_UnmarshalArgs text (TString :: types ++ [TFunc]) = Some (l ++ [GFunc None]);
}.

Section acks.
Context `{AckJSON}.

Definition ack_header (h : PacketHeader) (args : list gval) : PacketHeader :=
  match args_leaves args with
  | [] => h
  | l => mkPacketHeader PacketTypeBinaryAck (Namespace h) (ID h) (Z.of_nat (length l))
  end.

Lemma deconstructPacket_ack args :
  deconstructPacket (ack_value args) =
  let '(ys, n, r) := walk_each (deconstructValue true) (map (fun a => GIface (Some a)) args) 0 in
  (GPtr (TSlice TIface) (Some (GSlice TIface ys)), n, r).
Proof.
  change (deconstructPacket (ack_value args)) with
    (rebuilt (fun els => GPtr (TSlice TIface) (Some (GSlice TIface els)))
      (walk_each (deconstructValue true) (map (fun a => GIface (Some a)) args) 0)).
  by destruct (walk_each _ _ 0) as [[ys n] r].
Qed.

(** What [Encode] does with an acknowledgement of sendable values. *)
Lemma Encode_ack max h args :
  Forall sendable_arg args -> Typ h = PacketTypeAck ->
  (Z.of_nat (length (args_leaves args)) <= max_int64)%Z ->
  (max <= 0 \/ Z.of_nat (length (args_leaves args)) <= max)%Z ->
  exists ds, Encode max h (Some (ack_value args)) =
      (ack_header h args, Some (ack_value ds),
       (fun s => s :: args_leaves args) <$> encodeString (ack_header h args) (Some (ack_value ds))) /\
    Forall2 (fun a d => arg_left_as a (GIface (Some d))) args ds /\
    (args_leaves args = [] -> ds = args) /\
    (args_leaves args <> [] -> forall buffers, fits 0 (args_leaves args) buffers ->
      Forall2 (fun a d => arg_restores buffers a (GIface (Some d))) args ds).
Proof.
  intros Ha Ht Hm Hmax.
  assert (HE : Encode max h (Some (ack_value args)) =
    if existsb hasBinary (map (fun a => GIface (Some a)) args)
    then encodeBinary max (mkPacketHeader PacketTypeBinaryAck (Namespace h) (ID h) (Attachments h)) (ack_value args)
    else (h, Some (ack_value args), (fun s => [s]) <$> encodeString h (Some (ack_value args)))).
  { unfold Encode, ack_value. rewrite Ht.
    change (hasBinary _) with (existsb hasBinary (map (fun a => GIface (Some a)) args)). by destruct (existsb _ _). }
  rewrite HE, args_hasBinary by done. unfold ack_header.
  destruct (args_leaves args) as [|b bs] eqn:El.
  - exists args. split; [done|]. split; [by apply args_left_as|done].
  - rewrite bool_decide_false by done. cbn [negb].
    destruct (args_carry args Ha) as (ds & Ed & HF & Hb); [by rewrite El|]. rewrite El in *.
    exists ds. split; [|done]. unfold encodeBinary. rewrite deconstructPacket_ack, Ed, Z.eqb_refl. cbn [negb].
    destruct ((0 <? max) && (max <? Z.of_nat (length (b :: bs))))%Z eqn:E; [lia|]. done.
Qed.

(** What [decode] makes of it: an ACK is decoded as an array, for one type as well. *)
Lemma decode_ack h args ds us text :
  Forall sendable_arg args -> IsEvent h = false -> IsAck h = true -> text <> [] ->
  Forall2 (fun a d => arg_left_as a (GIface (Some d))) args ds ->
  json_UnmarshalArgs text (map (fun d => typeOf (target d)) ds) = Some us ->
  Forall2 (fun d u => typeOf u = typeOf (target d) /\ reorder (target d) u) ds us ->
  (args_leaves args = [] -> ds = args) ->
  (args_leaves args <> [] ->
    Forall2 (fun a d => arg_restores (text :: args_leaves args) a (GIface (Some d))) args ds) ->
  exists vals, decode h (text :: args_leaves args) (map (fun a => Some (typeOf a)) args) = Ret vals /\
    Forall2 received args vals.
Proof.
  intros Ha He Hk Hne HF Hj Hu Hnil Hb. destruct (left_types args ds Ha HF) as [Hty _].
  unfold decode. destruct (args_leaves args) as [|b bs].
  - rewrite Hty, He. destruct text as [|c text]; [done|]. rewrite Hk. cbn [negb].
    rewrite (Hnil eq_refl) in *.
    assert (exists vals, unmarshalArgs (c :: text) (map (fun d => typeOf (target d)) args) = Ret vals /\ Forall2 received args vals)
      as (vals & Ev & Hv).
    { unfold unmarshalArgs. rewrite Hj. eexists. split; [reflexivity|].
      change (Forall2 received args (newPointer <$> us)). apply Forall2_fmap_r. clear -Hu.
      eapply Forall2_impl; [exact Hu|]. intros a u [Ht Hr]. exists u. by rewrite <- Ht. }
    exists vals. split; [|done]. by destruct (map _ args) as [|t [|t' ts]].
  - unfold reconstruct. rewrite Hty, He. unfold unmarshalArgs. rewrite Hj. cbn [mbind outcome_bind].
    specialize (Hb ltac:(done)).
    eapply (outcome_each_back _ (fun d v => exists u, v = newPointer u /\ typeOf u = typeOf (target d) /\ reorder (target d) u)).
    + eapply Forall2_impl; [exact Hb|]. intros a d Hd v (u & -> & Ht & Hr). by eapply Hd.
    + apply Forall2_fmap_r. eapply Forall2_impl; [exact Hu|]. intros d u [Ht Hr]. by exists u.
Qed.

Lemma ack_header_wf h args :
  Typ h = PacketTypeAck -> wf_header h = true -> (Z.of_nat (length (args_leaves args)) <= max_int64)%Z ->
  wf_header (ack_header h args) = true /\ IsEvent (ack_header h args) = false /\ IsAck (ack_header h args) = true /\
  (if IsBinary (ack_header h args) then Attachments (ack_header h args) = Z.of_nat (length (args_leaves args))
   else args_leaves args = []) /\
  (Attachments (ack_header h args) = Z.of_nat (length (args_leaves args))).
Proof.
  intros Ht Hw Hm. unfold ack_header. destruct (args_leaves args) as [|b bs]; [|clear Ht].
  - unfold IsEvent, IsAck, IsBinary. unfold wf_header, IsBinary in Hw. rewrite Ht in *.
    pose proof Hw as [_ Hz%Z.eqb_eq]%andb_prop. split_and!; try done.
    unfold wf_header, IsBinary. by rewrite Ht.
  - unfold wf_header in *. cbn [Typ Namespace ID Attachments] in *.
    apply andb_prop in Hw as [Hw _]. rewrite Hw. split_and!; try done.
    change (IsBinary _) with true. cbn [andb]. lia.
Qed.

(** The way of an acknowledgement. *)
Lemma ack_carried max h args maxp :
  Forall sendable_arg args -> Typ h = PacketTypeAck -> wf_header h = true ->
  (Z.of_nat (length (args_leaves args)) < max_int64)%Z ->
  (max <= 0 \/ Z.of_nat (length (args_leaves args)) <= max)%Z ->
  (maxp <= 0 \/ Z.of_nat (length (args_leaves args)) <= maxp)%Z ->
  exists v' res, Encode max h (Some (ack_value args)) = (ack_header h args, Some v', res) /\
    match json_Encode v' with
    | None => res = Err errJSON
    | Some _ =>
        exists s text vals, res = Ret (s :: args_leaves args) /\
          parseHeader s = Ret (normalize (ack_header h args), text, ""%string) /\
          decode (normalize (ack_header h args)) (text :: args_leaves args) (map (fun a => Some (typeOf a)) args) = Ret vals /\
          Forall2 received args vals
    end.
Proof.
  intros Ha Ht Hw Hm Hmax Hpmax.
  destruct (Encode_ack max h args Ha Ht) as (ds & -> & HF & Hnil & Hb); [lia|done|].
  exists (ack_value ds). eexists. split; [reflexivity|].
  destruct (json_Encode (ack_value ds)) as [out|] eqn:Ej; [|unfold encodeString; by rewrite Ej].
  destruct (ack_json ds out (proj2 (left_types args ds Ha HF)) Ej) as (text & us & -> & Ho & Hun & Hu).
  destruct (ack_header_wf h args Ht Hw) as (Hw' & He & Hk & _ & Hatt); [lia|].
  assert (exists s, encodeString (ack_header h args) (Some (ack_value ds)) = Ret s /\
    parseHeader s = Ret (normalize (ack_header h args), text, ""%string)) as (s & -> & Hs).
  { unfold encodeString. rewrite Ej, app_assoc, remove_newline_snoc. eexists. split; [reflexivity|].
    destruct (opens_json_head _ Ho) as (c & l & -> & Hc1 & Hc2).
    rewrite parseHeader_text; [|exact Hw'|cbn; by rewrite Hc1, Hc2|discriminate]. by rewrite He. }
  destruct (decode_ack (normalize (ack_header h args)) args ds us text) as (vals & Ev & Hv); try done.
  { by destruct text. }
  { intros Hne. apply (Hb Hne). split; [cbn; lia|]. intros i b Hi. exact Hi. }
  by exists s, text, vals.
Qed.

(** ** A parameter for the acknowledgement function *)

Lemma outcome_each_snoc {A} (g : A -> outcome error A) l x ys y :
  outcome_each g l = Ret ys -> g x = Ret y -> outcome_each g (l ++ [x]) = Ret (ys ++ [y]).
Proof.
  revert ys. induction l as [|z l IH]; intros ys; cbn [outcome_each app].
  - intros [= <-] ->. done.
  - destruct (g z) as [z'|e|why]; cbn [mbind outcome_bind]; [|discriminate|discriminate].
    destruct (outcome_each g l) as [zs|e|why]; cbn [mbind outcome_bind]; [|discriminate|discriminate].
    intros [= <-] Hx. by rewrite (IH zs eq_refl Hx).
Qed.

(** [decode] gives a pointer to a nil function for it, behind the values. *)
Lemma decode_request name ds text h atts types vals :
  text_valid name = true -> Forall sent_exactly ds -> IsEvent h = true -> length types = length ds -> json_Encode (event_value name ds) = Some (text ++ [x0a]) ->
  decode h (text :: atts) types = Ret vals ->
  decode h (text :: atts) (types ++ [Some TFunc]) = Ret (vals ++ [newPointer (GFunc None)]).
Proof.
  intros Hu HF He Hlen Hj. unfold decode, reconstruct. rewrite He, !fmap_app. cbn [fmap list_fmap convertType].
  unfold unmarshalArgs.
  destruct (json_UnmarshalArgs text (TString :: (convertType <$> types))) as [l|] eqn:Eu.
  2: { destruct atts; [by destruct text|]. discriminate. }
  rewrite (unmarshal_short name ds text _ l Hu HF Hj) by (done || by rewrite length_fmap).
  pose proof (unmarshal_length _ _ _ Eu) as Hl. destruct l as [|v l]; [done|].
  destruct atts as [|att atts].
  - destruct text as [|c text]; [done|]. cbn. intros [= <-]. by rewrite fmap_app.
  - cbn [mbind outcome_bind fmap list_fmap drop]. rewrite fmap_app. unfold reconstructPacket. cbn [fmap list_fmap drop app].
    intros Hv. by apply outcome_each_snoc.
Qed.
End acks.

(** ** The laws hold *)

Lemma args_of_length js types l : args_of js types = Some l -> length l = length types.
Proof.
  revert js l. induction types as [|t types IH]; intros js l; [by destruct js; intros [= <-]|]. destruct js as [|j js]; cbn.
  - destruct (args_of [] types) eqn:E; [|discriminate]. intros [= <-]. cbn. f_equal. by eapply IH.
  - destruct (of_json t j); [|discriminate]. cbn. destruct (args_of js types) eqn:E; [|discriminate]. intros [= <-]. cbn. f_equal. by eapply IH.
Qed.

(** A place behind the elements of the array keeps its zero value. *)
Lemma args_of_snoc js types t l :
  length js = length types -> args_of js types = Some l -> args_of js (types ++ [t]) = Some (l ++ [zero t]).
Proof.
  revert js l. induction types as [|t' types IH]; intros js l Hl.
  - destruct js; [|discriminate]. by intros [= <-].
  - destruct js as [|j js]; [discriminate|]. cbn. destruct (of_json t' j); [|discriminate]. cbn.
    destruct (args_of js types) as [vs|] eqn:E; [|discriminate]. intros [= <-]. rewrite (IH js vs); [done|by injection Hl|done].
Qed.

Lemma package_ack : @AckJSON json_package.
Proof.
  unshelve econstructor; [exact package_event|..].
  - intros ds out HF Hj. destruct (package_args ds HF) as (js & Ejs & Hjs & _ & Ea).
    assert (to_json (ack_value ds) = Some (JArr js)) as Et by (unfold ack_value; cbn [to_json]; by rewrite Ejs).
    cbn [json_Encode value_serializer json_package] in Hj. rewrite Et in Hj. apply (inj Some) in Hj as <-.
    exists (print (JArr js)), (map target ds). split; [reflexivity|]. split; [done|]. split; [|apply args_same].
    cbn [json_UnmarshalArgs json_package]. unfold array_of. by rewrite parse_print.
  - intros text types l. cbn [json_UnmarshalArgs json_package]. destruct (array_of text) as [js|]; [|discriminate]. cbn. apply args_of_length.
  - intros name ds text types l Hu HF Hj Hl HU. destruct (package_args ds HF) as (js & Ejs & Hjs & Hlen & _).
    assert (to_json (event_value name ds) = Some (JArr (JStr (string_json name) :: js))) as Et.
    { unfold event_value. cbn [to_json mapM]. cbn [mbind option_bind]. by rewrite Ejs. }
    cbn [json_Encode value_serializer json_package] in Hj. rewrite Et in Hj. apply (inj Some) in Hj.
    apply (inj (fun l => app l [x0a])) in Hj as <-. cbn [json_UnmarshalArgs json_package] in *. unfold array_of in *.
    rewrite parse_print in * by done. cbn [mbind option_bind] in *.
    change (TString :: types ++ [TFunc]) with ((TString :: types) ++ [TFunc]). apply args_of_snoc; [cbn; lia|done].
Qed.
End acks.
