(* ===== verification/Handlers.v ===== *)
(** * Handler stores ([store.go], [handlerStore] and [eventHandlerStore])

    The lists of event handlers that sockets, namespaces, servers and managers
    keep. Removal is done in place, while ranging over the slice: the model
    keeps the backing array that the [range] loop goes on reading, so that what
    the source does to the elements it has shifted is what the model does. *)

From S2P Require Import Prelude.

(** ** Slices and their backing array *)

Module slices.

(** The backing array, as far as the [range] loop can read it, and the current
    length of the slice. *)
Record slice (T : Type) := mkSlice { arr : list T; len : nat }.
Arguments mkSlice {T} arr len.
Arguments arr {T} s.
Arguments len {T} s.

(** [append(slice[:s], slice[s+1:]...)]: shifts in place; the last cell keeps its
    old contents. Slicing from [s+1] past the length panics ([None]). *)
Definition remove {T} (sl : slice T) (s : nat) : option (slice T) :=
  if S s <=? len sl then
    Some (mkSlice
      (take s (arr sl) ++ take (len sl - S s) (drop (S s) (arr sl)) ++ drop (len sl - 1) (arr sl))
      (len sl - 1))
  else None.

Section off.
Context {T H : Type} (same : T -> H -> bool).

(** [for _, _h := range handler { if h == _h { funcs = remove(funcs, i) } }] *)
Fixpoint off_inner (h : T) (i : nat) (handler : list H) (sl : slice T) : option (slice T) :=
  match handler with
  | [] => Some sl
  | _h :: handler' =>
      if same h _h then sl' ← remove sl i; off_inner h i handler' sl'
      else off_inner h i handler' sl
  end.

(** [for i, h := range funcs { ... }]: the indices of the slice as it was when the
    loop began, the elements as the array holds them now. *)
Fixpoint off_outer (indices : list nat) (handler : list H) (sl : slice T) : option (slice T) :=
  match indices with
  | [] => Some sl
  | i :: indices' =>
      match arr sl !! i with
      | None => None
      | Some h => sl' ← off_inner h i handler sl; off_outer indices' handler sl'
      end
  end.

Definition off_slice (handler : list H) (funcs : list T) : outcome unit (list T) :=
  match off_outer (seq 0 (length funcs)) handler (mkSlice funcs (length funcs)) with
  | Some sl => Ret (take (len sl) (arr sl))
  | None => Panic SliceBounds
  end.

(** *** Lemmas *)

Definition matches (handler : list H) (h : T) : bool := existsb (same h) handler.

Lemma off_inner_nomatch h i handler sl :
  matches handler h = false -> off_inner h i handler sl = Some sl.
Proof.
  induction handler as [|_h handler IH]; cbn; [reflexivity|].
  intros [E1 E2]%orb_false_elim. rewrite E1. by apply IH.
Qed.

Lemma off_outer_step i indices handler sl :
  off_outer (i :: indices) handler sl =
  match arr sl !! i with
  | None => None
  | Some h => sl' ← off_inner h i handler sl; off_outer indices handler sl'
  end.
Proof. reflexivity. Qed.

Lemma off_outer_nomatch indices handler sl :
  Forall (fun i => match arr sl !! i with Some h => matches handler h = false | None => False end) indices ->
  off_outer indices handler sl = Some sl.
Proof.
  induction 1 as [|i indices Hi HF IH]; cbn; [reflexivity|].
  destruct (arr sl !! i); [|done]. rewrite off_inner_nomatch by exact Hi. exact IH.
Qed.

Lemma off_outer_app is1 is2 handler sl :
  off_outer (is1 ++ is2) handler sl = sl' ← off_outer is1 handler sl; off_outer is2 handler sl'.
Proof.
  revert sl. induction is1 as [|i is1 IH]; intros sl; cbn; [reflexivity|].
  destruct (arr sl !! i); [|reflexivity]. destruct (off_inner _ _ _ _); cbn; [apply IH|reflexivity].
Qed.

Lemma remove_middle (pre post : list T) x :
  remove (mkSlice (pre ++ x :: post) (length (pre ++ x :: post))) (length pre) =
  Some (mkSlice (pre ++ post ++ drop (length post) (x :: post)) (length pre + length post)).
Proof.
  unfold remove. cbn [arr len]. rewrite length_app. cbn [length].
  destruct (Nat.leb_spec (S (length pre)) (length pre + S (length post))); [|lia].
  f_equal. f_equal; [|lia]. rewrite take_app_length. f_equal.
  rewrite drop_app_ge by lia. replace (S (length pre) - length pre) with 1 by lia. cbn [drop].
  rewrite drop_0, take_ge by lia. f_equal.
  rewrite drop_app_ge by lia. f_equal. lia.
Qed.

(** Reading the front part of the array, where nothing matches, changes nothing. *)
Lemma off_outer_front pre rest handler :
  Forall (fun h => matches handler h = false) pre ->
  off_outer (seq 0 (length pre)) handler (mkSlice (pre ++ rest) (length (pre ++ rest))) =
  Some (mkSlice (pre ++ rest) (length (pre ++ rest))).
Proof.
  intros HF. apply off_outer_nomatch. apply Forall_forall. intros i Hi%list_elem_of_In%in_seq. cbn [arr].
  rewrite lookup_app_l by lia. destruct (pre !! i) eqn:E.
  - rewrite Forall_lookup in HF. by eapply HF.
  - apply lookup_ge_None in E. lia.
Qed.

Lemma off_slice_front pre rest handler :
  Forall (fun h => matches handler h = false) pre ->
  off_slice handler (pre ++ rest) =
  match off_outer (seq (length pre) (length rest)) handler (mkSlice (pre ++ rest) (length (pre ++ rest))) with
  | Some sl => Ret (take (len sl) (arr sl))
  | None => Panic SliceBounds
  end.
Proof.
  intros HF. unfold off_slice. rewrite length_app, seq_app, off_outer_app.
  rewrite <- length_app, off_outer_front by exact HF. reflexivity.
Qed.

Lemma off_slice_nomatch handler l :
  Forall (fun h => matches handler h = false) l -> off_slice handler l = Ret l.
Proof.
  intros HF. rewrite <- (app_nil_r l) at 1. rewrite off_slice_front by exact HF. cbn.
  rewrite app_nil_r. f_equal. by apply take_ge.
Qed.

Lemma last_cell_in (post : list T) x y :
  post <> [] -> y ∈ drop (length post) (x :: post) -> y ∈ post.
Proof.
  intros Hne. destruct post as [|z post]; [done|]. cbn [length drop].
  intros Hy. apply list_elem_of_lookup in Hy as [i Hi]. rewrite lookup_drop in Hi.
  apply list_elem_of_lookup. eauto.
Qed.

(** After the element at the end of [pre] has been removed, the indices left read
    the elements after it, shifted, and once more the last of them. *)
Lemma off_outer_after (pre post : list T) x n handler :
  n = length post ->
  Forall (fun h => matches handler h = false) post ->
  post <> [] ->
  let sl := mkSlice (pre ++ post ++ drop (length post) (x :: post)) (length pre + length post) in
  off_outer (seq (S (length pre)) n) handler sl = Some sl.
Proof.
  intros -> HF Hne sl. apply off_outer_nomatch. apply Forall_forall.
  intros i Hi%list_elem_of_In%in_seq. subst sl. cbn [arr].
  assert (length (drop (length post) (x :: post)) = 1) as HL by (rewrite length_drop; cbn; lia).
  destruct ((pre ++ post ++ drop (length post) (x :: post)) !! i) as [h|] eqn:E.
  - rewrite lookup_app_r in E by lia.
    assert (h ∈ post) as Hin.
    { apply list_elem_of_lookup_2 in E. apply elem_of_app in E as [E|E]; [exact E|].
      by eapply last_cell_in. }
    rewrite Forall_forall in HF. by apply HF.
  - apply lookup_ge_None in E. rewrite !length_app, HL in E. lia.
Qed.

(** Removing one element: when exactly one element matches, and matches one
    handler, it is removed. *)
Lemma off_slice_one pre x post handler :
  Forall (fun h => matches handler h = false) (pre ++ post) ->
  off_inner x (length pre) handler (mkSlice (pre ++ x :: post) (length (pre ++ x :: post))) =
    remove (mkSlice (pre ++ x :: post) (length (pre ++ x :: post))) (length pre) ->
  off_slice handler (pre ++ x :: post) = Ret (pre ++ post).
Proof.
  intros [H1 H2]%Forall_app Hx. rewrite off_slice_front by exact H1. cbn [length seq off_outer arr].
  rewrite lookup_app_r, Nat.sub_diag by lia. cbn [lookup list_lookup].
  rewrite Hx, remove_middle. cbn [mbind option_bind].
  destruct post as [|y post].
  - cbn. by rewrite app_nil_r, Nat.add_0_r, take_app_length.
  - rewrite (off_outer_after pre (y :: post) x) by done. cbn [len arr].
    f_equal. rewrite app_assoc, <- length_app. apply take_app_length.
Qed.

(** What the slice shows of its array. *)
Definition visible (sl : slice T) : list T := take (len sl) (arr sl).

Lemma visible_remove sl s sl' :
  len sl <= length (arr sl) -> remove sl s = Some sl' ->
  len sl' <= length (arr sl') /\ visible sl' `sublist_of` visible sl.
Proof.
  unfold remove. intros HL. destruct (Nat.leb_spec (S s) (len sl)) as [Hs|]; [|done]. intros [= <-].
  unfold visible. cbn [arr len].
  assert (length (take s (arr sl) ++ take (len sl - S s) (drop (S s) (arr sl))) = len sl - 1) as HL2.
  { rewrite length_app, !length_take, length_drop. lia. }
  split.
  { rewrite !length_app, !length_take, !length_drop in *. lia. }
  rewrite app_assoc, take_app_le by lia. rewrite take_ge by lia.
  assert (take (len sl) (arr sl) = take s (arr sl) ++ take (len sl - s) (drop s (arr sl))) as ->.
  { rewrite take_take_drop. f_equal. lia. }
  apply sublist_app; [reflexivity|]. replace (len sl - s) with (S (len sl - S s)) by lia.
  destruct (drop s (arr sl)) as [|x l] eqn:E.
  - replace (drop (S s) (arr sl)) with (@nil T); [by rewrite !take_nil|].
    symmetry. apply drop_ge. apply (f_equal length) in E. rewrite length_drop in E. cbn in E. lia.
  - replace (drop (S s) (arr sl)) with l; [cbn; by apply sublist_cons|].
    change (S s) with (1 + s). rewrite Nat.add_comm, <- drop_drop, E. reflexivity.
Qed.

Lemma visible_off_inner h i handler sl sl' :
  len sl <= length (arr sl) -> off_inner h i handler sl = Some sl' ->
  len sl' <= length (arr sl') /\ visible sl' `sublist_of` visible sl.
Proof.
  revert sl. induction handler as [|_h handler IH]; intros sl HL; cbn; [intros [= <-]; by split|].
  destruct (same h _h); [|by apply IH].
  destruct (remove sl i) as [sl1|] eqn:E1; [|done]. cbn. intros E2.
  destruct (visible_remove _ _ _ HL E1) as [HL1 HS1]. destruct (IH sl1 HL1 E2) as [HL2 HS2].
  split; [done|]. by etrans.
Qed.

Lemma visible_off_outer indices handler sl sl' :
  len sl <= length (arr sl) -> off_outer indices handler sl = Some sl' ->
  len sl' <= length (arr sl') /\ visible sl' `sublist_of` visible sl.
Proof.
  revert sl. induction indices as [|i indices IH]; intros sl HL; cbn; [intros [= <-]; by split|].
  destruct (arr sl !! i); [|done].
  destruct (off_inner _ _ _ _) as [sl1|] eqn:E1; [|done]. cbn. intros E2.
  destruct (visible_off_inner _ _ _ _ _ HL E1) as [HL1 HS1]. destruct (IH sl1 HL1 E2) as [HL2 HS2].
  split; [done|]. by etrans.
Qed.

(** Whatever is asked to be removed, what is left is a sublist of what was there. *)
Lemma off_slice_sublist handler l l' : off_slice handler l = Ret l' -> l' `sublist_of` l.
Proof.
  unfold off_slice. destruct (off_outer _ _ _) as [sl|] eqn:E; [|done]. intros [= <-].
  apply visible_off_outer in E as [_ E]; [|done]. cbn in E. by rewrite firstn_all in E.
Qed.
End off.

(** With pointers as the elements, a list without duplicates and one handler to
    remove, the loop is a [filter]. *)
Section off_ptr.
Context {T : Type} `{EqDecision T}.

Definition ptr_eqb (x y : T) : bool := bool_decide (x = y).

Lemma ptr_eqb_refl x : ptr_eqb x x = true.
Proof. by apply bool_decide_eq_true_2. Qed.

Lemma ptr_eqb_ne x y : x <> y -> ptr_eqb x y = false.
Proof. intros. by apply bool_decide_eq_false_2. Qed.

Lemma filter_ne_notin (h : T) (l : list T) : h ∉ l -> filter (fun x => x <> h) l = l.
Proof.
  induction l as [|x l IH]; intros Hl; [reflexivity|]. apply not_elem_of_cons in Hl as [H1 H2].
  rewrite filter_cons_True by done. by rewrite IH.
Qed.

Lemma off_slice_filter (h : T) (l : list T) :
  NoDup l -> off_slice ptr_eqb [h] l = Ret (filter (fun x => x <> h) l).
Proof.
  intros HN. destruct (decide (h ∈ l)) as [Hin|Hni].
  - apply list_elem_of_split in Hin as (pre & post & ->).
    apply NoDup_app in HN as (_ & HN2 & HN3). apply NoDup_cons in HN3 as [HN3 _].
    assert (h ∉ pre) as HN1 by (intros H1; apply (HN2 h H1); left).
    assert (forall l, h ∉ l -> Forall (fun x => matches ptr_eqb [h] x = false) l) as HF.
    { intros l Hl. apply Forall_forall. intros x Hx. cbn. unfold ptr_eqb.
      rewrite bool_decide_eq_false_2; [done|]. by intros ->. }
    rewrite off_slice_one.
    + rewrite filter_app, filter_cons_False by tauto. by rewrite !filter_ne_notin.
    + apply Forall_app; split; by apply HF.
    + cbn. unfold ptr_eqb. rewrite bool_decide_eq_true_2 by done.
      destruct (remove _ _); reflexivity.
  - rewrite off_slice_nomatch.
    + by rewrite filter_ne_notin.
    + apply Forall_forall. intros x Hx. cbn. unfold ptr_eqb.
      rewrite bool_decide_eq_false_2; [done|]. by intros ->.
Qed.

(** Two handlers next to each other: the second moves into the slot the loop has
    just read and is not looked at. At the end of the slice the loop reads the
    stale last cell instead and removes past the end. *)
Lemma off_slice_adjacent_end pre (a b : T) :
  a <> b -> a ∉ pre -> b ∉ pre -> off_slice ptr_eqb [a; b] (pre ++ [a; b]) = Panic SliceBounds.
Proof.
  intros Hab Ha Hb. rewrite off_slice_front.
  2:{ apply Forall_forall. intros x Hx. cbn. unfold ptr_eqb.
      rewrite !bool_decide_eq_false_2; [done| |]; by intros ->. }
  cbn [length seq off_outer arr]. rewrite lookup_app_r, Nat.sub_diag by lia. cbn [lookup list_lookup].
  cbn [off_inner]. rewrite ptr_eqb_refl.
  rewrite (remove_middle pre [b] a). cbn [mbind option_bind length drop app].
  rewrite (ptr_eqb_ne a b) by done. cbn [mbind option_bind arr].
  rewrite lookup_app_r by lia. replace (S (length pre) - length pre) with 1 by lia.
  cbn [lookup list_lookup off_inner]. rewrite (ptr_eqb_ne b a), ptr_eqb_refl by done. unfold remove. cbn [len].
  destruct (Nat.leb_spec (S (S (length pre))) (length pre + 1)); [lia|]. reflexivity.
Qed.

Lemma off_slice_adjacent pre (a b c : T) post :
  a <> b -> Forall (fun x => x <> a /\ x <> b) (pre ++ c :: post) ->
  off_slice ptr_eqb [a; b] (pre ++ a :: b :: c :: post) = Ret (pre ++ b :: c :: post).
Proof.
  intros Hab [HF1 HF2]%Forall_app.
  assert (forall l, Forall (fun x => x <> a /\ x <> b) l ->
          Forall (fun x => matches ptr_eqb [a; b] x = false) l) as HM.
  { intros l Hl. eapply Forall_impl; [exact Hl|]. intros x [? ?]. cbn. unfold ptr_eqb.
    by rewrite !bool_decide_eq_false_2. }
  rewrite off_slice_front by (by apply HM). cbn [length]. rewrite <- cons_seq, off_outer_step. cbn [arr].
  rewrite lookup_app_r, Nat.sub_diag by lia. cbn [lookup list_lookup].
  assert (off_inner ptr_eqb a (length pre) [a; b]
            (mkSlice (pre ++ a :: b :: c :: post) (length (pre ++ a :: b :: c :: post)))
          = Some (mkSlice ((pre ++ [b]) ++ (c :: post) ++ drop (length (c :: post)) (b :: c :: post))
                    (length (pre ++ [b]) + length (c :: post)))) as ->.
  { cbn [off_inner]. rewrite ptr_eqb_refl, (ptr_eqb_ne a b), (remove_middle pre (b :: c :: post) a) by done.
    cbn [mbind option_bind]. f_equal. rewrite <- !app_assoc, length_app. cbn. f_equal. lia. }
  cbn [mbind option_bind]. rewrite <- cons_seq, off_outer_step. cbn [arr].
  rewrite <- (app_assoc pre), lookup_app_r by lia. replace (S (length pre) - length pre) with 1 by lia.
  cbn [lookup list_lookup app].
  assert (matches ptr_eqb [a; b] c = false) as Hc by (apply HM in HF2; by inversion HF2).
  rewrite off_inner_nomatch by exact Hc. cbn [mbind option_bind].
  pose proof (off_outer_after ptr_eqb (pre ++ [b]) (c :: post) b (S (length post))
                [a; b] eq_refl (HM _ HF2)) as HA.
  cbn zeta in HA. rewrite length_app in HA. cbn [length] in HA.
  replace (length pre + 1) with (S (length pre)) in HA by lia.
  rewrite <- (app_assoc pre) in HA. rewrite length_app. cbn [length].
  replace (length pre + 1) with (S (length pre)) by lia. cbn [app] in HA |- *.
  rewrite HA by done. cbn [len arr drop]. f_equal.
  replace (pre ++ b :: c :: post ++ drop (length post) (c :: post))
    with ((pre ++ b :: c :: post) ++ drop (length post) (c :: post)) by (by rewrite <- app_assoc).
  apply take_app_length'. rewrite length_app. cbn. lia.
Qed.
End off_ptr.

End slices.


(** ** [handlerStore[T]] *)

Module handlerStore.
Import slices.

Section store.
(** [T] is a pointer type of the source; [==] on it is decidable equality. *)
Context {T : Type} `{EqDecision T}.

Record handlerStore := mkHandlerStore {
  funcs : list T;
  funcsOnce : list T;
  subs : list T;
}.

Definition newHandlerStore : handlerStore := mkHandlerStore [] [] [].

Definition on (handler : T) (e : handlerStore) : handlerStore :=
  mkHandlerStore (funcs e ++ [handler]) (funcsOnce e) (subs e).

Definition onSubEvent (handler : T) (e : handlerStore) : handlerStore :=
  mkHandlerStore (funcs e) (funcsOnce e) (subs e ++ [handler]).

Definition offSubEvent (handler : T) (e : handlerStore) : outcome unit handlerStore :=
  subs' ← off_slice ptr_eqb [handler] (subs e);
  Ret (mkHandlerStore (funcs e) (funcsOnce e) subs').

Definition offSubEvents (e : handlerStore) : handlerStore :=
  mkHandlerStore (funcs e) (funcsOnce e) [].

Definition once (handler : T) (e : handlerStore) : handlerStore :=
  mkHandlerStore (funcs e) (funcsOnce e ++ [handler]) (subs e).

Definition off (handler : list T) (e : handlerStore) : outcome unit handlerStore :=
  if length handler =? 0 then Ret (mkHandlerStore [] [] (subs e))
  else
    funcs' ← off_slice ptr_eqb handler (funcs e);
    funcsOnce' ← off_slice ptr_eqb handler (funcsOnce e);
    Ret (mkHandlerStore funcs' funcsOnce' (subs e)).

Definition offAll (e : handlerStore) : handlerStore := mkHandlerStore [] [] (subs e).

Definition getAll (e : handlerStore) : handlerStore * list T :=
  (mkHandlerStore (funcs e) [] (subs e), subs e ++ funcs e ++ funcsOnce e).

(** [forEach]: the handlers are called one after the other, in the order of
    [getAll], on the caller's goroutine or on one new goroutine; the model gives
    the sequence of calls. *)
Definition forEach {A} (f : T -> A) (concurrent : bool) (e : handlerStore) : handlerStore * list A :=
  let '(e', handlers) := getAll e in
  if length handlers =? 0 then (e', []) else (e', f <$> handlers).

(** *** Sequences of operations *)

Inductive op :=
  | OpOn (h : T) | OpOnce (h : T) | OpOnSub (h : T)
  | OpOff (hs : list T) | OpOffSub (h : T) | OpOffSubs | OpOffAll | OpForEach.

(** One operation: the new store and the handlers it calls. *)
Definition step (o : op) (e : handlerStore) : outcome unit (handlerStore * list T) :=
  match o with
  | OpOn h => Ret (on h e, [])
  | OpOnce h => Ret (once h e, [])
  | OpOnSub h => Ret (onSubEvent h e, [])
  | OpOff hs => e' ← off hs e; Ret (e', [])
  | OpOffSub h => e' ← offSubEvent h e; Ret (e', [])
  | OpOffSubs => Ret (offSubEvents e, [])
  | OpOffAll => Ret (offAll e, [])
  | OpForEach => Ret (forEach id false e)
  end.

Fixpoint run (ops : list op) (e : handlerStore) : outcome unit (handlerStore * list T) :=
  match ops with
  | [] => Ret (e, [])
  | o :: ops' =>
      '(e1, called1) ← step o e;
      '(e2, called2) ← run ops' e1;
      Ret (e2, called1 ++ called2)
  end.

(** How often [h] is in a list. *)
Definition count (h : T) (l : list T) : nat := length (filter (fun x => x = h) l).
#[local] Arguments count : simpl never.

(** The registrations of [h] as a one-time handler, and as a permanent one. *)
Definition budget (h : T) (o : op) : nat :=
  match o with OpOnce h' => if decide (h' = h) then 1 else 0 | _ => 0 end.

Definition once_regs (h : T) (ops : list op) : nat := sum_list_with (budget h) ops.

Definition permanent (h : T) (o : op) : bool :=
  match o with OpOn h' | OpOnSub h' => ptr_eqb h' h | _ => false end.

Lemma count_app h l1 l2 : count h (l1 ++ l2) = count h l1 + count h l2.
Proof. unfold count. by rewrite filter_app, length_app. Qed.

Lemma count_single h x : count h [x] = budget h (OpOnce x).
Proof. unfold count. cbn [budget]. destruct (decide (x = h)); [by rewrite filter_cons_True|by rewrite filter_cons_False]. Qed.

Lemma count_notin h l : h ∉ l -> count h l = 0.
Proof.
  unfold count. induction l as [|x l IH]; intros Hl; [reflexivity|].
  apply not_elem_of_cons in Hl as [H1 H2]. rewrite filter_cons_False by congruence. by apply IH.
Qed.

Lemma count_sublist h l1 l2 : l1 `sublist_of` l2 -> count h l1 <= count h l2.
Proof.
  unfold count. intros H. apply sublist_length. induction H as [|x l1 l2 H IH|x l1 l2 H IH].
  - constructor.
  - destruct (decide (x = h)); [rewrite !filter_cons_True by done; by constructor|].
    rewrite !filter_cons_False by done. exact IH.
  - destruct (decide (x = h)); [rewrite filter_cons_True by done; by constructor|].
    rewrite filter_cons_False by done. exact IH.
Qed.

(** [h] is not registered permanently. *)
Definition only_once (h : T) (e : handlerStore) : Prop := (h ∉ funcs e) /\ (h ∉ subs e).

Lemma off_step hs e e' :
  off hs e = Ret e' ->
  funcs e' `sublist_of` funcs e /\ funcsOnce e' `sublist_of` funcsOnce e /\ subs e' = subs e.
Proof.
  unfold off. destruct (length hs =? 0).
  - intros [= <-]. cbn. split_and!; [apply sublist_nil_l..|done].
  - destruct (off_slice _ hs (funcs e)) as [l1| |] eqn:E1; cbn; [|done..].
    destruct (off_slice _ hs (funcsOnce e)) as [l2| |] eqn:E2; cbn; [|done..].
    intros [= <-]. cbn. apply off_slice_sublist in E1, E2. done.
Qed.

Lemma offSubEvent_step h e e' :
  offSubEvent h e = Ret e' ->
  funcs e' = funcs e /\ funcsOnce e' = funcsOnce e /\ subs e' `sublist_of` subs e.
Proof.
  unfold offSubEvent. destruct (off_slice _ _ _) as [l1| |] eqn:E1; cbn; [|done..].
  intros [= <-]. cbn. by apply off_slice_sublist in E1.
Qed.

(** Every step gives the called and the still registered occurrences of a one-time
    handler no more than the step registers. *)
Lemma step_once h o e e' called :
  permanent h o = false -> only_once h e -> step o e = Ret (e', called) ->
  only_once h e' /\ count h called + count h (funcsOnce e') <= count h (funcsOnce e) + budget h o.
Proof.
  assert (count h [] = 0) as H0 by reflexivity.
  intros HP [HF HS] E. unfold only_once. destruct o; cbn in HP, E.
  - injection E as <- <-. cbn. apply bool_decide_eq_false in HP.
    split; [|lia]. split; [|done]. rewrite elem_of_app, list_elem_of_singleton. intros [?|?]; congruence.
  - injection E as <- <-. cbn. split; [done|]. rewrite count_app, count_single. cbn. lia.
  - injection E as <- <-. cbn. apply bool_decide_eq_false in HP.
    split; [|cbn; lia]. split; [done|]. rewrite elem_of_app, list_elem_of_singleton. intros [?|?]; congruence.
  - destruct (off hs e) as [e1| |] eqn:E1; cbn in E; [|done..]. injection E as <- <-.
    apply off_step in E1 as (S1 & S2 & ->). split.
    + split; [|done]. intros Hin. apply HF. by eapply sublist_subseteq.
    + apply (count_sublist h) in S2. cbn. lia.
  - destruct (offSubEvent _ e) as [e1| |] eqn:E1; cbn in E; [|done..]. injection E as <- <-.
    apply offSubEvent_step in E1 as (-> & -> & S2). split; [|cbn; lia].
    split; [done|]. intros Hin. apply HS. by eapply sublist_subseteq.
  - injection E as <- <-. cbn. split; [|lia]. split; [done|apply not_elem_of_nil].
  - injection E as <- <-. cbn. split; [|lia]. split; [apply not_elem_of_nil|done].
  - unfold forEach, getAll in E. cbn in E.
    assert (called = subs e ++ funcs e ++ funcsOnce e /\
            e' = mkHandlerStore (funcs e) [] (subs e)) as [-> ->].
    { destruct (length _ =? 0) eqn:EL.
      - apply Nat.eqb_eq, length_zero_iff_nil in EL. rewrite EL. by injection E as <- <-.
      - rewrite list_fmap_id in E. by injection E as <- <-. }
    split; [done|]. rewrite !count_app, (count_notin h (subs e)), (count_notin h (funcs e)) by done.
    cbn. lia.
Qed.

Lemma run_once h ops e e' called :
  forallb (fun o => negb (permanent h o)) ops = true -> only_once h e -> run ops e = Ret (e', called) ->
  count h called + count h (funcsOnce e') <= count h (funcsOnce e) + once_regs h ops.
Proof.
  revert e e' called. induction ops as [|o ops IH]; intros e e' called HP HO; cbn [run].
  - intros [= <- <-]. cbn. assert (count h [] = 0) by reflexivity. lia.
  - cbn [forallb] in HP. apply andb_prop in HP as [HP1%negb_true_iff HP2].
    destruct (step o e) as [[e1 c1]| |] eqn:E1; cbn; [|done..].
    destruct (run ops e1) as [[e2 c2]| |] eqn:E2; cbn; [|done..]. intros [= <- <-].
    destruct (step_once _ _ _ _ _ HP1 HO E1) as [HO1 HC1].
    specialize (IH _ _ _ HP2 HO1 E2). rewrite count_app. cbn [once_regs sum_list_with]. unfold once_regs in *. lia.
Qed.
End store.
Arguments handlerStore T : clear implicits.
Arguments op T : clear implicits.

(** A one-time handler is called at most once per registration: in every sequence
    of operations on a new [handlerStore] in which [h] is never registered
    permanently (by [on] or [onSubEvent]), the number of calls of [h] made by
    [forEach] is at most the number of [once] registrations of [h], whatever else
    is registered, removed or called in between. *)
Theorem once_at_most_once {T} `{EqDecision T} (h : T) ops e' called :
  forallb (fun o => negb (permanent h o)) ops = true ->
  run ops newHandlerStore = Ret (e', called) ->
  count h called <= once_regs h ops.
Proof.
  intros HP E. assert (only_once h (@newHandlerStore T)) as HO by (split; apply not_elem_of_nil).
  pose proof (run_once h ops _ _ _ HP HO E) as HC. cbn in HC. lia.
Qed.

Lemma once_at_most_once_witness :
  count 7 [3; 7; 3] <= once_regs 7 [OpOnce 7; OpOn 3; OpForEach; OpForEach].
Proof.
  apply (once_at_most_once 7 [OpOnce 7; OpOn 3; OpForEach; OpForEach] (mkHandlerStore [3] [] []));
    vm_compute; reflexivity.
Defined.

(** Removing one handler works: when a handler is registered at most once as a
    permanent and at most once as a one-time handler (and so are the others),
    [off(h)] does not panic and leaves exactly the other handlers, in their order,
    and the sub-event handlers untouched. *)
Theorem off_single {T} `{EqDecision T} (h : T) e :
  NoDup (funcs e) -> NoDup (funcsOnce e) ->
  off [h] e = Ret (mkHandlerStore (filter (fun x => x <> h) (funcs e))
                     (filter (fun x => x <> h) (funcsOnce e)) (subs e)).
Proof. intros H1 H2. unfold off. cbn. by rewrite !off_slice_filter. Qed.

Lemma off_single_witness :
  off [2] (mkHandlerStore [1; 2; 3] [4; 2] [2]) = Ret (mkHandlerStore [1; 3] [4] [2]).
Proof.
  refine (eq_trans (off_single 2 (mkHandlerStore [1; 2; 3] [4; 2] [2]) _ _) _);
    [apply (bool_decide_unpack _); vm_compute; exact I..|vm_compute; reflexivity].
Defined.

(** Removing two handlers that are registered next to each other goes wrong. In
    front of other handlers, [off(a, b)] removes [a] only and [b] stays registered;
    when they are the last two, the call panics with a slice index out of range. *)
Theorem off_adjacent {T} `{EqDecision T} (pre post : list T) a b c once_fs sub_fs :
  a <> b -> Forall (fun x => x <> a /\ x <> b) (pre ++ c :: post) ->
  Forall (fun x => x <> a /\ x <> b) once_fs ->
  off [a; b] (mkHandlerStore (pre ++ a :: b :: c :: post) once_fs sub_fs) =
    Ret (mkHandlerStore (pre ++ b :: c :: post) once_fs sub_fs) /\
  off [a; b] (mkHandlerStore (pre ++ [a; b]) once_fs sub_fs) = Panic SliceBounds.
Proof.
  intros Hab HF HO. unfold off. cbn [length Nat.eqb funcs funcsOnce subs]. split.
  - rewrite off_slice_adjacent by done. cbn. rewrite off_slice_nomatch; [done|].
    eapply Forall_impl; [exact HO|]. intros x [H1 H2]. cbn. by rewrite !ptr_eqb_ne.
  - apply Forall_app in HF as [HF _]. rewrite Forall_forall in HF.
    rewrite off_slice_adjacent_end; [done|done|..]; intros Hin; by destruct (HF _ Hin).
Qed.

Lemma off_adjacent_witness :
  off [1; 2] (mkHandlerStore [0; 1; 2; 3] [] []) = Ret (mkHandlerStore [0; 2; 3] [] []) /\
  off [1; 2] (mkHandlerStore [0; 1; 2] [] []) = Panic SliceBounds.
Proof.
  apply (off_adjacent [0] [] 1 2 3 [] []); [lia| |constructor].
  repeat constructor; lia.
Defined.

End handlerStore.


(** ** [eventHandlerStore] *)

Module eventHandlerStore.
Import slices.

Section store.
(** [*eventHandler], and the code pointer of the function it wraps
    ([event.rv.Pointer()]). *)
Context {H : Type} (Pointer : H -> Z).

Record eventHandlerStore := mkEventHandlerStore {
  events : gmap string (list H);
  eventsOnce : gmap string (list H);
}.

Definition newEventHandlerStore : eventHandlerStore := mkEventHandlerStore ∅ ∅.

(** Reading a map of slices at a key it does not have gives the nil slice. *)
Definition at_event (m : gmap string (list H)) (eventName : string) : list H := default [] (m !! eventName).

Definition ev_on (eventName : string) (handler : H) (e : eventHandlerStore) : eventHandlerStore :=
  mkEventHandlerStore (<[eventName := at_event (events e) eventName ++ [handler]]> (events e)) (eventsOnce e).

Definition ev_once (eventName : string) (handler : H) (e : eventHandlerStore) : eventHandlerStore :=
  mkEventHandlerStore (events e) (<[eventName := at_event (eventsOnce e) eventName ++ [handler]]> (eventsOnce e)).

Definition same_pointer (event : H) (h : Z) : bool := (Pointer event =? h)%Z.

(** One of the two halves of [off]: the loop, then the entry stored or deleted. *)
Definition off_events (m : gmap string (list H)) (eventName : string) (handler : list Z)
  : outcome unit (gmap string (list H)) :=
  match m !! eventName with
  | None => Ret m
  | Some evs =>
      evs' ← off_slice same_pointer handler evs;
      Ret (if length evs' =? 0 then delete eventName m else <[eventName := evs']> m)
  end.

(** [handler] is the variadic slice: [None] is nil, [Some []] an empty slice that
    is not nil. *)
Definition ev_off (eventName : string) (handler : option (list Z)) (e : eventHandlerStore)
  : outcome unit eventHandlerStore :=
  match handler with
  | None => Ret (mkEventHandlerStore (delete eventName (events e)) (delete eventName (eventsOnce e)))
  | Some handler =>
      events' ← off_events (events e) eventName handler;
      eventsOnce' ← off_events (eventsOnce e) eventName handler;
      Ret (mkEventHandlerStore events' eventsOnce')
  end.

Definition ev_offAll (e : eventHandlerStore) : eventHandlerStore := mkEventHandlerStore ∅ ∅.

Definition ev_getAll (eventName : string) (e : eventHandlerStore) : eventHandlerStore * list H :=
  let h := at_event (events e) eventName in
  let hOnce := at_event (eventsOnce e) eventName in
  (mkEventHandlerStore (events e) (delete eventName (eventsOnce e)), h ++ hOnce).

(** The invariant [off] maintains by deleting: no event has an empty list. *)
Definition no_empty (m : gmap string (list H)) : Prop := map_Forall (fun _ l => l <> []) m.

Definition wf (e : eventHandlerStore) : Prop := no_empty (events e) /\ no_empty (eventsOnce e).

(** *** Lemmas *)

Lemma off_events_no_empty m eventName handler m' :
  no_empty m -> off_events m eventName handler = Ret m' -> no_empty m'.
Proof.
  intros Hm. unfold off_events. destruct (m !! eventName) as [evs|]; [|by intros [= <-]].
  destruct (off_slice _ _ _) as [evs'| |]; cbn; [|done..]. intros [= <-].
  destruct evs'; cbn; [by apply map_Forall_delete|]. by apply map_Forall_insert_2.
Qed.

Lemma off_events_other m eventName handler m' name :
  off_events m eventName handler = Ret m' -> name <> eventName -> m' !! name = m !! name.
Proof.
  unfold off_events. destruct (m !! eventName) as [evs|]; [|by intros [= <-]].
  destruct (off_slice _ _ _) as [evs'| |]; cbn; [|done..]. intros [= <-] Hne.
  destruct (length evs' =? 0); [by rewrite lookup_delete_ne|by rewrite lookup_insert_ne].
Qed.

(** Removing with an empty list of functions changes nothing. *)
Lemma off_events_nil m eventName : no_empty m -> off_events m eventName [] = Ret m.
Proof.
  intros Hm. unfold off_events. destruct (m !! eventName) as [evs|] eqn:E; [|reflexivity].
  rewrite off_slice_nomatch by (apply Forall_forall; reflexivity). cbn.
  pose proof (Hm _ _ E) as Hne. destruct evs; [done|]. cbn. by rewrite insert_id.
Qed.
End store.
Arguments eventHandlerStore H : clear implicits.

(** The states a store can be in: rule induction over its operations. *)
Inductive reachable {H} (Pointer : H -> Z) : eventHandlerStore H -> Prop :=
  | reach_new : reachable Pointer newEventHandlerStore
  | reach_on name h e : reachable Pointer e -> reachable Pointer (ev_on name h e)
  | reach_once name h e : reachable Pointer e -> reachable Pointer (ev_once name h e)
  | reach_off name hs e e' :
      reachable Pointer e -> ev_off Pointer name hs e = Ret e' -> reachable Pointer e'
  | reach_offAll e : reachable Pointer e -> reachable Pointer (ev_offAll e)
  | reach_getAll name e : reachable Pointer e -> reachable Pointer (ev_getAll name e).1.

Lemma reachable_wf {H} (Pointer : H -> Z) e : reachable Pointer e -> wf e.
Proof.
  unfold wf, no_empty. induction 1 as [|name h e _ [I1 I2]|name h e _ [I1 I2]|name hs e e' _ [I1 I2] E|e _ _|name e _ [I1 I2]].
  - split; apply map_Forall_empty.
  - split; [|done]. apply map_Forall_insert_2; [|done]. by destruct (at_event _ _).
  - split; [done|]. apply map_Forall_insert_2; [|done]. by destruct (at_event _ _).
  - destruct hs as [hs|]; cbn in E.
    + destruct (off_events _ (events e) _ _) as [m1| |] eqn:E1; cbn in E; [|done..].
      destruct (off_events _ (eventsOnce e) _ _) as [m2| |] eqn:E2; cbn in E; [|done..].
      injection E as <-. cbn. split; [exact (off_events_no_empty _ _ _ _ _ I1 E1)|exact (off_events_no_empty _ _ _ _ _ I2 E2)].
    + injection E as <-. cbn. split; by apply map_Forall_delete.
  - split; apply map_Forall_empty.
  - split; [done|]. by apply map_Forall_delete.
Qed.
End eventHandlerStore.
