(* ===== verification/Events.v ===== *)
(** * Event registration ([*_events.go], [reserved_events.go], [handler.go])

    The registration methods of the server, the namespaces, the sockets and the
    manager over the handler stores; the reserved event names; the wrappers of the
    user's functions and the acknowledgement state machine. *)

From S2P Require Import Prelude Handlers.

(** ** Reserved names ([reserved_events.go]) *)

Module reserved.
#[local] Open Scope string_scope.

Definition clientReservedEvents : gmap string bool :=
  list_to_map [("connect", true); ("connect_error", true); ("disconnect", true);
               ("disconnecting", true); ("newListener", true); ("removeListener", true)].

Definition IsEventReservedForClient (eventName : string) : bool :=
  match clientReservedEvents !! eventName with Some isReserved => isReserved | None => false end.

Definition serverReservedEvents : gmap string bool :=
  list_to_map [("connect", true); ("connect_error", true); ("disconnect", true);
               ("disconnecting", true); ("newListener", true); ("removeListener", true);
               ("connection", true); ("error", true)].

Definition IsEventReservedForServer (eventName : string) : bool :=
  match serverReservedEvents !! eventName with Some isReserved => isReserved | None => false end.

Definition nspReservedEvents : gmap string bool :=
  list_to_map [("connect", true); ("connection", true); ("new_namespace", true)].

Definition IsEventReservedForNsp (eventName : string) : bool :=
  match nspReservedEvents !! eventName with Some isReserved => isReserved | None => false end.

(** Every name a client may not use, a server socket may not use either. *)
Lemma client_reserved_server name :
  IsEventReservedForClient name = true -> IsEventReservedForServer name = true.
Proof.
  unfold IsEventReservedForClient, IsEventReservedForServer.
  destruct (clientReservedEvents !! name) eqn:E; [|done]. intros ->.
  unfold clientReservedEvents in E. apply elem_of_list_to_map_2 in E.
  repeat (apply elem_of_cons in E as [[= ->]|E]; [vm_compute; reflexivity|]).
  by apply not_elem_of_nil in E.
Qed.
End reserved.

(** ** Handlers of events and acknowledgements ([handler.go]) *)

Module handler.

(** What the code asks of a [reflect.Type]: its kind, for a function type the
    number of its results, and whether an interface type is an [error]. *)
Inductive gotype :=
  | TFunc (numOut : nat)
  | TInterface (implementsError : bool)
  | TPtr
  | TOther.

(** An [any]: nil, a function (its code pointer and its type), or something else. *)
Inductive any :=
  | AnyNil
  | AnyFunc (ptr : Z) (params : list gotype) (numOut : nat)
  | AnyOther.

Inductive handler_error :=
  | FunctionExpected
  | HandlerHasResults
  | AckHasResults
  | AckErrorParameter.

Definition is_func (t : gotype) : bool := match t with TFunc _ => true | _ => false end.

Record eventHandler := mkEventHandler {
  eh_rv : Z;
  eh_inputArgs : list gotype;
}.

(** [(s *eventHandler) ack]. *)
Definition eventHandler_ack (s : eventHandler) : outcome handler_error bool :=
  match last (eh_inputArgs s) with
  | Some (TFunc numOut) => if 0 <? numOut then Err AckHasResults else Ret true
  | _ => Ret false
  end.

(** [reflect.ValueOf(nil).Type()] panics, before the check for nil. *)
Definition newEventHandler (f : any) : outcome handler_error eventHandler :=
  match f with
  | AnyNil => Panic NilDeref
  | AnyOther => Err FunctionExpected
  | AnyFunc ptr inputArgs numOut =>
      if 0 <? numOut then Err HandlerHasResults
      else
        let s := mkEventHandler ptr inputArgs in
        _ ← eventHandler_ack s; Ret s
  end.

Definition checkAckFunc (f : any) (mustHaveError : bool) : outcome handler_error unit :=
  match f with
  | AnyNil | AnyOther => Err FunctionExpected
  | AnyFunc _ params numOut =>
      if negb (numOut =? 0) then Err AckHasResults
      else if mustHaveError then
        match params with
        | [] => Err AckErrorParameter
        | TInterface true :: _ => Ret tt
        | _ => Err AckErrorParameter
        end
      else Ret tt
  end.

Section ack.
(** The values passed to an acknowledgement function. *)
Context {V : Type}.

Inductive arg :=
  | ArgErrAckTimeout
  | ArgNilError
  | ArgZero (t : gotype)
  | ArgVal (v : V).

(** The user's function: what it panics with when called, if it does. *)
Context (invoke : list arg -> option string).

Record ackHandler := mkAckHandler {
  ah_inputArgs : list gotype;
  ah_hasError : bool;
  ah_called : bool;
  ah_timedOut : bool;
}.

Definition newAckHandler (f : any) (hasError : bool) : outcome handler_error ackHandler :=
  match f with
  | AnyNil => Panic NilDeref
  | AnyOther => Err FunctionExpected
  | AnyFunc _ inputArgs _ =>
      _ ← checkAckFunc f hasError;
      Ret (mkAckHandler inputArgs hasError false false)
  end.

(** What a step does that others see: a call of the user's function, or of the
    [timeoutFunc] given with the timeout. *)
Inductive effect :=
  | Called (args : list arg)
  | TimeoutFunc.

(** The goroutine [newAckHandlerWithTimeout] starts, once its [Sleep] is over. *)
Definition ack_timeout (h : ackHandler) : ackHandler * list effect :=
  if ah_called h then (h, [])
  else
    let h' := mkAckHandler (ah_inputArgs h) (ah_hasError h) (ah_called h) true in
    match ah_inputArgs h with
    | [] => (h', [TimeoutFunc])
    | _ :: rest => (h', [TimeoutFunc; Called (ArgErrAckTimeout :: (ArgZero <$> rest))])
    end.

Definition newAckHandlerWithTimeout (f : any) : outcome handler_error ackHandler := newAckHandler f true.

(** [(f *ackHandler) call]: the error is what the user's function panicked with. *)
Definition ack_call (args : list V) (f : ackHandler) : ackHandler * list effect * option string :=
  if ah_timedOut f then (f, [], None)
  else
    let f' := mkAckHandler (ah_inputArgs f) (ah_hasError f) true (ah_timedOut f) in
    let args' := if ah_hasError f then ArgNilError :: (ArgVal <$> args) else ArgVal <$> args in
    (f', [Called args'], invoke args').

(** The interleavings: replies and the timeout, each atomic under the mutex. *)
Inductive ack_step : ackHandler -> list effect -> ackHandler -> Prop :=
  | step_call args f : ack_step f (ack_call args f).1.2 (ack_call args f).1.1
  | step_timeout f : ack_step f (ack_timeout f).2 (ack_timeout f).1.

Inductive ack_run : ackHandler -> list effect -> ackHandler -> Prop :=
  | run_nil f : ack_run f [] f
  | run_cons f es f1 es' f2 : ack_step f es f1 -> ack_run f1 es' f2 -> ack_run f (es ++ es') f2.

(** A reply delivered to the user, or the timeout. *)
Definition is_reply (e : effect) : bool :=
  match e with
  | Called (ArgErrAckTimeout :: _) => false
  | Called _ => true
  | TimeoutFunc => false
  end.

Definition is_timeout (e : effect) : bool :=
  match e with
  | Called (ArgErrAckTimeout :: _) => true
  | Called _ => false
  | TimeoutFunc => true
  end.

Lemma ack_call_effects args f :
  Forall (fun e => is_timeout e = false) (ack_call args f).1.2.
Proof.
  unfold ack_call. destruct (ah_timedOut f); cbn; [constructor|].
  destruct (ah_hasError f); [by repeat constructor|]. by destruct args; repeat constructor.
Qed.

Lemma ack_step_timedOut f es f' :
  ack_step f es f' -> ah_timedOut f = true -> ah_called f = false ->
  ah_timedOut f' = true /\ ah_called f' = false /\ Forall (fun e => is_reply e = false) es.
Proof.
  intros H HT HC. destruct H as [args f|f].
  - unfold ack_call. rewrite HT. cbn. by repeat constructor.
  - unfold ack_timeout. rewrite HC. cbn. destruct (ah_inputArgs f); cbn; by repeat constructor.
Qed.

Lemma ack_step_called f es f' :
  ack_step f es f' -> ah_timedOut f = false -> ah_called f = true ->
  ah_timedOut f' = false /\ ah_called f' = true /\ Forall (fun e => is_timeout e = false) es.
Proof.
  intros H HT HC. destruct H as [args f|f].
  - pose proof (ack_call_effects args f) as HE. unfold ack_call in *. rewrite HT in *. done.
  - unfold ack_timeout. rewrite HC. cbn. by repeat constructor.
Qed.

Lemma ack_run_timedOut f es f' :
  ack_run f es f' -> ah_timedOut f = true -> ah_called f = false ->
  Forall (fun e => is_reply e = false) es.
Proof.
  induction 1 as [|f es f1 es' f2 HS HR IH]; intros HT HC; [constructor|].
  destruct (ack_step_timedOut _ _ _ HS HT HC) as (HT1 & HC1 & HE). apply Forall_app; eauto.
Qed.

Lemma ack_run_called f es f' :
  ack_run f es f' -> ah_timedOut f = false -> ah_called f = true ->
  Forall (fun e => is_timeout e = false) es.
Proof.
  induction 1 as [|f es f1 es' f2 HS HR IH]; intros HT HC; [constructor|].
  destruct (ack_step_called _ _ _ HS HT HC) as (HT1 & HC1 & HE). apply Forall_app; eauto.
Qed.
End ack.
Arguments arg V : clear implicits.
Arguments effect V : clear implicits.

(** An acknowledgement is answered or times out, never both: in every interleaving
    of replies and timeout steps from a handler made by [newAckHandler], either no
    reply is delivered to the user's function or no timeout is (neither the call
    with [ErrAckTimeout] nor [timeoutFunc]). *)
Theorem ack_exclusive {V} (invoke : list (arg V) -> option string) f hasError h es h' :
  newAckHandler f hasError = Ret h -> ack_run invoke h es h' ->
  Forall (fun e => is_reply e = false) es \/ Forall (fun e => is_timeout e = false) es.
Proof.
  intros HN HR.
  assert (ah_called h = false /\ ah_timedOut h = false) as [HC HT].
  { unfold newAckHandler in HN. destruct f; [done| |done].
    destruct (checkAckFunc _ _); cbn in HN; [|done..]. by injection HN as <-. }
  destruct HR as [|f0 es f1 es' f2 HS HR]; [by left|]. destruct HS as [args f0|f0].
  - right. apply Forall_app. split; [apply ack_call_effects|].
    eapply ack_run_called; [exact HR|..]; unfold ack_call; by rewrite HT.
  - left. unfold ack_timeout in *. rewrite HC in *. apply Forall_app. split.
    + destruct (ah_inputArgs f0); by repeat constructor.
    + eapply ack_run_timedOut; [exact HR|..]; by destruct (ah_inputArgs f0).
Qed.

Lemma ack_exclusive_witness :
  let f := AnyFunc 1 [TInterface true; TOther] 0 in
  let es := [TimeoutFunc; Called [ArgErrAckTimeout; ArgZero TOther]] : list (effect Z) in
  newAckHandler f true = Ret (mkAckHandler [TInterface true; TOther] true false false) /\
  (Forall (fun e => is_reply e = false) es \/ Forall (fun e => is_timeout e = false) es).
Proof.
  split; [reflexivity|].
  apply (ack_exclusive (fun _ => None) (AnyFunc 1 [TInterface true; TOther] 0) true
           (mkAckHandler [TInterface true; TOther] true false false) _
           (mkAckHandler [TInterface true; TOther] true false true) eq_refl).
  change [TimeoutFunc; Called [ArgErrAckTimeout; ArgZero TOther]]
    with ([TimeoutFunc; Called [ArgErrAckTimeout; @ArgZero Z TOther]] ++ [] ++ []).
  eapply (run_cons _ _ _ (mkAckHandler [TInterface true; TOther] true false true));
    [exact (step_timeout _ (mkAckHandler [TInterface true; TOther] true false false))|].
  eapply (run_cons _ _ _ (mkAckHandler [TInterface true; TOther] true false true));
    [exact (step_call _ [5%Z] (mkAckHandler [TInterface true; TOther] true false true))|].
  constructor.
Defined.
End handler.

(** ** Registration methods *)

Module registration.
Import reserved handler handlerStore eventHandlerStore.

(** The variables whose addresses are kept or compared. [OnX(f)] keeps [&f], the
    address of its own parameter: a new variable for every call. [OffX(_f...)]
    compares with [&_f[i]], the elements of the variadic slice. The addresses of
    different variables are different. *)
Inductive func_ptr :=
  | param_addr (call : nat)
  | elem_addr (args : nat) (i : nat).

#[export] Instance func_ptr_eq_decision : EqDecision func_ptr.
Proof. solve_decision. Defined.

Abbreviation fstore := (handlerStore func_ptr).

(** A receiver with a handler store per special event [k]. *)
Class HandlerRegistry (K S : Type) `{EqDecision K} := {
  reg_get : K -> S -> fstore;
  reg_set : K -> fstore -> S -> S;
}.

Class LawfulRegistry (K S : Type) `{HandlerRegistry K S} := {
  reg_get_set k st s : reg_get k (reg_set k st s) = st;
  reg_get_set_ne k k' st s : k <> k' -> reg_get k' (reg_set k st s) = reg_get k' s;
  reg_set_get k s : reg_set k (reg_get k s) s = s;
}.

Section registry.
Context {K S : Type} `{HandlerRegistry K S}.

(** [func (r) OnX(f XFunc) { r.xHandlers.on(&f) }] *)
Definition reg_On (k : K) (call : nat) (s : S) : S :=
  reg_set k (on (param_addr call) (reg_get k s)) s.

(** [func (r) OnceX(f XFunc) { r.xHandlers.once(&f) }] *)
Definition reg_Once (k : K) (call : nat) (s : S) : S :=
  reg_set k (once (param_addr call) (reg_get k s)) s.

(** [func (r) OffX(_f ...XFunc)], called with [n] functions in the slice [args]. *)
Definition reg_Off (k : K) (args n : nat) (s : S) : outcome unit S :=
  st ← off (elem_addr args <$> seq 0 n) (reg_get k s);
  Ret (reg_set k st s).

(** The code that fires the event takes the handlers: [forEach]. *)
Definition reg_fire (k : K) (s : S) : S * list func_ptr :=
  let '(st, called) := forEach id false (reg_get k s) in (reg_set k st s, called).

(** Every registered handler is the address of a parameter. *)
Definition is_param (p : func_ptr) : bool := match p with param_addr _ => true | _ => false end.

Definition by_param (st : fstore) : Prop :=
  Forall is_param (funcs st) /\ Forall is_param (funcsOnce st).

Definition all_param (s : S) : Prop := forall k, by_param (reg_get k s).

Lemma off_by_param args n st :
  by_param st -> 0 < n -> off (elem_addr args <$> seq 0 n) st = Ret st.
Proof.
  intros [H1 H2] Hn. unfold off. rewrite length_fmap, length_seq.
  destruct (Nat.eqb_spec n 0); [lia|].
  assert (forall l, Forall (fun p : func_ptr => is_param p) l ->
     slices.off_slice slices.ptr_eqb (elem_addr args <$> seq 0 n) l = Ret l) as HX.
  { intros l Hl. apply slices.off_slice_nomatch. eapply Forall_impl; [exact Hl|].
    intros [c|? ?]; [|done]. intros _. unfold slices.matches. apply not_true_is_false.
    intros ([] & Hx & Hy)%existsb_exists; [|by apply bool_decide_eq_true in Hy].
    apply list_elem_of_In, list_elem_of_fmap in Hx as (? & ? & ?). discriminate. }
  rewrite (HX _ H1). cbn. rewrite (HX _ H2). cbn. by destruct st.
Qed.

(** The states a receiver can be in. *)
Inductive reg_reachable (s0 : S) : S -> Prop :=
  | rr_start : reg_reachable s0 s0
  | rr_on k call s : reg_reachable s0 s -> reg_reachable s0 (reg_On k call s)
  | rr_once k call s : reg_reachable s0 s -> reg_reachable s0 (reg_Once k call s)
  | rr_off k args n s s' : reg_reachable s0 s -> reg_Off k args n s = Ret s' -> reg_reachable s0 s'
  | rr_fire k s : reg_reachable s0 s -> reg_reachable s0 (reg_fire k s).1.

Context `{!LawfulRegistry K S}.

Lemma all_param_set k st s : all_param s -> by_param st -> all_param (reg_set k st s).
Proof.
  intros Hs Hst k'. destruct (decide (k = k')) as [<-|Hne]; [by rewrite reg_get_set|].
  by rewrite reg_get_set_ne.
Qed.

Lemma reg_reachable_all_param s0 s : all_param s0 -> reg_reachable s0 s -> all_param s.
Proof.
  intros H0. induction 1 as [|k call s _ IH|k call s _ IH|k args n s s' _ IH E|k s _ IH]; [done|..].
  - destruct (IH k) as [H1 H2]. apply all_param_set; [done|]. split; cbn; [|done].
    apply Forall_app. split; [done|by repeat constructor].
  - destruct (IH k) as [H1 H2]. apply all_param_set; [done|]. split; cbn; [done|].
    apply Forall_app. split; [done|by repeat constructor].
  - unfold reg_Off in E. destruct n as [|n].
    + cbn in E. injection E as <-. apply all_param_set; [done|]. split; constructor.
    + rewrite off_by_param in E by (done || lia). injection E as <-. by apply all_param_set.
  - unfold reg_fire, forEach, getAll. destruct (IH k) as [H1 H2].
    destruct (length _ =? 0); cbn; (apply all_param_set; [done|]); split; (done || constructor).
Qed.
End registry.

(** *** [server_events.go] *)

Inductive server_event := EvNewNamespace | EvAnyConnection.

#[export] Instance server_event_eq_decision : EqDecision server_event.
Proof. solve_decision. Defined.

Record server_handlers := mkServerHandlers {
  newNamespaceHandlers : fstore;
  anyConnectionHandlers : fstore;
}.

#[export] Instance server_registry : HandlerRegistry server_event server_handlers := {
  reg_get k s := match k with
    | EvNewNamespace => newNamespaceHandlers s
    | EvAnyConnection => anyConnectionHandlers s
    end;
  reg_set k st s := match k with
    | EvNewNamespace => mkServerHandlers st (anyConnectionHandlers s)
    | EvAnyConnection => mkServerHandlers (newNamespaceHandlers s) st
    end;
}.

#[export] Instance server_registry_lawful : LawfulRegistry server_event server_handlers.
Proof. split; intros []; intros; repeat match goal with k : server_event |- _ => destruct k end; by try destruct s. Qed.

Definition Server_On (k : server_event) (call : nat) (s : server_handlers) : server_handlers := reg_On k call s.
Definition Server_Once (k : server_event) (call : nat) (s : server_handlers) : server_handlers := reg_Once k call s.
Definition Server_Off (k : server_event) (args n : nat) (s : server_handlers)
  : outcome unit server_handlers := reg_Off k args n s.

(** *** Events of a socket or namespace by name *)

(** [OnEvent], with the predicate of the receiver's reserved names. *)
Definition OnEvent (isReserved : string -> bool) (eventName : string) (f : any)
    (e : eventHandlerStore eventHandler) : outcome handler_error (eventHandlerStore eventHandler) :=
  if isReserved eventName then Panic (UserPanic "attempted to register a reserved event")
  else match newEventHandler f with
       | Ret h => Ret (ev_on eventName h e)
       | Err _ => Panic (UserPanic "invalid event handler")
       | Panic why => Panic why
       end.

Definition OnceEvent (isReserved : string -> bool) (eventName : string) (f : any)
    (e : eventHandlerStore eventHandler) : outcome handler_error (eventHandlerStore eventHandler) :=
  if isReserved eventName then Panic (UserPanic "attempted to register a reserved event")
  else match newEventHandler f with
       | Ret h => Ret (ev_once eventName h e)
       | Err _ => Panic (UserPanic "invalid event handler")
       | Panic why => Panic why
       end.

(** [OffEvent]: [values] is made with [make], so it is never nil. [handler] are the
    code pointers of the functions given. *)
Definition OffEvent (eventName : string) (handler : list Z) (e : eventHandlerStore eventHandler)
  : outcome unit (eventHandlerStore eventHandler) :=
  ev_off eh_rv eventName (Some handler) e.

(** *** [namespace_events.go] *)

Record nsp_handlers := mkNspHandlers {
  nsp_eventHandlers : eventHandlerStore eventHandler;
  nsp_connectionHandlers : fstore;
}.

#[export] Instance nsp_registry : HandlerRegistry unit nsp_handlers := {
  reg_get _ s := nsp_connectionHandlers s;
  reg_set _ st s := mkNspHandlers (nsp_eventHandlers s) st;
}.

#[export] Instance nsp_registry_lawful : LawfulRegistry unit nsp_handlers.
Proof. split; [done|by intros [] []|by intros [] []]. Qed.

Definition Namespace_OnEvent (eventName : string) (f : any) (n : nsp_handlers) : outcome handler_error nsp_handlers :=
  e ← OnEvent IsEventReservedForNsp eventName f (nsp_eventHandlers n);
  Ret (mkNspHandlers e (nsp_connectionHandlers n)).

Definition Namespace_OnceEvent (eventName : string) (f : any) (n : nsp_handlers) : outcome handler_error nsp_handlers :=
  e ← OnceEvent IsEventReservedForNsp eventName f (nsp_eventHandlers n);
  Ret (mkNspHandlers e (nsp_connectionHandlers n)).

Definition Namespace_OffEvent (eventName : string) (handler : list Z) (n : nsp_handlers) : outcome unit nsp_handlers :=
  e ← OffEvent eventName handler (nsp_eventHandlers n);
  Ret (mkNspHandlers e (nsp_connectionHandlers n)).

Definition Namespace_OffAll (n : nsp_handlers) : nsp_handlers :=
  mkNspHandlers (ev_offAll (nsp_eventHandlers n)) (offAll (nsp_connectionHandlers n)).

Definition Namespace_OnConnection (call : nat) (n : nsp_handlers) : nsp_handlers := reg_On tt call n.
Definition Namespace_OnceConnection (call : nat) (n : nsp_handlers) : nsp_handlers := reg_Once tt call n.
Definition Namespace_OffConnection (args k : nat) (n : nsp_handlers) : outcome unit nsp_handlers := reg_Off tt args k n.

(** *** [server_socket_events.go] *)

Inductive server_socket_event := SsError | SsDisconnecting | SsDisconnect.

#[export] Instance server_socket_event_eq_decision : EqDecision server_socket_event.
Proof. solve_decision. Defined.

Record server_socket_handlers := mkServerSocketHandlers {
  ss_eventHandlers : eventHandlerStore eventHandler;
  ss_errorHandlers : fstore;
  ss_disconnectingHandlers : fstore;
  ss_disconnectHandlers : fstore;
}.

#[export] Instance server_socket_registry : HandlerRegistry server_socket_event server_socket_handlers := {
  reg_get k s := match k with
    | SsError => ss_errorHandlers s
    | SsDisconnecting => ss_disconnectingHandlers s
    | SsDisconnect => ss_disconnectHandlers s
    end;
  reg_set k st s := match k with
    | SsError => mkServerSocketHandlers (ss_eventHandlers s) st (ss_disconnectingHandlers s) (ss_disconnectHandlers s)
    | SsDisconnecting => mkServerSocketHandlers (ss_eventHandlers s) (ss_errorHandlers s) st (ss_disconnectHandlers s)
    | SsDisconnect => mkServerSocketHandlers (ss_eventHandlers s) (ss_errorHandlers s) (ss_disconnectingHandlers s) st
    end;
}.

#[export] Instance server_socket_registry_lawful : LawfulRegistry server_socket_event server_socket_handlers.
Proof. split; [by intros []|by intros [] []|by intros [] []]. Qed.

Definition serverSocket_OnEvent (eventName : string) (f : any) (s : server_socket_handlers)
  : outcome handler_error server_socket_handlers :=
  e ← OnEvent IsEventReservedForServer eventName f (ss_eventHandlers s);
  Ret (mkServerSocketHandlers e (ss_errorHandlers s) (ss_disconnectingHandlers s) (ss_disconnectHandlers s)).

Definition serverSocket_OnceEvent (eventName : string) (f : any) (s : server_socket_handlers)
  : outcome handler_error server_socket_handlers :=
  e ← OnceEvent IsEventReservedForServer eventName f (ss_eventHandlers s);
  Ret (mkServerSocketHandlers e (ss_errorHandlers s) (ss_disconnectingHandlers s) (ss_disconnectHandlers s)).

Definition serverSocket_OffEvent (eventName : string) (handler : list Z) (s : server_socket_handlers)
  : outcome unit server_socket_handlers :=
  e ← OffEvent eventName handler (ss_eventHandlers s);
  Ret (mkServerSocketHandlers e (ss_errorHandlers s) (ss_disconnectingHandlers s) (ss_disconnectHandlers s)).

Definition serverSocket_OffAll (s : server_socket_handlers) : server_socket_handlers :=
  mkServerSocketHandlers (ev_offAll (ss_eventHandlers s)) (offAll (ss_errorHandlers s))
    (offAll (ss_disconnectingHandlers s)) (offAll (ss_disconnectHandlers s)).

Definition serverSocket_On (k : server_socket_event) (call : nat) (s : server_socket_handlers)
  : server_socket_handlers := reg_On k call s.
Definition serverSocket_Once (k : server_socket_event) (call : nat) (s : server_socket_handlers)
  : server_socket_handlers := reg_Once k call s.
Definition serverSocket_Off (k : server_socket_event) (args n : nat) (s : server_socket_handlers)
  : outcome unit server_socket_handlers := reg_Off k args n s.

(** *** [client_socket_events.go] *)

Inductive client_socket_event := CsConnect | CsConnectError | CsDisconnect.

#[export] Instance client_socket_event_eq_decision : EqDecision client_socket_event.
Proof. solve_decision. Defined.

Record client_socket_handlers := mkClientSocketHandlers {
  cs_eventHandlers : eventHandlerStore eventHandler;
  cs_connectHandlers : fstore;
  cs_connectErrorHandlers : fstore;
  cs_disconnectHandlers : fstore;
}.

#[export] Instance client_socket_registry : HandlerRegistry client_socket_event client_socket_handlers := {
  reg_get k s := match k with
    | CsConnect => cs_connectHandlers s
    | CsConnectError => cs_connectErrorHandlers s
    | CsDisconnect => cs_disconnectHandlers s
    end;
  reg_set k st s := match k with
    | CsConnect => mkClientSocketHandlers (cs_eventHandlers s) st (cs_connectErrorHandlers s) (cs_disconnectHandlers s)
    | CsConnectError => mkClientSocketHandlers (cs_eventHandlers s) (cs_connectHandlers s) st (cs_disconnectHandlers s)
    | CsDisconnect => mkClientSocketHandlers (cs_eventHandlers s) (cs_connectHandlers s) (cs_connectErrorHandlers s) st
    end;
}.

#[export] Instance client_socket_registry_lawful : LawfulRegistry client_socket_event client_socket_handlers.
Proof. split; [by intros []|by intros [] []|by intros [] []]. Qed.

Definition clientSocket_OnEvent (eventName : string) (f : any) (s : client_socket_handlers)
  : outcome handler_error client_socket_handlers :=
  e ← OnEvent IsEventReservedForClient eventName f (cs_eventHandlers s);
  Ret (mkClientSocketHandlers e (cs_connectHandlers s) (cs_connectErrorHandlers s) (cs_disconnectHandlers s)).

Definition clientSocket_OnceEvent (eventName : string) (f : any) (s : client_socket_handlers)
  : outcome handler_error client_socket_handlers :=
  e ← OnceEvent IsEventReservedForClient eventName f (cs_eventHandlers s);
  Ret (mkClientSocketHandlers e (cs_connectHandlers s) (cs_connectErrorHandlers s) (cs_disconnectHandlers s)).

Definition clientSocket_OffEvent (eventName : string) (handler : list Z) (s : client_socket_handlers)
  : outcome unit client_socket_handlers :=
  e ← OffEvent eventName handler (cs_eventHandlers s);
  Ret (mkClientSocketHandlers e (cs_connectHandlers s) (cs_connectErrorHandlers s) (cs_disconnectHandlers s)).

Definition clientSocket_OffAll (s : client_socket_handlers) : client_socket_handlers :=
  mkClientSocketHandlers (ev_offAll (cs_eventHandlers s)) (offAll (cs_connectHandlers s))
    (offAll (cs_connectErrorHandlers s)) (offAll (cs_disconnectHandlers s)).

Definition clientSocket_On (k : client_socket_event) (call : nat) (s : client_socket_handlers)
  : client_socket_handlers := reg_On k call s.
Definition clientSocket_Once (k : client_socket_event) (call : nat) (s : client_socket_handlers)
  : client_socket_handlers := reg_Once k call s.
Definition clientSocket_Off (k : client_socket_event) (args n : nat) (s : client_socket_handlers)
  : outcome unit client_socket_handlers := reg_Off k args n s.

(** *** [client_manager_events.go] *)

Inductive manager_event :=
  | MgOpen | MgPing | MgError | MgClose
  | MgReconnect | MgReconnectAttempt | MgReconnectError | MgReconnectFailed.

#[export] Instance manager_event_eq_decision : EqDecision manager_event.
Proof. solve_decision. Defined.

(** The eight stores [openHandlers], [pingHandlers], ... of the manager. *)
Record manager_handlers := mkManagerHandlers {
  openHandlers : fstore; pingHandlers : fstore; errorHandlers : fstore; closeHandlers : fstore;
  reconnectHandlers : fstore; reconnectAttemptHandlers : fstore;
  reconnectErrorHandlers : fstore; reconnectFailedHandlers : fstore;
}.

#[export] Instance manager_registry : HandlerRegistry manager_event manager_handlers := {
  reg_get k '(mkManagerHandlers a b c d e f g h) := match k with
    | MgOpen => a | MgPing => b | MgError => c | MgClose => d
    | MgReconnect => e | MgReconnectAttempt => f | MgReconnectError => g | MgReconnectFailed => h
    end;
  reg_set k st '(mkManagerHandlers a b c d e f g h) := match k with
    | MgOpen => mkManagerHandlers st b c d e f g h
    | MgPing => mkManagerHandlers a st c d e f g h
    | MgError => mkManagerHandlers a b st d e f g h
    | MgClose => mkManagerHandlers a b c st e f g h
    | MgReconnect => mkManagerHandlers a b c d st f g h
    | MgReconnectAttempt => mkManagerHandlers a b c d e st g h
    | MgReconnectError => mkManagerHandlers a b c d e f st h
    | MgReconnectFailed => mkManagerHandlers a b c d e f g st
    end;
}.

#[export] Instance manager_registry_lawful : LawfulRegistry manager_event manager_handlers.
Proof. split; [by intros [] ? []|by intros [] [] ? []|by intros [] []]. Qed.

Definition Manager_On (k : manager_event) (call : nat) (m : manager_handlers) : manager_handlers := reg_On k call m.
Definition Manager_Once (k : manager_event) (call : nat) (m : manager_handlers) : manager_handlers := reg_Once k call m.
Definition Manager_Off (k : manager_event) (args n : nat) (m : manager_handlers)
  : outcome unit manager_handlers := reg_Off k args n m.

Definition Manager_OffAll (m : manager_handlers) : manager_handlers :=
  mkManagerHandlers (offAll (openHandlers m)) (pingHandlers m) (offAll (errorHandlers m))
    (offAll (closeHandlers m)) (offAll (reconnectHandlers m)) (offAll (reconnectAttemptHandlers m))
    (offAll (reconnectErrorHandlers m)) (offAll (reconnectFailedHandlers m)).

(** *** Properties *)

Definition new_socket_handlers : server_socket_handlers :=
  mkServerSocketHandlers newEventHandlerStore newHandlerStore newHandlerStore newHandlerStore.

(** No [OffX(f)] ever removes a handler: on every receiver and every state reached
    by registering, firing and removing handlers of its special events, a call of
    [OffX] with one or more functions leaves the state as it is, because it looks
    for the addresses of its own arguments. *)
Theorem Off_never_removes {K S} `{LawfulRegistry K S} (s0 s : S) (k : K) args n :
  all_param s0 -> reg_reachable s0 s -> 0 < n -> reg_Off k args n s = Ret s.
Proof.
  intros Hp HR Hn. unfold reg_Off.
  rewrite off_by_param; [|by apply (reg_reachable_all_param s0)|done]. cbn. by rewrite reg_set_get.
Qed.

Lemma Off_never_removes_witness :
  let s := serverSocket_On SsDisconnect 1 new_socket_handlers in
  reg_Off SsDisconnect 9 1 s = Ret s /\ funcs (ss_disconnectHandlers s) = [param_addr 1].
Proof.
  split; [|reflexivity].
  apply (Off_never_removes new_socket_handlers _ SsDisconnect 9 1).
  - intros []; split; constructor.
  - apply rr_on, rr_start.
  - lia.
Defined.

(** [OffEvent(eventName)] without functions removes nothing: on every reachable
    store of event handlers it returns the store as it is, though the interface
    documents it as removing all handlers of the event. *)
Theorem OffEvent_without_handler_keeps eventName e :
  reachable eh_rv e -> OffEvent eventName [] e = Ret e.
Proof.
  intros [H1 H2]%reachable_wf. unfold OffEvent, ev_off. rewrite off_events_nil by done. cbn.
  rewrite off_events_nil by done. cbn. by destruct e.
Qed.

Lemma OffEvent_without_handler_keeps_witness :
  let e := ev_on "chat" (mkEventHandler 7 []) newEventHandlerStore in
  OffEvent "chat" [] e = Ret e /\ (ev_getAll "chat" e).2 = [mkEventHandler 7 []].
Proof.
  split; [|vm_compute; reflexivity].
  apply OffEvent_without_handler_keeps. apply reach_on, reach_new.
Defined.

(** [Manager.OffAll] empties every store but the one of the ping handlers. *)
Lemma Manager_OffAll_all_but_ping m k :
  let st := reg_get k (Manager_OffAll m) in
  if decide (k = MgPing) then st = reg_get k m else funcs st = [] /\ funcsOnce st = [].
Proof. by destruct m, k. Qed.

(** Registering under a reserved name panics and registers nothing. *)
Lemma OnEvent_reserved isReserved eventName f e :
  isReserved eventName = true -> exists msg, OnEvent isReserved eventName f e = Panic (UserPanic msg).
Proof. intros HR. unfold OnEvent. rewrite HR. eauto. Qed.
End registration.
