(* ===== verification/MapSet.v ===== *)
(** * The sets of golang-set ([mapset.Set]) as an interface

    [mapset] is a third-party package: the code that uses it is parametric in an
    implementation, and relies on the documented behaviour stated as laws here.
    [Each] and [range] visit the elements in an order that is not specified and may
    differ from one call to the next; the order is an argument of the definitions
    that loop. *)

From S2P Require Import Prelude.

Class MapSet (A S : Type) := {
  NewSet : S;
  Add : A -> S -> S;
  Remove : A -> S -> S;
  Contains : A -> S -> bool;
  Cardinality : S -> nat;
}.

Class LawfulMapSet (A S : Type) `{EqDecision A} `{MapSet A S} := {
  Contains_NewSet x : Contains x NewSet = false;
  Contains_Add x y s : Contains x (Add y s) = bool_decide (x = y) || Contains x s;
  Contains_Remove x y s : Contains x (Remove y s) = negb (bool_decide (x = y)) && Contains x s;
  Cardinality_zero s : Cardinality s = 0 <-> forall x, Contains x s = false;
}.

(** [NewSet(elems...)] and the loops that add every element of a slice. *)
Definition add_all {A S} `{MapSet A S} (l : list A) (s : S) : S := fold_left (fun s x => Add x s) l s.

(** An order in which a loop over [s] can visit its elements. The loops skip what is
    not in the set at the time of the visit, so an order may mention more. *)
Definition visits {A S} `{MapSet A S} (order : list A) (s : S) : Prop :=
  NoDup order /\ forall x, Contains x s = true -> x ∈ order.

Section laws.
Context {A S : Type} `{LawfulMapSet A S}.

Lemma Contains_add_all x l s : Contains x (add_all l s) = bool_decide (x ∈ l) || Contains x s.
Proof.
  unfold add_all. revert s. induction l as [|y l IH]; intros s; cbn; [reflexivity|].
  rewrite IH, Contains_Add, orb_assoc. f_equal.
  rewrite (bool_decide_ext (x ∈ y :: l) (x = y \/ x ∈ l)) by apply elem_of_cons.
  rewrite bool_decide_or. apply orb_comm.
Qed.
End laws.

(** The finite sets of stdpp are an implementation. *)
#[export] Instance gset_mapset : MapSet string (gset string) := {
  NewSet := ∅;
  Add x s := {[x]} ∪ s;
  Remove x s := s ∖ {[x]};
  Contains x s := bool_decide (x ∈ s);
  Cardinality := size;
}.

#[export] Instance gset_mapset_lawful : LawfulMapSet string (gset string).
Proof.
  split; cbn; intros.
  - apply bool_decide_eq_false_2, not_elem_of_empty.
  - rewrite <- bool_decide_or. apply bool_decide_ext. set_solver.
  - rewrite <- bool_decide_not, <- bool_decide_and. apply bool_decide_ext. set_solver.
  - rewrite size_empty_iff. split.
    + intros Hs x. apply bool_decide_eq_false_2. set_solver.
    + intros Hs x. split; [|set_solver]. intros Hx. specialize (Hs x).
      apply bool_decide_eq_false in Hs. done.
Qed.
