(* ===== verification/Adapter.v ===== *)
(** * The in-memory adapter ([adapter/adapter_memory.go])

    Rooms and their members, kept in two maps, and the loop [apply] that selects the
    sockets a broadcast reaches. The sets are a parameter ([MapSet]), the socket store
    is an interface ([SocketStore]), and the orders in which Go's maps are visited are
    arguments. *)

From S2P Require Import Prelude MapSet SioPacket.

Module adapter.
Import parser.

Abbreviation SocketID := string.
Abbreviation Room := string.

(** ** The socket store an adapter is given ([adapter/store.go]) *)

Class SocketStore (ST Sock : Type) := {
  SendBuffers : SocketID -> list bytes -> ST -> ST * bool;
  Get : SocketID -> ST -> option Sock;
  GetAll : ST -> list Sock;
  StoreRemove : SocketID -> ST -> ST;
  sock_ID : Sock -> SocketID;
}.

(** What the adapter relies on: a socket is found under its own ID, and sending to one
    socket does not change which sockets are found. [store_ok] is the invariant of the
    store. *)
Class LawfulSocketStore (ST Sock : Type) `{SocketStore ST Sock} := {
  store_ok : ST -> Prop;
  Get_ID sid st s : store_ok st -> Get sid st = Some s -> sock_ID s = sid;
  SendBuffers_ok sid bufs st : store_ok st -> store_ok (SendBuffers sid bufs st).1;
  SendBuffers_Get sid bufs st sid' : Get sid' (SendBuffers sid bufs st).1 = Get sid' st;
}.

(** ** Broadcast options ([adapter/broadcast_operator.go]) *)

Record BroadcastFlags := mkBroadcastFlags { Compress : bool; Local : bool }.

Section adapter.
Context {RS SS : Type} `{!MapSet Room RS} `{!MapSet SocketID SS}.

Record BroadcastOptions := mkBroadcastOptions {
  Rooms : RS;
  Except : RS;
  Flags : BroadcastFlags;
}.

Definition NewBroadcastOptions : BroadcastOptions :=
  mkBroadcastOptions NewSet NewSet (mkBroadcastFlags false false).

(** ** State and operations on rooms *)

Record inMemoryAdapter := mkAdapter {
  rooms : gmap Room SS;
  sids : gmap SocketID RS;
}.

Definition newInMemoryAdapter : inMemoryAdapter := mkAdapter ∅ ∅.

(** The body of the loop of [AddAll]; [a.sids[sid]] is there by then. *)
Definition add_room (sid : SocketID) (a : inMemoryAdapter) (room : Room) : inMemoryAdapter :=
  let s := default NewSet (sids a !! sid) in
  let r := default NewSet (rooms a !! room) in
  mkAdapter
    (<[room := if Contains sid r then r else Add sid r]> (rooms a))
    (<[sid := Add room s]> (sids a)).

Definition AddAll (sid : SocketID) (rs : list Room) (a : inMemoryAdapter) : inMemoryAdapter :=
  let a1 := match sids a !! sid with
            | Some _ => a
            | None => mkAdapter (rooms a) (<[sid := NewSet]> (sids a))
            end in
  fold_left (add_room sid) rs a1.

(** The unexported [delete]. *)
Definition delete_member (sid : SocketID) (room : Room) (a : inMemoryAdapter) : inMemoryAdapter :=
  match rooms a !! room with
  | Some r =>
      let r' := Remove sid r in
      mkAdapter (if Cardinality r' =? 0 then delete room (rooms a) else <[room := r']> (rooms a)) (sids a)
  | None => a
  end.

Definition Delete (sid : SocketID) (room : Room) (a : inMemoryAdapter) : inMemoryAdapter :=
  let a1 := match sids a !! sid with
            | Some s => mkAdapter (rooms a) (<[sid := Remove room s]> (sids a))
            | None => a
            end in
  delete_member sid room a1.

(** [order] is the order in which [s.Each] visits the rooms of the socket. *)
Definition DeleteAll (sid : SocketID) (order : list Room) (a : inMemoryAdapter) : inMemoryAdapter :=
  match sids a !! sid with
  | None => a
  | Some s =>
      let a1 := fold_left (fun a room => if Contains room s then delete_member sid room a else a) order a in
      mkAdapter (rooms a1) (delete sid (sids a1))
  end.

Definition SocketRooms (sid : SocketID) (order : list Room) (a : inMemoryAdapter) : option RS :=
  match sids a !! sid with
  | None => None
  | Some s => Some (fold_left (fun acc room => if Contains room s then Add room acc else acc) order NewSet)
  end.

Definition ServerCount (a : inMemoryAdapter) : Z := 1.

(** ** Observations *)

Definition in_room (a : inMemoryAdapter) (room : Room) (sid : SocketID) : bool :=
  match rooms a !! room with Some r => Contains sid r | None => false end.

Definition has_room (a : inMemoryAdapter) (sid : SocketID) (room : Room) : bool :=
  match sids a !! sid with Some s => Contains room s | None => false end.

Definition known (a : inMemoryAdapter) (sid : SocketID) : bool :=
  match sids a !! sid with Some _ => true | None => false end.

(** The invariant: the two maps say the same, and no room is empty. *)
Definition wf (a : inMemoryAdapter) : Prop :=
  (forall sid room, in_room a room sid = has_room a sid room) /\
  (forall room r, rooms a !! room = Some r -> Cardinality r <> 0).

(** ** Selecting sockets *)

(** [computeExceptSids]; [ro] is the order of [exceptRooms.Each], [so] the order of
    the [Each] of every room. *)
Definition computeExceptSids (exceptRooms : RS) (ro : list Room) (so : Room -> list SocketID)
    (a : inMemoryAdapter) : SS :=
  if 0 <? Cardinality exceptRooms then
    fold_left (fun acc room =>
      if Contains room exceptRooms then
        match rooms a !! room with
        | Some r => fold_left (fun acc sid => if Contains sid r then Add sid acc else acc) (so room) acc
        | None => acc
        end
      else acc) ro NewSet
  else NewSet.

(** The orders of the loops of one [apply]. *)
Record schedule := mkSchedule {
  sch_except : list Room;
  sch_rooms : list Room;
  sch_members : Room -> list SocketID;
  sch_sids : list SocketID;
}.

Context {ST Sock : Type} `{!SocketStore ST Sock}.

(** What a callback can change: the adapter, by joining and leaving, and the store. *)
Record world := mkWorld { w_adapter : inMemoryAdapter; w_store : ST }.

Section apply.
(** [L] is what the callback keeps in the variables it captures. *)
Context {L : Type} (callback : Sock -> world * L -> world * L).

(** The body of [r.Each]: [r] is visited live, so a member that has left since is not
    visited. The set of a room is found by the room's name: the two differ only when a
    callback empties and then re-creates the very room that is being visited. *)
Definition visit_member (exceptSids : SS) (room : Room) (st : SS * (world * L)) (sid : SocketID)
  : SS * (world * L) :=
  let '(ids, w) := st in
  if in_room (w_adapter w.1) room sid then
    if Contains sid ids || Contains sid exceptSids then (ids, w)
    else match Get sid (w_store w.1) with
         | Some socket => (Add sid ids, callback socket w)
         | None => (ids, w)
         end
  else (ids, w).

Definition visit_room (exceptSids : SS) (so : Room -> list SocketID) (opts_rooms : RS)
    (st : SS * (world * L)) (room : Room) : SS * (world * L) :=
  if Contains room opts_rooms then fold_left (visit_member exceptSids room) (so room) st else st.

(** The body of [for sid := range a.sids]. *)
Definition visit_sid (exceptSids : SS) (w : world * L) (sid : SocketID) : world * L :=
  if known (w_adapter w.1) sid then
    if Contains sid exceptSids then w
    else match Get sid (w_store w.1) with
         | Some socket => callback socket w
         | None => w
         end
  else w.

Definition apply (opts : BroadcastOptions) (sch : schedule) (w : world * L) : world * L :=
  let exceptSids := computeExceptSids (Except opts) (sch_except sch) (sch_members sch) (w_adapter w.1) in
  if 0 <? Cardinality (Rooms opts) then
    (fold_left (visit_room exceptSids (sch_members sch) (Rooms opts)) (sch_rooms sch) (NewSet, w)).2
  else fold_left (visit_sid exceptSids) (sch_sids sch) w.
End apply.

(** ** The operations built on [apply] *)

(** A callback that captures no variable. *)
Definition no_local (f : Sock -> world -> world) (socket : Sock) (w : world * unit) : world * unit :=
  (f socket w.1, tt).

(** [Join] and [Leave] of a socket of the store call the adapter with its ID. *)
Definition sock_Join (rs : list Room) (socket : Sock) (w : world) : world :=
  mkWorld (AddAll (sock_ID socket) rs (w_adapter w)) (w_store w).

Definition sock_Leave (room : Room) (socket : Sock) (w : world) : world :=
  mkWorld (Delete (sock_ID socket) room (w_adapter w)) (w_store w).

Definition AddSockets (opts : BroadcastOptions) (rs : list Room) (sch : schedule) (w : world) : world :=
  (apply (no_local (sock_Join rs)) opts sch (w, tt)).1.

Definition leave_each (rs : list Room) (socket : Sock) (w : world) : world :=
  fold_left (fun w room => sock_Leave room socket w) rs w.

Definition DelSockets (opts : BroadcastOptions) (rs : list Room) (sch : schedule) (w : world) : world :=
  (apply (no_local (leave_each rs)) opts sch (w, tt)).1.

(** [Disconnect] of a socket is the store's: an argument. *)
Definition DisconnectSockets (disconnect : bool -> Sock -> world -> world) (opts : BroadcastOptions) (close : bool)
    (sch : schedule) (w : world) : world :=
  (apply (no_local (disconnect close)) opts sch (w, tt)).1.

Definition FetchSockets (opts : BroadcastOptions) (sch : schedule) (w : world) : list Sock :=
  (apply (fun socket wl => (wl.1, wl.2 ++ [socket])) opts sch (w, [])).2.

Definition Sockets (rs : RS) (sch : schedule) (w : world) : SS :=
  let opts := mkBroadcastOptions rs NewSet (mkBroadcastFlags false false) in
  (apply (fun socket wl => (wl.1, Add (sock_ID socket) wl.2)) opts sch (w, NewSet)).2.

Definition send_to (buffers : list bytes) (socket : Sock) (w : world) : world :=
  mkWorld (w_adapter w) (SendBuffers (sock_ID socket) buffers (w_store w)).1.

(** [Encode] of the adapter's parser is an argument; when it fails, [Broadcast] panics. *)
Definition Broadcast {V E} (Encode : PacketHeader -> V -> outcome E (list bytes)) (header : PacketHeader) (v : V)
    (opts : BroadcastOptions) (sch : schedule) (w : world) : outcome E world :=
  match Encode header v with
  | Ret buffers => Ret (apply (no_local (send_to buffers)) opts sch (w, tt)).1
  | Err _ => Panic (UserPanic "sio: Encode")
  | Panic why => Panic why
  end.
End adapter.

Arguments inMemoryAdapter RS SS : clear implicits.
Arguments BroadcastOptions RS : clear implicits.
Arguments world RS SS ST : clear implicits.

(** ** Lemmas: what the operations on rooms do to the observations *)

Section room_lemmas.
Context {RS SS : Type} `{!MapSet Room RS} `{!MapSet SocketID SS}.
Context `{!LawfulMapSet Room RS} `{!LawfulMapSet SocketID SS}.
Implicit Types a : inMemoryAdapter RS SS.

Ltac by_bool := repeat case_bool_decide; subst; cbn; try done; try (by rewrite ?orb_true_r, ?andb_false_r).

Lemma in_room_add_room sid a room room' sid' :
  in_room (add_room sid a room) room' sid' =
  bool_decide (sid' = sid) && bool_decide (room' = room) || in_room a room' sid'.
Proof.
  unfold in_room, add_room. cbn [rooms]. destruct (decide (room' = room)) as [->|Hne].
  - rewrite lookup_insert_eq, (bool_decide_eq_true_2 (room = room)), andb_true_r by done.
    destruct (rooms a !! room) as [r|]; cbn.
    + destruct (Contains sid r) eqn:E; [by_bool; by rewrite E|by rewrite Contains_Add].
    + by rewrite !Contains_NewSet, Contains_Add, Contains_NewSet.
  - rewrite lookup_insert_ne by done. rewrite (bool_decide_eq_false_2 (room' = room)), andb_false_r by done.
    reflexivity.
Qed.

Lemma has_room_add_room sid a room room' sid' :
  has_room (add_room sid a room) sid' room' =
  bool_decide (sid' = sid) && bool_decide (room' = room) || has_room a sid' room'.
Proof.
  unfold has_room, add_room. cbn [sids]. destruct (decide (sid' = sid)) as [->|Hne].
  - rewrite lookup_insert_eq, (bool_decide_eq_true_2 (sid = sid)), Contains_Add by done. cbn.
    destruct (sids a !! sid); cbn; [done|]. by rewrite Contains_NewSet.
  - rewrite lookup_insert_ne by done. by rewrite (bool_decide_eq_false_2 (sid' = sid)).
Qed.

Lemma known_add_room sid a room sid' :
  known (add_room sid a room) sid' = bool_decide (sid' = sid) || known a sid'.
Proof.
  unfold known, add_room. cbn [sids]. destruct (decide (sid' = sid)) as [->|Hne].
  - by rewrite lookup_insert_eq, bool_decide_eq_true_2.
  - rewrite lookup_insert_ne by done. by rewrite bool_decide_eq_false_2.
Qed.

(** The observations of a fold over rooms. *)
Lemma in_room_add_rooms sid rs a room' sid' :
  in_room (fold_left (add_room sid) rs a) room' sid' =
  bool_decide (sid' = sid) && bool_decide (room' ∈ rs) || in_room a room' sid'.
Proof.
  revert a. induction rs as [|room rs IH]; intros a; cbn.
  - by rewrite (bool_decide_eq_false_2 (room' ∈ [])), andb_false_r by apply not_elem_of_nil.
  - rewrite IH, in_room_add_room, (bool_decide_ext (room' ∈ room :: rs) (room' = room \/ room' ∈ rs)) by apply elem_of_cons.
    rewrite bool_decide_or. by_bool.
Qed.

Lemma has_room_add_rooms sid rs a room' sid' :
  has_room (fold_left (add_room sid) rs a) sid' room' =
  bool_decide (sid' = sid) && bool_decide (room' ∈ rs) || has_room a sid' room'.
Proof.
  revert a. induction rs as [|room rs IH]; intros a; cbn.
  - by rewrite (bool_decide_eq_false_2 (room' ∈ [])), andb_false_r by apply not_elem_of_nil.
  - rewrite IH, has_room_add_room, (bool_decide_ext (room' ∈ room :: rs) (room' = room \/ room' ∈ rs)) by apply elem_of_cons.
    rewrite bool_decide_or. by_bool.
Qed.

Lemma known_add_rooms sid rs a sid' :
  known (fold_left (add_room sid) rs a) sid' = bool_decide (sid' = sid) && negb (length rs =? 0) || known a sid'.
Proof.
  revert a. induction rs as [|room rs IH]; intros a; cbn.
  - by rewrite andb_false_r.
  - rewrite IH, known_add_room. by_bool.
Qed.

Lemma in_room_AddAll sid rs a room sid' :
  in_room (AddAll sid rs a) room sid' =
  bool_decide (sid' = sid) && bool_decide (room ∈ rs) || in_room a room sid'.
Proof. unfold AddAll. rewrite in_room_add_rooms. by destruct (sids a !! sid). Qed.

Lemma has_room_AddAll sid rs a room sid' :
  has_room (AddAll sid rs a) sid' room =
  bool_decide (sid' = sid) && bool_decide (room ∈ rs) || has_room a sid' room.
Proof.
  unfold AddAll. rewrite has_room_add_rooms. destruct (sids a !! sid) eqn:E; [done|].
  f_equal. unfold has_room. cbn [sids]. destruct (decide (sid' = sid)) as [->|Hne].
  - by rewrite lookup_insert_eq, E, Contains_NewSet.
  - by rewrite lookup_insert_ne.
Qed.

Lemma known_AddAll sid rs a sid' :
  known (AddAll sid rs a) sid' = bool_decide (sid' = sid) || known a sid'.
Proof.
  unfold AddAll. rewrite known_add_rooms. unfold known. destruct (sids a !! sid) eqn:E.
  - by_bool. rewrite E. apply orb_true_r.
  - cbn [sids]. destruct (decide (sid' = sid)) as [->|Hne].
    + rewrite lookup_insert_eq. rewrite bool_decide_eq_true_2 by done. apply orb_true_r.
    + rewrite lookup_insert_ne by done. by rewrite bool_decide_eq_false_2.
Qed.

Lemma in_room_delete_member sid room a room' sid' :
  in_room (delete_member sid room a) room' sid' =
  negb (bool_decide (sid' = sid) && bool_decide (room' = room)) && in_room a room' sid'.
Proof.
  unfold in_room, delete_member. destruct (rooms a !! room) as [r|] eqn:E; cbn [rooms].
  - destruct (decide (room' = room)) as [->|Hne].
    + rewrite E, (bool_decide_eq_true_2 (room = room)), andb_true_r, <- Contains_Remove by done.
      destruct (Nat.eqb_spec (Cardinality (Remove sid r)) 0) as [Hc|].
      * rewrite lookup_delete_eq. symmetry. by apply Cardinality_zero.
      * by rewrite lookup_insert_eq.
    + rewrite (bool_decide_eq_false_2 (room' = room)), andb_false_r by done. cbn.
      destruct (_ =? 0); [by rewrite lookup_delete_ne|by rewrite lookup_insert_ne].
  - destruct (decide (room' = room)) as [->|Hne]; [by rewrite E, andb_false_r|].
    by rewrite (bool_decide_eq_false_2 (room' = room)), andb_false_r by done.
Qed.

Lemma sids_delete_member sid room a : sids (delete_member sid room a) = sids a.
Proof. unfold delete_member. by destruct (rooms a !! room). Qed.

Lemma in_room_Delete sid room a room' sid' :
  in_room (Delete sid room a) room' sid' =
  negb (bool_decide (sid' = sid) && bool_decide (room' = room)) && in_room a room' sid'.
Proof. unfold Delete. rewrite in_room_delete_member. by destruct (sids a !! sid). Qed.

Lemma has_room_Delete sid room a room' sid' :
  has_room (Delete sid room a) sid' room' =
  negb (bool_decide (sid' = sid) && bool_decide (room' = room)) && has_room a sid' room'.
Proof.
  unfold Delete, has_room. rewrite sids_delete_member. destruct (sids a !! sid) as [s|] eqn:E; cbn [sids].
  - destruct (decide (sid' = sid)) as [->|Hne].
    + by rewrite lookup_insert_eq, E, Contains_Remove, (bool_decide_eq_true_2 (sid = sid)).
    + by rewrite lookup_insert_ne, (bool_decide_eq_false_2 (sid' = sid)).
  - destruct (decide (sid' = sid)) as [->|Hne]; [by rewrite E, andb_false_r|].
    by rewrite (bool_decide_eq_false_2 (sid' = sid)).
Qed.

Lemma known_Delete sid room a sid' : known (Delete sid room a) sid' = known a sid'.
Proof.
  unfold Delete, known. rewrite sids_delete_member. destruct (sids a !! sid) as [s|] eqn:E; cbn [sids]; [|done].
  destruct (decide (sid' = sid)) as [->|Hne]; [by rewrite lookup_insert_eq, E|by rewrite lookup_insert_ne].
Qed.

Lemma delete_members_sids sid (keep : Room -> bool) order a :
  sids (fold_left (fun a room => if keep room then delete_member sid room a else a) order a) = sids a.
Proof.
  revert a. induction order as [|room order IH]; intros a; cbn; [done|]. rewrite IH.
  destruct (keep room); [apply sids_delete_member|done].
Qed.

Lemma in_room_delete_members sid (keep : Room -> bool) order a room' sid' :
  in_room (fold_left (fun a room => if keep room then delete_member sid room a else a) order a) room' sid' =
  negb (bool_decide (sid' = sid) && bool_decide (room' ∈ order) && keep room') && in_room a room' sid'.
Proof.
  revert a. induction order as [|room order IH]; intros a; cbn.
  - by rewrite (bool_decide_eq_false_2 (room' ∈ [])), andb_false_r by apply not_elem_of_nil.
  - rewrite IH, (bool_decide_ext (room' ∈ room :: order) (room' = room \/ room' ∈ order)) by apply elem_of_cons.
    rewrite bool_decide_or. destruct (decide (room' = room)) as [->|Hne].
    + rewrite (bool_decide_eq_true_2 (room = room)) by done. cbn. rewrite andb_true_r.
      destruct (keep room); [|by rewrite !andb_false_r].
      rewrite in_room_delete_member, (bool_decide_eq_true_2 (room = room)), !andb_true_r by done.
      destruct (bool_decide (sid' = sid)), (bool_decide (room ∈ order)); reflexivity.
    + rewrite (bool_decide_eq_false_2 (room' = room)) by done. cbn. f_equal.
      destruct (keep room); [|done]. rewrite in_room_delete_member.
      by rewrite (bool_decide_eq_false_2 (room' = room)), andb_false_r.
Qed.

Lemma known_DeleteAll sid order a sid' :
  known (DeleteAll sid order a) sid' = negb (bool_decide (sid' = sid)) && known a sid'.
Proof.
  unfold DeleteAll, known. destruct (sids a !! sid) as [s|] eqn:E; cbn [sids].
  - rewrite delete_members_sids. destruct (decide (sid' = sid)) as [->|Hne].
    + by rewrite lookup_delete_eq, bool_decide_eq_true_2.
    + by rewrite lookup_delete_ne, bool_decide_eq_false_2.
  - destruct (decide (sid' = sid)) as [->|Hne]; [by rewrite E, andb_false_r|by rewrite bool_decide_eq_false_2].
Qed.

Lemma has_room_DeleteAll sid order a sid' room :
  has_room (DeleteAll sid order a) sid' room = negb (bool_decide (sid' = sid)) && has_room a sid' room.
Proof.
  unfold DeleteAll, has_room. destruct (sids a !! sid) as [s|] eqn:E; cbn [sids].
  - rewrite delete_members_sids. destruct (decide (sid' = sid)) as [->|Hne].
    + by rewrite lookup_delete_eq, bool_decide_eq_true_2.
    + by rewrite lookup_delete_ne, bool_decide_eq_false_2.
  - destruct (decide (sid' = sid)) as [->|Hne]; [by rewrite E, andb_false_r|by rewrite bool_decide_eq_false_2].
Qed.

(** The order visits every room the socket is in. *)
Definition visits_rooms (order : list Room) (sid : SocketID) a : Prop :=
  forall room, has_room a sid room = true -> room ∈ order.

Lemma in_room_DeleteAll sid order a sid' room :
  wf a -> visits_rooms order sid a ->
  in_room (DeleteAll sid order a) room sid' = negb (bool_decide (sid' = sid)) && in_room a room sid'.
Proof.
  intros [HW _] HV. unfold DeleteAll. destruct (sids a !! sid) as [s|] eqn:E; cbn [sids].
  - unfold in_room at 1. cbn [rooms]. fold (in_room (fold_left (fun a room => if Contains room s then delete_member sid room a else a) order a) room sid').
    rewrite (in_room_delete_members sid (fun room => Contains room s)).
    destruct (decide (sid' = sid)) as [->|Hne]; [|by rewrite bool_decide_eq_false_2].
    rewrite (bool_decide_eq_true_2 (sid = sid)) by done. cbn.
    rewrite HW. unfold has_room. rewrite E. destruct (Contains room s) eqn:EC; [|apply andb_false_r].
    rewrite (bool_decide_eq_true_2 (room ∈ order)); [done|]. apply HV. unfold has_room. by rewrite E.
  - destruct (decide (sid' = sid)) as [->|Hne]; [|by rewrite bool_decide_eq_false_2].
    rewrite HW. unfold has_room. rewrite E. by rewrite andb_false_r.
Qed.

(** *** No room is empty *)

Definition nonempty a : Prop := forall room r, rooms a !! room = Some r -> Cardinality r <> 0.

Lemma nonempty_add_room sid a room : nonempty a -> nonempty (add_room sid a room).
Proof.
  intros HN room' r. cbn [rooms add_room]. destruct (decide (room' = room)) as [->|Hne].
  - rewrite lookup_insert_eq. intros [= <-] HC. rewrite Cardinality_zero in HC. specialize (HC sid).
    destruct (Contains sid (default NewSet (rooms a !! room))) eqn:E; [congruence|].
    rewrite Contains_Add, bool_decide_eq_true_2 in HC by done. done.
  - rewrite lookup_insert_ne by done. apply HN.
Qed.

Lemma nonempty_add_rooms sid rs a : nonempty a -> nonempty (fold_left (add_room sid) rs a).
Proof. revert a. induction rs as [|room rs IH]; intros a; cbn; [done|]. intros. by apply IH, nonempty_add_room. Qed.

Lemma nonempty_delete_member sid room a : nonempty a -> nonempty (delete_member sid room a).
Proof.
  intros HN room' r. unfold delete_member. destruct (rooms a !! room) as [r0|] eqn:E; [|apply HN].
  cbn [rooms]. destruct (Nat.eqb_spec (Cardinality (Remove sid r0)) 0).
  - intros [_ Hr]%lookup_delete_Some. by apply (HN room').
  - intros [[<- <-]|[_ Hr]]%lookup_insert_Some; [done|]. by apply (HN room').
Qed.

Lemma nonempty_delete_members sid (keep : Room -> bool) order a :
  nonempty a ->
  nonempty (fold_left (fun a room => if keep room then delete_member sid room a else a) order a).
Proof.
  revert a. induction order as [|room order IH]; intros a; cbn; [done|]. intros HN. apply IH.
  destruct (keep room); [by apply nonempty_delete_member|done].
Qed.

(** *** The invariant *)

Lemma wf_new : wf (newInMemoryAdapter (RS := RS) (SS := SS)).
Proof. split; [done|]. intros room r. cbn. by rewrite lookup_empty. Qed.

Lemma wf_AddAll sid rs a : wf a -> wf (AddAll sid rs a).
Proof.
  intros [HW HN]. split.
  - intros sid' room. by rewrite in_room_AddAll, has_room_AddAll, HW.
  - unfold AddAll. apply nonempty_add_rooms. by destruct (sids a !! sid).
Qed.

Lemma wf_Delete sid room a : wf a -> wf (Delete sid room a).
Proof.
  intros [HW HN]. split.
  - intros sid' room'. by rewrite in_room_Delete, has_room_Delete, HW.
  - unfold Delete. apply nonempty_delete_member. by destruct (sids a !! sid).
Qed.

Lemma wf_DeleteAll sid order a : wf a -> visits_rooms order sid a -> wf (DeleteAll sid order a).
Proof.
  intros HWF HV. split.
  - intros sid' room. rewrite in_room_DeleteAll, has_room_DeleteAll by done. by destruct HWF as [-> _].
  - destruct HWF as [_ HN]. unfold DeleteAll. destruct (sids a !! sid); [|done]. cbn [rooms].
    by apply nonempty_delete_members.
Qed.

(** ** Abstract specification: a membership relation *)

(** Which sockets are known, and which socket is in which room. *)
Record membership := mkMembership {
  m_known : gset SocketID;
  m_in : gset (SocketID * Room);
}.

Inductive room_op :=
  | OpAddAll (sid : SocketID) (rs : list Room)
  | OpDelete (sid : SocketID) (room : Room)
  | OpDeleteAll (sid : SocketID).

Definition spec_step (o : room_op) (m : membership) : membership :=
  match o with
  | OpAddAll sid rs => mkMembership ({[sid]} ∪ m_known m) (list_to_set ((fun room => (sid, room)) <$> rs) ∪ m_in m)
  | OpDelete sid room => mkMembership (m_known m) (m_in m ∖ {[(sid, room)]})
  | OpDeleteAll sid => mkMembership (m_known m ∖ {[sid]}) (filter (fun p => p.1 <> sid) (m_in m))
  end.

(** The adapter's operation; a [DeleteAll] visits the rooms in the order given. *)
Definition impl_step (o : room_op) (order : list Room) (a : inMemoryAdapter RS SS) : inMemoryAdapter RS SS :=
  match o with
  | OpAddAll sid rs => AddAll sid rs a
  | OpDelete sid room => Delete sid room a
  | OpDeleteAll sid => DeleteAll sid order a
  end.

Definition covers (o : room_op) (order : list Room) (a : inMemoryAdapter RS SS) : Prop :=
  match o with OpDeleteAll sid => visits_rooms order sid a | _ => True end.

Definition refines (a : inMemoryAdapter RS SS) (m : membership) : Prop :=
  wf a /\
  (forall sid, known a sid = bool_decide (sid ∈ m_known m)) /\
  (forall sid room, in_room a room sid = bool_decide ((sid, room) ∈ m_in m)).

Lemma refines_new : refines newInMemoryAdapter (mkMembership ∅ ∅).
Proof. split; [apply wf_new|]. split; intros; symmetry; apply bool_decide_eq_false_2; set_solver. Qed.

Lemma refines_step o order a m :
  refines a m -> covers o order a -> refines (impl_step o order a) (spec_step o m).
Proof.
  intros (HW & HK & HI) HC. destruct o as [sid rs|sid room|sid]; cbn [impl_step spec_step covers] in *.
  - split; [by apply wf_AddAll|]. split; [intros sid'|intros sid' room].
    + rewrite known_AddAll, HK, <- bool_decide_or. apply bool_decide_ext. cbn. set_solver.
    + rewrite in_room_AddAll, HI, <- bool_decide_and, <- bool_decide_or. apply bool_decide_ext. cbn.
      rewrite elem_of_union, elem_of_list_to_set, list_elem_of_fmap.
      split; [intros [[-> Hr]|Hr]; eauto|intros [(r & [= -> ->] & Hr)|Hr]; eauto].
  - split; [by apply wf_Delete|]. split; [intros sid'|intros sid' room'].
    + by rewrite known_Delete, HK.
    + rewrite in_room_Delete, HI, <- bool_decide_and, <- bool_decide_not, <- bool_decide_and.
      apply bool_decide_ext. cbn. rewrite elem_of_difference, elem_of_singleton.
      naive_solver.
  - split; [by apply wf_DeleteAll|]. split; [intros sid'|intros sid' room'].
    + rewrite known_DeleteAll, HK, <- bool_decide_not, <- bool_decide_and. apply bool_decide_ext. cbn. set_solver.
    + rewrite in_room_DeleteAll, HI, <- bool_decide_not, <- bool_decide_and by done.
      apply bool_decide_ext. cbn. by rewrite elem_of_filter.
Qed.

(** A run: every operation with the order its loop takes. *)
Inductive impl_run : list room_op -> inMemoryAdapter RS SS -> Prop :=
  | impl_nil : impl_run [] newInMemoryAdapter
  | impl_snoc ops o order a :
      impl_run ops a -> covers o order a -> impl_run (ops ++ [o]) (impl_step o order a).

Definition spec_run (ops : list room_op) : membership := fold_left (fun m o => spec_step o m) ops (mkMembership ∅ ∅).
End room_lemmas.

(** ** Lemmas: which sockets [apply] calls back *)

Section apply_lemmas.
Context {RS SS : Type} `{!MapSet Room RS} `{!MapSet SocketID SS}.
Context `{!LawfulMapSet Room RS} `{!LawfulMapSet SocketID SS}.
Context {ST Sock : Type} `{!SocketStore ST Sock} `{!LawfulSocketStore ST Sock}.
Implicit Types (a : inMemoryAdapter RS SS) (w : world RS SS ST) (opts : BroadcastOptions RS).

(** In one of the rooms the broadcast excludes. *)
Definition excluded opts a (sid : SocketID) : Prop :=
  exists room, Contains room (Except opts) = true /\ in_room a room sid = true.

(** In one of the rooms the broadcast names; any known socket when it names none. *)
Definition selected opts a (sid : SocketID) : Prop :=
  if Cardinality (Rooms opts) =? 0 then known a sid = true
  else exists room, Contains room (Rooms opts) = true /\ in_room a room sid = true.

(** The sockets a broadcast is for. *)
Definition target opts w (sid : SocketID) (socket : Sock) : Prop :=
  selected opts (w_adapter w) sid /\ ~ excluded opts (w_adapter w) sid /\ Get sid (w_store w) = Some socket.

(** The loops visit what is there: the rooms of the options, the members of a room and
    the known sockets, the last without repetition. *)
Definition complete (sch : schedule) opts a : Prop :=
  (forall room, Contains room (Except opts) = true -> room ∈ sch_except sch) /\
  (forall room, Contains room (Rooms opts) = true -> room ∈ sch_rooms sch) /\
  (forall room sid, known a sid = true -> sid ∈ sch_members sch room) /\
  NoDup (sch_sids sch) /\ (forall sid, known a sid = true -> sid ∈ sch_sids sch).

(** A callback that changes nothing about the other sockets. *)
Definition confined {L} (callback : Sock -> world RS SS ST * L -> world RS SS ST * L) : Prop :=
  forall socket wl, store_ok (w_store wl.1) ->
    let w := wl.1 in let w' := (callback socket wl).1 in
    store_ok (w_store w') /\
    forall sid, sid <> sock_ID socket ->
      (forall room, in_room (w_adapter w') room sid = in_room (w_adapter w) room sid) /\
      known (w_adapter w') sid = known (w_adapter w) sid /\
      Get sid (w_store w') = Get sid (w_store w).

Lemma in_room_known a room sid : wf a -> in_room a room sid = true -> known a sid = true.
Proof. intros [HW _]. rewrite HW. unfold has_room, known. by destruct (sids a !! sid). Qed.

Lemma Contains_add_members (r acc : SS) order sid :
  Contains sid (fold_left (fun acc sid => if Contains sid r then Add sid acc else acc) order acc) =
  bool_decide (sid ∈ order) && Contains sid r || Contains sid acc.
Proof.
  revert acc. induction order as [|x order IH]; intros acc; cbn.
  - by rewrite bool_decide_eq_false_2 by apply not_elem_of_nil.
  - rewrite IH, (bool_decide_ext (sid ∈ x :: order) (sid = x \/ sid ∈ order)), bool_decide_or by apply elem_of_cons.
    destruct (decide (sid = x)) as [->|Hne].
    + rewrite (bool_decide_eq_true_2 (x = x)) by done. cbn.
      destruct (Contains x r) eqn:E; [|by rewrite andb_false_r].
      rewrite Contains_Add, (bool_decide_eq_true_2 (x = x)), !orb_true_r by done. done.
    + rewrite (bool_decide_eq_false_2 (sid = x)) by done. cbn. f_equal.
      destruct (Contains x r); [|done]. by rewrite Contains_Add, (bool_decide_eq_false_2 (sid = x)).
Qed.

Lemma computeExceptSids_spec opts sch a sid :
  wf a -> complete sch opts a ->
  Contains sid (computeExceptSids (Except opts) (sch_except sch) (sch_members sch) a) = true <->
  excluded opts a sid.
Proof.
  intros HW (HE & _ & HM & _). unfold computeExceptSids, excluded.
  destruct (Nat.ltb_spec 0 (Cardinality (Except opts))) as [_|HC].
  2:{ rewrite Contains_NewSet. split; [done|]. intros (room & Hr & _).
      assert (Cardinality (Except opts) = 0) as H0 by lia. rewrite Cardinality_zero in H0. congruence. }
  set (step := fun acc room => _).
  assert (forall order acc, Contains sid (fold_left step order acc) = true <->
    (exists room, room ∈ order /\ Contains room (Except opts) = true /\ in_room a room sid = true) \/
    Contains sid acc = true) as HF.
  { induction order as [|room order IH]; intros acc; cbn [fold_left].
    - split; [by right|]. intros [(? & Hx & _)|?]; [by apply not_elem_of_nil in Hx|done].
    - rewrite IH. assert (Contains sid (step acc room) = true <->
        (Contains room (Except opts) = true /\ in_room a room sid = true) \/ Contains sid acc = true) as ->.
      { unfold step, in_room. destruct (Contains room (Except opts)); [|naive_solver].
        destruct (rooms a !! room) as [r|] eqn:E; [|naive_solver].
        rewrite Contains_add_members, orb_true_iff, andb_true_iff, bool_decide_eq_true.
        assert (Contains sid r = true -> sid ∈ sch_members sch room); [|naive_solver].
        intros Hr. apply HM, (in_room_known a room); [done|]. unfold in_room. by rewrite E. }
      setoid_rewrite elem_of_cons. naive_solver. }
  rewrite HF, Contains_NewSet. naive_solver.
Qed.

Section visited.
Context {L : Type} (callback : Sock -> world RS SS ST * L -> world RS SS ST * L).
Hypothesis Hcb : confined callback.
Context (opts : BroadcastOptions RS) (w0 : world RS SS ST) (l0 : L).

Abbreviation ids_of vs := (sock_ID <$> vs).

(** The sockets called back so far, in the order of the calls, and the state then. *)
Definition called (vs : list Sock) (wl : world RS SS ST * L) : Prop :=
  wl = fold_left (fun wl socket => callback socket wl) vs (w0, l0) /\
  NoDup (ids_of vs) /\
  Forall (fun socket => target opts w0 (sock_ID socket) socket) vs /\
  store_ok (w_store wl.1) /\
  forall sid, sid ∉ ids_of vs ->
    (forall room, in_room (w_adapter wl.1) room sid = in_room (w_adapter w0) room sid) /\
    known (w_adapter wl.1) sid = known (w_adapter w0) sid /\
    Get sid (w_store wl.1) = Get sid (w_store w0).

Lemma called_next vs wl sid socket :
  called vs wl -> sid ∉ ids_of vs -> target opts w0 sid socket -> called (vs ++ [socket]) (callback socket wl).
Proof.
  intros (HE & HN & HF & HO & HS) Hsid HT. destruct (HS sid Hsid) as (_ & _ & HG).
  assert (Get sid (w_store wl.1) = Some socket) as HG' by (rewrite HG; apply HT).
  assert (sock_ID socket = sid) as HID by (by eapply Get_ID).
  destruct (Hcb socket wl HO) as [HO' HL]. split_and!.
  - by rewrite fold_left_app, <- HE.
  - rewrite fmap_app. apply NoDup_app. split; [done|]. split; [|apply NoDup_singleton].
    intros x Hx Hx2%list_elem_of_singleton. subst. congruence.
  - apply Forall_app. split; [done|]. apply Forall_singleton. by rewrite HID.
  - done.
  - intros sid' Hni. rewrite fmap_app in Hni. apply not_elem_of_app in Hni as [H1 H2].
    cbn in H2. apply not_elem_of_cons in H2 as [H2 _].
    destruct (HS sid' H1) as (R1 & R2 & R3). destruct (HL sid' H2) as (Q1 & Q2 & Q3).
    split_and!; [intros room; by rewrite Q1, R1|by rewrite Q2, R2|by rewrite Q3, R3].
Qed.

Context (sch : schedule).
Hypothesis (Hwf : wf (w_adapter w0)) (Hcomplete : complete sch opts (w_adapter w0)).

Abbreviation exceptSids :=
  (computeExceptSids (Except opts) (sch_except sch) (sch_members sch) (w_adapter w0)).

Lemma except_false sid : ~ excluded opts (w_adapter w0) sid -> Contains sid exceptSids = false.
Proof. intros HX. apply not_true_is_false. by rewrite computeExceptSids_spec. Qed.

Lemma except_true sid : Contains sid exceptSids = false -> ~ excluded opts (w_adapter w0) sid.
Proof. intros HX. rewrite <- (computeExceptSids_spec opts sch) by done. congruence. Qed.

(** [ids] holds the IDs of the sockets called back. *)
Definition tracks (ids : SS) (vs : list Sock) : Prop :=
  forall sid, Contains sid ids = bool_decide (sid ∈ ids_of vs).

(** One visit of a member of a room of the options. *)
Lemma visit_member_called room ids vs wl sid :
  Contains room (Rooms opts) = true ->
  called vs wl -> tracks ids vs ->
  let st := visit_member callback exceptSids room (ids, wl) sid in
  exists vs', called (vs ++ vs') st.2 /\ tracks st.1 (vs ++ vs') /\
    forall socket, in_room (w_adapter w0) room sid = true -> ~ excluded opts (w_adapter w0) sid ->
      Get sid (w_store w0) = Some socket -> sid ∈ ids_of (vs ++ vs').
Proof.
  intros Hroom HC HT st. unfold visit_member in st.
  destruct (decide (sid ∈ ids_of vs)) as [Hin|Hni].
  { exists []. rewrite app_nil_r. assert (st = (ids, wl)) as ->.
    { subst st. destruct (in_room _ _ _); [|done]. by rewrite HT, bool_decide_eq_true_2. }
    done. }
  pose proof HC as (HE & HN & HF & HO & HS). destruct (HS sid Hni) as (HR & HK & HG).
  assert (called (vs ++ []) wl /\ tracks ids (vs ++ [])) as [HC0 HT0] by (by rewrite app_nil_r).
  subst st. rewrite HR, HG, HT, (bool_decide_eq_false_2 (sid ∈ _)) by done. cbn [orb].
  destruct (in_room (w_adapter w0) room sid) eqn:EI.
  2:{ exists []. split_and!; done. }
  destruct (Contains sid exceptSids) eqn:EX.
  { exists []. split; [done|]. split; [done|].
    intros socket _ HX. by rewrite <- (computeExceptSids_spec opts sch) in HX by done. }
  destruct (Get sid (w_store w0)) as [socket|] eqn:EG.
  2:{ exists []. split; [done|]. split; [done|].
      intros socket _ _ HX. discriminate. }
  assert (target opts w0 sid socket) as HTg.
  { split; [|split; [by apply except_true|done]]. unfold selected.
    destruct (Nat.eqb_spec (Cardinality (Rooms opts)) 0) as [H0|]; [|eauto].
    rewrite Cardinality_zero in H0. congruence. }
  assert (sock_ID socket = sid) as HID by (eapply Get_ID; [exact HO|congruence]).
  exists [socket]. split; [apply (called_next _ _ sid); done|]. split.
  - intros x. cbn [fst]. rewrite Contains_Add, HT, fmap_app, <- bool_decide_or. apply bool_decide_ext.
    rewrite elem_of_app. cbn. rewrite list_elem_of_singleton, HID. tauto.
  - intros _ _ _ _. rewrite fmap_app, elem_of_app. right. cbn. rewrite HID. left.
Qed.

Lemma visit_members_called room order ids vs wl :
  Contains room (Rooms opts) = true ->
  called vs wl -> tracks ids vs ->
  let st := fold_left (visit_member callback exceptSids room) order (ids, wl) in
  exists vs', called (vs ++ vs') st.2 /\ tracks st.1 (vs ++ vs') /\
    forall sid socket, sid ∈ order -> in_room (w_adapter w0) room sid = true ->
      ~ excluded opts (w_adapter w0) sid -> Get sid (w_store w0) = Some socket ->
      sid ∈ ids_of (vs ++ vs').
Proof.
  intros Hroom. revert ids vs wl. induction order as [|x order IH]; intros ids vs wl HC HT; cbn [fold_left].
  - exists []. rewrite app_nil_r. split_and!; [done..|]. intros sid ? Hx. by apply not_elem_of_nil in Hx.
  - destruct (visit_member_called room ids vs wl x Hroom HC HT) as (v1 & HC1 & HT1 & HV1).
    destruct (visit_member _ _ _ _ _) as [ids1 wl1]. cbn [fst snd] in *.
    destruct (IH ids1 (vs ++ v1) wl1 HC1 HT1) as (v2 & HC2 & HT2 & HV2).
    rewrite <- app_assoc in HC2, HT2, HV2. exists (v1 ++ v2). split_and!; [done..|].
    intros sid socket [->|Hin]%elem_of_cons HI HX HG; [|by eapply HV2].
    rewrite app_assoc, fmap_app, elem_of_app. left. by eapply HV1.
Qed.

Lemma visit_rooms_called order ids vs wl :
  called vs wl -> tracks ids vs ->
  let st := fold_left (visit_room callback exceptSids (sch_members sch) (Rooms opts)) order (ids, wl) in
  exists vs', called (vs ++ vs') st.2 /\ tracks st.1 (vs ++ vs') /\
    forall room sid socket, room ∈ order -> Contains room (Rooms opts) = true ->
      in_room (w_adapter w0) room sid = true ->
      ~ excluded opts (w_adapter w0) sid -> Get sid (w_store w0) = Some socket ->
      sid ∈ ids_of (vs ++ vs').
Proof.
  revert ids vs wl. induction order as [|x order IH]; intros ids vs wl HC HT; cbn [fold_left].
  - exists []. rewrite app_nil_r. split_and!; [done..|]. intros room ? ? Hx. by apply not_elem_of_nil in Hx.
  - assert (visit_room callback exceptSids (sch_members sch) (Rooms opts) (ids, wl) x =
      if Contains x (Rooms opts)
      then fold_left (visit_member callback exceptSids x) (sch_members sch x) (ids, wl) else (ids, wl)) as ->
      by reflexivity.
    destruct (Contains x (Rooms opts)) eqn:EC.
    + destruct (visit_members_called x (sch_members sch x) ids vs wl EC HC HT) as (v1 & HC1 & HT1 & HV1).
      destruct (fold_left (visit_member _ _ _) _ _) as [ids1 wl1]. cbn [fst snd] in *.
      destruct (IH ids1 (vs ++ v1) wl1 HC1 HT1) as (v2 & HC2 & HT2 & HV2).
      rewrite <- app_assoc in HC2, HT2, HV2. exists (v1 ++ v2). split_and!; [done..|].
      intros room sid socket [->|Hin]%elem_of_cons Hr HI HX HG; [|by eapply HV2].
      rewrite app_assoc, fmap_app, elem_of_app. left. eapply HV1; [|done..].
      destruct Hcomplete as (_ & _ & HM & _). apply HM. by eapply in_room_known.
    + destruct (IH ids vs wl HC HT) as (v2 & HC2 & HT2 & HV2). exists v2. split_and!; [done..|].
      intros room sid socket [->|Hin]%elem_of_cons Hr HI HX HG; [congruence|by eapply HV2].
Qed.

(** One visit of the loop over all known sockets. *)
Lemma visit_sid_called vs wl x :
  Cardinality (Rooms opts) = 0 -> x ∉ ids_of vs -> called vs wl ->
  exists vs', called (vs ++ vs') (visit_sid callback exceptSids wl x) /\
    (forall socket, target opts w0 x socket -> x ∈ ids_of (vs ++ vs')) /\
    (forall sid, sid ∈ ids_of vs' -> sid = x).
Proof.
  intros H0 Hx HC. pose proof HC as (HE & HN & HF & HO & HS). destruct (HS x Hx) as (HR & HK & HG).
  unfold visit_sid. rewrite HK, HG.
  assert ((forall socket, ~ target opts w0 x socket) ->
    exists vs', called (vs ++ vs') wl /\ (forall socket, target opts w0 x socket -> x ∈ ids_of (vs ++ vs')) /\
      (forall sid, sid ∈ ids_of vs' -> sid = x)) as HNo.
  { intros Hno. exists []. rewrite app_nil_r. split; [done|]. split.
    - intros socket HT. by destruct (Hno _ HT).
    - intros sid Hs. by apply not_elem_of_nil in Hs. }
  destruct (known (w_adapter w0) x) eqn:EK.
  2:{ apply HNo. intros socket (HSl & _). unfold selected in HSl. rewrite H0 in HSl. cbn in HSl. congruence. }
  destruct (Contains x exceptSids) eqn:EX.
  { apply HNo. intros socket (_ & HX & _). by rewrite <- (computeExceptSids_spec opts sch) in HX by done. }
  destruct (Get x (w_store w0)) as [socket|] eqn:EG.
  2:{ apply HNo. intros socket (_ & _ & HX). congruence. }
  assert (target opts w0 x socket) as HTg.
  { split; [|split; [by apply except_true|done]]. unfold selected. by rewrite H0. }
  assert (sock_ID socket = x) as HID by (eapply Get_ID; [exact HO|congruence]).
  exists [socket]. split; [by apply (called_next _ _ x)|]. split.
  - intros _ _. rewrite fmap_app, elem_of_app. right. cbn. rewrite HID. left.
  - intros sid. cbn. rewrite list_elem_of_singleton. congruence.
Qed.

(** The loop over all known sockets; [order] has no repetition. *)
Lemma visit_sids_called order vs wl :
  Cardinality (Rooms opts) = 0 -> NoDup order -> (forall sid, sid ∈ order -> sid ∉ ids_of vs) ->
  called vs wl ->
  exists vs', called (vs ++ vs') (fold_left (visit_sid callback exceptSids) order wl) /\
    forall sid socket, sid ∈ order -> target opts w0 sid socket -> sid ∈ ids_of (vs ++ vs').
Proof.
  intros H0. revert vs wl. induction order as [|x order IH]; intros vs wl HND HD HC; cbn [fold_left].
  - exists []. rewrite app_nil_r. split; [done|]. intros sid ? Hx. by apply not_elem_of_nil in Hx.
  - apply NoDup_cons in HND as [Hx HND].
    destruct (visit_sid_called vs wl x H0 (HD x ltac:(left)) HC) as (v1 & HC1 & HV1 & HO1).
    destruct (IH (vs ++ v1) (visit_sid callback exceptSids wl x) HND) as (v2 & HC2 & HV2); [|exact HC1|].
    + intros sid Hs. rewrite fmap_app, not_elem_of_app. split; [apply HD; by right|].
      intros Hs2%HO1. subst. done.
    + rewrite <- app_assoc in HC2, HV2. exists (v1 ++ v2). split; [done|].
      intros sid socket [->|Hin]%elem_of_cons HT; [|by eapply HV2].
      rewrite app_assoc, fmap_app, elem_of_app. left. by eapply HV1.
Qed.

(** [apply] calls every socket of the target back exactly once, and no other. *)
Lemma apply_called :
  store_ok (w_store w0) ->
  exists vs, called vs (apply callback opts sch (w0, l0)) /\
    forall socket, socket ∈ vs <-> exists sid, target opts w0 sid socket.
Proof.
  intros Hok. assert (called [] (w0, l0)) as HC0.
  { split_and!; [done|constructor|constructor|done|done]. }
  assert (exists vs, called vs (apply callback opts sch (w0, l0)) /\
    forall sid socket, target opts w0 sid socket -> sid ∈ ids_of vs) as (vs & HC & HV).
  { unfold apply. cbn [fst]. destruct Hcomplete as (_ & HR & _ & HND & HK).
    destruct (Nat.ltb_spec 0 (Cardinality (Rooms opts))) as [Hpos|Hz].
    - destruct (visit_rooms_called (sch_rooms sch) NewSet [] (w0, l0) HC0) as (vs & HC & _ & HV).
      { intros x. rewrite Contains_NewSet. symmetry. apply bool_decide_eq_false_2, not_elem_of_nil. }
      exists vs. split; [exact HC|]. intros sid socket (HS & HX & HG). unfold selected in HS.
      destruct (Nat.eqb_spec (Cardinality (Rooms opts)) 0); [lia|]. destruct HS as (room & Hr & HI).
      eapply (HV room); eauto.
    - destruct (visit_sids_called (sch_sids sch) [] (w0, l0)) as (vs & HC & HV); [lia|done| |done|].
      + intros sid _. apply not_elem_of_nil.
      + exists vs. split; [exact HC|]. intros sid socket HT. eapply HV; [|exact HT]. apply HK.
        destruct HT as (HS & _). unfold selected in HS.
        destruct (Nat.eqb_spec (Cardinality (Rooms opts)) 0); [done|lia]. }
  exists vs. split; [done|]. intros socket. destruct HC as (_ & _ & HF & _).
  rewrite Forall_forall in HF. split; [intros Hs; eexists; by apply HF|].
  intros [sid HT]. pose proof (HV _ _ HT) as Hin. apply list_elem_of_fmap in Hin as (s' & -> & Hs').
  pose proof (HF _ Hs') as (_ & _ & HG). destruct HT as (_ & _ & HG'). congruence.
Qed.
End visited.
End apply_lemmas.

(** C12: The in-memory adapter refines a membership relation: after every sequence of
    [AddAll], [Delete] and [DeleteAll] calls, whatever order Go's map iteration takes,
    the known sockets and the members of every room are those of the relation the
    calls describe; the two maps agree with each other and no empty room is kept. *)
Theorem adapter_refinement {RS SS} `{!MapSet Room RS} `{!MapSet SocketID SS}
    `{!LawfulMapSet Room RS} `{!LawfulMapSet SocketID SS} ops (a : inMemoryAdapter RS SS) :
  impl_run ops a -> refines a (spec_run ops).
Proof.
  induction 1 as [|ops o order a HR IH HC]; [apply refines_new|].
  unfold spec_run. rewrite fold_left_app. by apply refines_step.
Qed.

Abbreviation gadapter := (inMemoryAdapter (gset string) (gset string)).

Lemma adapter_refinement_witness :
  refines (impl_step (OpDeleteAll "a") ["r"] (impl_step (OpAddAll "b" ["r"; "s"]) []
    (impl_step (OpAddAll "a" ["r"]) [] (newInMemoryAdapter : gadapter))))
    (spec_run [OpAddAll "a" ["r"]; OpAddAll "b" ["r"; "s"]; OpDeleteAll "a"]).
Proof.
  apply (adapter_refinement [OpAddAll "a" ["r"]; OpAddAll "b" ["r"; "s"]; OpDeleteAll "a"]).
  apply (impl_snoc [OpAddAll "a" ["r"]; OpAddAll "b" ["r"; "s"]]).
  - apply (impl_snoc [OpAddAll "a" ["r"]]); [|done]. by apply (impl_snoc []); [constructor|].
  - intros room. unfold has_room.
    assert (sids (impl_step (OpAddAll "b" ["r"; "s"]) [] (impl_step (OpAddAll "a" ["r"]) [] (newInMemoryAdapter : gadapter))) !! "a"
            = Some {["r"]}) as -> by (vm_compute; reflexivity).
    cbn. intros Hr%bool_decide_eq_true%elem_of_singleton. subst. left.
Defined.
End adapter.
