(* ===== verification/Stores.v ===== *)
(** * Socket and namespace stores ([store.go])

    The maps in which a connection, a namespace, a server and a manager keep their
    sockets and namespaces. Sockets are an abstract type with the fields the stores
    read. [getAll] ranges over a Go map: the order is an argument. *)

From S2P Require Import Prelude MapSet Adapter.

(** ** [clientSocketStore] *)

Module clientSocketStore.
Section store.
Context {CS : Type} (namespace : CS -> string).

Record clientSocketStore := mkClientSocketStore { cs_sockets : gmap string CS }.

Definition newClientSocketStore : clientSocketStore := mkClientSocketStore ∅.

Definition cs_get (nsp : string) (s : clientSocketStore) : option CS := cs_sockets s !! nsp.

Definition cs_getAll (order : list string) (s : clientSocketStore) : list CS :=
  omap (fun nsp => cs_sockets s !! nsp) order.

Definition cs_set (socket : CS) (s : clientSocketStore) : clientSocketStore :=
  mkClientSocketStore (<[namespace socket := socket]> (cs_sockets s)).

Definition cs_remove (nsp : string) (s : clientSocketStore) : clientSocketStore :=
  mkClientSocketStore (delete nsp (cs_sockets s)).
End store.
End clientSocketStore.

(** ** [serverSocketStore]: the sockets of one connection *)

Module serverSocketStore.

Section store.
(** A [*serverSocket] with its ID and the name of its namespace. *)
Context {SS : Type} (ID : SS -> string) (nspName : SS -> string).

Record serverSocketStore := mkServerSocketStore {
  socketsByID : gmap string SS;
  socketsByNsp : gmap string SS;
}.

Definition newServerSocketStore : serverSocketStore := mkServerSocketStore ∅ ∅.

Definition getByID (sid : string) (s : serverSocketStore) : option SS := socketsByID s !! sid.

Definition getByNsp (nsp : string) (s : serverSocketStore) : option SS := socketsByNsp s !! nsp.

Definition ss_getAll (order : list string) (s : serverSocketStore) : list SS :=
  omap (fun sid => socketsByID s !! sid) order.

Definition getAndRemoveAll (order : list string) (s : serverSocketStore) : serverSocketStore * list SS :=
  (newServerSocketStore, ss_getAll order s).

Definition ss_set (socket : SS) (s : serverSocketStore) : serverSocketStore :=
  mkServerSocketStore (<[ID socket := socket]> (socketsByID s)) (<[nspName socket := socket]> (socketsByNsp s)).

Definition removeByID (sid : string) (s : serverSocketStore) : serverSocketStore :=
  match socketsByID s !! sid with
  | Some socket => mkServerSocketStore (delete sid (socketsByID s)) (delete (nspName socket) (socketsByNsp s))
  | None => s
  end.

(** The two maps hold the same sockets, each under its own ID and its own namespace. *)
Definition consistent (s : serverSocketStore) : Prop :=
  (forall sid socket, socketsByID s !! sid = Some socket ->
     ID socket = sid /\ socketsByNsp s !! nspName socket = Some socket) /\
  (forall nsp socket, socketsByNsp s !! nsp = Some socket ->
     nspName socket = nsp /\ socketsByID s !! ID socket = Some socket).

(** A connection adds a socket only for a namespace and under an ID it does not have. *)
Definition fresh (socket : SS) (s : serverSocketStore) : Prop :=
  socketsByID s !! ID socket = None /\ socketsByNsp s !! nspName socket = None.

Inductive store_reachable : serverSocketStore -> Prop :=
  | sr_new : store_reachable newServerSocketStore
  | sr_set socket s : store_reachable s -> fresh socket s -> store_reachable (ss_set socket s)
  | sr_remove sid s : store_reachable s -> store_reachable (removeByID sid s)
  | sr_removeAll order s : store_reachable s -> store_reachable (getAndRemoveAll order s).1.

Lemma consistent_new : consistent newServerSocketStore.
Proof. split; intros ? ?; cbn; by rewrite lookup_empty. Qed.

Lemma consistent_set socket s : consistent s -> fresh socket s -> consistent (ss_set socket s).
Proof.
  intros [H1 H2] [F1 F2]. split; cbn.
  - intros sid x [[<- <-]|[Hne Hx]]%lookup_insert_Some.
    + by rewrite lookup_insert_eq.
    + destruct (H1 _ _ Hx) as [Hid Hn]. split; [done|]. rewrite lookup_insert_ne; [done|congruence].
  - intros nsp x [[<- <-]|[Hne Hx]]%lookup_insert_Some.
    + by rewrite lookup_insert_eq.
    + destruct (H2 _ _ Hx) as [Hid Hn]. split; [done|]. rewrite lookup_insert_ne; [done|congruence].
Qed.

Lemma consistent_remove sid s : consistent s -> consistent (removeByID sid s).
Proof.
  intros [H1 H2]. unfold removeByID. destruct (socketsByID s !! sid) as [socket|] eqn:E; [|done].
  destruct (H1 _ _ E) as [Hid Hn]. split; cbn.
  - intros sid' x [Hne Hx]%lookup_delete_Some. destruct (H1 _ _ Hx) as [Hid' Hn']. split; [done|].
    rewrite lookup_delete_ne; [done|]. congruence.
  - intros nsp x [Hne Hx]%lookup_delete_Some. destruct (H2 _ _ Hx) as [Hid' Hn']. split; [done|].
    rewrite lookup_delete_ne; [done|]. congruence.
Qed.
End store.
Arguments serverSocketStore SS : clear implicits.

(** The two maps of a [serverSocketStore] stay a bijection: in every state reached by
    adding sockets for namespaces and IDs the connection does not have yet, by
    [removeByID] and by [getAndRemoveAll], a socket is found under its ID exactly when
    it is found under its namespace, so none is left behind in one of the maps. *)
Theorem serverSocketStore_consistent {SS} (ID nspName : SS -> string) s :
  store_reachable ID nspName s ->
  forall socket, getByID (ID socket) s = Some socket <-> getByNsp (nspName socket) s = Some socket.
Proof.
  intros HR. assert (consistent ID nspName s) as [H1 H2].
  { induction HR; [apply consistent_new|by apply consistent_set|by apply consistent_remove|apply consistent_new]. }
  intros socket. split; intros Hs; [by apply H1 in Hs as [_ Hs]|by apply H2 in Hs as [_ Hs]].
Qed.

Lemma serverSocketStore_consistent_witness :
  let s := removeByID snd "x" (ss_set fst snd ("y", "/b") (ss_set fst snd ("x", "/a") newServerSocketStore)) in
  getByID "y" s = Some ("y", "/b") <-> getByNsp "/b" s = Some ("y", "/b").
Proof.
  apply (serverSocketStore_consistent fst snd) with (socket := ("y", "/b")).
  apply sr_remove, sr_set; [apply sr_set; [apply sr_new|]|]; split; vm_compute; reflexivity.
Defined.

(** Adding a second socket for the same namespace orphans the first: it can no longer
    be found by its namespace, and when the second one is removed the namespace has no
    socket although the first is still stored under its ID. *)
Theorem double_set_orphans {SS} (ID nspName : SS -> string) s x y :
  nspName x = nspName y -> ID x <> ID y ->
  let s' := removeByID nspName (ID y) (ss_set ID nspName y (ss_set ID nspName x s)) in
  getByID (ID x) s' = Some x /\ getByNsp (nspName x) s' = None.
Proof.
  intros Hn Hid. unfold removeByID, getByID, getByNsp. cbn [socketsByID socketsByNsp ss_set].
  rewrite lookup_insert_eq. cbn [socketsByID socketsByNsp]. split.
  - rewrite lookup_delete_ne, lookup_insert_ne, lookup_insert_eq by congruence. done.
  - rewrite Hn. apply lookup_delete_eq.
Qed.

Lemma double_set_orphans_witness :
  let s' := removeByID snd "y" (ss_set fst snd ("y", "/a") (ss_set fst snd ("x", "/a") newServerSocketStore)) in
  getByID "x" s' = Some ("x", "/a") /\ getByNsp "/a" s' = None.
Proof. apply (double_set_orphans fst snd newServerSocketStore ("x", "/a") ("y", "/a")); [done|by intros [=]]. Defined.
End serverSocketStore.

(** ** [nspStore]: the namespaces of a server *)

Module nspStore.
Section store.
(** A [*Namespace]; [newNamespace] keeps the name it is given. *)
Context {N : Type} (Name : N -> string) (newNamespace : string -> N).

Record nspStore := mkNspStore { nsps : gmap string N }.

Definition newNspStore : nspStore := mkNspStore ∅.

Definition getOrCreate (name : string) (s : nspStore) : nspStore * N * bool :=
  match nsps s !! name with
  | Some nsp => (s, nsp, false)
  | None => let nsp := newNamespace name in (mkNspStore (<[Name nsp := nsp]> (nsps s)), nsp, true)
  end.

Definition nsp_len (s : nspStore) : nat := size (nsps s).
Definition nsp_set (nsp : N) (s : nspStore) : nspStore := mkNspStore (<[Name nsp := nsp]> (nsps s)).
Definition nsp_get (name : string) (s : nspStore) : option N := nsps s !! name.
Definition nsp_remove (name : string) (s : nspStore) : nspStore := mkNspStore (delete name (nsps s)).

Hypothesis Name_newNamespace : forall name, Name (newNamespace name) = name.

(** Asking again gives the same namespace and creates nothing. *)
Lemma getOrCreate_idempotent name s :
  let '(s1, nsp, _) := getOrCreate name s in getOrCreate name s1 = (s1, nsp, false).
Proof.
  unfold getOrCreate. destruct (nsps s !! name) eqn:E; cbn [nsps]; [by rewrite E|].
  by rewrite Name_newNamespace, lookup_insert_eq.
Qed.
End store.
End nspStore.

(** ** [nspSocketStore] and [adapterSocketStore]: the sockets of a namespace *)

Module nspSocketStore.
Section store.
(** [conn_send socket buffers] is [socket.conn.sendBuffers(buffers...)]: what it does to
    the connections, [Net], is the connection's. *)
Context {SS Net : Type} (ID : SS -> string) (conn_send : SS -> list bytes -> Net -> Net).

Record nspSocketStore := mkNspSocketStore {
  nss_sockets : gmap string SS;
  nss_net : Net;
}.

Definition nss_get (sid : string) (s : nspSocketStore) : option SS := nss_sockets s !! sid.

Definition nss_sendBuffers (sid : string) (buffers : list bytes) (s : nspSocketStore) : nspSocketStore * bool :=
  match nss_get sid s with
  | None => (s, false)
  | Some socket => (mkNspSocketStore (nss_sockets s) (conn_send socket buffers (nss_net s)), true)
  end.

Definition nss_getAll (s : nspSocketStore) : list SS := (map_to_list (nss_sockets s)).*2.

Definition nss_set (socket : SS) (s : nspSocketStore) : nspSocketStore :=
  mkNspSocketStore (<[ID socket := socket]> (nss_sockets s)) (nss_net s).

Definition nss_remove (sid : string) (s : nspSocketStore) : nspSocketStore :=
  mkNspSocketStore (delete sid (nss_sockets s)) (nss_net s).

(** Every socket is stored under its ID. *)
Definition nss_ok (s : nspSocketStore) : Prop := map_Forall (fun sid socket => ID socket = sid) (nss_sockets s).

Lemma nss_ok_set socket s : nss_ok s -> nss_ok (nss_set socket s).
Proof. intros Hs. by apply map_Forall_insert_2. Qed.

Lemma nss_ok_remove sid s : nss_ok s -> nss_ok (nss_remove sid s).
Proof. intros Hs. by apply map_Forall_delete. Qed.

(** [adapterSocketStore] forwards to the store: it is the adapter's [SocketStore]. *)
#[export] Instance adapterSocketStore : adapter.SocketStore nspSocketStore SS := {
  adapter.SendBuffers := nss_sendBuffers;
  adapter.Get := nss_get;
  adapter.GetAll := nss_getAll;
  adapter.StoreRemove := nss_remove;
  adapter.sock_ID := ID;
}.

#[export] Instance adapterSocketStore_lawful : adapter.LawfulSocketStore nspSocketStore SS.
Proof.
  refine {| adapter.store_ok := nss_ok |}; cbn.
  - intros sid st s Hok Hs. exact (Hok _ _ Hs).
  - intros sid bufs st Hok. unfold nss_sendBuffers. by destruct (nss_get sid st).
  - intros sid bufs st sid'. unfold nss_sendBuffers. by destruct (nss_get sid st).
Defined.
End store.
Arguments nspSocketStore SS Net : clear implicits.
End nspSocketStore.
