(* ===== verification/TestStore.v ===== *)
(** * The socket store and the socket the package offers to tests ([adapter/utils.go])

    [TestSocketStore] is a second implementation of the [SocketStore] the adapters are
    written against, with a replaceable function for sending, and [TestSocket] a socket
    that records its rooms in a slice. *)

From S2P Require Import Prelude Handlers MapSet Adapter.

(** ** [TestSocketStore] *)

Module testSocketStore.
Section store.
(** A [Socket] with its ID; [Net] is whatever the function for sending changes. *)
Context {Sock Net : Type} (ID : Sock -> string).

Record TestSocketStore := mkTestSocketStore {
  ts_sockets : gmap string Sock;
  ts_sendBuffers : string -> list bytes -> Net -> Net * bool;
  ts_net : Net;
}.

Definition NewTestSocketStore (net : Net) : TestSocketStore :=
  mkTestSocketStore ∅ (fun sid buffers net => (net, true)) net.

Definition ts_SendBuffers (sid : string) (buffers : list bytes) (s : TestSocketStore) : TestSocketStore * bool :=
  let '(net, ok) := ts_sendBuffers s sid buffers (ts_net s) in
  (mkTestSocketStore (ts_sockets s) (ts_sendBuffers s) net, ok).

Definition SetSendBuffers (sendBuffers : string -> list bytes -> Net -> Net * bool) (s : TestSocketStore) : TestSocketStore :=
  mkTestSocketStore (ts_sockets s) sendBuffers (ts_net s).

Definition ts_Get (sid : string) (s : TestSocketStore) : option Sock := ts_sockets s !! sid.

(** The slice has a cell for every socket, filled in the order of the map. *)
Definition ts_GetAll (s : TestSocketStore) : list Sock := (map_to_list (ts_sockets s)).*2.

Definition ts_Set (so : Sock) (s : TestSocketStore) : TestSocketStore :=
  mkTestSocketStore (<[ID so := so]> (ts_sockets s)) (ts_sendBuffers s) (ts_net s).

Definition ts_Remove (sid : string) (s : TestSocketStore) : TestSocketStore :=
  mkTestSocketStore (delete sid (ts_sockets s)) (ts_sendBuffers s) (ts_net s).

Definition ts_ok (s : TestSocketStore) : Prop := map_Forall (fun sid so => ID so = sid) (ts_sockets s).

Lemma ts_ok_new net : ts_ok (NewTestSocketStore net).
Proof. apply map_Forall_empty. Qed.

Lemma ts_ok_set so s : ts_ok s -> ts_ok (ts_Set so s).
Proof. intros Hs. by apply map_Forall_insert_2. Qed.

Lemma ts_ok_remove sid s : ts_ok s -> ts_ok (ts_Remove sid s).
Proof. intros Hs. by apply map_Forall_delete. Qed.

#[export] Instance TestSocketStore_store : adapter.SocketStore TestSocketStore Sock := {
  adapter.SendBuffers := ts_SendBuffers;
  adapter.Get := ts_Get;
  adapter.GetAll := ts_GetAll;
  adapter.StoreRemove := ts_Remove;
  adapter.sock_ID := ID;
}.

(** Whatever function for sending it is given, the store keeps what the adapters rely on:
    their theorems hold over it as they do over the store of a namespace. *)
#[export] Instance TestSocketStore_lawful : adapter.LawfulSocketStore TestSocketStore Sock.
Proof.
  refine {| adapter.store_ok := ts_ok |}; cbn; unfold ts_SendBuffers.
  - intros sid st s Hok Hs. exact (Hok _ _ Hs).
  - intros sid bufs st Hok. by destruct (ts_sendBuffers _ _ _ _).
  - intros sid bufs st sid'. by destruct (ts_sendBuffers _ _ _ _).
Defined.

(** The sockets of [GetAll] are those that [Get] finds, once each. *)
Theorem ts_GetAll_exact (s : TestSocketStore) so :
  ts_ok s -> NoDup (ts_GetAll s) /\ (so ∈ ts_GetAll s <-> ts_Get (ID so) s = Some so).
Proof.
  intros Hok. unfold ts_GetAll, ts_Get. split.
  - apply (NoDup_fmap_1 ID). rewrite <- list_fmap_compose.
    assert (((ID ∘ snd) <$> map_to_list (ts_sockets s)) = (map_to_list (ts_sockets s)).*1) as ->.
    { apply list_fmap_ext. intros i [k x] Hi%list_elem_of_lookup_2%elem_of_map_to_list. exact (Hok _ _ Hi). }
    apply NoDup_fst_map_to_list.
  - rewrite list_elem_of_fmap. split.
    + intros ([k x] & -> & Hx%elem_of_map_to_list). cbn. by rewrite (Hok _ _ Hx).
    + intros Hs. exists (ID so, so). split; [done|]. by apply elem_of_map_to_list.
Qed.
End store.
Arguments TestSocketStore Sock Net : clear implicits.

Lemma ts_GetAll_exact_witness :
  let s := ts_Remove "a" (ts_Set fst ("b", 1) (ts_Set fst ("a", 0) (NewTestSocketStore tt))) in
  NoDup (ts_GetAll s) /\ (("b", 1) ∈ ts_GetAll s <-> ts_Get "b" s = Some ("b", 1)).
Proof.
  apply (ts_GetAll_exact fst _ ("b", 1)), ts_ok_remove, ts_ok_set, ts_ok_set, ts_ok_new.
Defined.
End testSocketStore.

(** ** [TestSocket] *)

Module testSocket.

Record TestSocket := mkTestSocket { id : string; Rooms : list string; Connected : bool }.

Definition NewTestSocket (id : string) : TestSocket := mkTestSocket id [id] true.

Definition ID (s : TestSocket) : string := id s.

Definition Join (room : list string) (s : TestSocket) : TestSocket := mkTestSocket (id s) (Rooms s ++ room) (Connected s).

(** The loop removes from the slice it ranges over, like [handlerStore.off]. *)
Definition Leave (room : string) (s : TestSocket) : outcome unit TestSocket :=
  rooms ← slices.off_slice slices.ptr_eqb [room] (Rooms s);
  Ret (mkTestSocket (id s) rooms (Connected s)).

Definition Disconnect (close : bool) (s : TestSocket) : TestSocket := mkTestSocket (id s) (Rooms s) false.

(** Of a socket that was not let into a room twice, [Leave] removes that room alone. *)
Theorem TestSocket_leaves room s :
  NoDup (Rooms s) ->
  exists s', Leave room s = Ret s' /\ NoDup (Rooms s') /\ (forall r, r ∈ Rooms s' <-> r ∈ Rooms s /\ r <> room) /\
    ID s' = ID s /\ Connected s' = Connected s.
Proof.
  intros HN. unfold Leave. rewrite slices.off_slice_filter by exact HN. eexists. split; [reflexivity|]. cbn.
  split; [by apply NoDup_filter|]. split; [|done]. intros r. rewrite list_elem_of_filter. tauto.
Qed.

Lemma TestSocket_leaves_witness :
  exists s', Leave "x" (Join ["x"; "y"] (NewTestSocket "a")) = Ret s' /\ NoDup (Rooms s') /\
    (forall r, r ∈ Rooms s' <-> r ∈ ["a"; "x"; "y"] /\ r <> "x") /\ ID s' = "a" /\ Connected s' = true.
Proof.
  apply (TestSocket_leaves "x" (Join ["x"; "y"] (NewTestSocket "a"))).
  apply (bool_decide_unpack _). vm_compute. exact I.
Defined.

(** A socket that joined the same room twice, last, cannot leave it: the loop goes on to the
    stale last cell and slices past the end. A new socket is in the room of its ID, so that
    joining that room is enough. *)
Theorem TestSocket_leave_panics s room :
  room ∉ Rooms s -> Leave room (Join [room] (Join [room] s)) = Panic SliceBounds.
Proof.
  intros Hr. unfold Leave, Join. cbn [Rooms]. rewrite <- app_assoc. cbn [app].
  rewrite slices.off_slice_front.
  2:{ apply Forall_forall. intros x Hx. cbn. rewrite slices.ptr_eqb_ne by (by intros ->). done. }
  cbn [length seq slices.off_outer slices.arr]. rewrite lookup_app_r, Nat.sub_diag by lia. cbn [lookup list_lookup].
  cbn [slices.off_inner]. rewrite slices.ptr_eqb_refl.
  rewrite (slices.remove_middle (Rooms s) [room] room). cbn [mbind option_bind length drop app slices.arr].
  rewrite lookup_app_r by lia. replace (S (length (Rooms s)) - length (Rooms s)) with 1 by lia.
  cbn [lookup list_lookup slices.off_inner]. rewrite slices.ptr_eqb_refl. unfold slices.remove. cbn [slices.len].
  destruct (Nat.leb_spec (S (S (length (Rooms s)))) (length (Rooms s) + 1)); [lia|]. reflexivity.
Qed.

Lemma TestSocket_leave_panics_witness :
  Leave "x" (Join ["x"] (Join ["x"] (NewTestSocket "a"))) = Panic SliceBounds.
Proof. apply (TestSocket_leave_panics (NewTestSocket "a") "x"). apply (bool_decide_unpack _). vm_compute. exact I. Defined.
End testSocket.
