(* ===== verification/Broadcast.v ===== *)
(** * Broadcasting ([adapter/broadcast_operator.go]) and what a broadcast reaches

    The operations of the in-memory adapter that go through [apply], specified against
    the set of target sockets; and the broadcast operator, whose room sets are mutable
    objects on a heap: the model keeps the heap, so that sharing between operators is
    visible. *)

From S2P Require Import Prelude MapSet SioPacket Adapter Stores.

Module broadcast.
Import parser adapter.

(** ** The callbacks of the adapter are confined to the socket they are given *)

Section callbacks.
Context {RS SS : Type} `{!MapSet Room RS} `{!MapSet SocketID SS}.
Context `{!LawfulMapSet Room RS} `{!LawfulMapSet SocketID SS}.
Context {ST Sock : Type} `{!SocketStore ST Sock} `{!LawfulSocketStore ST Sock}.
Implicit Types (w : world RS SS ST) (opts : BroadcastOptions RS).

Lemma confined_send buffers : confined (no_local (send_to (RS := RS) (SS := SS) buffers)).
Proof.
  intros socket [w l] Hok. cbn. split; [by apply SendBuffers_ok|]. intros sid Hne.
  split; [done|]. split; [done|]. apply SendBuffers_Get.
Qed.

Lemma confined_join rs : confined (no_local (sock_Join (RS := RS) (SS := SS) rs)).
Proof.
  intros socket [w l] Hok. cbn. split; [done|]. intros sid Hne. split_and!; [|  |done].
  - intros room. by rewrite in_room_AddAll, bool_decide_eq_false_2.
  - by rewrite known_AddAll, bool_decide_eq_false_2.
Qed.

Lemma leave_each_store rs socket w : w_store (leave_each rs socket w) = w_store w.
Proof. unfold leave_each. revert w. induction rs as [|r rs IH]; intros w; cbn; [done|]. by rewrite IH. Qed.

Lemma leave_each_in_room rs socket w room sid :
  in_room (w_adapter (leave_each rs socket w)) room sid =
  negb (bool_decide (sid = sock_ID socket) && bool_decide (room ∈ rs)) && in_room (w_adapter w) room sid.
Proof.
  unfold leave_each. revert w. induction rs as [|r rs IH]; intros w; cbn [fold_left].
  - by rewrite (bool_decide_eq_false_2 (room ∈ [])), andb_false_r by apply not_elem_of_nil.
  - rewrite IH. cbn [w_adapter sock_Leave]. rewrite in_room_Delete.
    rewrite (bool_decide_ext (room ∈ r :: rs) (room = r \/ room ∈ rs)), bool_decide_or by apply elem_of_cons.
    by destruct (bool_decide (sid = _)), (bool_decide (room = r)), (bool_decide (room ∈ rs)), (in_room _ _ _).
Qed.

Lemma leave_each_known rs socket w sid : known (w_adapter (leave_each rs socket w)) sid = known (w_adapter w) sid.
Proof.
  unfold leave_each. revert w. induction rs as [|r rs IH]; intros w; cbn [fold_left]; [done|].
  rewrite IH. apply known_Delete.
Qed.

Lemma confined_leave rs : confined (no_local (leave_each (RS := RS) (SS := SS) rs)).
Proof.
  intros socket [w l] Hok. cbn. rewrite leave_each_store. split; [done|]. intros sid Hne.
  split_and!; [|apply leave_each_known|done].
  intros room. by rewrite leave_each_in_room, bool_decide_eq_false_2.
Qed.

Lemma fold_no_local (f : Sock -> world RS SS ST -> world RS SS ST) vs w :
  fold_left (fun wl socket => no_local f socket wl) vs (w, tt) = (fold_left (fun w socket => f socket w) vs w, tt).
Proof. revert w. induction vs as [|s vs IH]; intros w; cbn; [done|]. apply IH. Qed.

(** Membership after joining, socket by socket. *)
Lemma fold_join_in_room rs vs w room sid :
  in_room (w_adapter (fold_left (fun w socket => sock_Join rs socket w) vs w)) room sid =
  bool_decide (sid ∈ sock_ID <$> vs) && bool_decide (room ∈ rs) || in_room (w_adapter w) room sid.
Proof.
  revert w. induction vs as [|s vs IH]; intros w; cbn [fold_left].
  - by rewrite (bool_decide_eq_false_2 (sid ∈ _)) by apply not_elem_of_nil.
  - rewrite IH. cbn [w_adapter sock_Join fmap list_fmap]. rewrite in_room_AddAll.
    rewrite (bool_decide_ext (sid ∈ _ :: _) (sid = sock_ID s \/ sid ∈ sock_ID <$> vs)), bool_decide_or by apply elem_of_cons.
    by destruct (bool_decide (sid = _)), (bool_decide (sid ∈ _)), (bool_decide (room ∈ rs)), (in_room _ _ _).
Qed.

Lemma fold_leave_in_room rs vs w room sid :
  in_room (w_adapter (fold_left (fun w socket => leave_each rs socket w) vs w)) room sid =
  negb (bool_decide (sid ∈ sock_ID <$> vs) && bool_decide (room ∈ rs)) && in_room (w_adapter w) room sid.
Proof.
  revert w. induction vs as [|s vs IH]; intros w; cbn [fold_left].
  - by rewrite (bool_decide_eq_false_2 (sid ∈ _)) by apply not_elem_of_nil.
  - rewrite IH, leave_each_in_room. cbn [fmap list_fmap].
    rewrite (bool_decide_ext (sid ∈ _ :: _) (sid = sock_ID s \/ sid ∈ sock_ID <$> vs)), bool_decide_or by apply elem_of_cons.
    by destruct (bool_decide (sid = _)), (bool_decide (sid ∈ _)), (bool_decide (room ∈ rs)), (in_room _ _ _).
Qed.

Lemma wf_fold_join rs vs w :
  wf (w_adapter w) -> wf (w_adapter (fold_left (fun w socket => sock_Join rs socket w) vs w)).
Proof. revert w. induction vs as [|s vs IH]; intros w; cbn; [done|]. intros. by apply IH, wf_AddAll. Qed.

Lemma wf_leave_each rs socket w : wf (w_adapter w) -> wf (w_adapter (leave_each rs socket w)).
Proof.
  unfold leave_each. revert w. induction rs as [|r rs IH]; intros w; cbn; [done|]. intros. by apply IH, wf_Delete.
Qed.

Lemma wf_fold_leave rs vs w :
  wf (w_adapter w) -> wf (w_adapter (fold_left (fun w socket => leave_each rs socket w) vs w)).
Proof. revert w. induction vs as [|s vs IH]; intros w; cbn; [done|]. intros. by apply IH, wf_leave_each. Qed.

Lemma fold_send buffers vs w :
  fold_left (fun w socket => send_to buffers socket w) vs w =
  mkWorld (w_adapter w) (fold_left (fun st socket => (SendBuffers (sock_ID socket) buffers st).1) vs (w_store w)).
Proof. revert w. induction vs as [|s vs IH]; intros w; cbn; [by destruct w|]. by rewrite IH. Qed.

(** The IDs called back are the targets' IDs. *)
Lemma called_ids (vs : list Sock) opts w :
  store_ok (w_store w) ->
  (forall socket, socket ∈ vs <-> exists sid, target opts w sid socket) ->
  forall sid, sid ∈ sock_ID <$> vs <-> exists socket, target opts w sid socket.
Proof.
  intros Hok HV sid. rewrite list_elem_of_fmap. split.
  - intros (socket & -> & [sid' HT]%HV). exists socket.
    assert (sock_ID socket = sid') as -> by (eapply Get_ID; [done|apply HT]). done.
  - intros [socket HT]. exists socket. split; [symmetry; eapply Get_ID; [done|apply HT]|]. apply HV. eauto.
Qed.
End callbacks.

(** ** What a broadcast reaches *)

Section reach.
Context {RS SS : Type} `{!MapSet Room RS} `{!MapSet SocketID SS}.
Context `{!LawfulMapSet Room RS} `{!LawfulMapSet SocketID SS}.
Context {ST Sock : Type} `{!SocketStore ST Sock} `{!LawfulSocketStore ST Sock}.

(** The state an operation starts from: the adapter's invariant, the store's, and loops
    that visit everything. *)
Definition ready (opts : BroadcastOptions RS) (sch : schedule) (w : world RS SS ST) : Prop :=
  wf (w_adapter w) /\ store_ok (w_store w) /\ complete sch opts (w_adapter w).

Lemma Broadcast_targets {V E} (Encode : PacketHeader -> V -> outcome E (list bytes)) header v buffers opts sch
    (w : world RS SS ST) :
  ready opts sch w -> Encode header v = Ret buffers ->
  exists vs : list Sock,
    NoDup (sock_ID <$> vs) /\
    (forall socket, socket ∈ vs <-> exists sid, target opts w sid socket) /\
    Broadcast Encode header v opts sch w =
      Ret (mkWorld (w_adapter w)
             (fold_left (fun st socket => (SendBuffers (sock_ID socket) buffers st).1) vs (w_store w))).
Proof.
  intros (HW & HO & HC) HE.
  destruct (apply_called _ (confined_send buffers) opts w tt sch HW HC HO) as (vs & (Hfold & HN & _) & HV).
  exists vs. split; [done|]. split; [done|]. unfold Broadcast. rewrite HE, Hfold, fold_no_local. cbn.
  by rewrite fold_send.
Qed.

(** C14: A broadcast is sent to each of its sockets exactly once and to no other: the
    packet is encoded once and [SendBuffers] is called once for every socket that is in
    one of the rooms named (any known socket when none is named), is in none of the
    excluded rooms and is in the store, in some order; rooms and members do not change. *)
Theorem Broadcast_reaches {V E} (Encode : PacketHeader -> V -> outcome E (list bytes)) header v buffers opts sch
    (w : world RS SS ST) :
  ready opts sch w -> Encode header v = Ret buffers ->
  exists vs : list Sock,
    NoDup (sock_ID <$> vs) /\
    (forall socket, socket ∈ vs <-> exists sid, target opts w sid socket) /\
    Broadcast Encode header v opts sch w =
      Ret (mkWorld (w_adapter w)
             (fold_left (fun st socket => (SendBuffers (sock_ID socket) buffers st).1) vs (w_store w))).
Proof. apply Broadcast_targets. Qed.

(** [SocketsJoin] adds exactly the target sockets to exactly the given rooms, also when
    the rooms joined are among the rooms being visited; every other membership is
    unchanged and the adapter's invariant holds afterwards. *)
Theorem AddSockets_joins opts rs sch (w : world RS SS ST) :
  ready opts sch w ->
  let w' := AddSockets opts rs sch w in
  wf (w_adapter w') /\
  forall sid room, in_room (w_adapter w') room sid = true <->
    in_room (w_adapter w) room sid = true \/ (room ∈ rs /\ exists socket, target opts w sid socket).
Proof.
  intros (HW & HO & HC). unfold AddSockets.
  destruct (apply_called _ (confined_join rs) opts w tt sch HW HC HO) as (vs & (Hfold & _) & HV).
  rewrite Hfold, fold_no_local. cbn [fst]. split; [by apply wf_fold_join|]. intros sid room.
  rewrite fold_join_in_room, orb_true_iff, andb_true_iff, !bool_decide_eq_true, (called_ids vs opts w HO HV). tauto.
Qed.

(** [SocketsLeave] removes exactly the target sockets from exactly the given rooms, also
    when the rooms left are among the rooms being visited; every other membership is
    unchanged and the adapter's invariant holds afterwards. *)
Theorem DelSockets_leaves opts rs sch (w : world RS SS ST) :
  ready opts sch w ->
  let w' := DelSockets opts rs sch w in
  wf (w_adapter w') /\
  forall sid room, in_room (w_adapter w') room sid = true <->
    in_room (w_adapter w) room sid = true /\ ~ (room ∈ rs /\ exists socket, target opts w sid socket).
Proof.
  intros (HW & HO & HC). unfold DelSockets.
  destruct (apply_called _ (confined_leave rs) opts w tt sch HW HC HO) as (vs & (Hfold & _) & HV).
  rewrite Hfold, fold_no_local. cbn [fst]. split; [by apply wf_fold_leave|]. intros sid room.
  rewrite fold_leave_in_room, andb_true_iff, negb_true_iff, andb_false_iff, !bool_decide_eq_false.
  rewrite (called_ids vs opts w HO HV). split.
  - intros [[H1|H1] H2]; (split; [done|]); tauto.
  - intros [H1 H2]. split; [|done]. destruct (decide (room ∈ rs)); [left|by right]. tauto.
Qed.

(** [FetchSockets] returns every target once; [Sockets] the set of their IDs. *)
Lemma FetchSockets_targets opts sch (w : world RS SS ST) :
  ready opts sch w ->
  NoDup (sock_ID <$> FetchSockets opts sch w) /\
  forall socket, socket ∈ FetchSockets opts sch w <-> exists sid, target opts w sid socket.
Proof.
  intros (HW & HO & HC). unfold FetchSockets. set (cb := fun socket wl => _).
  assert (confined cb) as Hcb by (intros socket [w1 l] Hok; by split).
  destruct (apply_called cb Hcb opts w [] sch HW HC HO) as (vs & (Hfold & HN & _) & HV).
  assert (forall vs l, (fold_left (fun wl socket => cb socket wl) vs (w, l)).2 = l ++ vs) as HF.
  { intros vs'. induction vs' as [|s vs' IH]; intros l; [cbn; by rewrite app_nil_r|].
    cbn [fold_left]. change (cb s (w, l)) with (w, l ++ [s]). by rewrite IH, <- app_assoc. }
  rewrite Hfold, HF. done.
Qed.

Lemma Sockets_targets rs sch (w : world RS SS ST) :
  let opts := mkBroadcastOptions rs NewSet (mkBroadcastFlags false false) in
  ready opts sch w ->
  forall sid, Contains sid (Sockets rs sch w) = true <-> exists socket, target opts w sid socket.
Proof.
  intros opts (HW & HO & HC) sid. unfold Sockets. fold opts. set (cb := fun socket wl => _).
  assert (confined cb) as Hcb by (intros socket [w1 l] Hok; by split).
  destruct (apply_called cb Hcb opts w NewSet sch HW HC HO) as (vs & (Hfold & HN & _) & HV).
  assert (forall vs l, (fold_left (fun wl socket => cb socket wl) vs (w, l)).2 = add_all (sock_ID <$> vs) l) as HF.
  { intros vs'. induction vs' as [|s vs' IH]; intros l; [done|].
    cbn [fold_left]. change (cb s (w, l)) with (w, Add (sock_ID s) l). by rewrite IH. }
  rewrite Hfold, HF, Contains_add_all, Contains_NewSet, orb_false_r, bool_decide_eq_true.
  by apply called_ids.
Qed.
End reach.

(** ** A concrete adapter with two sockets *)

Section sample.
(** Sockets are their IDs; the network is the list of what was sent to whom. *)
Definition sample_send (socket : string) (buffers : list bytes) (net : list (string * list bytes)) :=
  net ++ [(socket, buffers)].

Abbreviation sample_store := (nspSocketStore.nspSocketStore string (list (string * list bytes))).

Definition sample_ss : SocketStore sample_store string := nspSocketStore.adapterSocketStore (fun s => s) sample_send.
Definition sample_lss : @LawfulSocketStore sample_store string sample_ss :=
  nspSocketStore.adapterSocketStore_lawful (fun s => s) sample_send.

(** "a" is in the room "r", "b" in "r" and "s". *)
Definition sample_world : world (gset string) (gset string) sample_store :=
  mkWorld (AddAll "b" ["r"; "s"] (AddAll "a" ["r"] newInMemoryAdapter))
    (nspSocketStore.mkNspSocketStore {["a" := "a"; "b" := "b"]} []).

Definition sample_opts : BroadcastOptions (gset string) :=
  mkBroadcastOptions {["r"]} {["s"]} (mkBroadcastFlags false false).

Definition sample_sch : schedule := mkSchedule ["s"] ["r"] (fun _ => ["b"; "a"]) ["a"; "b"].

Lemma sample_ready : @ready _ _ _ _ _ _ sample_ss sample_lss sample_opts sample_sch sample_world.
Proof.
  assert (forall sid, known (w_adapter sample_world) sid = true -> sid ∈ ["b"; "a"]) as HK.
  { intros sid. unfold sample_world. cbn [w_adapter]. rewrite !known_AddAll.
    rewrite !orb_true_iff, !bool_decide_eq_true. intros [->|[->|HX]]; [left|right; left|].
    vm_compute in HX. discriminate. }
  unfold ready, complete. split_and!.
  - apply wf_AddAll, wf_AddAll, wf_new.
  - intros sid socket. cbn.
    by intros [[<- <-]|[_ [<- <-]%lookup_singleton_Some]]%lookup_insert_Some.
  - intros room Hr%bool_decide_eq_true. change (room ∈ ({["s"]} : gset string)) in Hr.
    apply elem_of_singleton in Hr as ->. left.
  - intros room Hr%bool_decide_eq_true. change (room ∈ ({["r"]} : gset string)) in Hr.
    apply elem_of_singleton in Hr as ->. left.
  - intros room. exact HK.
  - apply (bool_decide_unpack _). vm_compute. exact I.
  - intros sid Hs%HK. cbn. set_solver.
Qed.
End sample.

Lemma Broadcast_reaches_witness :
  exists vs : list string,
    NoDup ((fun s => s) <$> vs) /\
    (forall socket, socket ∈ vs <-> exists sid, @target _ _ _ _ _ _ sample_ss sample_opts sample_world sid socket) /\
    @Broadcast _ _ _ _ _ _ sample_ss _ unit (fun _ b => Ret [b]) (mkPacketHeader PacketTypeEvent "/" None 0) [x61]
      sample_opts sample_sch sample_world =
      Ret (mkWorld (w_adapter sample_world)
             (fold_left (fun st socket => (@SendBuffers _ _ sample_ss socket [[x61]] st).1) vs (w_store sample_world))).
Proof.
  apply (@Broadcast_reaches _ _ _ _ _ _ _ _ sample_ss sample_lss bytes unit (fun _ b => Ret [b])
           (mkPacketHeader PacketTypeEvent "/" None 0) [x61] [[x61]] sample_opts sample_sch sample_world).
  - exact sample_ready.
  - reflexivity.
Defined.

Lemma AddSockets_joins_witness :
  let w' := @AddSockets _ _ _ _ _ _ sample_ss sample_opts ["s"] sample_sch sample_world in
  wf (w_adapter w') /\
  forall sid room, in_room (w_adapter w') room sid = true <->
    in_room (w_adapter sample_world) room sid = true \/
    (room ∈ ["s"] /\ exists socket, @target _ _ _ _ _ _ sample_ss sample_opts sample_world sid socket).
Proof.
  apply (@AddSockets_joins _ _ _ _ _ _ _ _ sample_ss sample_lss sample_opts ["s"] sample_sch sample_world).
  exact sample_ready.
Defined.

Lemma DelSockets_leaves_witness :
  let w' := @DelSockets _ _ _ _ _ _ sample_ss sample_opts ["r"] sample_sch sample_world in
  wf (w_adapter w') /\
  forall sid room, in_room (w_adapter w') room sid = true <->
    in_room (w_adapter sample_world) room sid = true /\
    ~ (room ∈ ["r"] /\ exists socket, @target _ _ _ _ _ _ sample_ss sample_opts sample_world sid socket).
Proof.
  apply (@DelSockets_leaves _ _ _ _ _ _ _ _ sample_ss sample_lss sample_opts ["r"] sample_sch sample_world).
  exact sample_ready.
Defined.

(** ** The broadcast operator *)

Section operator.
Context {RS : Type} `{!MapSet Room RS}.

(** The sets of the operators are objects: an operator holds references to them. *)
Abbreviation heap := (list RS).

Record BroadcastOperator := mkOperator {
  op_nsp : string;
  op_rooms : nat;
  op_exceptRooms : nat;
  op_flags : BroadcastFlags;
}.

Definition deref (h : heap) (l : nat) : RS := default NewSet (h !! l).

Definition alloc (s : RS) (h : heap) : heap * nat := (h ++ [s], length h).

(** [s.Clone()]: a new object with the elements of [s]. *)
Definition Clone (l : nat) (h : heap) : heap * nat := alloc (deref h l) h.

(** [for _, r := range room { s.Add(r) }] on the object at [l]. *)
Definition add_each (rs : list Room) (l : nat) (h : heap) : heap := alter (add_all rs) l h.

Definition NewBroadcastOperator (nsp : string) (h : heap) : heap * BroadcastOperator :=
  let '(h1, l1) := alloc NewSet h in
  let '(h2, l2) := alloc NewSet h1 in
  (h2, mkOperator nsp l1 l2 (mkBroadcastFlags false false)).

Definition op_To (rs : list Room) (b : BroadcastOperator) (h : heap) : heap * BroadcastOperator :=
  let '(h1, l) := Clone (op_rooms b) h in
  (add_each rs l h1, mkOperator (op_nsp b) l (op_exceptRooms b) (op_flags b)).

Definition op_In (rs : list Room) (b : BroadcastOperator) (h : heap) : heap * BroadcastOperator := op_To rs b h.

Definition op_Except (rs : list Room) (b : BroadcastOperator) (h : heap) : heap * BroadcastOperator :=
  let '(h1, l) := Clone (op_exceptRooms b) h in
  (add_each rs l h1, mkOperator (op_nsp b) (op_rooms b) l (op_flags b)).

Definition op_Compress (compress : bool) (b : BroadcastOperator) : BroadcastOperator :=
  mkOperator (op_nsp b) (op_rooms b) (op_exceptRooms b) (mkBroadcastFlags compress (Local (op_flags b))).

Definition op_Local (b : BroadcastOperator) : BroadcastOperator :=
  mkOperator (op_nsp b) (op_rooms b) (op_exceptRooms b) (mkBroadcastFlags (Compress (op_flags b)) true).

(** The options of [FetchSockets], [SocketsJoin], [SocketsLeave] and
    [DisconnectSockets] (clones), and of [Emit] (the objects themselves): the same
    values at the time of the call. *)
Definition op_options (b : BroadcastOperator) (h : heap) : BroadcastOptions RS :=
  mkBroadcastOptions (deref h (op_rooms b)) (deref h (op_exceptRooms b)) (op_flags b).

(** [Emit]: what is handed to [adapter.Broadcast]. [V] are the arguments, [of_string]
    the event name as one of them and [is_func] whether an argument is a function. *)
Definition op_Emit {V E} (of_string : string -> V) (is_func : V -> bool) (isEventReserved : string -> bool)
    (eventName : string) (_v : list V) (b : BroadcastOperator) (h : heap)
  : outcome E (PacketHeader * list V * BroadcastOptions RS) :=
  let header := mkPacketHeader PacketTypeEvent (op_nsp b) None 0 in
  if isEventReserved eventName then Panic (UserPanic "attempted to emit a reserved event")
  else
    let v := of_string eventName :: _v in
    match last v with
    | Some f => if is_func f then Panic (UserPanic "callbacks are not supported when broadcasting")
                else Ret (header, v, op_options b h)
    | None => Panic IndexRange
    end.

(** The operations on the matching sockets. *)
Section sockets.
Context {SS ST Sock : Type} `{!MapSet SocketID SS} `{!SocketStore ST Sock}.

Definition op_FetchSockets (b : BroadcastOperator) (h : heap) (sch : schedule) (w : world RS SS ST) : list Sock :=
  FetchSockets (op_options b h) sch w.

Definition op_SocketsJoin (rs : list Room) (b : BroadcastOperator) (h : heap) (sch : schedule) (w : world RS SS ST)
  : world RS SS ST := AddSockets (op_options b h) rs sch w.

Definition op_SocketsLeave (rs : list Room) (b : BroadcastOperator) (h : heap) (sch : schedule) (w : world RS SS ST)
  : world RS SS ST := DelSockets (op_options b h) rs sch w.

Definition op_DisconnectSockets (disconnect : bool -> Sock -> world RS SS ST -> world RS SS ST) (close : bool)
    (b : BroadcastOperator) (h : heap) (sch : schedule) (w : world RS SS ST) : world RS SS ST :=
  DisconnectSockets disconnect (op_options b h) close sch w.
End sockets.

(** A chain of modifiers. *)
Inductive modifier :=
  | MTo (rs : list Room) | MIn (rs : list Room) | MExcept (rs : list Room)
  | MCompress (compress : bool) | MLocal.

Definition modify (m : modifier) (b : BroadcastOperator) (h : heap) : heap * BroadcastOperator :=
  match m with
  | MTo rs => op_To rs b h
  | MIn rs => op_In rs b h
  | MExcept rs => op_Except rs b h
  | MCompress c => (h, op_Compress c b)
  | MLocal => (h, op_Local b)
  end.

Fixpoint chain (ms : list modifier) (b : BroadcastOperator) (h : heap) : heap * BroadcastOperator :=
  match ms with
  | [] => (h, b)
  | m :: ms' => let '(h', b') := modify m b h in chain ms' b' h'
  end.

Definition to_rooms (ms : list modifier) : list Room :=
  concat ((fun m => match m with MTo rs | MIn rs => rs | _ => [] end) <$> ms).

Definition except_rooms (ms : list modifier) : list Room :=
  concat ((fun m => match m with MExcept rs => rs | _ => [] end) <$> ms).

(** The references of an operator are in the heap. *)
Definition op_valid (b : BroadcastOperator) (h : heap) : Prop :=
  op_rooms b < length h /\ op_exceptRooms b < length h.

Context `{!LawfulMapSet Room RS}.

(** [To] and [Except] write to the object they have just made. *)
Lemma clone_add rs l h :
  let '(h1, l') := Clone l h in
  length (add_each rs l' h1) = S (length h) /\
  (forall i, i < length h -> add_each rs l' h1 !! i = h !! i) /\
  deref (add_each rs l' h1) l' = add_all rs (deref h l).
Proof.
  unfold Clone, alloc, add_each. split_and!.
  - rewrite length_alter, length_app. cbn. lia.
  - intros i Hi. rewrite list_lookup_alter_ne by lia. by rewrite lookup_app_l.
  - unfold deref at 1. rewrite list_lookup_alter_eq, lookup_app_r, Nat.sub_diag by lia. done.
Qed.

Lemma deref_ext h h' l : h' !! l = h !! l -> deref h' l = deref h l.
Proof. unfold deref. by intros ->. Qed.

Lemma modify_spec m b h :
  op_valid b h ->
  let '(h', b') := modify m b h in
  op_valid b' h' /\ length h <= length h' /\ (forall i, i < length h -> h' !! i = h !! i) /\
  (forall r, Contains r (deref h' (op_rooms b')) = bool_decide (r ∈ to_rooms [m]) || Contains r (deref h (op_rooms b))) /\
  (forall r, Contains r (deref h' (op_exceptRooms b')) =
             bool_decide (r ∈ except_rooms [m]) || Contains r (deref h (op_exceptRooms b))).
Proof.
  intros [HV1 HV2].
  assert (forall r, bool_decide (r ∈ @nil Room) = false) as Hnil.
  { intros r. apply bool_decide_eq_false_2, not_elem_of_nil. }
  destruct m as [rs|rs|rs|c|]; cbn [modify]; unfold op_In, op_To, op_Except.
  1-2: (pose proof (clone_add rs (op_rooms b) h) as HC; destruct (Clone (op_rooms b) h) as [h1 l] eqn:EC;
    destruct HC as (HL & HS & HD); unfold Clone, alloc in EC; injection EC as E1 E2;
    unfold op_valid; cbn [op_rooms op_exceptRooms]; split_and!; [lia|lia|lia|done|
      intros r; rewrite HD, Contains_add_all; unfold to_rooms; cbn; by rewrite app_nil_r|
      intros r; rewrite Hnil; cbn; by rewrite (deref_ext h) by (by apply HS)]).
  - pose proof (clone_add rs (op_exceptRooms b) h) as HC. destruct (Clone (op_exceptRooms b) h) as [h1 l] eqn:EC.
    destruct HC as (HL & HS & HD). unfold Clone, alloc in EC. injection EC as E1 E2.
    unfold op_valid. cbn [op_rooms op_exceptRooms]. split_and!; [lia|lia|lia|done| |].
    + intros r. rewrite Hnil. cbn. by rewrite (deref_ext h) by (by apply HS).
    + intros r. rewrite HD, Contains_add_all. unfold except_rooms. cbn. by rewrite app_nil_r.
  - split_and!; cbn; try done; intros r; by rewrite Hnil.
  - split_and!; cbn; try done; intros r; by rewrite Hnil.
Qed.

Lemma chain_spec ms b h :
  op_valid b h ->
  let '(h', b') := chain ms b h in
  op_valid b' h' /\ length h <= length h' /\ (forall i, i < length h -> h' !! i = h !! i) /\
  (forall r, Contains r (deref h' (op_rooms b')) = bool_decide (r ∈ to_rooms ms) || Contains r (deref h (op_rooms b))) /\
  (forall r, Contains r (deref h' (op_exceptRooms b')) =
             bool_decide (r ∈ except_rooms ms) || Contains r (deref h (op_exceptRooms b))).
Proof.
  revert b h. induction ms as [|m ms IH]; intros b h HV; cbn [chain].
  - assert (forall r, bool_decide (r ∈ @nil Room) = false) as Hnil.
    { intros r. apply bool_decide_eq_false_2, not_elem_of_nil. }
    split_and!; [apply HV..|lia|done| |]; intros r; by rewrite Hnil.
  - pose proof (modify_spec m b h HV) as HM. destruct (modify m b h) as [h1 b1].
    destruct HM as (HV1 & HL1 & HS1 & HT1 & HE1). specialize (IH b1 h1 HV1).
    destruct (chain ms b1 h1) as [h2 b2]. destruct IH as (HV2 & HL2 & HS2 & HT2 & HE2).
    assert (forall (f : modifier -> list Room) r,
      bool_decide (r ∈ concat (f <$> m :: ms)) = bool_decide (r ∈ concat (f <$> [m])) || bool_decide (r ∈ concat (f <$> ms))) as HA.
    { intros f r. rewrite <- bool_decide_or. apply bool_decide_ext. cbn. rewrite app_nil_r. apply elem_of_app. }
    split; [done|]. split; [lia|]. split; [intros i Hi; rewrite HS2 by lia; by apply HS1|].
    unfold to_rooms, except_rooms in *. split; intros r.
    + rewrite HT2, HT1, HA. by destruct (bool_decide _), (bool_decide _), (Contains _ _).
    + rewrite HE2, HE1, HA. by destruct (bool_decide _), (bool_decide _), (Contains _ _).
Qed.
End operator.
Arguments BroadcastOperator : clear implicits.

(** A chain of [To], [In], [Except], [Compress] and [Local] calls gives an operator that
    broadcasts to the union of the rooms named and excludes the union of the rooms
    excluded, added to those of the operator it starts from, in any order of the calls;
    and it leaves every operator that existed before as it was, although operators share
    their room sets. *)
Theorem chain_options {RS} `{!MapSet Room RS} `{!LawfulMapSet Room RS} ms b old (h : list RS) :
  op_valid b h -> op_valid old h ->
  let '(h', b') := chain ms b h in
  op_options old h' = op_options old h /\
  (forall r, Contains r (Rooms (op_options b' h')) = true <->
             r ∈ to_rooms ms \/ Contains r (Rooms (op_options b h)) = true) /\
  (forall r, Contains r (Except (op_options b' h')) = true <->
             r ∈ except_rooms ms \/ Contains r (Except (op_options b h)) = true).
Proof.
  intros HV [HO1 HO2]. pose proof (chain_spec ms b h HV) as HC. destruct (chain ms b h) as [h' b'].
  destruct HC as (_ & _ & HS & HT & HE). unfold op_options. cbn [Rooms Except]. split_and!.
  - by rewrite !(deref_ext h h') by (by apply HS).
  - intros r. by rewrite HT, orb_true_iff, bool_decide_eq_true.
  - intros r. by rewrite HE, orb_true_iff, bool_decide_eq_true.
Qed.

Lemma chain_options_witness :
  let '(h0, b) := NewBroadcastOperator (RS := gset string) "/" [] in
  let '(h', b') := chain [MTo ["x"]; MExcept ["y"]; MTo ["z"]] b h0 in
  op_options b h' = op_options b h0 /\
  (forall r, Contains r (Rooms (op_options b' h')) = true <->
             r ∈ ["x"; "z"] \/ Contains r (Rooms (op_options b h0)) = true) /\
  (forall r, Contains r (Except (op_options b' h')) = true <->
             r ∈ ["y"] \/ Contains r (Except (op_options b h0)) = true).
Proof.
  apply (chain_options (RS := gset string) [MTo ["x"]; MExcept ["y"]; MTo ["z"]]
           (mkOperator "/" 0 1 (mkBroadcastFlags false false))
           (mkOperator "/" 0 1 (mkBroadcastFlags false false)) [NewSet; NewSet]); split; cbn; lia.
Defined.
End broadcast.
