(* ===== verification/Session.v ===== *)
(** * Connection state recovery ([adapter/adapter_session_aware.go], [adapter/adapter.go])

    The sessions of disconnected sockets and the packets broadcast meanwhile. The time
    read by [time.Now] is an argument (nanoseconds), as are the IDs that the [yeast]
    package generates. *)

From S2P Require Import Prelude MapSet SioPacket Adapter.

Module session.
Import parser adapter.

Section session.
Context {RS : Type} `{!MapSet Room RS} {V : Type}.

Record PersistedPacket := mkPersistedPacket {
  pp_ID : string;
  EmittedAt : Z;
  Opts : BroadcastOptions RS;
  pp_Header : PacketHeader;
  Data : list V;
}.

Record SessionToPersist := mkSession {
  SID : SocketID;
  PID : string;
  s_Rooms : list Room;
  MissedPackets : list PersistedPacket;
}.

Record sessionWithTimestamp := mkSessionTS {
  sessionToPersist : SessionToPersist;
  DisconnectedAt : Z;
}.

Record sessionAwareAdapter := mkSessionAware {
  maxDisconnectDuration : Z;
  sessions : gmap string sessionWithTimestamp;
  packets : list PersistedPacket;
}.

(** [time.Now().Before(p.EmittedAt.Add(maxDisconnectDuration))]. *)
Definition HasExpired (now : Z) (max : Z) (p : PersistedPacket) : bool := (now <? EmittedAt p + max)%Z.

(** [time.Now().After(s.DisconnectedAt.Add(maxDisconnectDuration))]. *)
Definition hasExpired (now : Z) (max : Z) (s : sessionWithTimestamp) : bool := (DisconnectedAt s + max <? now)%Z.

Definition newSessionAwareAdapter (max : Z) : sessionAwareAdapter := mkSessionAware max ∅ [].

(** The loop from the last packet to the first: the first one found is removed, then the
    loop ends. *)
Fixpoint remove_first (f : PersistedPacket -> bool) (l : list PersistedPacket) : list PersistedPacket :=
  match l with
  | [] => []
  | p :: l' => if f p then l' else p :: remove_first f l'
  end.

(** One round of [cleaner]. *)
Definition cleaner_round (now : Z) (a : sessionAwareAdapter) : sessionAwareAdapter :=
  let max := maxDisconnectDuration a in
  mkSessionAware max
    (filter (fun '(_, s) => hasExpired now max s = false) (sessions a))
    (reverse (remove_first (HasExpired now max) (reverse (packets a)))).

Definition PersistSession (now : Z) (session : SessionToPersist) (a : sessionAwareAdapter) : sessionAwareAdapter :=
  mkSessionAware (maxDisconnectDuration a) (<[PID session := mkSessionTS session now]> (sessions a)) (packets a).

Definition shouldIncludePacket (sessionRooms : list Room) (opts : BroadcastOptions RS) : bool :=
  let included := existsb (fun r => Contains r (Rooms opts)) sessionRooms in
  let included := (Cardinality (Rooms opts) =? 0) || included in
  let notExcluded := negb (existsb (fun r => Contains r (Except opts)) sessionRooms) in
  included && notExcluded.

(** The packets after the first one with this ID. *)
Fixpoint after_offset (offset : string) (l : list PersistedPacket) : option (list PersistedPacket) :=
  match l with
  | [] => None
  | p :: l' => if String.eqb (pp_ID p) offset then Some l' else after_offset offset l'
  end.

Definition RestoreSession (now : Z) (pid : string) (offset : string) (a : sessionAwareAdapter)
  : sessionAwareAdapter * option SessionToPersist :=
  match sessions a !! pid with
  | None => (a, None)
  | Some ts =>
      if hasExpired now (maxDisconnectDuration a) ts then
        (mkSessionAware (maxDisconnectDuration a) (delete pid (sessions a)) (packets a), None)
      else
        match after_offset offset (packets a) with
        | None => (a, None)
        | Some rest =>
            let s := sessionToPersist ts in
            let missedPackets := filter (fun p => shouldIncludePacket (s_Rooms s) (Opts p) = true) rest in
            (a, Some (mkSession (SID s) (PID s) (s_Rooms s) missedPackets))
        end
  end.

(** [Broadcast]: an event without acknowledgement is kept, with a new ID, which is also
    appended to its arguments; the rest is the in-memory adapter's [Broadcast], which gets
    the arguments returned. *)
Definition session_Broadcast (now : Z) (id : string) (of_string : string -> V) (header : PacketHeader) (v : list V)
    (opts : BroadcastOptions RS) (a : sessionAwareAdapter) : sessionAwareAdapter * list V :=
  let isEventPacket := bool_decide (Typ header = PacketTypeEvent) in
  let withoutAcknowledgement := match ID header with None => true | Some _ => false end in
  if isEventPacket && withoutAcknowledgement then
    let v' := v ++ [of_string id] in
    (mkSessionAware (maxDisconnectDuration a) (sessions a)
       (packets a ++ [mkPersistedPacket id now opts header v']), v')
  else (a, v).

(** ** While a socket is away *)

(** What the server does meanwhile, the rounds of [cleaner] apart: broadcasts, and the sessions of others. *)
Inductive sop :=
  | SBroadcast (now : Z) (id : string) (header : PacketHeader) (v : list V) (opts : BroadcastOptions RS)
  | SPersist (now : Z) (session : SessionToPersist)
  | SRestore (now : Z) (pid offset : string).

Definition sexec (of_string : string -> V) (a : sessionAwareAdapter) (o : sop) : sessionAwareAdapter :=
  match o with
  | SBroadcast now id header v opts => (session_Broadcast now id of_string header v opts a).1
  | SPersist now session => PersistSession now session a
  | SRestore now pid offset => (RestoreSession now pid offset a).1
  end.

(** An operation on another session than [pid]. *)
Definition leaves_alone (pid : string) (o : sop) : Prop :=
  match o with SBroadcast _ _ _ _ _ => True | SPersist _ s => PID s <> pid | SRestore _ p _ => p <> pid end.

(** The events that were broadcast, without an acknowledgement, with the ID that is their last argument. *)
Definition missed (of_string : string -> V) (o : sop) : option PersistedPacket :=
  match o with
  | SBroadcast now id header v opts =>
      match Typ header, ID header with
      | PacketTypeEvent, None => Some (mkPersistedPacket id now opts header (v ++ [of_string id]))
      | _, _ => None
      end
  | _ => None
  end.

(** ** Lemmas *)

Lemma sexec_keeps of_string pid o a :
  leaves_alone pid o ->
  sessions (sexec of_string a o) !! pid = sessions a !! pid /\
  maxDisconnectDuration (sexec of_string a o) = maxDisconnectDuration a /\
  packets (sexec of_string a o) = packets a ++ (match missed of_string o with Some p => [p] | None => [] end).
Proof.
  destruct o as [now id header v opts|now s|now p offset]; cbn [sexec leaves_alone missed]; intros HL.
  - unfold session_Broadcast. destruct (Typ header), (ID header); cbn; by rewrite ?app_nil_r.
  - cbn. by rewrite lookup_insert_ne, app_nil_r.
  - unfold RestoreSession. rewrite app_nil_r. destruct (sessions a !! p) as [ts|]; [|done].
    destruct (hasExpired _ _ _); cbn; [by rewrite lookup_delete_ne|]. by destruct (after_offset _ _).
Qed.

Lemma sexecs_keep of_string pid os a :
  Forall (leaves_alone pid) os ->
  let a' := fold_left (sexec of_string) os a in
  sessions a' !! pid = sessions a !! pid /\ maxDisconnectDuration a' = maxDisconnectDuration a /\
  packets a' = packets a ++ omap (missed of_string) os.
Proof.
  intros HF. revert a. induction HF as [|o os HL _ IH]; intros a; [cbn; by rewrite app_nil_r|].
  destruct (sexec_keeps of_string pid o a HL) as (E1 & E2 & E3). destruct (IH (sexec of_string a o)) as (F1 & F2 & F3).
  cbn [fold_left omap list_omap]. rewrite F1, F2, F3, E1, E2, E3. split; [done|split; [done|]].
  rewrite <- app_assoc. by destruct (missed of_string o).
Qed.

Lemma after_offset_app pre p post offset :
  Forall (fun q => pp_ID q <> offset) pre -> pp_ID p = offset ->
  after_offset offset (pre ++ p :: post) = Some post.
Proof.
  intros HF Hp. induction HF as [|q pre Hq HF IH]; cbn.
  - rewrite Hp, String.eqb_refl. done.
  - destruct (String.eqb_spec (pp_ID q) offset); done.
Qed.

Lemma existsb_true {A} (f : A -> bool) l : existsb f l = true <-> exists x, x ∈ l /\ f x = true.
Proof. rewrite existsb_exists. by setoid_rewrite list_elem_of_In. Qed.

Lemma cleaner_removes_last now a pre p :
  packets a = pre ++ [p] -> HasExpired now (maxDisconnectDuration a) p = true ->
  packets (cleaner_round now a) = pre.
Proof.
  intros HP HE. cbn. rewrite HP, reverse_snoc. cbn. rewrite HE. apply reverse_involutive.
Qed.

Lemma remove_first_keeps f l p : f p = false -> p ∈ l -> p ∈ remove_first f l.
Proof.
  intros Hp. induction l as [|q l IH]; cbn; [done|]. intros [->|Hin]%elem_of_cons.
  - rewrite Hp. left.
  - destruct (f q); [done|]. right. by apply IH.
Qed.
End session.
Arguments sessionAwareAdapter RS V : clear implicits.
Arguments PersistedPacket RS V : clear implicits.

(** ** Properties *)

Section properties.
Context {RS SS : Type} `{!MapSet Room RS} `{!MapSet SocketID SS} `{!LawfulMapSet Room RS} `{!LawfulMapSet SocketID SS}.
Context {V : Type}.

(** C32: The packets a recovered session is given are the packets it would have received:
    [shouldIncludePacket] accepts a packet for the rooms of a session exactly when the
    in-memory adapter would select a known socket that is in those rooms, and would not
    exclude it. *)
Theorem shouldIncludePacket_agrees (a : inMemoryAdapter RS SS) sid sessionRooms (opts : BroadcastOptions RS) :
  wf a -> known a sid = true -> (forall room, in_room a room sid = true <-> room ∈ sessionRooms) ->
  shouldIncludePacket sessionRooms opts = true <-> selected opts a sid /\ ~ excluded opts a sid.
Proof.
  intros HW HK HR. unfold shouldIncludePacket, selected, excluded.
  rewrite andb_true_iff, orb_true_iff, negb_true_iff, <- not_true_iff_false, !existsb_true.
  destruct (Nat.eqb_spec (Cardinality (Rooms opts)) 0); naive_solver.
Qed.


(** The cleaner loses packets that are still needed: when the newest packet was emitted
    less than the disconnection limit ago, one round of the cleaner removes it, so that a
    session that would have recovered it no longer does; and a packet older than the
    limit is never removed. *)
Theorem cleaner_drops_fresh now (a : sessionAwareAdapter RS V) pre p :
  packets a = pre ++ [p] -> (now < EmittedAt p + maxDisconnectDuration a)%Z ->
  packets (cleaner_round now a) = pre /\
  forall q, q ∈ packets a -> (EmittedAt q + maxDisconnectDuration a <= now)%Z -> q ∈ packets (cleaner_round now a).
Proof.
  intros HP HT. split.
  - apply (cleaner_removes_last now a pre p HP). by apply Z.ltb_lt.
  - intros q Hq Ht. cbn. apply elem_of_reverse, remove_first_keeps; [by apply Z.ltb_ge|]. by apply elem_of_reverse.
Qed.
End properties.

Definition sample_options : BroadcastOptions (gset string) := mkBroadcastOptions {["r"]} ∅ (mkBroadcastFlags false false).

Definition sample_packet (id : string) (t : Z) : PersistedPacket (gset string) string :=
  mkPersistedPacket id t sample_options (mkPacketHeader PacketTypeEvent "/" None 0) ["hi"; id].

Definition sample_session_adapter : sessionAwareAdapter (gset string) string :=
  mkSessionAware 120 ∅ [sample_packet "p1" 10; sample_packet "p2" 20].

Lemma shouldIncludePacket_agrees_witness :
  let a : gadapter := AddAll "a" ["r"] newInMemoryAdapter in
  shouldIncludePacket ["r"] sample_options = true <-> selected sample_options a "a" /\ ~ excluded sample_options a "a".
Proof.
  apply (shouldIncludePacket_agrees (AddAll "a" ["r"] newInMemoryAdapter : gadapter)).
  - apply wf_AddAll, wf_new.
  - vm_compute. reflexivity.
  - intros room. rewrite in_room_AddAll, orb_true_iff, andb_true_iff, !bool_decide_eq_true.
    split; [intros [[_ Hr]|Hr]; [done|]|intros Hr; by left]. cbn in Hr. done.
Defined.

(** A broadcast to everyone while the socket is away. *)
Definition sample_broadcast : sop :=
  SBroadcast 25 "p3" (mkPacketHeader PacketTypeEvent "/" None 0) ["hello"] (mkBroadcastOptions (∅ : gset string) ∅ (mkBroadcastFlags false false)).


Lemma cleaner_drops_fresh_witness :
  packets (cleaner_round 60 sample_session_adapter) = [sample_packet "p1" 10] /\
  forall q, q ∈ packets sample_session_adapter -> (EmittedAt q + 120 <= 60)%Z ->
    q ∈ packets (cleaner_round 60 sample_session_adapter).
Proof.
  apply (cleaner_drops_fresh 60 sample_session_adapter [sample_packet "p1" 10] (sample_packet "p2" 20)); [done|].
  cbn. lia.
Defined.
End session.
