(* ===== verification/RedisStream.v ===== *)
(** * The Redis stream adapter ([adapter/adapter_redis_stream.go])

    Servers that share a Redis server broadcast through a stream: [Broadcast] appends a
    message, and a goroutine of every adapter reads the stream and sends to the sockets
    of its own. Sessions and the positions of messages are kept under keys of Redis.

    The operations on rooms and the loops over sockets are, line by line, those of the
    in-memory adapter ([Adapter]), over the same two maps, so that the model uses its
    definitions. Redis, [encoding/json] and the yeast package are parameters;
    [log.Fatalf] ends the process. *)

From stdpp Require Import pretty countable.
From S2P Require Import Prelude Base64 Strconv MapSet SioPacket Adapter Stores Broadcast Session.

Module redisstream.
Import parser adapter session.

Definition DEFAULT_STREAM_NAME : string := "socket.io".
Definition DEFAULT_MAX_LEN : Z := 10000.
Definition DEFAULT_READ_COUNT : Z := 100.
Definition DEFAULT_SESSION_KEY_PREFIX : string := "sio:session:".
Definition DEFAULT_MESSAGE_ID_PREFIX : string := "sio:message:".

Record RedisStreamsAdapterOptions := mkStreamOptions {
  StreamName : string;
  MaxLength : Z;
  ReadCount : Z;
  SessionKeyPrefix : string;
  MaxDisconnectDuration : Z;
}.

(** The options as [NewRedisStreamAdapterCreator] completes them; [None] is nil. *)
Definition complete_options (opts : option RedisStreamsAdapterOptions) : RedisStreamsAdapterOptions :=
  let o := default (mkStreamOptions DEFAULT_STREAM_NAME DEFAULT_MAX_LEN DEFAULT_READ_COUNT DEFAULT_SESSION_KEY_PREFIX 0) opts in
  mkStreamOptions
    (if bool_decide (StreamName o = "") then DEFAULT_STREAM_NAME else StreamName o)
    (if (MaxLength o =? 0)%Z then DEFAULT_MAX_LEN else MaxLength o)
    (if (ReadCount o =? 0)%Z then DEFAULT_READ_COUNT else ReadCount o)
    (if bool_decide (SessionKeyPrefix o = "") then DEFAULT_SESSION_KEY_PREFIX else SessionKeyPrefix o)
    (if (MaxDisconnectDuration o =? 0)%Z then 2 * 60 * 1000000000 else MaxDisconnectDuration o)%Z.

(** ** Redis *)

Record XMessage := mkXMessage { x_ID : string; x_Values : gmap string bytes }.

(** The commands used, on the state [R] of a Redis server: [XADD] with a maximal length,
    [XRANGE] from an ID to the end, [XREAD] of one stream from an ID, [SET] with a time to
    live, [GET] and [GETDEL]. [None] is an error; a key that is not there is one, too. *)
Class Redis (R : Type) := {
  XAdd : string -> gmap string bytes -> Z -> R -> option (string * R);
  XRange : string -> string -> R -> option (list XMessage);
  XRead : string -> Z -> string -> R -> option (list XMessage);
  SetKey : string -> bytes -> Z -> R -> option R;
  GetKey : string -> R -> option bytes;
  GetDel : string -> R -> R * option bytes;
}.

(** Documented behaviour. [XADD] appends and evicts the oldest entries beyond the maximal
    length; [XRANGE] includes its start; a key that was set is there, for as long as it lives,
    and commands on one key or stream leave the others alone. *)
Class LawfulRedis (R : Type) `{Redis R} := {
  stream_entries : string -> R -> list XMessage;
  XAdd_appends name e max r id r' : XAdd name e max r = Some (id, r') ->
    (0 < max)%Z -> exists kept, kept `suffix_of` stream_entries name r /\
      stream_entries name r' = kept ++ [mkXMessage id e];
  XAdd_ID name e max r id r' : XAdd name e max r = Some (id, r') -> id <> ""%string;
  XAdd_keys name e max r id r' k : XAdd name e max r = Some (id, r') -> GetKey k r' = GetKey k r;
  XRange_from name r pre x post :
    stream_entries name r = pre ++ x :: post -> XRange name (x_ID x) r = Some (x :: post);
  SetKey_same k v ttl r r' : SetKey k v ttl r = Some r' -> (0 < ttl)%Z -> GetKey k r' = Some v;
  SetKey_other k v ttl r r' k' : SetKey k v ttl r = Some r' -> k' <> k -> GetKey k' r' = GetKey k' r;
  SetKey_stream k v ttl r r' name : SetKey k v ttl r = Some r' -> stream_entries name r' = stream_entries name r;
  GetDel_value k r : (GetDel k r).2 = GetKey k r;
  GetDel_other k r k' : k' <> k -> GetKey k' (GetDel k r).1 = GetKey k' r;
  GetDel_stream k r name : stream_entries name (GetDel k r).1 = stream_entries name r;
}.

(** ** Messages *)

(** [strconv.ParseInt(s, 10, 64)] *)
Definition ParseInt (s : bytes) : option Z :=
  let '(neg, digits) :=
    match s with
    | c :: s' => if Byte.eqb c "-"%byte then (true, s') else if Byte.eqb c "+"%byte then (false, s') else (false, s)
    | [] => (false, [])
    end in
  match ParseUint digits with
  | inr _ => None
  | inl n =>
      if neg then if (n <=? 2 ^ 63)%Z then Some (- n)%Z else None
      else if (n <? 2 ^ 63)%Z then Some n else None
  end.

(** [encoding/json] at the types of a message and of a session: what [MarshalBinary] and
    [UnmarshalJSON] of these types call. The rooms of options are written as arrays; a session is
    its ID, its private ID and its rooms. *)
Class StreamJSON (RS : Type) := {
  json_header : PacketHeader -> bytes;
  unjson_header : bytes -> option PacketHeader;
  json_strings : list bytes -> bytes;
  unjson_strings : bytes -> option (list bytes);
  json_options : BroadcastOptions RS -> bytes;
  unjson_options : bytes -> option (list Room * list Room * BroadcastFlags);
  json_session : SocketID * string * list Room -> bytes;
  unjson_session : bytes -> option (SocketID * string * list Room);
}.

Section stream.
Context {RS SS : Type} `{!MapSet Room RS} `{!MapSet SocketID SS}.
Context {ST Sock : Type} `{!SocketStore ST Sock}.
Context {R : Type} `{!Redis R} `{!StreamJSON RS}.

(** [EmittedAt] is in nanoseconds. *)
Record RedisStreamMessage := mkMessage {
  SessionId : string;
  m_Header : PacketHeader;
  Buffers : list bytes;
  m_Opts : BroadcastOptions RS;
  m_EmittedAt : Z;
}.

Definition log_Fatalf {E A} : outcome E A := Panic (UserPanic "log.Fatalf").

Definition or_fatal {E A} (o : option A) : outcome E A :=
  match o with Some a => Ret a | None => log_Fatalf end.

(** [msg.Values[key].(string)] panics when the field is not there. *)
Definition field {E} (key : string) (values : gmap string bytes) : outcome E bytes :=
  match values !! key with Some v => Ret v | None => Panic NilDeref end.

(** [BroadcastOptions.UnmarshalJSON] *)
Definition options_UnmarshalJSON (data : bytes) : option (BroadcastOptions RS) :=
  '(rs, es, flags) ← unjson_options data;
  Some (mkBroadcastOptions (add_all rs NewSet) (add_all es NewSet) flags).

Fixpoint decode_buffers (l : list bytes) : option (list bytes) :=
  match l with
  | [] => Some []
  | d :: l => b ← b64_decode d; bs ← decode_buffers l; Some (b :: bs)
  end.

Definition Parse {E} (values : gmap string bytes) : outcome E RedisStreamMessage :=
  sessionId ← field "sessionId" values;
  h ← field "header" values;
  header ← or_fatal (unjson_header h);
  b ← field "buffers" values;
  tmp ← or_fatal (unjson_strings b);
  buffers ← (if IsBinary header then or_fatal (decode_buffers tmp) else Ret tmp);
  o ← field "opts" values;
  opts ← or_fatal (options_UnmarshalJSON o);
  t ← field "emittedAt" values;
  unixTs ← or_fatal (ParseInt t);
  Ret (mkMessage (of_bytes sessionId) header buffers opts (unixTs * 1000000000)%Z).

(** The fields as go-redis writes them: strings and byte slices as they are, a
    [BinaryMarshaler] by its method, an integer in decimal. *)
Definition ToStreamData (m : RedisStreamMessage) : gmap string bytes :=
  let b := if IsBinary (m_Header m) then b64_encode <$> Buffers m else Buffers m in
  <["sessionId" := to_bytes (SessionId m)]> (
  <["header" := json_header (m_Header m)]> (
  <["buffers" := json_strings b]> (
  <["opts" := json_options (m_Opts m)]> (
  <["emittedAt" := Itoa (m_EmittedAt m / 1000000000)]> ∅)))).

(** [MarshalBinary] and [UnmarshalJSON] of [RedisStreamBuffer]: between byte slices and
    strings nothing is converted. *)
Definition buffer_MarshalBinary (b : list bytes) : bytes := json_strings b.

Definition buffer_UnmarshalJSON {E} (data : bytes) : outcome E (list bytes) := or_fatal (unjson_strings data).

(** ** The adapter *)

(** Its own maps and the socket store ([world]), and its options. *)
Record RedisStreamAdapter := mkRedisAdapter {
  ra_world : world RS SS ST;
  ra_maxDisconnectDuration : Z;
  ra_opts : RedisStreamsAdapterOptions;
}.

Definition NewRedisStreamAdapter (opts : option RedisStreamsAdapterOptions) (sockets : ST) : RedisStreamAdapter :=
  let opts := complete_options opts in
  mkRedisAdapter (mkWorld newInMemoryAdapter sockets) (MaxDisconnectDuration opts) opts.

Definition on_world (f : world RS SS ST -> world RS SS ST) (a : RedisStreamAdapter) : RedisStreamAdapter :=
  mkRedisAdapter (f (ra_world a)) (ra_maxDisconnectDuration a) (ra_opts a).

Definition on_rooms (f : inMemoryAdapter RS SS -> inMemoryAdapter RS SS) : RedisStreamAdapter -> RedisStreamAdapter :=
  on_world (fun w => mkWorld (f (w_adapter w)) (w_store w)).

Definition rs_ServerCount (a : RedisStreamAdapter) : Z := 1.
Definition rs_Close (a : RedisStreamAdapter) : RedisStreamAdapter := a.
Definition rs_ServerSideEmit {V} (header : PacketHeader) (v : list V) (a : RedisStreamAdapter) : RedisStreamAdapter := a.

Definition rs_computeExceptSids (exceptRooms : RS) (ro : list Room) (so : Room -> list SocketID) (a : inMemoryAdapter RS SS) : SS :=
  computeExceptSids exceptRooms ro so a.

Definition rs_apply {L} (callback : Sock -> world RS SS ST * L -> world RS SS ST * L) (opts : BroadcastOptions RS) (sch : schedule)
    (w : world RS SS ST * L) : world RS SS ST * L :=
  apply callback opts sch w.

Definition rs_AddAll (sid : SocketID) (rs : list Room) : RedisStreamAdapter -> RedisStreamAdapter := on_rooms (AddAll sid rs).
Definition rs_Delete (sid : SocketID) (room : Room) : RedisStreamAdapter -> RedisStreamAdapter := on_rooms (Delete sid room).
Definition rs_DeleteAll (sid : SocketID) (order : list Room) : RedisStreamAdapter -> RedisStreamAdapter :=
  on_rooms (DeleteAll sid order).
Definition rs_SocketRooms (sid : SocketID) (order : list Room) (a : RedisStreamAdapter) : option RS :=
  SocketRooms sid order (w_adapter (ra_world a)).
Definition rs_Sockets (rs : RS) (sch : schedule) (a : RedisStreamAdapter) : SS := Sockets rs sch (ra_world a).
Definition rs_FetchSockets (opts : BroadcastOptions RS) (sch : schedule) (a : RedisStreamAdapter) : list Sock :=
  FetchSockets opts sch (ra_world a).
Definition rs_AddSockets (opts : BroadcastOptions RS) (rs : list Room) (sch : schedule) : RedisStreamAdapter -> RedisStreamAdapter :=
  on_world (AddSockets opts rs sch).
Definition rs_DelSockets (opts : BroadcastOptions RS) (rs : list Room) (sch : schedule) : RedisStreamAdapter -> RedisStreamAdapter :=
  on_world (DelSockets opts rs sch).
Definition rs_DisconnectSockets (disconnect : bool -> Sock -> world RS SS ST -> world RS SS ST) (opts : BroadcastOptions RS)
    (close : bool) (sch : schedule) : RedisStreamAdapter -> RedisStreamAdapter :=
  on_world (DisconnectSockets disconnect opts close sch).

(** The body of the reader's loop over messages: [offset] and the sockets served. *)
Definition read_message {E} (sch : schedule) (st : string * RedisStreamAdapter) (message : XMessage) :
    outcome E (string * RedisStreamAdapter) :=
  m ← Parse (x_Values message);
  Ret (x_ID message, on_world (fun w => (rs_apply (no_local (send_to (Buffers m))) (m_Opts m) sch (w, tt)).1) st.2).

(** One turn of the reader: [XREAD] from the offset (["$"] at first), and all messages of
    the answer. [schs] are the orders of the loops, one for each message. *)
Fixpoint read_messages {E} (msgs : list (schedule * XMessage)) (st : string * RedisStreamAdapter) :
    outcome E (string * RedisStreamAdapter) :=
  match msgs with
  | [] => Ret st
  | (sch, m) :: msgs => st ← read_message sch st m; read_messages msgs st
  end.

Definition read_turn {E} (schs : list schedule) (r : R) (st : string * RedisStreamAdapter) :
    outcome E (string * RedisStreamAdapter) :=
  msgs ← or_fatal (XRead (StreamName (ra_opts st.2)) (ReadCount (ra_opts st.2)) st.1 r);
  read_messages (zip schs msgs) st.

(** [Encode] of the adapter's parser, which can change the header, and whether the second,
    discarded, JSON encoding of the arguments succeeds; [id] is what [Yeast] gives. *)
Definition rs_Broadcast {V E} (Encode : PacketHeader -> list V -> PacketHeader * outcome E (list bytes))
    (json_ok : list V -> bool) (of_string : string -> V) (now : Z) (id : string)
    (header : PacketHeader) (v : list V) (opts : BroadcastOptions RS) (a : RedisStreamAdapter) (r : R) : outcome E R :=
  let isEventPacket := bool_decide (Typ header = PacketTypeEvent) in
  let withoutAcknowledgement := match ID header with None => true | Some _ => false end in
  let isIncludedSession := isEventPacket && withoutAcknowledgement in
  let sessionId := if isIncludedSession then id else ""%string in
  let v := if isIncludedSession then v ++ [of_string id] else v in
  match Encode header v with
  | (_, Err _) => Panic (UserPanic "sio: Encode")
  | (_, Panic why) => Panic why
  | (header, Ret buffers) =>
      if negb (json_ok v) then Panic (UserPanic "sio: Encode")
      else
        let values := ToStreamData (mkMessage sessionId header buffers opts now) in
        '(messageID, r) ← or_fatal (XAdd (StreamName (ra_opts a)) values (MaxLength (ra_opts a)) r);
        if isIncludedSession
        then or_fatal (SetKey (DEFAULT_MESSAGE_ID_PREFIX ++ sessionId) (to_bytes messageID)
               (MaxDisconnectDuration (ra_opts a)) r)
        else Ret r
  end.

(** A packet to be replayed carries its encoded form. *)
Record replayed := mkReplayed {
  rp_ID : string;
  rp_EmittedAt : Z;
  rp_Opts : BroadcastOptions RS;
  rp_Header : PacketHeader;
  EncodedData : list bytes;
}.

Definition to_replay (m : RedisStreamMessage) : replayed :=
  mkReplayed (SessionId m) (m_EmittedAt m) (m_Opts m) (m_Header m) (Buffers m).

(** [MarshalBinary] and [UnmarshalBinary] of a session: its missed packets are not written, and not touched by reading. *)
Definition session_MarshalBinary (s : SocketID * string * list Room * list replayed) : bytes := json_session s.1.

Definition session_UnmarshalBinary (data : bytes) (s : SocketID * string * list Room * list replayed)
    : option (SocketID * string * list Room * list replayed) :=
  tmp ← unjson_session data; Some (tmp, s.2).

Definition rs_PersistSession {E} (session : SocketID * string * list Room) (a : RedisStreamAdapter) (r : R) : outcome E R :=
  or_fatal (SetKey (DEFAULT_SESSION_KEY_PREFIX ++ session.1.2) (json_session session) (ra_maxDisconnectDuration a) r).

Fixpoint missed {E} (rs : list Room) (messages : list XMessage) : outcome E (list replayed) :=
  match messages with
  | [] => Ret []
  | x :: messages =>
      m ← Parse (x_Values x);
      rest ← missed rs messages;
      Ret (if shouldIncludePacket rs (m_Opts m) then to_replay m :: rest else rest)
  end.

(** [None] is [ok = false]. *)
Definition rs_RestoreSession {E} (pid offset : string) (a : RedisStreamAdapter) (r : R) :
    outcome E (R * option (SocketID * string * list Room * list replayed)) :=
  let '(r, session) := GetDel (DEFAULT_SESSION_KEY_PREFIX ++ pid) r in
  match session ≫= unjson_session with
  | None => Ret (r, None)
  | Some s =>
      match GetKey (DEFAULT_MESSAGE_ID_PREFIX ++ offset) r with
      | None | Some [] => Ret (r, None)
      | Some messageID =>
          messages ← or_fatal (XRange (StreamName (ra_opts a)) (of_bytes messageID) r);
          missedPackets ← missed s.2 messages;
          Ret (r, Some (s, missedPackets))
      end
  end.
End stream.

Arguments RedisStreamMessage RS : clear implicits.
Arguments RedisStreamAdapter RS SS ST : clear implicits.
Arguments replayed RS : clear implicits.

(** ** What a message keeps *)

(** [encoding/json] carries texts that are valid UTF-8; plain ASCII is. *)
Class LawfulStreamJSON (RS : Type) `{!MapSet Room RS} `{!StreamJSON RS} := {
  valid_utf8 : bytes -> bool;
  valid_ascii b : forallb (fun c => (b2z c <? 128)%Z) b = true -> valid_utf8 b = true;
  header_json h : valid_utf8 (to_bytes (Namespace h)) = true -> unjson_header (json_header h) = Some h;
  strings_json l : forallb valid_utf8 l = true -> unjson_strings (json_strings l) = Some l;
  options_json o :
    (forall x, Contains x (Rooms o) = true \/ Contains x (Except o) = true -> valid_utf8 (to_bytes x) = true) ->
    exists rs es, unjson_options (json_options o) = Some (rs, es, Flags o) /\
      (forall x, x ∈ rs <-> Contains x (Rooms o) = true) /\ (forall x, x ∈ es <-> Contains x (Except o) = true);
  session_json sid pid rs :
    forallb valid_utf8 (to_bytes sid :: to_bytes pid :: (to_bytes <$> rs)) = true ->
    unjson_session (json_session (sid, pid, rs)) = Some (sid, pid, rs);
}.

Section laws.
Context {RS SS : Type} `{!MapSet Room RS} `{!MapSet SocketID SS}.
Context `{!LawfulMapSet Room RS} `{!LawfulMapSet SocketID SS}.
Context {ST Sock : Type} `{!SocketStore ST Sock} `{!LawfulSocketStore ST Sock}.
Context {R : Type} `{!Redis R} `{!LawfulRedis R} `{!StreamJSON RS} `{!LawfulStreamJSON RS}.

(** A [RedisStreamBuffer] comes back when its buffers are texts; unlike [ToStreamData] it does
    not encode binary ones. *)
Lemma stream_buffer_roundtrip {E} (b : list bytes) :
  forallb valid_utf8 b = true -> buffer_UnmarshalJSON (RS := RS) (E := E) (buffer_MarshalBinary (RS := RS) b) = Ret b.
Proof. intros Hb. unfold buffer_UnmarshalJSON, buffer_MarshalBinary. by rewrite strings_json. Qed.

Definition same_options (o o' : BroadcastOptions RS) : Prop :=
  (forall x, Contains x (Rooms o') = Contains x (Rooms o)) /\
  (forall x, Contains x (Except o') = Contains x (Except o)) /\ Flags o' = Flags o.

Definition wf_message (m : RedisStreamMessage RS) : Prop :=
  valid_utf8 (to_bytes (Namespace (m_Header m))) = true /\
  (IsBinary (m_Header m) = true \/ forallb valid_utf8 (Buffers m) = true) /\
  (forall x, Contains x (Rooms (m_Opts m)) = true \/ Contains x (Except (m_Opts m)) = true ->
     valid_utf8 (to_bytes x) = true) /\
  (0 <= m_EmittedAt m / 1000000000 < 2 ^ 63)%Z.

Lemma enc_char_ascii v : (b2z (enc_char v) <? 128)%Z = true.
Proof.
  unfold enc_char. destruct (nth_in_or_default (Z.to_nat v) encodeStd x00) as [Hin| ->]; [|done].
  assert (forallb (fun c => (b2z c <? 128)%Z) encodeStd = true) as Hall by (vm_compute; reflexivity).
  rewrite forallb_forall in Hall. by apply Hall.
Qed.

Lemma b64_encode_ascii l : forallb (fun c => (b2z c <? 128)%Z) (b64_encode l) = true.
Proof.
  induction l as [|a|a b|a b c l IH] using list_ind3; cbn [b64_encode forallb];
    rewrite ?enc_char_ascii; try done.
Qed.

Lemma decode_buffers_encode l : decode_buffers (b64_encode <$> l) = Some l.
Proof.
  induction l as [|b l IH]; [done|]. change (decode_buffers (b64_encode b :: (b64_encode <$> l)) = Some (b :: l)).
  cbn [decode_buffers]. rewrite b64_decode_encode. cbn [mbind option_bind]. by rewrite IH.
Qed.

Lemma ParseInt_Itoa n : (0 <= n < 2 ^ 63)%Z -> ParseInt (Itoa n) = Some n.
Proof.
  intros Hn. rewrite Itoa_FormatUint by lia. unfold ParseInt.
  pose proof (FormatUint_digits n ltac:(lia)) as Hd. pose proof (ParseUint_FormatUint n) as HP.
  unfold max_uint64 in HP. destruct (FormatUint n) as [|c s] eqn:E; [by apply FormatUint_nonempty in E|].
  destruct (Byte.eqb c "-"%byte) eqn:E1; [apply byte_eqb_eq in E1; subst; discriminate|].
  destruct (Byte.eqb c "+"%byte) eqn:E2; [apply byte_eqb_eq in E2; subst; discriminate|].
  rewrite HP by lia. destruct (Z.ltb_spec n (2 ^ 63)); [done|lia].
Qed.

Lemma options_roundtrip o :
  (forall x, Contains x (Rooms o) = true \/ Contains x (Except o) = true -> valid_utf8 (to_bytes x) = true) ->
  exists o', options_UnmarshalJSON (json_options o) = Some o' /\ same_options o o'.
Proof.
  intros Hv. destruct (options_json o Hv) as (rs & es & E & Hr & He). unfold options_UnmarshalJSON. rewrite E.
  eexists. split; [reflexivity|]. unfold same_options. cbn [Rooms Except Flags].
  split_and!; [| |done]; intros x; rewrite Contains_add_all, Contains_NewSet, orb_false_r; apply eq_iff_eq_true;
    rewrite bool_decide_eq_true; [apply Hr|apply He].
Qed.

Lemma stream_fields {E} (m : RedisStreamMessage RS) :
  field (E := E) "sessionId" (ToStreamData m) = Ret (to_bytes (SessionId m)) /\
  field (E := E) "header" (ToStreamData m) = Ret (json_header (m_Header m)) /\
  field (E := E) "buffers" (ToStreamData m) =
    Ret (json_strings (if IsBinary (m_Header m) then b64_encode <$> Buffers m else Buffers m)) /\
  field (E := E) "opts" (ToStreamData m) = Ret (json_options (m_Opts m)) /\
  field (E := E) "emittedAt" (ToStreamData m) = Ret (Itoa (m_EmittedAt m / 1000000000)).
Proof.
  unfold field, ToStreamData. split_and!;
    repeat (rewrite lookup_insert_ne by discriminate); by rewrite lookup_insert_eq.
Qed.

(** A message survives the stream: what [Parse] reads from the fields that [ToStreamData] wrote
    is the message, with the time cut to seconds and the rooms as sets. *)
Theorem message_roundtrip {E} (m : RedisStreamMessage RS) :
  wf_message m ->
  exists o, Parse (E := E) (ToStreamData m) =
      Ret (mkMessage (SessionId m) (m_Header m) (Buffers m) o (m_EmittedAt m / 1000000000 * 1000000000)) /\
    same_options (m_Opts m) o.
Proof.
  intros (Hh & Hb & Ho & Ht). destruct (options_roundtrip _ Ho) as (o & Eo & Hs). exists o. split; [|done].
  assert (Hbufs : unjson_strings (json_strings (if IsBinary (m_Header m) then b64_encode <$> Buffers m else Buffers m)) =
    Some (if IsBinary (m_Header m) then b64_encode <$> Buffers m else Buffers m)).
  { apply strings_json. destruct (IsBinary (m_Header m)); [|by destruct Hb].
    apply forallb_forall. intros x Hx%list_elem_of_In. apply list_elem_of_fmap in Hx as (b & -> & _).
    apply valid_ascii, b64_encode_ascii. }
  destruct (stream_fields (E := E) m) as (E1 & E2 & E3 & E4 & E5). unfold Parse.
  rewrite E1, E2, E3, E4, E5. cbn [mbind outcome_bind].
  rewrite (header_json _ Hh), Hbufs, Eo, (ParseInt_Itoa _ Ht). cbn [mbind outcome_bind or_fatal].
  destruct (IsBinary (m_Header m)); [rewrite decode_buffers_encode|]; cbn; by rewrite of_to_bytes.
Qed.

(** Options are used as sets only. *)
Lemma same_cardinality o o' : same_options o o' ->
  (Cardinality (Rooms o') =? 0) = (Cardinality (Rooms o) =? 0).
Proof.
  intros (Hr & _ & _). apply eq_iff_eq_true. rewrite !Nat.eqb_eq, !Cardinality_zero.
  split; intros Hz x; specialize (Hz x); by rewrite <- Hz, Hr.
Qed.

Lemma same_include rs o o' : same_options o o' -> shouldIncludePacket rs o' = shouldIncludePacket rs o.
Proof.
  intros Hs. unfold shouldIncludePacket. rewrite (same_cardinality _ _ Hs). destruct Hs as (Hr & He & _).
  assert (forall (f g : Room -> bool) l, (forall x, f x = g x) -> existsb f l = existsb g l) as Hext.
  { intros f g l Hfg. induction l as [|x l IH]; [done|]. cbn. by rewrite Hfg, IH. }
  by rewrite (Hext _ _ rs Hr), (Hext _ _ rs He).
Qed.

Lemma same_target o o' (w : world RS SS ST) sid (socket : Sock) :
  same_options o o' -> target o' w sid socket <-> target o w sid socket.
Proof.
  intros Hs. unfold target, selected, excluded. rewrite (same_cardinality _ _ Hs). destruct Hs as (Hr & He & _).
  destruct (Cardinality (Rooms o) =? 0); setoid_rewrite Hr || idtac; by setoid_rewrite He.
Qed.

Lemma same_ready o o' sch (w : world RS SS ST) :
  same_options o o' -> broadcast.ready o sch w -> broadcast.ready o' sch w.
Proof.
  intros (Hr & He & _) (HW & HO & H1 & H2 & H3). unfold broadcast.ready, complete.
  split; [done|]. split; [done|]. split; [intros room; rewrite He; auto|].
  split; [intros room; rewrite Hr; auto|]. exact H3.
Qed.

(** What the reader does with a message of the stream. *)
Lemma read_message_reaches {E} (m : RedisStreamMessage RS) id offset (b : RedisStreamAdapter RS SS ST) sch :
  wf_message m -> broadcast.ready (m_Opts m) sch (ra_world b) ->
  exists vs : list Sock,
    NoDup (sock_ID <$> vs) /\
    (forall socket, socket ∈ vs <-> exists sid, target (m_Opts m) (ra_world b) sid socket) /\
    read_message (E := E) sch (offset, b) (mkXMessage id (ToStreamData m)) =
      Ret (id, on_world (fun w => mkWorld (w_adapter w)
        (fold_left (fun st socket => (SendBuffers (sock_ID socket) (Buffers m) st).1) vs (w_store w))) b).
Proof.
  intros Hm Hready. destruct (message_roundtrip (E := E) m Hm) as (o & EP & Hs).
  destruct (same_ready _ _ _ _ Hs Hready) as (HW & HO & HC).
  destruct (apply_called _ (broadcast.confined_send (Buffers m)) o (ra_world b) tt sch HW HC HO)
    as (vs & (Hfold & HN & _) & HV).
  exists vs. split; [done|]. split.
  - intros socket. rewrite HV. split; intros [sid Ht]; exists sid; by apply (same_target _ _ _ _ _ Hs).
  - unfold read_message. cbn [x_Values x_ID snd]. rewrite EP. cbn [mbind outcome_bind Buffers m_Opts].
    unfold on_world, rs_apply. by rewrite Hfold, broadcast.fold_no_local, broadcast.fold_send.
Qed.

Section broadcast.
Context {V E : Type} (Encode : PacketHeader -> list V -> PacketHeader * outcome E (list bytes)).
Context (json_ok : list V -> bool) (of_string : string -> V) (now : Z) (id : string).

(** The ID that is appended to the arguments of an event without acknowledgement. *)
Definition included_session (header : PacketHeader) : bool :=
  bool_decide (Typ header = PacketTypeEvent) && match ID header with None => true | Some _ => false end.

Definition sent_args (header : PacketHeader) (v : list V) : list V :=
  if included_session header then v ++ [of_string id] else v.

Definition sent_message (header header' : PacketHeader) (buffers : list bytes) (opts : BroadcastOptions RS) :
    RedisStreamMessage RS :=
  mkMessage (if included_session header then id else ""%string) header' buffers opts now.

(** What [Broadcast] leaves in Redis. *)
Lemma rs_Broadcast_recorded header v opts (a : RedisStreamAdapter RS SS ST) r r' header' buffers :
  Encode header (sent_args header v) = (header', Ret buffers) -> (0 < MaxLength (ra_opts a))%Z ->
  rs_Broadcast Encode json_ok of_string now id header v opts a r = Ret r' ->
  exists pre messageID, stream_entries (StreamName (ra_opts a)) r' =
      pre ++ [mkXMessage messageID (ToStreamData (sent_message header header' buffers opts))] /\
    messageID <> ""%string /\
    (included_session header = true -> (0 < MaxDisconnectDuration (ra_opts a))%Z ->
       GetKey (DEFAULT_MESSAGE_ID_PREFIX ++ id) r' = Some (to_bytes messageID)).
Proof.
  intros HE Hmax HB. unfold rs_Broadcast in HB. fold (included_session header) in HB. fold (sent_args header v) in HB.
  rewrite HE in HB. destruct (json_ok _); [|discriminate]. cbn [negb] in HB.
  fold (sent_message header header' buffers opts) in HB.
  destruct (XAdd _ _ _ r) as [[messageID r1]|] eqn:EX; [|discriminate]. cbn [or_fatal mbind outcome_bind] in HB.
  destruct (XAdd_appends _ _ _ _ _ _ EX Hmax) as (kept & _ & Hk). exists kept, messageID.
  destruct (included_session header) eqn:Ei.
  - destruct (SetKey _ _ _ r1) as [r2|] eqn:ES; [|discriminate]. injection HB as <-.
    rewrite (SetKey_stream _ _ _ _ _ _ ES). split; [done|]. split; [by eapply XAdd_ID|].
    intros _ Hd. by eapply SetKey_same.
  - injection HB as <-. split; [done|]. split; [by eapply XAdd_ID|done].
Qed.

(** Every adapter that reads the stream delivers the broadcast, whatever its flags. *)
Lemma stream_delivers header v opts (a : RedisStreamAdapter RS SS ST) r r' header' buffers :
  Encode header (sent_args header v) = (header', Ret buffers) -> (0 < MaxLength (ra_opts a))%Z ->
  wf_message (sent_message header header' buffers opts) ->
  rs_Broadcast Encode json_ok of_string now id header v opts a r = Ret r' ->
  exists pre x, stream_entries (StreamName (ra_opts a)) r' = pre ++ [x] /\
    forall (b : RedisStreamAdapter RS SS ST) sch offset, broadcast.ready opts sch (ra_world b) ->
      exists vs : list Sock,
        NoDup (sock_ID <$> vs) /\
        (forall socket, socket ∈ vs <-> exists sid, target opts (ra_world b) sid socket) /\
        read_message (E := E) sch (offset, b) x =
          Ret (x_ID x, on_world (fun w => mkWorld (w_adapter w)
            (fold_left (fun st socket => (SendBuffers (sock_ID socket) buffers st).1) vs (w_store w))) b).
Proof.
  intros HE Hmax Hwf HB. destruct (rs_Broadcast_recorded _ _ _ _ _ _ _ _ HE Hmax HB) as (pre & mid & Hs & _).
  exists pre. eexists. split; [exact Hs|]. intros b sch offset Hready.
  by apply (read_message_reaches (sent_message header header' buffers opts)).
Qed.

(** C38: A broadcast that is not local reaches every server. The message is appended to the stream, and every adapter that reads it, whatever its server and
    whatever its namespace, sends the encoded packet exactly once to each of its own sockets that the options select, and to no other. The namespace of the packet
    is not looked at: an adapter of another namespace delivers it, too. For options without the Local flag (which does not keep a broadcast on its server,
    [local_broadcast_leaves]), a stream with a positive length, packets that [Encode] accepts and Redis takes, and a message [wf_message]: the
    namespace, the rooms and the text of a packet that is not binary are valid UTF-8, which the JSON of the entry keeps, and its time is representable. *)
Theorem stream_reaches header v opts (a : RedisStreamAdapter RS SS ST) r r' header' buffers :
  Local (Flags opts) = false -> Encode header (sent_args header v) = (header', Ret buffers) -> (0 < MaxLength (ra_opts a))%Z ->
  wf_message (sent_message header header' buffers opts) ->
  rs_Broadcast Encode json_ok of_string now id header v opts a r = Ret r' ->
  exists pre x, stream_entries (StreamName (ra_opts a)) r' = pre ++ [x] /\
    forall (b : RedisStreamAdapter RS SS ST) sch offset, broadcast.ready opts sch (ra_world b) ->
      exists vs : list Sock,
        NoDup (sock_ID <$> vs) /\
        (forall socket, socket ∈ vs <-> exists sid, target opts (ra_world b) sid socket) /\
        read_message (E := E) sch (offset, b) x =
          Ret (x_ID x, on_world (fun w => mkWorld (w_adapter w)
            (fold_left (fun st socket => (SendBuffers (sock_ID socket) buffers st).1) vs (w_store w))) b).
Proof. intros _. apply stream_delivers. Qed.

(** The Local flag is not looked at: a broadcast that is documented to stay on the current server is appended to the stream, and delivered by every server that
    reads it. *)
Theorem local_broadcast_leaves header v opts (a : RedisStreamAdapter RS SS ST) r r' header' buffers :
  Local (Flags opts) = true -> Encode header (sent_args header v) = (header', Ret buffers) -> (0 < MaxLength (ra_opts a))%Z ->
  wf_message (sent_message header header' buffers opts) ->
  rs_Broadcast Encode json_ok of_string now id header v opts a r = Ret r' ->
  exists pre x, stream_entries (StreamName (ra_opts a)) r' = pre ++ [x] /\
    forall (b : RedisStreamAdapter RS SS ST) sch offset, broadcast.ready opts sch (ra_world b) ->
      exists vs : list Sock,
        NoDup (sock_ID <$> vs) /\
        (forall socket, socket ∈ vs <-> exists sid, target opts (ra_world b) sid socket) /\
        read_message (E := E) sch (offset, b) x =
          Ret (x_ID x, on_world (fun w => mkWorld (w_adapter w)
            (fold_left (fun st socket => (SendBuffers (sock_ID socket) buffers st).1) vs (w_store w))) b).
Proof. intros _. apply stream_delivers. Qed.

Lemma keys_differ x y : (DEFAULT_MESSAGE_ID_PREFIX ++ x)%string <> (DEFAULT_SESSION_KEY_PREFIX ++ y)%string.
Proof. discriminate. Qed.

(** C34: Recovery through Redis repeats the last packet. When a broadcast with the ID [id] was the last
    one, the session of a socket is persisted and is then restored at the offset [id], that is, for a
    client that has received everything: the session is found with its rooms, and the packets to
    be replayed are not none, but the broadcast of that offset itself, provided that it was for the
    socket, since [XRANGE] includes its start. *)
Theorem restore_repeats_last header v opts (a : RedisStreamAdapter RS SS ST) r r1 r2 header' buffers sid pid rs :
  Encode header (sent_args header v) = (header', Ret buffers) -> included_session header = true ->
  (0 < MaxLength (ra_opts a))%Z -> (0 < MaxDisconnectDuration (ra_opts a))%Z ->
  (0 < ra_maxDisconnectDuration a)%Z ->
  wf_message (sent_message header header' buffers opts) ->
  forallb valid_utf8 (to_bytes sid :: to_bytes pid :: (to_bytes <$> rs)) = true ->
  rs_Broadcast Encode json_ok of_string now id header v opts a r = Ret r1 ->
  rs_PersistSession (E := E) (sid, pid, rs) a r1 = Ret r2 ->
  exists r3 o, same_options opts o /\
    rs_RestoreSession (E := E) pid id a r2 = Ret (r3, Some ((sid, pid, rs),
      if shouldIncludePacket rs opts
      then [mkReplayed id (now / 1000000000 * 1000000000) o header' buffers] else [])).
Proof.
  intros HE Hi Hmax Hd Hd' Hwf Hutf HB HP.
  destruct (rs_Broadcast_recorded _ _ _ _ _ _ _ _ HE Hmax HB) as (pre & mid & Hs & Hid & Hk). specialize (Hk Hi Hd).
  unfold rs_PersistSession in HP. cbn [fst snd] in HP.
  destruct (SetKey _ _ _ r1) as [r2'|] eqn:ES; [|discriminate]. injection HP as ->.
  destruct (message_roundtrip (E := E) _ Hwf) as (o & EP & Ho).
  exists (GetDel (DEFAULT_SESSION_KEY_PREFIX ++ pid) r2).1, o. split; [done|].
  assert (Hv : (GetDel (DEFAULT_SESSION_KEY_PREFIX ++ pid) r2).2 = Some (json_session (sid, pid, rs))).
  { rewrite GetDel_value. by eapply SetKey_same. }
  assert (Hm : GetKey (DEFAULT_MESSAGE_ID_PREFIX ++ id) (GetDel (DEFAULT_SESSION_KEY_PREFIX ++ pid) r2).1 = Some (to_bytes mid)).
  { rewrite GetDel_other by apply keys_differ. rewrite (SetKey_other _ _ _ _ _ _ ES) by apply keys_differ. done. }
  assert (Hx : XRange (StreamName (ra_opts a)) mid (GetDel (DEFAULT_SESSION_KEY_PREFIX ++ pid) r2).1 =
    Some [mkXMessage mid (ToStreamData (sent_message header header' buffers opts))]).
  { apply (XRange_from _ _ pre (mkXMessage mid _)). by rewrite GetDel_stream, (SetKey_stream _ _ _ _ _ _ ES). }
  unfold rs_RestoreSession. destruct (GetDel _ r2) as [r3 sess]. cbn [fst snd] in *. subst sess.
  cbn [mbind option_bind]. rewrite session_json by done. rewrite Hm.
  destruct (to_bytes mid) as [|c l] eqn:Em.
  { destruct Hid. by rewrite <- (of_to_bytes mid), Em. }
  rewrite <- Em, of_to_bytes, Hx. cbn [or_fatal mbind outcome_bind missed x_Values]. rewrite EP.
  cbn [mbind outcome_bind m_Opts snd]. rewrite (same_include _ _ _ Ho). unfold sent_message in *. rewrite Hi.
  cbn. by destruct (shouldIncludePacket rs opts).
Qed.
End broadcast.
End laws.

(** ** A Redis server and a serializer for witnesses *)

(** A stream is the number of entries evicted and the entries that are left; an entry's ID is
    its number. *)
Record sample_redis := mkSampleRedis {
  sr_streams : gmap string (nat * list (gmap string bytes));
  sr_keys : gmap string bytes;
}.

Definition number (i : nat) : string := ("0-" ++ pretty i)%string.

Definition entries_of (s : nat * list (gmap string bytes)) : list XMessage :=
  imap (fun i e => mkXMessage (number (s.1 + i)) e) s.2.

Definition sample_entries (name : string) (r : sample_redis) : list XMessage :=
  entries_of (default (0, []) (sr_streams r !! name)).

Fixpoint from_ID (id : string) (l : list XMessage) : list XMessage :=
  match l with
  | [] => []
  | x :: l' => if bool_decide (x_ID x = id) then l else from_ID id l'
  end.

(** Appending, then evicting. *)
Definition append_entry (e : gmap string bytes) (max : nat) (s : nat * list (gmap string bytes)) :
    nat * list (gmap string bytes) :=
  let l := s.2 ++ [e] in
  let evicted := length l - max in
  (s.1 + evicted, drop evicted l).

#[export] Instance redis_sample : Redis sample_redis := {
  XAdd name e max r :=
    let s := default (0, []) (sr_streams r !! name) in
    Some (number (s.1 + length s.2),
          mkSampleRedis (<[name := append_entry e (Z.to_nat max) s]> (sr_streams r)) (sr_keys r));
  XRange name start r := Some (from_ID start (sample_entries name r));
  XRead name count start r := Some (take (Z.to_nat count) (drop 1 (from_ID start (sample_entries name r))));
  SetKey k v ttl r := Some (mkSampleRedis (sr_streams r) (if (0 <? ttl)%Z then <[k := v]> (sr_keys r) else delete k (sr_keys r)));
  GetKey k r := sr_keys r !! k;
  GetDel k r := (mkSampleRedis (sr_streams r) (delete k (sr_keys r)), sr_keys r !! k);
}.

Lemma number_inj i j : number i = number j -> i = j.
Proof. intros E. injection E as E. by apply pretty_nat_inj. Qed.

Lemma from_ID_entries s pre x post :
  entries_of s = pre ++ x :: post -> from_ID (x_ID x) (pre ++ x :: post) = x :: post.
Proof.
  intros Hs. assert (HN : NoDup (x_ID <$> (pre ++ x :: post))).
  { rewrite <- Hs. apply NoDup_alt. intros i j id Hi Hj. unfold entries_of in Hi, Hj.
    apply list_lookup_fmap_Some in Hi as (y & -> & Hi), Hj as (z & Ez & Hj).
    apply list_lookup_imap_Some in Hi as (e1 & _ & ->), Hj as (e2 & _ & ->). cbn in Ez.
    apply number_inj in Ez. lia. }
  clear Hs. induction pre as [|y pre IH]; cbn [app from_ID] in *.
  - by rewrite bool_decide_true.
  - apply NoDup_cons in HN as [Hy HN]. rewrite bool_decide_false; [by apply IH|].
    intros E. apply Hy. rewrite E. apply list_elem_of_fmap. exists x. split; [done|]. set_solver.
Qed.

Lemma append_entries e max s :
  0 < max -> exists kept, kept `suffix_of` entries_of s /\
    entries_of (append_entry e max s) = kept ++ [mkXMessage (number (s.1 + length s.2)) e].
Proof.
  intros Hmax. destruct s as [n l]. unfold append_entry. cbn [fst snd]. rewrite length_app. cbn [length].
  set (d := length l + 1 - max). assert (d <= length l) as Hd by lia.
  exists (entries_of (n + d, drop d l)). unfold entries_of. cbn [fst snd].
  rewrite drop_app_le by lia. rewrite imap_app, length_drop. cbn [imap].
  split; [|by replace (n + d + (length l - d + 0)) with (n + length l) by lia].
  exists (imap (fun i e => mkXMessage (number (n + i)) e) (take d l)).
  rewrite <- (take_drop d l) at 1. rewrite imap_app. f_equal.
  rewrite length_take. apply imap_ext. intros i x _. cbn. f_equal. f_equal. lia.
Qed.

#[export] Instance redis_sample_lawful : LawfulRedis sample_redis.
Proof.
  refine {| stream_entries := sample_entries |}; cbn.
  - intros name e max r id r' [= <- <-] Hmax. unfold sample_entries. cbn. rewrite lookup_insert_eq. cbn [default from_option id].
    apply append_entries. lia.
  - by intros name e max r id r' [= <- _].
  - by intros name e max r id r' k [= _ <-].
  - intros name r pre x post Hs. rewrite Hs. f_equal. by eapply from_ID_entries.
  - intros k v ttl r r' [= <-] Ht. cbn. destruct (Z.ltb_spec 0 ttl); [|lia]. by rewrite lookup_insert_eq.
  - intros k v ttl r r' k' [= <-] Hk. cbn. destruct (0 <? ttl)%Z; [by rewrite lookup_insert_ne|by rewrite lookup_delete_ne].
  - by intros k v ttl r r' name [= <-].
  - done.
  - intros k r k' Hk. cbn. by rewrite lookup_delete_ne.
  - done.
Defined.

(** Bytes for any countable type: the bits of its code. *)
Fixpoint pos_bytes (p : positive) : bytes :=
  match p with
  | xH => []
  | xO p => x00 :: pos_bytes p
  | xI p => x01 :: pos_bytes p
  end.

Fixpoint bytes_pos (b : bytes) : positive :=
  match b with
  | [] => xH
  | c :: b => if Byte.eqb c x00 then xO (bytes_pos b) else xI (bytes_pos b)
  end.

Lemma bytes_pos_bytes p : bytes_pos (pos_bytes p) = p.
Proof. induction p as [p IH|p IH|]; cbn; by rewrite ?IH. Qed.

Definition to_code {A} `{Countable A} (x : A) : bytes := pos_bytes (encode x).
Definition of_code {A} `{Countable A} (b : bytes) : option A := decode (bytes_pos b).

Lemma of_to_code {A} `{Countable A} (x : A) : of_code (to_code x) = Some x.
Proof. unfold of_code, to_code. by rewrite bytes_pos_bytes, decode_encode. Qed.

Definition header_tuple (h : PacketHeader) : Z * string * option Z * Z :=
  (PacketType_num (Typ h), Namespace h, ID h, Attachments h).

Definition tuple_header (t : Z * string * option Z * Z) : option PacketHeader :=
  let '(n, ns, id, k) := t in typ ← PacketType_of_num n; Some (mkPacketHeader typ ns id k).

#[export] Instance stream_json_sample : StreamJSON (gset string) := {
  json_header h := to_code (header_tuple h);
  unjson_header b := of_code b ≫= tuple_header;
  json_strings l := to_code (map of_bytes l);
  unjson_strings b := option_map (map to_bytes) (of_code b);
  json_options o := to_code (elements (Rooms o), elements (Except o), Compress (Flags o), Local (Flags o));
  unjson_options b :=
    match (of_code b : option (list string * list string * bool * bool)) with
    | Some (rs, es, c, l) => Some (rs, es, mkBroadcastFlags c l)
    | None => None
    end;
  json_session s := to_code s;
  unjson_session b := of_code b;
}.

#[export] Instance stream_json_sample_lawful : LawfulStreamJSON (gset string).
Proof.
  refine {| valid_utf8 := fun _ => true |}; cbn.
  - done.
  - intros h _. rewrite of_to_code. cbn. by destruct h as [[] ns id k].
  - intros l _. rewrite of_to_code. cbn. f_equal. rewrite map_map.
    rewrite <- (map_id l) at 2. apply map_ext. apply to_of_bytes.
  - intros o _. rewrite of_to_code. cbn. exists (elements (Rooms o)), (elements (Except o)).
    split; [by destruct (Flags o)|]. split; intros x; rewrite elem_of_elements, bool_decide_eq_true; done.
  - intros sid pid rs _. by rewrite of_to_code.
Defined.

(** ** Witnesses *)

Abbreviation sample_adapter := (RedisStreamAdapter (gset string) (gset string) (nspSocketStore.nspSocketStore string (list (string * list bytes)))).

Definition sample_ra : sample_adapter :=
  mkRedisAdapter broadcast.sample_world 100 (complete_options None).

Definition sample_encode (h : PacketHeader) (v : list bytes) : PacketHeader * outcome unit (list bytes) := (h, Ret v).

Definition sample_event : PacketHeader := mkPacketHeader PacketTypeEvent "/admin" None 0.

Definition sample_after_broadcast : outcome unit sample_redis :=
  rs_Broadcast (V := bytes) sample_encode (fun _ => true) to_bytes 1500000000 "Oa1" sample_event [[x61]]
    broadcast.sample_opts sample_ra (mkSampleRedis ∅ ∅).

Definition get_redis (o : outcome unit sample_redis) : sample_redis :=
  match o with Ret r => r | _ => mkSampleRedis ∅ ∅ end.

Lemma stream_reaches_witness :
  exists pre x, stream_entries "socket.io" (get_redis sample_after_broadcast) = pre ++ [x] /\
    forall (b : sample_adapter) sch offset,
      @broadcast.ready _ _ _ _ _ _ broadcast.sample_ss broadcast.sample_lss broadcast.sample_opts sch (ra_world b) ->
      exists vs : list string,
        NoDup ((fun s => s) <$> vs) /\
        (forall socket, socket ∈ vs <->
           exists sid, @target _ _ _ _ _ _ broadcast.sample_ss broadcast.sample_opts (ra_world b) sid socket) /\
        @read_message _ _ _ _ _ _ broadcast.sample_ss _ unit sch (offset, b) x =
          Ret (x_ID x, on_world (fun w => mkWorld (w_adapter w)
            (fold_left (fun st socket => (@SendBuffers _ _ broadcast.sample_ss socket [[x61]; to_bytes "Oa1"] st).1) vs
               (w_store w))) b).
Proof.
  apply (@stream_reaches _ _ _ _ _ _ _ _ broadcast.sample_ss broadcast.sample_lss _ _ _ _ _ bytes unit sample_encode
    (fun _ => true) to_bytes 1500000000 "Oa1" sample_event [[x61]] broadcast.sample_opts sample_ra
    (mkSampleRedis ∅ ∅) _ sample_event [[x61]; to_bytes "Oa1"]).
  - reflexivity.
  - reflexivity.
  - reflexivity.
  - split; [done|]. split; [by right|]. split; [done|]. vm_compute. split; [discriminate|reflexivity].
  - reflexivity.
Defined.

Lemma restore_repeats_last_witness :
  exists r3 o, same_options broadcast.sample_opts o /\
    rs_RestoreSession (E := unit) "p" "Oa1" sample_ra
      (get_redis (rs_PersistSession ("a", "p", ["a"; "r"]) sample_ra (get_redis sample_after_broadcast))) =
    Ret (r3, Some (("a", "p", ["a"; "r"]),
      [mkReplayed "Oa1" 1000000000 o sample_event [[x61]; to_bytes "Oa1"]])).
Proof.
  assert (shouldIncludePacket ["a"; "r"] broadcast.sample_opts = true) as Hi by (vm_compute; reflexivity).
  generalize (fun H1 H2 H3 H4 H5 H6 H7 H8 H9 => restore_repeats_last (V := bytes) (E := unit) sample_encode
    (fun _ => true) to_bytes 1500000000 "Oa1" sample_event [[x61]] broadcast.sample_opts sample_ra
    (mkSampleRedis ∅ ∅) (get_redis sample_after_broadcast)
    (get_redis (rs_PersistSession ("a", "p", ["a"; "r"]) sample_ra (get_redis sample_after_broadcast)))
    sample_event [[x61]; to_bytes "Oa1"] "a" "p" ["a"; "r"] H1 H2 H3 H4 H5 H6 H7 H8 H9).
  rewrite Hi. intros T. apply T; clear T.
  - reflexivity.
  - reflexivity.
  - reflexivity.
  - reflexivity.
  - reflexivity.
  - split; [done|]. split; [by right|]. split; [done|]. vm_compute. split; [discriminate|reflexivity].
  - reflexivity.
  - reflexivity.
  - reflexivity.
Defined.

End redisstream.
