(* ===== verification/Queues.v ===== *)
(** * Packet queues ([packet_queue.go], [engine.io/transport/polling/poll_queue.go])

    The queues between the goroutines that send packets and the one that takes them.
    Every step is a critical section or a channel operation of the source; the runs
    are the interleavings. *)

From S2P Require Import Prelude.

(** ** [packetQueue] *)

Module packetQueue.
Section queue.
Context {P : Type}.

(** Where the polling goroutine is: before the first [get] of [poll], in the [select],
    after receiving from [ready], or gone ([_close] received). *)
Inductive poller := PollStart | PollSelect | PollReady | PollClosed.

(** [waitForDrain]: not called, past the check of the length, in the [select], back. *)
Inductive waiter := WaitIdle | WaitChecked | WaitSelect | WaitDone (timedout : bool).

Record packetQueue := mkQueue {
  q_packets : list P;
  q_ready : bool;          (* the buffered channel [ready] holds a value *)
  q_reset : bool;          (* so does [_reset] *)
  q_close : bool;          (* so does [_close] *)
  q_signals : nat;         (* calls of [add] between the unlock and the send on [ready] *)
  q_poller : poller;
  q_waiter : waiter;
  q_added : list P;        (* everything added so far, in order *)
  q_sent : list P;         (* everything [poll] returned so far, in order *)
}.

Definition newPacketQueue : packetQueue := mkQueue [] false false false 0 PollStart WaitIdle [] [].

(** [get]: what it returns, and the queue without it. *)
Definition q_get (q : packetQueue) : list P := q_packets q.

Definition set_poller (pc : poller) (q : packetQueue) : packetQueue :=
  mkQueue (q_packets q) (q_ready q) (q_reset q) (q_close q) (q_signals q) pc (q_waiter q) (q_added q) (q_sent q).

(** [poll] returns the packets of [get] to [pollAndSend], which sends them. *)
Definition take_all (pc : poller) (w : waiter) (q : packetQueue) : packetQueue :=
  mkQueue [] (q_ready q) (q_reset q) (q_close q) (q_signals q) pc w (q_added q) (q_sent q ++ q_get q).

(** [add], up to the unlock. *)
Definition q_add (packets : list P) (q : packetQueue) : packetQueue :=
  mkQueue (if length (q_packets q) =? 0 then packets else q_packets q ++ packets)
    (q_ready q) (q_reset q) (q_close q) (S (q_signals q)) (q_poller q) (q_waiter q) (q_added q ++ packets) (q_sent q).

(** The rest of [add]: a send on [ready] that does not block. *)
Definition q_signal (q : packetQueue) : packetQueue :=
  mkQueue (q_packets q) true (q_reset q) (q_close q) (q_signals q - 1) (q_poller q) (q_waiter q) (q_added q) (q_sent q).

Definition q_do_reset (q : packetQueue) : packetQueue :=
  mkQueue [] (q_ready q) true (q_close q) (q_signals q) (q_poller q) (q_waiter q) (q_added q) (q_sent q).

Definition q_do_close (q : packetQueue) : packetQueue :=
  mkQueue [] (q_ready q) (q_reset q) true (q_signals q) (q_poller q) (q_waiter q) (q_added q) (q_sent q).

(** The first [get] of [poll]. *)
Definition poll_start (q : packetQueue) : packetQueue :=
  match q_get q with
  | [] => set_poller PollSelect q
  | _ => take_all PollStart (q_waiter q) q
  end.

(** [case <-pq.ready]. *)
Definition poll_receive (q : packetQueue) : packetQueue :=
  mkQueue (q_packets q) false (q_reset q) (q_close q) (q_signals q) PollReady (q_waiter q) (q_added q) (q_sent q).

(** The rest of that case: [get], then a send on [drain] that does not block: it is
    received only by a [waitForDrain] that is in its [select]. *)
Definition poll_ready (q : packetQueue) : packetQueue :=
  take_all PollStart (match q_waiter q with WaitSelect => WaitDone false | w => w end) q.

Definition set_waiter (w : waiter) (reset : bool) (q : packetQueue) : packetQueue :=
  mkQueue (q_packets q) (q_ready q) reset (q_close q) (q_signals q) (q_poller q) w (q_added q) (q_sent q).

(** The check of [waitForDrain]. *)
Definition wait_check (q : packetQueue) : packetQueue :=
  set_waiter (if length (q_packets q) =? 0 then WaitDone false else WaitChecked) (q_reset q) q.

(** The steps of the goroutine in [pollAndSend] and of the calls of [add] under way:
    [select] takes any case that is ready. *)
Inductive internal : packetQueue -> packetQueue -> Prop :=
  | in_signal q : 0 < q_signals q -> internal q (q_signal q)
  | in_start q : q_poller q = PollStart -> internal q (poll_start q)
  | in_receive q : q_poller q = PollSelect -> q_ready q = true -> internal q (poll_receive q)
  | in_ready q : q_poller q = PollReady -> internal q (poll_ready q)
  | in_closed q : q_poller q = PollSelect -> q_close q = true -> internal q (set_poller PollClosed q).

(** These, and the calls of [add] and [waitForDrain]. *)
Inductive open_step : packetQueue -> packetQueue -> Prop :=
  | st_internal q q' : internal q q' -> open_step q q'
  | st_add packets q : open_step q (q_add packets q)
  | st_wait q : q_waiter q = WaitIdle -> open_step q (wait_check q)
  | st_wait_select q : q_waiter q = WaitChecked -> open_step q (set_waiter WaitSelect (q_reset q) q)
  | st_wait_reset q : q_waiter q = WaitSelect -> q_reset q = true -> open_step q (set_waiter (WaitDone false) false q)
  | st_wait_timeout q : q_waiter q = WaitSelect -> open_step q (set_waiter (WaitDone true) (q_reset q) q).

Inductive step : packetQueue -> packetQueue -> Prop :=
  | st_open q q' : open_step q q' -> step q q'
  | st_reset q : step q (q_do_reset q)
  | st_close q : step q (q_do_close q).

Inductive reachable : packetQueue -> Prop :=
  | re_new : reachable newPacketQueue
  | re_step q q' : reachable q -> step q q' -> reachable q'.

(** Runs in which the queue is neither reset nor closed. *)
Inductive open_reachable : packetQueue -> Prop :=
  | op_new : open_reachable newPacketQueue
  | op_step q q' : open_reachable q -> open_step q q' -> open_reachable q'.

(** When there are packets, the poller is awake or will be woken. *)
Definition wakeup (q : packetQueue) : Prop :=
  q_packets q <> [] -> q_poller q = PollSelect -> q_ready q = true \/ 0 < q_signals q.

Lemma wakeup_step q q' : wakeup q -> step q q' -> wakeup q'.
Proof.
  intros HW HS. unfold wakeup. destruct HS as [q q' HO|q|q]; cbn; [|done|done].
  destruct HO as [q q' HI|packets q|q|q|q|q]; cbn; try done.
  - destruct HI as [q Hs|q Hp|q Hp Hr|q Hp|q Hp Hc]; cbn; try done.
    + intros. by left.
    + unfold poll_start. destruct (q_get q) eqn:E; cbn; [|done]. unfold q_get in E. by rewrite E.
  - intros _ _. right. lia.
Qed.

Lemma reachable_wakeup q : reachable q -> wakeup q.
Proof. induction 1 as [|q q' _ IH HS]; [done|]. by eapply wakeup_step. Qed.

(** What was added is what was sent and what is queued. *)
Definition fifo (q : packetQueue) : Prop := q_added q = q_sent q ++ q_packets q.

Lemma fifo_step q q' : fifo q -> open_step q q' -> fifo q'.
Proof.
  unfold fifo. intros HF HS. destruct HS as [q q' HI|packets q|q|q|q|q]; cbn in *; try done.
  - destruct HI as [q Hs|q Hp|q Hp Hr|q Hp|q Hp Hc]; cbn; try done.
    + unfold poll_start, q_get. destruct (q_packets q) eqn:E; cbn; [by rewrite E|].
      unfold q_get. by rewrite E, app_nil_r, <- E, HF, E.
    + unfold q_get. by rewrite app_nil_r.
  - rewrite HF. destruct (q_packets q) as [|p ps] eqn:E; cbn; [by rewrite app_nil_r|].
    by rewrite <- app_assoc.
Qed.

Lemma open_reachable_fifo q : open_reachable q -> fifo q.
Proof. induction 1 as [|q q' _ IH HS]; [done|]. by eapply fifo_step. Qed.

Lemma open_reachable_reachable q : open_reachable q -> reachable q.
Proof. induction 1; [constructor|]. econstructor; [done|by apply st_open]. Qed.

Lemma open_reachable_open q : open_reachable q -> q_close q = false /\ q_poller q <> PollClosed.
Proof.
  induction 1 as [|q q' _ [IH1 IH2] HS]; [done|].
  destruct HS as [q q' HI|packets q|q|q|q|q]; cbn; try done.
  destruct HI as [q Hs|q Hp|q Hp Hr'|q Hp|q Hp Hcl]; cbn; try done; [|congruence].
  unfold poll_start. by destruct (q_get q).
Qed.

(** Internal steps, one after the other. *)
Inductive internals : packetQueue -> packetQueue -> Prop :=
  | ins_refl q : internals q q
  | ins_step q q1 q2 : internal q q1 -> internals q1 q2 -> internals q q2.

Lemma deliver_from_ready q : q_poller q = PollReady ->
  exists q', internals q q' /\ q_sent q' = q_sent q ++ q_packets q /\ q_packets q' = [].
Proof.
  intros Hp. exists (poll_ready q). split; [|done]. eapply ins_step; [by apply in_ready|apply ins_refl].
Qed.

Lemma deliver q : q_packets q <> [] -> q_poller q <> PollClosed -> wakeup q ->
  exists q', internals q q' /\ q_sent q' = q_sent q ++ q_packets q /\ q_packets q' = [].
Proof.
  intros Hne Hcl HW. destruct (q_poller q) eqn:Hp; [| | |done].
  - exists (poll_start q). split; [eapply ins_step; [by apply in_start|apply ins_refl]|].
    unfold poll_start, q_get. destruct (q_packets q) eqn:E; [done|]. cbn. unfold q_get. by rewrite E.
  - destruct (q_ready q) eqn:Hr.
    + destruct (deliver_from_ready (poll_receive q)) as (q' & HI & HS); [done|].
      exists q'. split; [|exact HS]. eapply ins_step; [by apply in_receive|exact HI].
    + destruct (HW Hne Hp) as [?|Hs]; [congruence|].
      destruct (deliver_from_ready (poll_receive (q_signal q))) as (q' & HI & HS); [done|].
      exists q'. split; [|exact HS]. eapply ins_step; [by apply in_signal|].
      eapply ins_step; [by apply in_receive|exact HI].
  - by apply deliver_from_ready.
Qed.
End queue.
Arguments packetQueue P : clear implicits.

(** C30: [packetQueue] delivers everything, once and in order, and never sleeps on packets:
    in every interleaving of [add] calls, the polling goroutine and [waitForDrain] in
    which the queue is not reset or closed, what was added is what was sent followed by
    what is queued; and when packets are queued, the steps of the poller and of the
    [add] calls under way, without any other event, send all of them. *)
Theorem packetQueue_delivers {P} (q : packetQueue P) :
  open_reachable q ->
  q_added q = q_sent q ++ q_packets q /\
  (q_packets q <> [] -> exists q', internals q q' /\ q_sent q' = q_added q /\ q_packets q' = []).
Proof.
  intros HR. pose proof (open_reachable_fifo q HR) as HF. split; [exact HF|]. intros Hne.
  destruct (deliver q Hne) as (q' & HI & HS & HP).
  - by apply open_reachable_open.
  - by apply reachable_wakeup, open_reachable_reachable.
  - exists q'. split; [done|]. split; [|done]. by rewrite HS, HF.
Qed.

Lemma packetQueue_delivers_witness :
  let q := q_add [1; 2] newPacketQueue in
  q_added q = q_sent q ++ q_packets q /\
  (q_packets q <> [] -> exists q', internals q q' /\ q_sent q' = q_added q /\ q_packets q' = []).
Proof.
  apply (packetQueue_delivers (q_add [1; 2] newPacketQueue)).
  apply (op_step newPacketQueue); [constructor|apply st_add].
Defined.

(** A [waitForDrain] that is overtaken between its check and its [select] misses the
    signal: the queue is drained, nothing is left to wake it, and it times out. *)
Lemma waitForDrain_missed (p : nat) :
  exists q : packetQueue nat, open_reachable q /\
    q_packets q = [] /\ q_sent q = [p] /\ q_waiter q = WaitSelect /\
    q_ready q = false /\ q_signals q = 0 /\ q_reset q = false /\ q_poller q = PollSelect.
Proof.
  pose (q1 := poll_start (newPacketQueue (P := nat))). pose (q2 := q_add [p] q1). pose (q3 := q_signal q2).
  pose (q4 := wait_check q3). pose (q5 := poll_receive q4). pose (q6 := poll_ready q5). pose (q7 := poll_start q6).
  exists (set_waiter WaitSelect (q_reset q7) q7). split; [|by repeat split].
  apply (op_step q7); [|by apply st_wait_select].
  apply (op_step q6); [|by apply st_internal, in_start].
  apply (op_step q5); [|by apply st_internal, in_ready].
  apply (op_step q4); [|by apply st_internal, in_receive].
  apply (op_step q3); [|by apply st_wait].
  apply (op_step q2); [|apply st_internal, in_signal; cbn; lia].
  apply (op_step q1); [|by apply st_add].
  apply (op_step newPacketQueue); [constructor|by apply st_internal, in_start].
Qed.
End packetQueue.

(** ** [pollQueue] *)

Module pollQueue.
Section queue.
Context {P : Type}.

(** Where a call of [poll] is: called, past the first [get], in the [select], woken in it,
    returned with its packets. *)
Inductive poller := PollStart | PollChecked | PollSelect | PollWoken | PollDone (packets : list P).

(** The queue, every call of [poll] so far (a request each, several of them can overlap),
    what was added, and what each [get] removed: [Some i] when call [i] of [poll] did it,
    [None] for a [get] of [QueuedPackets]. *)
Record pollQueue := mkPollQueue {
  pq_packets : list P;
  pq_pollers : list poller;
  pq_added : list P;
  pq_taken : list (option nat * list P);
}.

Definition newPollQueue : pollQueue := mkPollQueue [] [] [] [].

(** [get] returns the queued packets and empties the queue. *)
Definition pq_get (who : option nat) (q : pollQueue) : list P * pollQueue :=
  (pq_packets q,
   mkPollQueue [] (pq_pollers q) (pq_added q) (pq_taken q ++ [(who, pq_packets q)])).

Definition pq_len (q : pollQueue) : nat := length (pq_packets q).

Definition pq_at (i : nat) (pc : poller) (q : pollQueue) : pollQueue :=
  mkPollQueue (pq_packets q) (<[i := pc]> (pq_pollers q)) (pq_added q) (pq_taken q).

(** [add] holds the lock during the send on the unbuffered [ready]. The send succeeds when
    some call of [poll] is in its [select], and the runtime chooses which one is woken. *)
Definition wakes (q : pollQueue) (wake : option nat) : Prop :=
  match wake with
  | Some i => pq_pollers q !! i = Some PollSelect
  | None => PollSelect ∉ pq_pollers q
  end.

Definition pq_add (packets : list P) (wake : option nat) (q : pollQueue) : pollQueue :=
  mkPollQueue (if length (pq_packets q) =? 0 then packets else pq_packets q ++ packets)
    (match wake with Some i => <[i := PollWoken]> (pq_pollers q) | None => pq_pollers q end)
    (pq_added q ++ packets) (pq_taken q).

(** A request calls [poll]. *)
Definition pq_call (q : pollQueue) : pollQueue :=
  mkPollQueue (pq_packets q) (pq_pollers q ++ [PollStart]) (pq_added q) (pq_taken q).

(** The first [get] of call [i]: packets are returned at once. *)
Definition pq_poll (i : nat) (q : pollQueue) : pollQueue :=
  let '(packets, q) := pq_get (Some i) q in
  if 0 <? length packets then pq_at i (PollDone packets) q else pq_at i PollChecked q.

(** [case <-pq.ready]: the second [get], whose packets are returned whatever they are. *)
Definition pq_ready (i : nat) (q : pollQueue) : pollQueue :=
  let '(packets, q) := pq_get (Some i) q in pq_at i (PollDone packets) q.

(** [case <-time.After(pollTimeout)]: the empty slice of the first [get] is returned. *)
Definition pq_timeout (i : nat) (q : pollQueue) : pollQueue := pq_at i (PollDone []) q.

Inductive step : pollQueue -> pollQueue -> Prop :=
  | st_add packets wake q : wakes q wake -> step q (pq_add packets wake q)
  | st_call q : step q (pq_call q)
  | st_poll i q : pq_pollers q !! i = Some PollStart -> step q (pq_poll i q)
  | st_select i q : pq_pollers q !! i = Some PollChecked -> step q (pq_at i PollSelect q)
  | st_woken i q : pq_pollers q !! i = Some PollWoken -> step q (pq_ready i q)
  | st_timeout i q : pq_pollers q !! i = Some PollSelect -> step q (pq_timeout i q)
  | st_get q : step q (pq_get None q).2.

Inductive reachable : pollQueue -> Prop :=
  | re_new : reachable newPollQueue
  | re_step q q' : reachable q -> step q q' -> reachable q'.

(** What the [get]s of one caller removed, in their order. *)
Definition taken_by (who : option nat) (q : pollQueue) : list P :=
  concat (map snd (filter (fun t => t.1 = who) (pq_taken q))).

(** What call [i] of [poll] has returned. *)
Definition result_of (pc : poller) : list P :=
  match pc with PollDone packets => packets | _ => [] end.

Definition fifo (q : pollQueue) : Prop :=
  pq_added q = concat (map snd (pq_taken q)) ++ pq_packets q.

(** Every caller has been told exactly what it took, and nobody else took anything. *)
Definition told (q : pollQueue) : Prop :=
  (forall i pc, pq_pollers q !! i = Some pc -> taken_by (Some i) q = result_of pc) /\
  (forall i, pq_pollers q !! i = None -> taken_by (Some i) q = []).

Lemma taken_by_get who w q :
  taken_by who (pq_get w q).2 = taken_by who q ++ (if decide (w = who) then pq_packets q else []).
Proof.
  unfold taken_by. cbn. rewrite filter_app, map_app, concat_app. f_equal.
  rewrite filter_cons. cbn. destruct (decide (w = who)); cbn; by rewrite ?app_nil_r.
Qed.

Lemma fifo_get who q : fifo q -> fifo (pq_get who q).2.
Proof. unfold fifo. cbn. intros ->. by rewrite map_app, concat_app, !app_nil_r; cbn; rewrite app_nil_r. Qed.

Lemma poll_fifo_step q q' : fifo q -> step q q' -> fifo q'.
Proof.
  intros HF HS. destruct HS as [packets wake q _|q|i q _|i q _|i q _|i q _|q]; try done.
  - unfold fifo in *. cbn. rewrite HF.
    destruct (pq_packets q) as [|p ps] eqn:E; cbn; [by rewrite app_nil_r|by rewrite <- app_assoc].
  - unfold pq_poll. pose proof (fifo_get (Some i) q HF) as HG. cbn in *. by destruct (pq_packets q).
  - by apply (fifo_get (Some i)).
  - by apply fifo_get.
Qed.

(** A caller that moves to [pc'] and takes [ps] more is told what it took. *)
Lemma told_at q q' i pc' ps :
  told q -> pq_pollers q' = <[i := pc']> (pq_pollers q) -> i < length (pq_pollers q) ->
  (forall j, taken_by (Some j) q' = taken_by (Some j) q ++ if decide (j = i) then ps else []) ->
  (forall pc, pq_pollers q !! i = Some pc -> result_of pc = []) -> result_of pc' = ps ->
  told q'.
Proof.
  intros [HT HN] Hp Hi Ht H0 Hr.
  destruct (lookup_lt_is_Some_2 _ _ Hi) as [pc0 Hpc0].
  split; intros j; rewrite Hp, Ht; destruct (decide (j = i)) as [->|Hne].
  - intros pc. rewrite list_lookup_insert_eq by done. intros [= <-].
    by rewrite (HT i pc0 Hpc0), (H0 _ Hpc0), Hr.
  - intros pc. rewrite list_lookup_insert_ne, app_nil_r by done. apply HT.
  - rewrite list_lookup_insert_eq by done. discriminate.
  - rewrite list_lookup_insert_ne, app_nil_r by done. apply HN.
Qed.

Lemma told_move q q' i pc pc' ps :
  told q -> pq_pollers q !! i = Some pc -> result_of pc = [] ->
  pq_pollers q' = <[i := pc']> (pq_pollers q) ->
  (forall j, taken_by (Some j) q' = taken_by (Some j) q ++ if decide (j = i) then ps else []) ->
  result_of pc' = ps -> told q'.
Proof.
  intros HT Hpc H0 Hp Ht Hr. apply (told_at q q' i pc' ps); try done.
  - by apply lookup_lt_Some in Hpc.
  - intros pc1 H1. by rewrite Hpc in H1; injection H1 as <-.
Qed.

Lemma taken_by_take i j q :
  taken_by (Some j) (pq_get (Some i) q).2
  = taken_by (Some j) q ++ if decide (j = i) then pq_packets q else [].
Proof. rewrite taken_by_get. repeat case_decide; congruence. Qed.

Lemma taken_by_none j i q : taken_by (Some j) q = taken_by (Some j) q ++ if decide (j = i) then [] else [].
Proof. case_decide; by rewrite app_nil_r. Qed.

Lemma told_step q q' : told q -> step q q' -> told q'.
Proof.
  intros HT HS. destruct HS as [packets [i|] q Hw|q|i q Hp|i q Hp|i q Hp|i q Hp|q].
  - apply (told_move q _ i PollSelect PollWoken []); try done. intros j. apply (taken_by_none j i q).
  - exact HT.
  - destruct HT as [HT HN]. split; intros i; change (taken_by (Some i) (pq_call q)) with (taken_by (Some i) q); cbn.
    + intros pc [Hl|[Hl Hc]]%lookup_app_Some; [by apply HT|].
      apply list_lookup_singleton_Some in Hc as [_ <-]. apply HN. by apply lookup_ge_None.
    + rewrite lookup_ge_None, length_app. intros Hl. apply HN, lookup_ge_None. lia.
  - unfold pq_poll. cbn [pq_get]. destruct (pq_packets q) as [|p ps] eqn:E.
    + apply (told_move q _ i PollStart PollChecked []); try done.
      intros j. pose proof (taken_by_take i j q) as HG. unfold pq_get in HG. rewrite E in HG. exact HG.
    + apply (told_move q _ i PollStart (PollDone (p :: ps)) (p :: ps)); try done.
      intros j. pose proof (taken_by_take i j q) as HG. unfold pq_get in HG. rewrite E in HG. exact HG.
  - apply (told_move q _ i PollChecked PollSelect []); try done. intros j. apply (taken_by_none j i q).
  - apply (told_move q _ i PollWoken (PollDone (pq_packets q)) (pq_packets q)); try done.
    intros j. apply (taken_by_take i j q).
  - apply (told_move q _ i PollSelect (PollDone []) []); try done. intros j. apply (taken_by_none j i q).
  - destruct HT as [HT HN]. split; intros i; rewrite taken_by_get; cbn; rewrite app_nil_r; [apply HT|apply HN].
Qed.
End queue.
Arguments pollQueue P : clear implicits.
Arguments poller P : clear implicits.

(** C31: [pollQueue] loses, duplicates and reorders nothing: in every interleaving of [add],
    any number of overlapping calls of [poll], their timeouts, and [get] calls (those of
    [QueuedPackets]), whichever waiting call [add] wakes, what was added is what the [get]s
    removed, in the order in which they ran, followed by what is queued; and every call of
    [poll] that has returned returned exactly the packets it removed, while a call that has
    not returned has removed nothing. *)
Theorem pollQueue_fifo {P} (q : pollQueue P) :
  reachable q ->
  pq_added q = concat (map snd (pq_taken q)) ++ pq_packets q /\
  forall i pc, pq_pollers q !! i = Some pc ->
    taken_by (Some i) q = match pc with PollDone packets => packets | _ => [] end.
Proof.
  intros HR. enough (fifo q /\ told q) as [HF [HT _]] by (split; [exact HF|apply HT]).
  induction HR as [|q q' _ [HF HT] HS]; [split; [done|split; [|done]]; intros i pc Hp; discriminate|].
  split; [by eapply poll_fifo_step|by eapply told_step].
Qed.

Lemma pollQueue_fifo_witness :
  let q := pq_poll 1 (pq_poll 0 (pq_add [1; 2] None (pq_call (pq_call (newPollQueue (P := nat)))))) in
  pq_added q = concat (map snd (pq_taken q)) ++ pq_packets q /\
  taken_by (Some 0) q = [1; 2] /\ pq_pollers q = [PollDone [1; 2]; PollChecked].
Proof.
  pose (q1 := pq_call (pq_call (newPollQueue (P := nat)))). pose (q2 := pq_add [1; 2] None q1).
  assert (HR : reachable (pq_poll 1 (pq_poll 0 q2))).
  { apply (re_step (pq_poll 0 q2)); [|by apply st_poll].
    apply (re_step q2); [|by apply st_poll].
    apply (re_step q1); [|apply st_add; cbn; set_solver].
    apply (re_step (pq_call newPollQueue)); [|apply st_call].
    apply (re_step newPollQueue); [constructor|apply st_call]. }
  pose proof (pollQueue_fifo _ HR) as [HF HT].
  split; [exact HF|split; [exact (HT 0 (PollDone [1; 2]) eq_refl)|reflexivity]].
Defined.

(** [pollQueue] can sleep on packets: when [add] runs between the first [get] of a [poll]
    and its [select], its signal is lost; the call then waits with packets queued, and no
    step but its own timeout, a further [add], another call of [poll] or a [get] of
    [QueuedPackets] is possible; the timeout returns no packets. *)
Theorem pollQueue_lost_wakeup {P} (p : P) :
  exists q : pollQueue P, reachable q /\ pq_pollers q = [PollSelect] /\ pq_packets q = [p] /\
    (forall q', step q q' ->
       q' = pq_timeout 0 q \/ q' = pq_call q \/ q' = (pq_get None q).2 \/
       exists packets, q' = pq_add packets (Some 0) q) /\
    pq_pollers (pq_timeout 0 q) = [PollDone []] /\ pq_packets (pq_timeout 0 q) = [p].
Proof.
  pose (q0 := pq_call (newPollQueue (P := P))). pose (q1 := pq_poll 0 q0). pose (q2 := pq_add [p] None q1).
  exists (pq_at 0 PollSelect q2). split; [|split; [done|split; [done|split]]].
  - apply (re_step q2); [|by apply st_select].
    apply (re_step q1); [|apply st_add; cbn; set_solver].
    apply (re_step q0); [|by apply st_poll].
    apply (re_step newPollQueue); [constructor|apply st_call].
  - intros q' HS. remember (pq_at 0 PollSelect q2) as q eqn:Eq.
    destruct HS as [packets [i|] q Hw|q|i q Hp|i q Hp|i q Hp|i q Hp|q]; subst q; cbn in *;
      try (destruct i; [|done]); try discriminate; try set_solver; eauto 6.
  - done.
Qed.
End pollQueue.
