(* ===== verification/Backoff.v ===== *)
(** * Reconnection delays ([backoff.go])

    Durations are 64-bit nanoseconds. The source computes with floats: [math.Pow] of two
    is exact; the conversions between [int64] and [float64] and the random jitter are
    arguments, with the facts about them that the results rest on. *)

From S2P Require Import Prelude.

Module backoff.
#[local] Open Scope Z_scope.

Record backoff := mkBackoff {
  b_min : Z;
  b_max : Z;
  b_factor : Z;
  b_jitter : bool;      (* jitter > 0 *)
  b_numAttempts : Z;    (* uint32 *)
}.

(** [jitter], in (0, 1], is only compared and multiplied: [newBackoff] keeps whether it is
    used. *)
Definition newBackoff (min max : Z) (jitter_in_range : bool) : backoff := mkBackoff min max 2 jitter_in_range 0.

Definition attempts (b : backoff) : Z := b_numAttempts b.

Definition b_reset (b : backoff) : backoff :=
  mkBackoff (b_min b) (b_max b) (b_factor b) (b_jitter b) 0.

Section duration.
(** [to_int64 z] is [int64(f)] for a float [f] with the value [z]; outside the range of
    [int64] the language leaves the result open. [round z] is [float64(z)]. *)
Context (to_int64 : Z -> Z) (round : Z -> Z).

(** [ms] before jitter, and the counter increased; both wrap. *)
Definition base (b : backoff) : Z :=
  wrap_s 64 (b_min b * to_int64 (b_factor b ^ b_numAttempts b)).

Definition next_attempt (b : backoff) : backoff :=
  mkBackoff (b_min b) (b_max b) (b_factor b) (b_jitter b) (wrap_u 32 (b_numAttempts b + 1)).

(** [duration], with what the random number decides: the deviation
    [floor(r * jitter * ms)] and whether it is subtracted. *)
Definition duration (deviation : Z) (subtract : bool) (b : backoff) : backoff * Z :=
  let ms := base b in
  let ms := if b_jitter b then
              if subtract then wrap_s 64 (ms - to_int64 deviation) else wrap_s 64 (ms + to_int64 deviation)
            else ms in
  (next_attempt b,
   if ms <=? 0 then b_max b else to_int64 (Z.min (round ms) (round (b_max b)))).

(** What holds of the conversions: a float in the range of [int64] is truncated to itself
    when it is an integer, rounding keeps the order and the integers up to 2^53. *)
Class FloatConversions : Prop := {
  to_int64_exact z : - 2 ^ 63 <= z < 2 ^ 63 -> to_int64 z = z;
  round_mono x y : x <= y -> round x <= round y;
  round_exact z : - 2 ^ 53 <= z <= 2 ^ 53 -> round z = z;
}.
Context `{!FloatConversions}.

(** The last two lines of [duration]. *)
Lemma clamp ms max :
  0 < max <= 2 ^ 53 ->
  let d := if ms <=? 0 then max else to_int64 (Z.min (round ms) (round max)) in
  0 < d <= max /\ (0 < ms -> d = Z.min ms max).
Proof.
  intros Hm d. subst d. rewrite (round_exact max) by lia. destruct (Z.leb_spec ms 0); [lia|].
  assert (1 <= round ms).
  { rewrite <- (round_exact 1) by lia. apply round_mono. lia. }
  assert (Z.min (round ms) max = Z.min ms max) as HE.
  { destruct (Z.le_gt_cases ms (2 ^ 53)); [by rewrite round_exact by lia|].
    assert (2 ^ 53 <= round ms) by (rewrite <- (round_exact (2 ^ 53)) by lia; apply round_mono; lia). lia. }
  rewrite HE, to_int64_exact by lia. lia.
Qed.
End duration.

(** A reconnection delay is always positive and never above the configured maximum:
    whatever the number of attempts, the overflow of the exponential and the random
    jitter, [duration] returns a value in (0, max]. *)
Theorem duration_bounds to_int64 round `{!FloatConversions to_int64 round} deviation subtract b :
  0 < b_max b <= 2 ^ 53 -> 0 < (duration to_int64 round deviation subtract b).2 <= b_max b.
Proof. intros Hm. unfold duration. cbn [snd]. by apply (clamp to_int64 round). Qed.

(** Without jitter the delays double until they reach the maximum: the [n]-th call of
    [duration] after a reset returns [min (min * 2^n) max], as long as the product fits
    into 64 bits. *)
Theorem duration_exponential to_int64 round `{!FloatConversions to_int64 round} deviation subtract b :
  b_jitter b = false -> b_factor b = 2 -> 0 < b_min b -> 0 < b_max b <= 2 ^ 53 ->
  0 <= b_numAttempts b < 63 -> b_min b * 2 ^ b_numAttempts b < 2 ^ 63 ->
  duration to_int64 round deviation subtract b =
    (next_attempt b, Z.min (b_min b * 2 ^ b_numAttempts b) (b_max b)).
Proof.
  intros HJ HF Hmin Hmax Hn Hfit. unfold duration, base. rewrite HJ, HF. f_equal.
  assert (0 < 2 ^ b_numAttempts b) by (apply Z.pow_pos_nonneg; lia).
  assert (2 ^ b_numAttempts b < 2 ^ 63) by (apply Z.pow_lt_mono_r; lia).
  rewrite (to_int64_exact to_int64 round) by lia.
  assert (0 < b_min b * 2 ^ b_numAttempts b) by lia.
  rewrite (wrap_s_small 64) by (change (64 - 1) with 63; lia). apply (clamp to_int64 round); lia.
Qed.

Definition sample_round (z : Z) : Z := z.

#[export] Instance sample_conversions : FloatConversions id sample_round.
Proof. by split. Qed.

Lemma duration_bounds_witness :
  0 < (duration id sample_round 3 true (newBackoff 1000000000 5000000000 true)).2 <= 5000000000.
Proof. apply (duration_bounds id sample_round 3 true (newBackoff 1000000000 5000000000 true)). cbn. lia. Defined.

Lemma duration_exponential_witness :
  duration id sample_round 0 false (mkBackoff 1000000000 5000000000 2 false 2) =
  (mkBackoff 1000000000 5000000000 2 false 3, 4000000000).
Proof.
  refine (eq_trans (duration_exponential id sample_round 0 false (mkBackoff 1000000000 5000000000 2 false 2) _ _ _ _ _ _) _);
    cbn; try lia; reflexivity.
Defined.
End backoff.
