(* ===== verification/EioPolling.v ===== *)
(** * The polling transport of the server ([engine.io/transport/polling/server.go])

    Every HTTP request is a function of the transport's state, the request and the
    [http.ResponseWriter], which collects headers, a status and a body. The
    interleavings of [pollQueue] are those of [Queues]; here a poll takes the transport's
    queue, and what other goroutines add while it waits is an argument. *)

From S2P Require Import Prelude GoIO EioPacket EioPayload Strconv.

Module polling.
Import eioparser payload.

(** ** The response *)

(** [W] is where the body goes: a connection, whose writes can fail. *)
Record response (W : Type) := mkResponse {
  r_headers : list (string * bytes);
  r_status : option Z;
  r_body : W;
}.
Arguments mkResponse {W} r_headers r_status r_body.
Arguments r_headers {W} r.
Arguments r_status {W} r.
Arguments r_body {W} r.

(** [w.Header().Set]: the last value counts. *)
Definition set_header {W} (k : string) (v : bytes) (w : response W) : response W :=
  mkResponse ((k, v) :: r_headers w) (r_status w) (r_body w).

(** [w.WriteHeader]: the first status counts. *)
Definition WriteHeader {W} (code : Z) (w : response W) : response W :=
  mkResponse (r_headers w) (match r_status w with None => Some code | s => s end) (r_body w).

Definition set_body {W} (b : W) (w : response W) : response W := mkResponse (r_headers w) (r_status w) b.

Definition get_header {W} (k : string) (w : response W) : option bytes :=
  snd <$> head (filter (fun p => p.1 = k) (r_headers w)).

(** ** Requests *)

Inductive method := GET | POST | OtherMethod.

Record request := mkRequest {
  req_method : method;
  req_userAgent : bytes;
  req_j : bytes;                   (* the query parameter "j" *)
  req_ContentLength : Z;           (* -1 when the request does not say *)
  req_Body : stream;
  req_PostForm_d : option bytes;   (* [None]: [ParseForm] fails *)
}.

(** [strings.Contains]. *)
Fixpoint is_prefix (p s : bytes) : bool :=
  match p, s with
  | [], _ => true
  | x :: p', y :: s' => Byte.eqb x y && is_prefix p' s'
  | _ :: _, [] => false
  end.

Fixpoint contains (p s : bytes) : bool :=
  is_prefix p s || match s with [] => false | _ :: s' => contains p s' end.

(** ** The transport *)

(** [once] of the source: whether [Discard] or [close] has run. *)
Record ServerTransport := mkServerTransport {
  maxHTTPBufferSize : Z;
  pq : list Packet;
  once_done : bool;
}.

Definition NewServerTransport (maxBufferSize : Z) : ServerTransport := mkServerTransport maxBufferSize [] false.

Definition Name : string := "polling".

Definition Send (packets : list Packet) (t : ServerTransport) : ServerTransport :=
  mkServerTransport (maxHTTPBufferSize t) (pq t ++ packets) (once_done t).

Definition QueuedPackets (t : ServerTransport) : ServerTransport * list Packet :=
  (mkServerTransport (maxHTTPBufferSize t) [] (once_done t), pq t).

(** What happened while a [poll] that found the queue empty waited: [add] woke it, with
    these packets queued, or [pollTimeout] passed, with these packets added before the wait
    began ([Queues.pollQueue.pollQueue_lost_wakeup]). *)
Inductive wait := Woken (queued : list Packet) | TimedOut (queued : list Packet).

Definition with_pq (packets : list Packet) (t : ServerTransport) : ServerTransport :=
  mkServerTransport (maxHTTPBufferSize t) packets (once_done t).

(** [t.pq.poll(t.pollTimeout)]. *)
Definition poll (wt : wait) (t : ServerTransport) : ServerTransport * list Packet :=
  let '(t, packets) := QueuedPackets t in
  if 0 <? length packets then (t, packets)
  else match wt with
       | Woken queued => QueuedPackets (with_pq queued t)
       | TimedOut queued => (with_pq queued t, packets)
       end.

Definition noop : Packet := mkPacket false PacketTypeNoop [].
Definition close_packet : Packet := mkPacket false PacketTypeClose [].

(** What a call makes others do: callbacks of the owner, and the goroutines that send a
    last packet. *)
Inductive event :=
  | EvOnPacket (packets : list Packet)
  | EvOnClose (err : bool)            (* [callbacks.OnClose("polling", err)]; whether [err] is set *)
  | EvGoSend (p : Packet).

Definition Discard (t : ServerTransport) : ServerTransport * list event :=
  if once_done t then (t, [])
  else (mkServerTransport (maxHTTPBufferSize t) (pq t) true, [EvGoSend noop]).

(** The [err] of the inner declaration shadows the argument, and [OnClose] is deferred
    with the argument evaluated first: it gets the argument. *)
Definition close (err : bool) (t : ServerTransport) : ServerTransport * list event :=
  if once_done t then (t, [])
  else (mkServerTransport (maxHTTPBufferSize t) (pq t) true, [EvGoSend close_packet; EvOnClose err]).

Definition Close (t : ServerTransport) : ServerTransport * list event := close false t.

Definition setHeaders {W} (r : request) (w : response W) : response W :=
  if contains (to_bytes ";MSIE") (req_userAgent r) || contains (to_bytes "Trident/") (req_userAgent r)
  then set_header "X-XSS-Protection" (to_bytes "0") w else w.

(** [slashReplacer]: at every position the first pattern that matches is replaced. *)
Fixpoint slashReplace (s : bytes) : bytes :=
  match s with
  | x5c :: x6e :: s' => x0a :: slashReplace s'
  | x5c :: (x5c :: (x6e :: s' as rest2) as rest1) => x5c :: x6e :: slashReplace s'
  | c :: s' => c :: slashReplace s'
  | [] => []
  end.

(** The packets of a POST: from the body, or from the form field "d". *)
Definition data_packets (r : request) : outcome error (list Packet) :=
  match req_j r with
  | [] => DecodePayloads (req_Body r)
  | _ => match req_PostForm_d r with
         | None => Err (errIO ErrRead)
         | Some d => DecodePayloads [slashReplace d]
         end
  end.

Section serve.
(** The body's writer, and [template.JSEscape] of the standard library. *)
Context {W E : Type} `{IoWriter W E} (JSEscape : bytes -> bytes).

Definition writeJSONPBody (jsonp : bytes) (packets : list Packet) : outcome unit bytes :=
  let head := to_bytes "___eio[" ++ jsonp ++ to_bytes "](" ++ [x22] in
  let foot := x22 :: to_bytes ");" in
  match EncodePayloads (E := unit) packets ([] : bytes) with
  | (buf, None) => Ret (head ++ JSEscape buf ++ foot)
  | (_, Some e) => Err e
  end.

Definition handlePollRequest (r : request) (wt : wait) (t : ServerTransport) (w : response W)
  : ServerTransport * response W * list event :=
  let '(t, packets) := poll wt t in
  let w := setHeaders r w in
  match req_j r with
  | [] =>
      let w := set_header "Content-Type" (to_bytes "text/plain; charset=UTF-8") w in
      let w := set_header "Content-Length" (Itoa (EncodedPayloadsLen packets)) w in
      let w := WriteHeader 200 w in
      let '(b, err) := EncodePayloads packets (r_body w) in
      let w := set_body b w in
      match err with
      | None => (t, w, [])
      | Some _ => let '(t, es) := close true t in (t, w, es)
      end
  | jsonp =>
      match writeJSONPBody jsonp packets with
      | Ret buf =>
          let w := set_header "Content-Type" (to_bytes "text/javascript; charset=UTF-8") w in
          let w := set_header "Content-Length" (Itoa (Z.of_nat (length buf))) w in
          let w := WriteHeader 200 w in
          let '(b, err) := w_write buf (r_body w) in
          let w := set_body b w in
          match err with
          | None => (t, w, [])
          | Some _ => let '(t, es) := close true t in (t, w, es)
          end
      | _ =>
          let w := WriteHeader 500 w in
          let '(t, es) := close true t in (t, w, es)
      end
  end.

Definition ok_body : bytes := to_bytes "ok".

Definition handleDataRequest (r : request) (t : ServerTransport) (w : response W)
  : ServerTransport * response W * list event :=
  if ((0 <? maxHTTPBufferSize t) && (maxHTTPBufferSize t <? req_ContentLength r))%Z then
    let w := WriteHeader 413 w in
    let '(t, es) := close true t in (t, w, es)
  else
    match data_packets r with
    | Ret packets =>
        let w := setHeaders r w in
        let w := set_header "Content-Type" (to_bytes "text/html") w in
        let w := set_header "Content-Length" (to_bytes "2") w in
        let w := WriteHeader 200 w in
        let w := set_body (w_write ok_body (r_body w)).1 w in
        (t, w, [EvOnPacket packets])
    | _ =>
        let w := WriteHeader 400 w in
        let '(t, es) := close true t in (t, w, es)
    end.

Definition ServeHTTP (r : request) (wt : wait) (t : ServerTransport) (w : response W)
  : ServerTransport * response W * list event :=
  match req_method r with
  | GET => handlePollRequest r wt t w
  | POST => handleDataRequest r t w
  | OtherMethod => (t, w, [])
  end.

(** [Handshake]: the packet is queued, so that the poll of a GET takes it at once. The session ID is only for WebTransport. *)
Definition Handshake (handshakePacket : option Packet) (r : request) (wt : wait) (t : ServerTransport) (w : response W)
  : ServerTransport * response W * list event * string :=
  let t := match handshakePacket with Some p => Send [p] t | None => t end in
  (ServeHTTP r wt t w, "").

(** [PostHandshake] does nothing. *)
Definition PostHandshake (handshakePacket : option Packet) (t : ServerTransport) : ServerTransport := t.
End serve.

(** ** Properties *)

(** What a poll answers with: the queue, or what woke it; nothing stays queued. *)
Lemma poll_takes wt packets t :
  packets <> [] -> pq t = packets \/ pq t = [] /\ wt = Woken packets -> poll wt t = (with_pq [] t, packets).
Proof.
  intros Hne Hq. unfold poll, QueuedPackets. destruct Hq as [->|[-> ->]]; [|done].
  destruct packets; [done|reflexivity].
Qed.

(** A poll is answered with exactly the packets of the queue, which it empties, or of the
    [add] that woke it: on a connection that takes the bytes, the response to a plain poll
    request has status 200, a [Content-Length] that is the length of its body, and a body
    from which [DecodePayloads] reads the packets back, however it is cut into chunks. *)
Theorem poll_response JSEscape r wt packets t s :
  req_j r = [] -> packets <> [] -> pq t = packets \/ pq t = [] /\ wt = Woken packets ->
  Forall (fun p => wf p = true) packets -> Forall (fun p => separable p = true) packets ->
  let '(t', w', events) := handlePollRequest (E := unit) JSEscape r wt t (mkResponse [] None []) in
  t' = with_pq [] t /\ events = [] /\ r_status w' = Some 200%Z /\
  get_header "Content-Length" w' = Some (Itoa (Z.of_nat (length (r_body w')))) /\
  (ReadAll s = r_body w' -> DecodePayloads s = Ret packets).
Proof.
  intros Hj Hne Hq Hwf Hsep. unfold handlePollRequest. rewrite (poll_takes wt packets t Hne Hq), Hj.
  assert (forall w : response bytes, r_body (setHeaders r w) = r_body w /\ r_status (setHeaders r w) = r_status w) as HS.
  { intros w. unfold setHeaders. by destruct (_ || _). }
  destruct (HS (mkResponse [] None [])) as [HB HT]. cbn in HB, HT.
  cbn [r_body WriteHeader set_header]. rewrite HB.
  destruct (EncodePayloads packets []) as [b err] eqn:Eb.
  pose proof (EncodePayloads_buffer packets []) as EB. rewrite Eb in EB. injection EB as EB1 EB2. subst err.
  split_and!; [done|done| |..].
  - cbn. by rewrite HT.
  - cbn. do 2 f_equal. unfold EncodedPayloadsLen. rewrite EncodedPayloadsLen_loop_spec by done. by rewrite EB1.
  - cbn. intros Hs. apply (payload_decodes packets); [done..|]. by rewrite Hs, EB1.
Qed.

Lemma poll_response_witness :
  let r := mkRequest GET [] [] 0 [] None in
  let ps := [mkPacket false PacketTypePing []; mkPacket true PacketTypeMessage [x01; x02; xff]] in
  let '(t', w', events) := handlePollRequest (E := unit) id r (TimedOut []) (Send ps (NewServerTransport 0)) (mkResponse [] None []) in
  t' = NewServerTransport 0 /\ events = [] /\ r_status w' = Some 200%Z /\
  get_header "Content-Length" w' = Some (Itoa (Z.of_nat (length (r_body w')))) /\
  (ReadAll [to_bytes "2"; x1e :: to_bytes "bAQL/"] = r_body w' ->
   DecodePayloads [to_bytes "2"; x1e :: to_bytes "bAQL/"] = Ret ps).
Proof.
  apply (poll_response id (mkRequest GET [] [] 0 [] None) (TimedOut [])
    [mkPacket false PacketTypePing []; mkPacket true PacketTypeMessage [x01; x02; xff]]
    (Send [mkPacket false PacketTypePing []; mkPacket true PacketTypeMessage [x01; x02; xff]] (NewServerTransport 0)));
    [done|done|by left|repeat constructor|repeat constructor].
Defined.

(** What a POST delivers: the packets of its payload, or nothing and the transport closes. *)
Lemma data_request_cases {W E} `{IoWriter W E} r t (w : response W) :
  let '(t', w', events) := handleDataRequest r t w in
  (exists packets, data_packets r = Ret packets /\ t' = t /\ events = [EvOnPacket packets]) \/
  (t', events) = close true t.
Proof.
  unfold handleDataRequest. destruct (_ && _)%bool.
  - destruct (close true t) as [t' es]. by right.
  - destruct (data_packets r) as [packets| |] eqn:E0; [left; eauto|..].
    all: destruct (close true t) as [t' es]; by right.
Qed.

(** What a request does to the transport: a poll takes its packets, a POST delivers its own, and either can close it. *)
Lemma ServeHTTP_cases {W E} `{IoWriter W E} JSEscape r wt t (w : response W) :
  let '(t', w', events) := ServeHTTP JSEscape r wt t w in
  match req_method r with
  | GET => (t', events) = ((poll wt t).1, []) \/ (t', events) = close true (poll wt t).1
  | POST => (exists packets, t' = t /\ events = [EvOnPacket packets]) \/ (t', events) = close true t
  | OtherMethod => t' = t /\ events = []
  end.
Proof.
  unfold ServeHTTP. destruct (req_method r); [| |done].
  - unfold handlePollRequest. destruct (poll wt t) as [t1 packets]. cbn [fst].
    destruct (req_j r) as [|b j].
    + destruct (EncodePayloads _ _) as [b [e|]]; [|by left]. destruct (close true t1). by right.
    + destruct (writeJSONPBody _ _ _); [|destruct (close true t1); by right..].
      destruct (w_write _ _) as [b0 [e|]]; [|by left]. destruct (close true t1). by right.
  - pose proof (data_request_cases r t w) as HD. destruct (handleDataRequest r t w) as [[t' w'] es].
    destruct HD as [(packets & _ & HT & HE)|HC]; [left; eauto|by right].
Qed.

(** A POST is delivered to the session once or not at all: when the request announces
    more than the configured limit it is refused with status 413 and no packet is
    delivered; otherwise, when the payload is that of a list of packets, exactly these
    packets are delivered in one call and the answer is "ok" with status 200. *)
Theorem data_request {W E} `{IoWriter W E} r t (w : response W) packets :
  r_status w = None -> data_packets r = Ret packets -> once_done t = false ->
  let '(t', w', events) := handleDataRequest r t w in
  if ((0 <? maxHTTPBufferSize t) && (maxHTTPBufferSize t <? req_ContentLength r))%Z
  then r_status w' = Some 413%Z /\ events = [EvGoSend close_packet; EvOnClose true] /\ once_done t' = true
  else r_status w' = Some 200%Z /\ events = [EvOnPacket packets] /\ t' = t.
Proof.
  intros Hw HP Ho. unfold handleDataRequest, close. destruct (_ && _)%bool; rewrite ?Ho, ?HP; cbn.
  - by rewrite Hw.
  - split_and!; [|done|done]. unfold setHeaders. destruct (_ || _)%bool; cbn; by rewrite Hw.
Qed.

Lemma data_request_witness :
  let r := mkRequest POST [] [] 2 [to_bytes "3a"] None in
  let '(t', w', events) := handleDataRequest (W := bytes) (E := unit) r (NewServerTransport 10) (mkResponse [] None []) in
  r_status w' = Some 200%Z /\ events = [EvOnPacket [mkPacket false PacketTypePong (to_bytes "a")]] /\
  t' = NewServerTransport 10.
Proof.
  apply (data_request (W := bytes) (E := unit) (mkRequest POST [] [] 2 [to_bytes "3a"] None) (NewServerTransport 10)
           (mkResponse [] None []) [mkPacket false PacketTypePong (to_bytes "a")]); reflexivity.
Defined.

(** The limit on the size of a POST is only checked against the announced length: a
    request without one ([ContentLength] -1, a chunked body) is read and delivered
    whatever its size and the limit. *)
Theorem data_request_unlimited {W E} `{IoWriter W E} r t (w : response W) packets :
  req_ContentLength r = (-1)%Z -> data_packets r = Ret packets ->
  (handleDataRequest r t w).2 = [EvOnPacket packets].
Proof.
  intros HL HP. unfold handleDataRequest. rewrite HL, HP.
  destruct (Z.ltb_spec 0 (maxHTTPBufferSize t)); cbn [andb]; [|done].
  by destruct (Z.ltb_spec (maxHTTPBufferSize t) (-1)); [lia|].
Qed.

Lemma data_request_unlimited_witness :
  (handleDataRequest (W := bytes) (E := unit) (mkRequest POST [] [] (-1) [to_bytes "4more than two"] None)
     (NewServerTransport 2) (mkResponse [] None [])).2 =
  [EvOnPacket [mkPacket false PacketTypeMessage (to_bytes "more than two")]].
Proof.
  apply (data_request_unlimited (W := bytes) (E := unit)); reflexivity.
Defined.
End polling.
