(* ===== verification/EioSocket.v ===== *)
(** * The Engine.IO server socket ([engine.io/server_socket.go])

    A session with its current transport: sending, heartbeat, closing, and the handover
    to another transport. The socket's methods are functions on its state; goroutines and
    calls from outside interleave as steps. A transport is what the socket sees of it: the
    packets waiting in it (polling only), those given to the network, and whether it has
    been closed or discarded. *)

From S2P Require Import Prelude EioPacket.

Module eiosocket.
Import eioparser.

(** ** Transports, as the [ServerTransport] interface shows them *)

(** [tr_going]: the packets of the goroutines that [Discard] (NOOP) and [Close] (CLOSE) of a polling transport start
    ([go t.Send(p)]) and that have not run yet. *)
Record transport := mkTransport {
  tr_name : string;
  tr_polling : bool;
  tr_queue : list Packet;
  tr_wire : list Packet;
  tr_once : bool;
  tr_closed : bool;
  tr_going : list Packet;
}.

Definition noop : Packet := mkPacket false PacketTypeNoop [].
Definition close_packet : Packet := mkPacket false PacketTypeClose [].

Definition tr_Send (ps : list Packet) (t : transport) : transport :=
  if tr_polling t
  then mkTransport (tr_name t) true (tr_queue t ++ ps) (tr_wire t) (tr_once t) (tr_closed t) (tr_going t)
  else mkTransport (tr_name t) false (tr_queue t) (tr_wire t ++ ps) (tr_once t) (tr_closed t) (tr_going t).

Definition tr_QueuedPackets (t : transport) : transport * list Packet :=
  (mkTransport (tr_name t) (tr_polling t) [] (tr_wire t) (tr_once t) (tr_closed t) (tr_going t), tr_queue t).

(** Only the polling transport starts a goroutine that sends. *)
Definition going (p : Packet) (t : transport) : list Packet := tr_going t ++ (if tr_polling t then [p] else []).

Definition tr_Discard (t : transport) : transport :=
  if tr_once t then t
  else mkTransport (tr_name t) (tr_polling t) (tr_queue t) (tr_wire t) true (tr_closed t) (going noop t).

Definition tr_Close (t : transport) : transport :=
  if tr_once t then t
  else mkTransport (tr_name t) (tr_polling t) (tr_queue t) (tr_wire t) true true (going close_packet t).

(** A poll request takes the queue to the network. *)
Definition tr_poll (t : transport) : transport :=
  mkTransport (tr_name t) (tr_polling t) [] (tr_wire t ++ tr_queue t) (tr_once t) (tr_closed t) (tr_going t).

(** The first of the goroutines of [Discard] and [Close] runs. *)
Definition tr_go (t : transport) : transport :=
  match tr_going t with
  | [] => t
  | p :: ps => tr_Send [p] (mkTransport (tr_name t) (tr_polling t) (tr_queue t) (tr_wire t) (tr_once t) (tr_closed t) ps)
  end.

(** ** The socket *)

Inductive Reason :=
  | ReasonTransportError | ReasonTransportClose | ReasonForcedClose | ReasonPingTimeout | ReasonParseError.

Inductive effect :=
  | OnPacket (ps : list Packet)      (* the callbacks of the user *)
  | OnClose (reason : Reason)
  | StoreDelete.                     (* [s.onClose(s.id)]: removal from the server's store *)

(** The goroutine [pingPong]: in its [Sleep], in its [select], or returned. *)
Inductive ping_state := PingSleep | PingWait | PingStopped.

Record serverSocket := mkSocket {
  s_id : string;
  s_upgrades : list string;
  s_transport : transport;
  s_old : list transport;            (* the transports it was upgraded from *)
  s_closed : bool;                   (* [closeChan] is closed, [closeOnce] done *)
  s_pong : bool;                     (* [pongChan] holds a value *)
  s_ping : ping_state;
  s_accepted : list Packet;          (* everything given to [Send], in order *)
  s_log : list effect;
}.

Definition newServerSocket (id : string) (upgrades : list string) (t : transport) : serverSocket :=
  mkSocket id upgrades t [] false false PingSleep [] [].

Definition TransportName (s : serverSocket) : string := tr_name (s_transport s).

Definition with_transport (t : transport) (s : serverSocket) : serverSocket :=
  mkSocket (s_id s) (s_upgrades s) t (s_old s) (s_closed s) (s_pong s) (s_ping s) (s_accepted s) (s_log s).

Definition with_log (es : list effect) (s : serverSocket) : serverSocket :=
  mkSocket (s_id s) (s_upgrades s) (s_transport s) (s_old s) (s_closed s) (s_pong s) (s_ping s) (s_accepted s)
    (s_log s ++ es).

Definition with_ping (p : ping_state) (pong : bool) (s : serverSocket) : serverSocket :=
  mkSocket (s_id s) (s_upgrades s) (s_transport s) (s_old s) (s_closed s) pong p (s_accepted s) (s_log s).

Definition Send (ps : list Packet) (s : serverSocket) : serverSocket :=
  mkSocket (s_id s) (s_upgrades s) (tr_Send ps (s_transport s)) (s_old s) (s_closed s) (s_pong s) (s_ping s)
    (s_accepted s ++ ps) (s_log s).

Definition is_noop (p : Packet) : bool := bool_decide (Typ p = PacketTypeNoop).

(** [upgradeTo]: the packets queued in the old transport go out through the new one. *)
Definition upgradeTo (t : transport) (s : serverSocket) : serverSocket :=
  let old := tr_Discard (s_transport s) in
  let '(old', qp) := tr_QueuedPackets old in
  let t' := fold_left (fun t p => if is_noop p then t else tr_Send [p] t) qp t in
  mkSocket (s_id s) (s_upgrades s) t' (s_old s ++ [old']) (s_closed s) (s_pong s) (s_ping s) (s_accepted s) (s_log s).

Definition onPong (s : serverSocket) : serverSocket := with_ping (s_ping s) true s.

(** [close]: the deferred calls run after the transport is closed, the callback first. *)
Definition close (reason : Reason) (s : serverSocket) : serverSocket :=
  if s_closed s then s
  else
    let t := match reason with
             | ReasonTransportClose | ReasonTransportError => s_transport s
             | _ => tr_Close (s_transport s)
             end in
    mkSocket (s_id s) (s_upgrades s) t (s_old s) true (s_pong s) (s_ping s) (s_accepted s)
      (s_log s ++ [OnClose reason; StoreDelete]).

Definition Close (s : serverSocket) : serverSocket := close ReasonForcedClose s.

Definition handlePacket (s : serverSocket) (packet : Packet) : serverSocket :=
  match Typ packet with
  | PacketTypePong => onPong s
  | PacketTypeClose => with_transport (tr_Close (s_transport s)) s
  | _ => s
  end.

Definition onPacket (ps : list Packet) (s : serverSocket) : serverSocket :=
  fold_left handlePacket ps (with_log [OnPacket ps] s).

(** The goroutine of [onTransportClose]; [err] is whether an error was given. *)
Definition onTransportClose (name : string) (err : bool) (s : serverSocket) : serverSocket :=
  if s_closed s then s
  else if negb (String.eqb (TransportName s) name) then s
  else close (if err then ReasonTransportError else ReasonTransportClose) s.

Definition with_old (old : list transport) (s : serverSocket) : serverSocket :=
  mkSocket (s_id s) (s_upgrades s) (s_transport s) old (s_closed s) (s_pong s) (s_ping s) (s_accepted s) (s_log s).

Definition ping_packet : Packet := mkPacket false PacketTypePing [].

(** [pingPong] after its [Sleep]. *)
Definition ping_tick (s : serverSocket) : serverSocket :=
  if s_closed s then with_ping PingStopped (s_pong s) s
  else with_ping PingWait (s_pong s) (Send [ping_packet] s).

(** The cases of its [select]. *)
Definition ping_pong (s : serverSocket) : serverSocket := with_ping PingSleep false s.
Definition ping_timeout (s : serverSocket) : serverSocket := with_ping PingStopped (s_pong s) (close ReasonPingTimeout s).

(** ** Interleavings *)

(** A transport that takes over has answered probes with PONG packets and queues
    nothing; transports that were upgraded from still get poll requests and the NOOP of
    [Discard]. The current transport closes by itself when a request or its connection
    fails ([st_fails]); the callback it calls is [st_transport_close]. *)
Inductive step : serverSocket -> serverSocket -> Prop :=
  | st_send ps s : step s (Send ps s)
  | st_packet ps s : step s (onPacket ps s)
  | st_close reason s : step s (close reason s)
  | st_transport_close name err s : step s (onTransportClose name err s)
  | st_upgrade t s :
      tr_polling t = false -> tr_queue t = [] -> tr_going t = [] ->
      Forall (fun p => Typ p = PacketTypePong) (tr_wire t) ->
      step s (upgradeTo t s)
  | st_old i f s : In f [tr_go; tr_poll] -> step s (with_old (alter f i (s_old s)) s)
  | st_poll s : step s (with_transport (tr_poll (s_transport s)) s)
  | st_go s : step s (with_transport (tr_go (s_transport s)) s)
  | st_fails s : step s (with_transport (tr_Close (s_transport s)) s)
  | st_tick s : s_ping s = PingSleep -> step s (ping_tick s)
  | st_pong s : s_ping s = PingWait -> s_pong s = true -> step s (ping_pong s)
  | st_timeout s : s_ping s = PingWait -> step s (ping_timeout s)
  | st_ping_closed s : s_ping s = PingWait -> s_closed s = true -> step s (with_ping PingStopped (s_pong s) s).

Inductive reachable (s0 : serverSocket) : serverSocket -> Prop :=
  | re_start : reachable s0 s0
  | re_step s s' : reachable s0 s -> step s s' -> reachable s0 s'.

(** *** Transports *)

Lemma tr_Discard_same t :
  tr_queue (tr_Discard t) = tr_queue t /\ tr_wire (tr_Discard t) = tr_wire t /\ tr_once (tr_Discard t) = true.
Proof. unfold tr_Discard. by destruct (tr_once t) eqn:E. Qed.

(** The transport after an upgrade: what the old one had queued, NOOP left out, is sent. *)
Lemma upgradeTo_transport t s :
  s_transport (upgradeTo t s) =
  fold_left (fun t p => if is_noop p then t else tr_Send [p] t) (tr_queue (s_transport s)) t.
Proof. unfold upgradeTo. cbn. by rewrite (proj1 (tr_Discard_same (s_transport s))). Qed.

(** *** Closing *)

Definition is_OnClose (e : effect) : bool := match e with OnClose _ => true | _ => false end.
Definition is_StoreDelete (e : effect) : bool := match e with StoreDelete => true | _ => false end.

Definition close_effects (es : list effect) : list effect :=
  filter (fun e => is_OnClose e || is_StoreDelete e = true) es.

(** Open: nothing announced; closed: the callback and the removal, once, in this order. *)
Definition announced (s : serverSocket) : Prop :=
  if s_closed s then exists reason, close_effects (s_log s) = [OnClose reason; StoreDelete]
  else close_effects (s_log s) = [].

Lemma close_effects_app l1 l2 : close_effects (l1 ++ l2) = close_effects l1 ++ close_effects l2.
Proof. apply filter_app. Qed.

Lemma announced_close reason s : announced s -> announced (close reason s).
Proof.
  unfold announced, close. destruct (s_closed s) eqn:E; [by rewrite E|]. intros HA. cbn [s_closed s_log].
  exists reason. by rewrite close_effects_app, HA.
Qed.

Lemma handlePackets_frame ps s :
  s_closed (fold_left handlePacket ps s) = s_closed s /\ s_log (fold_left handlePacket ps s) = s_log s.
Proof.
  revert s. induction ps as [|p ps IH]; intros s; cbn; [done|]. destruct (IH (handlePacket s p)) as [-> ->].
  unfold handlePacket. by destruct (Typ p).
Qed.

Lemma announced_step s s' : announced s -> step s s' -> announced s'.
Proof.
  intros HA HS. destruct HS as [ps s|ps s|reason s|name err s|t s _ _ _ _|i f s _|s|s|s|s _|s _ _|s _|s _ _]; try exact HA.
  - unfold onPacket, announced. destruct (handlePackets_frame ps (with_log [OnPacket ps] s)) as [-> ->].
    cbn [s_closed s_log with_log]. unfold announced in HA.
    rewrite close_effects_app. cbn. by rewrite app_nil_r.
  - by apply announced_close.
  - unfold onTransportClose. destruct (s_closed s); [done|]. destruct (negb _); [done|]. by apply announced_close.
  - unfold ping_tick. by destruct (s_closed s) eqn:E.
  - unfold ping_timeout. by apply (announced_close ReasonPingTimeout) in HA.
Qed.

(** *** The handover *)

(** Everything but what only drives the transports: NOOP, the PONG of a probe, and the
    CLOSE of a polling transport that ends. *)
Definition relevant (p : Packet) : bool :=
  match Typ p with PacketTypeNoop | PacketTypePong | PacketTypeClose => false | _ => true end.

Definition rel (ps : list Packet) : list Packet := List.filter relevant ps.

Lemma rel_app l1 l2 : rel (l1 ++ l2) = rel l1 ++ rel l2.
Proof. apply List.filter_app. Qed.

(** Only polling transports queue, and their goroutines send nothing relevant. *)
Definition transport_ok (t : transport) : Prop :=
  (tr_polling t = false -> tr_queue t = []) /\ rel (tr_going t) = [].

(** The relevant packets of the old transports are on the network, and all of them
    together are what was accepted, in order. *)
Definition handover_inv (s : serverSocket) : Prop :=
  rel (s_accepted s) =
    concat ((fun t => rel (tr_wire t)) <$> s_old s) ++ rel (tr_wire (s_transport s)) ++ rel (tr_queue (s_transport s)) /\
  Forall (fun t => rel (tr_queue t) = [] /\ rel (tr_going t) = []) (s_old s) /\
  transport_ok (s_transport s).

Lemma rel_Send ps t :
  transport_ok t ->
  rel (tr_wire (tr_Send ps t)) ++ rel (tr_queue (tr_Send ps t)) =
  (rel (tr_wire t) ++ rel (tr_queue t)) ++ rel ps /\ transport_ok (tr_Send ps t).
Proof.
  unfold transport_ok, tr_Send. intros [HQ HG]. destruct (tr_polling t) eqn:E; cbn.
  - by rewrite rel_app, app_assoc.
  - rewrite (HQ eq_refl), rel_app. cbn. by rewrite !app_nil_r.
Qed.

Lemma rel_going p t : relevant p = false -> rel (tr_going t) = [] -> rel (going p t) = [].
Proof. intros Hp HG. unfold going. rewrite rel_app, HG. destruct (tr_polling t); [|done]. cbn. by rewrite Hp. Qed.

Lemma rel_move qp t :
  tr_polling t = false -> tr_queue t = [] ->
  let t' := fold_left (fun t p => if is_noop p then t else tr_Send [p] t) qp t in
  rel (tr_wire t') = rel (tr_wire t) ++ rel qp /\ tr_queue t' = [] /\ tr_going t' = tr_going t.
Proof.
  revert t. induction qp as [|p qp IH]; intros t HP HQ; cbn [fold_left].
  - cbn. by rewrite app_nil_r.
  - destruct (is_noop p) eqn:En.
    + assert (rel (p :: qp) = rel qp) as ->.
      { apply bool_decide_eq_true in En. cbn. unfold relevant. by rewrite En. }
      by apply IH.
    + destruct (IH (tr_Send [p] t)) as (-> & -> & ->); [unfold tr_Send; by rewrite HP..|].
      unfold tr_Send. rewrite HP. cbn [tr_wire tr_going]. by rewrite rel_app, <- app_assoc, <- rel_app.
Qed.

Lemma rel_pongs ps : Forall (fun p => Typ p = PacketTypePong) ps -> rel ps = [].
Proof. induction 1 as [|p ps Hp _ IH]; cbn; [done|]. unfold relevant. by rewrite Hp. Qed.

(** A transport that holds the same relevant packets, in a socket that accepted the same. *)
Lemma handover_frame s s' :
  handover_inv s -> s_accepted s' = s_accepted s -> s_old s' = s_old s ->
  rel (tr_wire (s_transport s')) ++ rel (tr_queue (s_transport s')) =
    rel (tr_wire (s_transport s)) ++ rel (tr_queue (s_transport s)) ->
  transport_ok (s_transport s') -> handover_inv s'.
Proof. unfold handover_inv. intros (HA & HO & HQ) -> -> -> HT. by rewrite <- HA. Qed.

Lemma tr_Close_same t :
  tr_wire (tr_Close t) = tr_wire t /\ tr_queue (tr_Close t) = tr_queue t /\ (transport_ok t -> transport_ok (tr_Close t)).
Proof.
  unfold tr_Close. destruct (tr_once t); [done|]. split; [done|split; [done|]]. intros [HQ HG]. split; [exact HQ|].
  by apply rel_going.
Qed.

Lemma handover_tr_Close s s' :
  handover_inv s -> s_accepted s' = s_accepted s -> s_old s' = s_old s ->
  s_transport s' = tr_Close (s_transport s) -> handover_inv s'.
Proof.
  intros HI HA HO HT. destruct (tr_Close_same (s_transport s)) as (HW & HQ & HK).
  apply (handover_frame s); [done..|by rewrite HT, HW, HQ|]. rewrite HT. apply HK, HI.
Qed.

Lemma handover_same s s' :
  handover_inv s -> s_accepted s' = s_accepted s -> s_old s' = s_old s -> s_transport s' = s_transport s -> handover_inv s'.
Proof. intros HI HA HO HT. apply (handover_frame s); [done..|by rewrite HT|]. rewrite HT. apply HI. Qed.

Lemma handover_close reason s : handover_inv s -> handover_inv (close reason s).
Proof.
  intros HI. unfold close. destruct (s_closed s); [done|].
  destruct reason; [apply (handover_same s)|apply (handover_same s)|apply (handover_tr_Close s)..]; done.
Qed.

Lemma handover_handlePackets ps s : handover_inv s -> handover_inv (fold_left handlePacket ps s).
Proof.
  revert s. induction ps as [|p ps IH]; intros s HI; cbn [fold_left]; [done|]. apply IH.
  unfold handlePacket. destruct (Typ p); try done. by apply (handover_tr_Close s).
Qed.

Lemma handover_Send ps s : handover_inv s -> handover_inv (Send ps s).
Proof.
  intros (HA & HO & HQ). destruct (rel_Send ps (s_transport s) HQ) as [HR HQ'].
  split; [|split; [exact HO|exact HQ']]. cbn [s_accepted s_old s_transport Send].
  by rewrite rel_app, HA, HR, <- !app_assoc.
Qed.

(** What the goroutine of [Discard] or [Close] sends is not relevant. *)
Lemma rel_go t :
  transport_ok t ->
  rel (tr_wire (tr_go t)) ++ rel (tr_queue (tr_go t)) = rel (tr_wire t) ++ rel (tr_queue t) /\ transport_ok (tr_go t).
Proof.
  intros HT. unfold tr_go. destruct (tr_going t) as [|p ps] eqn:EG; [done|]. destruct HT as [HQ HG]. rewrite EG in HG.
  set (t0 := mkTransport _ _ _ _ _ _ _). assert (rel [p] = [] /\ rel ps = []) as [Hp Hps].
  { cbn in HG |- *. by destruct (relevant p). }
  destruct (rel_Send [p] t0) as [HR HK]; [by split|]. split; [|exact HK]. by rewrite HR, Hp, app_nil_r.
Qed.

Lemma handover_go s : handover_inv s -> handover_inv (with_transport (tr_go (s_transport s)) s).
Proof.
  intros HI. destruct (rel_go (s_transport s)) as [HR HK]; [apply HI|]. by apply (handover_frame s).
Qed.

Lemma handover_upgrade t s :
  handover_inv s -> tr_polling t = false -> tr_queue t = [] -> tr_going t = [] ->
  Forall (fun p => Typ p = PacketTypePong) (tr_wire t) -> handover_inv (upgradeTo t s).
Proof.
  intros (HA & HO & HQ & HG) HP HQt HGt HW. unfold upgradeTo. cbn [tr_QueuedPackets].
  destruct (tr_Discard_same (s_transport s)) as (HD1 & HD2 & _).
  assert (rel (tr_going (tr_Discard (s_transport s))) = []) as HD3.
  { unfold tr_Discard. destruct (tr_once (s_transport s)); [done|by apply rel_going]. }
  rewrite HD1. destruct (rel_move (tr_queue (s_transport s)) t HP HQt) as (HM1 & HM2 & HM3).
  split; [|split].
  - cbn [s_accepted s_old s_transport]. rewrite HM1, HM2, HA, (rel_pongs (tr_wire t) HW).
    rewrite fmap_app, concat_app. cbn. by rewrite HD2, !app_nil_r, <- app_assoc.
  - cbn [s_old]. apply Forall_app. split; [exact HO|]. apply Forall_singleton. split; [done|exact HD3].
  - split; [intros _; exact HM2|]. cbn [s_transport]. by rewrite HM3, HGt.
Qed.

(** Transports that were upgraded from change nothing relevant any more. *)
Lemma rel_old f t :
  In f [tr_go; tr_poll] -> rel (tr_queue t) = [] /\ rel (tr_going t) = [] ->
  rel (tr_wire (f t)) = rel (tr_wire t) /\ rel (tr_queue (f t)) = [] /\ rel (tr_going (f t)) = [].
Proof.
  intros Hf [HQ HG]. destruct Hf as [<-|[<-|[]]]; [|cbn; by rewrite rel_app, HQ, app_nil_r].
  unfold tr_go. destruct (tr_going t) as [|p ps] eqn:EG; [by rewrite EG|]. cbn in HG. destruct (relevant p) eqn:Ep; [done|].
  unfold tr_Send. cbn. destruct (tr_polling t); cbn; rewrite rel_app; cbn; by rewrite Ep, app_nil_r.
Qed.

Lemma handover_old i f s :
  handover_inv s -> In f [tr_go; tr_poll] -> handover_inv (with_old (alter f i (s_old s)) s).
Proof.
  intros (HA & HO & HQ) Hf. split; [|split; [|exact HQ]]; cbn [s_accepted s_old s_transport with_old].
  - rewrite HA. f_equal. clear HA. revert i. induction HO as [|t old Ht HO IH]; intros i; [done|].
    destruct i as [|i]; cbn; f_equal; [|apply IH]. symmetry. by apply rel_old.
  - apply Forall_alter; [exact HO|]. intros t _ Ht. by apply rel_old.
Qed.

Lemma handover_step s s' : handover_inv s -> step s s' -> handover_inv s'.
Proof.
  intros HI HS.
  destruct HS as [ps s|ps s|reason s|name err s|t s HP HQ HG HW|i f s Hf|s|s|s|s _|s _ _|s _|s _ _].
  - by apply handover_Send.
  - by apply handover_handlePackets.
  - by apply handover_close.
  - unfold onTransportClose. destruct (s_closed s); [done|]. destruct (negb _); [done|]. by apply handover_close.
  - by apply handover_upgrade.
  - by apply handover_old.
  - apply (handover_frame s); [done..| |].
    + cbn. by rewrite rel_app, app_nil_r.
    + destruct HI as (_ & _ & _ & HG). by split.
  - by apply handover_go.
  - by apply (handover_tr_Close s).
  - unfold ping_tick. destruct (s_closed s); [by apply (handover_same s)|]. by apply (handover_Send [ping_packet] s).
  - by apply (handover_same s).
  - by apply (handover_close ReasonPingTimeout s).
  - by apply (handover_same s).
Qed.

(** C26: A socket announces its end once: in every interleaving of sending, receiving,
    heartbeats, transport failures, upgrades and calls of [close], the user's [OnClose]
    callback runs exactly once and the socket is removed from the store exactly once,
    after the callback, when the socket is closed, and neither happens before. *)
Theorem close_announced_once id upgrades t s :
  reachable (newServerSocket id upgrades t) s ->
  if s_closed s then exists reason, close_effects (s_log s) = [OnClose reason; StoreDelete]
  else close_effects (s_log s) = [].
Proof. induction 1 as [|s s' _ IH HS]; [done|]. by apply (announced_step s). Qed.

Definition sample_polling : transport := mkTransport "polling" true [] [] false false [].
Definition sample_websocket : transport := mkTransport "websocket" false [] [mkPacket false PacketTypePong (to_bytes "probe")] false false [].

Lemma close_announced_once_witness :
  let s := onTransportClose "polling" false (Close (newServerSocket "x" [] sample_polling)) in
  if s_closed s then exists reason, close_effects (s_log s) = [OnClose reason; StoreDelete]
  else close_effects (s_log s) = [].
Proof.
  apply (close_announced_once "x" [] sample_polling).
  apply (re_step _ (Close (newServerSocket "x" [] sample_polling))); [|apply st_transport_close].
  apply (re_step _ (newServerSocket "x" [] sample_polling)); [constructor|apply st_close].
Defined.

(** C24: Upgrading a transport loses, duplicates and reorders nothing: in every interleaving
    of sends, polls, heartbeats, upgrades, transports that fail, closings, and the goroutines
    with which a polling transport sends a last NOOP (discarded) or CLOSE (closed), the
    packets the socket accepted are, in order, those given to the network by the transports
    it had, one after the other, by the current transport, and those queued in it. The
    packets that only drive transports are left out on both sides: NOOP, PONG and CLOSE. A
    transport that takes over is not polling and has sent nothing but answers to probes;
    given to the network is what was handed to the connection, also when that is closed. *)
Theorem upgrade_handover id upgrades t s :
  tr_wire t = [] -> tr_queue t = [] -> tr_going t = [] -> reachable (newServerSocket id upgrades t) s ->
  rel (s_accepted s) =
    concat ((fun t => rel (tr_wire t)) <$> s_old s) ++ rel (tr_wire (s_transport s)) ++ rel (tr_queue (s_transport s)).
Proof.
  intros HW HQ HG HR. assert (handover_inv s) as [HA _]; [|exact HA].
  induction HR as [|s s' _ IH HS]; [|by apply (handover_step s)].
  split; [|split; [by apply Forall_nil|]]; cbn; [by rewrite HW, HQ|]. split; [done|by rewrite HG].
Qed.

Lemma upgrade_handover_witness :
  let m := mkPacket false PacketTypeMessage [x61] in
  let s1 := Send [m] (newServerSocket "x" [] sample_polling) in
  let s2 := with_transport (tr_go (tr_Close (s_transport s1))) (with_transport (tr_Close (s_transport s1)) s1) in
  let s := upgradeTo sample_websocket s2 in
  rel (s_accepted s) =
    concat ((fun t => rel (tr_wire t)) <$> s_old s) ++ rel (tr_wire (s_transport s)) ++ rel (tr_queue (s_transport s)) /\
  tr_queue (s_transport s2) = [m; close_packet] /\ rel (tr_wire (s_transport s)) = [m].
Proof.
  intros m s1 s2 s. split; [|split; reflexivity].
  apply (upgrade_handover "x" [] sample_polling); [done..|].
  apply (re_step _ s2); [|apply st_upgrade; [done..|]; by repeat constructor].
  apply (re_step _ (with_transport (tr_Close (s_transport s1)) s1)); [|apply st_go].
  apply (re_step _ s1); [|apply st_fails].
  apply (re_step _ (newServerSocket "x" [] sample_polling)); [constructor|apply st_send].
Defined.

(** An upgrade that completes after the socket was closed leaves its transport open: the
    new transport is installed in the closed socket, and no later [close], for whatever
    reason, closes it. *)
Theorem upgrade_after_close_leaks t s reasons :
  s_closed s = true -> tr_closed t = false ->
  let s' := fold_left (fun s reason => close reason s) reasons (upgradeTo t s) in
  tr_name (s_transport s') = tr_name t /\ tr_closed (s_transport s') = false.
Proof.
  intros HC Ht s'.
  assert (forall s0, s_closed s0 = true -> fold_left (fun s reason => close reason s) reasons s0 = s0) as HF.
  { clear. induction reasons as [|r rs IH]; intros s0 H0; cbn; [done|]. unfold close at 2. rewrite H0. by apply IH. }
  subst s'. rewrite HF by (by unfold upgradeTo). rewrite upgradeTo_transport.
  generalize (tr_queue (s_transport s)) as qp. intros qp. revert t Ht.
  induction qp as [|p qp IH]; intros t Ht; cbn [fold_left]; [done|].
  destruct (is_noop p); [by apply IH|].
  assert (tr_name (tr_Send [p] t) = tr_name t /\ tr_closed (tr_Send [p] t) = false) as [HN HC'].
  { unfold tr_Send. by destruct (tr_polling t). }
  rewrite <- HN. by apply IH.
Qed.

Lemma upgrade_after_close_leaks_witness :
  let s' := fold_left (fun s reason => close reason s) [ReasonForcedClose]
              (upgradeTo sample_websocket (close ReasonPingTimeout (newServerSocket "x" [] sample_polling))) in
  tr_name (s_transport s') = "websocket" /\ tr_closed (s_transport s') = false.
Proof.
  apply (upgrade_after_close_leaks sample_websocket (close ReasonPingTimeout (newServerSocket "x" [] sample_polling)));
    reflexivity.
Defined.
End eiosocket.
