(* ===== verification/EioServer.v ===== *)
(** * The Engine.IO server ([engine.io/server.go], [store.go], [base64id.go], [server_error.go])

    Session IDs, the store of sessions, and the routing of HTTP requests: handshakes,
    requests for a session, which its transport serves ([EioPolling]), and the probing of
    another transport. The result of a transport's handshake, the random bytes and the
    authenticator are arguments; the user's callbacks are recorded, not run. *)

From S2P Require Import Prelude GoIO Base64 Strconv EioPacket EioPolling EioSocket.

Module eioserver.
Import eioparser eiosocket.

(** ** Session IDs ([base64id.go]) *)

Definition Base64IDSize : Z := 15.
Definition Base64IDMaxTry : nat := 10.

Inductive id_error := ErrBase64IDMaxTryReached | errBase64IDInvalidSize | errRand.

(** The alphabet of [base64.URLEncoding] has "-" and "_" for "+" and "/". *)
Definition url_char (c : byte) : byte :=
  match c with
  | "+"%byte => "-"%byte | "-"%byte => "+"%byte
  | "/"%byte => "_"%byte | "_"%byte => "/"%byte
  | c => c
  end.

Definition url_encode (b : bytes) : bytes := url_char <$> b64_encode b.

(** [seq] is the global counter; [random] what [rand.Read] puts into the first [size-3]
    bytes, [None] when it fails. The counter is written first and its first byte is
    overwritten. *)
Definition GenerateBase64ID (size : Z) (seq : Z) (random : option bytes) : Z * outcome id_error bytes :=
  if (size <=? 4)%Z then (seq, Err errBase64IDInvalidSize)
  else
    let seq' := wrap_u 32 (seq + 1) in
    match random with
    | None => (seq', Err errRand)
    | Some r => (seq', Ret (url_encode (r ++ drop 1 (be_encode 4 seq))))
    end.

(** ** The store of sessions ([store.go]) *)

Record socketStore := mkSocketStore { sockets : gmap string serverSocket }.

Definition newSocketStore : socketStore := mkSocketStore ∅.

Definition store_get (sid : string) (s : socketStore) : option serverSocket := sockets s !! sid.

Definition store_exists (sid : string) (s : socketStore) : bool :=
  match sockets s !! sid with Some _ => true | None => false end.

Definition store_set (sid : string) (socket : serverSocket) (s : socketStore) : socketStore * bool :=
  if store_exists sid s then (s, false) else (mkSocketStore (<[sid := socket]> (sockets s)), true).

Definition store_delete (sid : string) (s : socketStore) : socketStore := mkSocketStore (delete sid (sockets s)).

Definition store_getAll (s : socketStore) : list serverSocket := (map_to_list (sockets s)).*2.

(** [closeAll]: every socket of the store is closed; [Close] removes it from the store. *)
Definition closeAll (s : socketStore) : socketStore * list serverSocket :=
  let closed := Close <$> store_getAll s in
  (fold_left (fun st socket => if s_closed socket then st else store_delete (s_id socket) st) (store_getAll s) s, closed).

(** [generateSID]: [gen i] is the ID of the [i]-th try. *)
Fixpoint generateSID_loop (exists_ : string -> bool) (gen : nat -> outcome id_error string) (left i : nat)
  : outcome id_error string :=
  match gen i with
  | Ret sid =>
      if exists_ sid then
        match left with
        | O => Err ErrBase64IDMaxTryReached
        | S left' => generateSID_loop exists_ gen left' (S i)
        end
      else Ret sid
  | Err e => Err e
  | Panic why => Panic why
  end.

Definition generateSID (st : socketStore) (gen : nat -> outcome id_error string) : outcome id_error string :=
  generateSID_loop (fun sid => store_exists sid st) gen Base64IDMaxTry 0.

(** ** Errors ([server_error.go]) *)

Definition ErrorUnknownTransport : Z := 0.
Definition ErrorUnknownSID : Z := 1.
Definition ErrorBadHandshakeMethod : Z := 2.
Definition ErrorBadRequest : Z := 3.
Definition ErrorForbidden : Z := 4.
Definition ErrorUnsupportedProtocolVersion : Z := 5.

Definition serverErrors : gmap Z string :=
  list_to_map [(ErrorUnknownTransport, "Transport unknown"); (ErrorUnknownSID, "Session ID unknown");
               (ErrorBadHandshakeMethod, "Bad handshake method"); (ErrorBadRequest, "Bad request");
               (ErrorForbidden, "Forbidden"); (ErrorUnsupportedProtocolVersion, "Unsupported protocol version")].

(** The code and the message of an error. *)
Definition GetServerError (code : Z) : option (Z * string) := (fun m => (code, m)) <$> serverErrors !! code.

(** ** The server *)

(** [strconv.Atoi]. *)
Definition Atoi (s : bytes) : option Z :=
  let number d := match ParseUint d with inl n => Some n | inr _ => None end in
  match s with
  | "-"%byte :: d => n ← number d; if (n <=? 2 ^ 63)%Z then Some (- n)%Z else None
  | "+"%byte :: d => n ← number d; if (n <=? max_int64)%Z then Some n else None
  | d => n ← number d; if (n <=? max_int64)%Z then Some n else None
  end.

Definition ProtocolVersion : Z := 4.
Definition second : Z := 1000000000.

(** The settings that are compared or sent; durations in nanoseconds, 0 when not set. *)
Record ServerConfig := mkServerConfig {
  PingInterval : Z; PingTimeout : Z; UpgradeTimeout : Z;
  MaxBufferSize : Z; DisableMaxBufferSize : bool; WebTransport : bool;
}.

Record Server := mkServer {
  pingInterval : Z; pingTimeout : Z; upgradeTimeout : Z;
  maxBufferSize : Z; webTransportServer : bool;
  store : socketStore;
  closed : bool;
}.

Definition defaultMaxBufferSize : Z := 1000000.
Definition defaultPingTimeout : Z := second * 20.
Definition defaultPingInterval : Z := second * 25.
Definition defaultUpgradeTimeout : Z := second * 10.

Definition or_default (v d : Z) : Z := if (v =? 0)%Z then d else v.

Definition newServer (config : ServerConfig) : Server :=
  mkServer (or_default (PingInterval config) defaultPingInterval) (or_default (PingTimeout config) defaultPingTimeout)
    (or_default (UpgradeTimeout config) defaultUpgradeTimeout)
    (if DisableMaxBufferSize config then 0 else or_default (MaxBufferSize config) defaultMaxBufferSize)
    (WebTransport config) newSocketStore false.

Inductive run_error := ErrServerClosed | ErrPingInterval | ErrPingTimeout | ErrUpgradeTimeout.

Definition Run (s : Server) : outcome run_error unit :=
  _ ← fail_if (closed s) ErrServerClosed;
  _ ← fail_if (pingInterval s <? 1 * second)%Z ErrPingInterval;
  _ ← fail_if (pingTimeout s <? 1 * second)%Z ErrPingTimeout;
  fail_if (upgradeTimeout s <? 1 * second)%Z ErrUpgradeTimeout.

Definition PollTimeout (s : Server) : Z := pingInterval s + pingTimeout s.
Definition HTTPWriteTimeout (s : Server) : Z := PollTimeout s + 10 * second.

Definition with_store (st : socketStore) (s : Server) : Server :=
  mkServer (pingInterval s) (pingTimeout s) (upgradeTimeout s) (maxBufferSize s) (webTransportServer s) st (closed s).

(** [newHandshakePacket]; [marshal] is [json.Marshal]. *)
Definition newHandshakePacket (marshal : HandshakeResponse -> outcome error bytes) (sid : string) (upgrades : list string)
    (s : Server) : outcome error Packet :=
  data ← marshal (mkHandshakeResponse sid upgrades (pingInterval s / 1000000) (pingTimeout s / 1000000) (maxBufferSize s));
  NewPacket PacketTypeOpen false data.

Definition IsClosed (s : Server) : bool := closed s.

Definition Close (s : Server) : Server :=
  mkServer (pingInterval s) (pingTimeout s) (upgradeTimeout s) (maxBufferSize s) (webTransportServer s)
    (closeAll (store s)).1 true.

(** *** Requests *)

Record http_request := mkHttpRequest {
  ProtoMajor : Z;
  Method : string;
  q_EIO : bytes;
  q_sid : string;
  q_transport : string;
}.

(** What a request makes the server do that can be seen from outside. *)
Inductive action :=
  | WriteStatus (code : Z)
  | WriteServerError (code : Z)
  | Authenticated (ok : bool)
  | OnError
  | OnSocket (sid : string)
  | SocketClosed (sid : string)
  | Handshake (transport : string) (packet : option Packet)
  | PostHandshake (packet : option Packet)
  | ServeTransport (sid : string)
  | GoTransportClose (sid : string) (err : bool)   (* [go] in [onTransportClose] *)
  | CloseTransport
  | StartUpgrade (sid : string) (to : string).

(** The arguments: the authenticator, the IDs generated, [json.Marshal], and the result of
    the transport's [Handshake] (the session ID it was given, [None] when it fails). *)
Record environment := mkEnvironment {
  authenticator : http_request -> bool;
  gen : nat -> outcome id_error string;
  marshal : HandshakeResponse -> outcome error bytes;
  handshake : string -> option string;
}.

Definition new_transport (name : string) (polling : bool) : transport := mkTransport name polling [] [] false false [].

(** [newSocket]: false when the ID is taken. Then the new socket is closed, which removes
    its ID from the store. *)
Definition newSocket (sid : string) (upgrades : list string) (t : transport) (s : Server) : Server * list action * bool :=
  let socket := newServerSocket sid upgrades t in
  let '(st, ok) := store_set sid socket (store s) in
  if ok then (with_store st s, [OnSocket sid], true)
  else (with_store (store_delete sid st) s, [OnSocket sid; WriteStatus 500; OnError; SocketClosed sid], false).

(** [maybeUpgrade], up to the exchange of packets; [have_t] is whether a transport is given. *)
Definition maybeUpgrade (env : environment) (sid : string) (upgrade_to : string) (have_t : bool) : list action :=
  match upgrade_to with
  | "websocket" =>
      match handshake env "websocket" with
      | None => [Handshake "websocket" None; CloseTransport]
      | Some _ => [Handshake "websocket" None; StartUpgrade sid "websocket"; PostHandshake None]
      end
  | "webtransport" =>
      if have_t then [StartUpgrade sid "webtransport"; PostHandshake None] else [WriteStatus 500]
  | _ => [WriteServerError ErrorBadRequest]
  end%string.

Definition onWebTransport (env : environment) (s : Server) : Server * list action :=
  if negb (webTransportServer s) then (s, [WriteServerError ErrorUnknownTransport])
  else
    let hs := Handshake "webtransport" None in
    match handshake env "webtransport" with
    | None => (s, [hs; CloseTransport])
    | Some sid =>
        if String.eqb sid "" then
          match generateSID (store s) (gen env) with
          | Ret sid =>
              let '(s1, acts, ok) := newSocket sid [] (new_transport "webtransport" false) s in
              if ok then
                match newHandshakePacket (marshal env) sid [] s with
                | Ret p => (s1, [hs] ++ acts ++ [PostHandshake (Some p)])
                | _ => (s1, [hs] ++ acts ++ [WriteStatus 500; OnError; CloseTransport])
                end
              else (s1, [hs] ++ acts ++ [CloseTransport])
          | _ => (s, [hs; WriteStatus 500; OnError; CloseTransport])
          end
        else
          match store_get sid (store s) with
          | None => (s, [hs; WriteServerError ErrorUnknownSID; CloseTransport])
          | Some socket =>
              if String.eqb (TransportName socket) "webtransport" then (s, [hs; CloseTransport])
              else (s, [hs] ++ maybeUpgrade env sid "webtransport" true)
          end
    end.

(** The transport a handshake asks for, and the upgrades offered with it. *)
Definition handshake_transport (n : string) (s : Server) : option (transport * list string) :=
  let wt := if webTransportServer s then ["webtransport"%string] else [] in
  match n with
  | "polling" => Some (new_transport "polling" true, "websocket" :: wt)
  | "websocket" => Some (new_transport "websocket" false, wt)
  | _ => None
  end%string.

Definition handleHandshake (env : environment) (r : http_request) (s : Server) : Server * list action :=
  let n := q_transport r in
  if negb (String.eqb (Method r) "GET") && negb (ProtoMajor r =? 3)%Z then
    (s, [WriteServerError ErrorBadHandshakeMethod])
  else if String.eqb (Method r) "CONNECT" && (ProtoMajor r =? 3)%Z && String.eqb n "" then onWebTransport env s
  else
    let ok := authenticator env r in
    if negb ok then (s, [Authenticated ok; WriteStatus 403])
    else
      match generateSID (store s) (gen env) with
      | Ret sid =>
          match handshake_transport n s with
          | None => (s, [Authenticated ok; WriteServerError ErrorUnknownTransport])
          | Some (t, upgrades) =>
              match newHandshakePacket (marshal env) sid upgrades s with
              | Ret p =>
                  match handshake env n with
                  | None => (s, [Authenticated ok; Handshake n (Some p)])
                  | Some _ =>
                      let '(s1, acts, stored) := newSocket sid upgrades t s in
                      if stored then (s1, [Authenticated ok; Handshake n (Some p)] ++ acts ++ [PostHandshake None])
                      else (s1, [Authenticated ok; Handshake n (Some p)] ++ acts)
                  end
              | _ => (s, [Authenticated ok; WriteStatus 500; OnError])
              end
          end
      | _ => (s, [Authenticated ok; WriteStatus 500; OnError])
      end.

(** *** Requests for a session *)

(** What the session's transport reads of a request besides its method, what happened while
    a poll waited, and the connection the answer is written to. *)
Record serving (W : Type) := mkServing {
  sv_userAgent : bytes;
  sv_j : bytes;
  sv_ContentLength : Z;
  sv_Body : stream;
  sv_PostForm_d : option bytes;
  sv_wait : polling.wait;
  sv_response : polling.response W;
}.
Arguments mkServing {W}.
Arguments sv_userAgent {W}.
Arguments sv_j {W}.
Arguments sv_ContentLength {W}.
Arguments sv_Body {W}.
Arguments sv_PostForm_d {W}.
Arguments sv_wait {W}.
Arguments sv_response {W}.

Definition method_of (m : string) : polling.method :=
  match m with "GET" => polling.GET | "POST" => polling.POST | _ => polling.OtherMethod end%string.

Definition polling_request {W} (sv : serving W) (r : http_request) : polling.request :=
  polling.mkRequest (method_of (Method r)) (sv_userAgent sv) (sv_j sv) (sv_ContentLength sv) (sv_Body sv) (sv_PostForm_d sv).

(** The polling transport behind the transport of a socket. *)
Definition polling_of (max : Z) (t : transport) : polling.ServerTransport :=
  polling.mkServerTransport max (tr_queue t) (tr_once t).

(** The packets other goroutines send through the socket while a poll waits. *)
Definition sent_meanwhile (m : polling.method) (wt : polling.wait) (t : transport) : list Packet :=
  match m, tr_queue t, wt with
  | polling.GET, [], (polling.Woken queued | polling.TimedOut queued) => queued
  | _, _, _ => []
  end.

Definition closes (e : polling.event) : bool := match e with polling.EvOnClose _ => true | _ => false end.

(** The transport of the socket afterwards; [polled] went to the network. *)
Definition served (polled : list Packet) (t' : polling.ServerTransport) (es : list polling.event) (t : transport) : transport :=
  mkTransport (tr_name t) (tr_polling t) (polling.pq t') (tr_wire t ++ polled) (polling.once_done t')
    (tr_closed t || existsb closes es)
    (tr_going t ++ omap (fun e => match e with polling.EvGoSend p => Some p | _ => None end) es).

(** The callbacks of the transport are those of the socket. *)
Definition called_back (socket : serverSocket) (e : polling.event) : serverSocket :=
  match e with polling.EvOnPacket ps => onPacket ps socket | _ => socket end.

(** A socket that has closed removes itself from the store ([s.store.delete] of its ID). *)
Definition put_session (sid : string) (socket : serverSocket) (s : Server) : Server :=
  with_store (if s_closed socket then store_delete (s_id socket) (store s)
              else mkSocketStore (<[sid := socket]> (sockets (store s)))) s.

Section serve.
Context {W E : Type} `{IoWriter W E} (JSEscape : bytes -> bytes).

Definition serve_socket (max : Z) (sv : serving W) (r : http_request) (socket : serverSocket)
  : serverSocket * polling.response W * list polling.event :=
  let pr := polling_request sv r in
  let t := s_transport socket in
  let '(t', w, es) := polling.ServeHTTP JSEscape pr (sv_wait sv) (polling_of max t) (sv_response sv) in
  let polled := match polling.req_method pr with
                | polling.GET => (polling.poll (sv_wait sv) (polling_of max t)).2
                | _ => []
                end in
  let socket := Send (sent_meanwhile (polling.req_method pr) (sv_wait sv) t) socket in
  (fold_left called_back es (with_transport (served polled t' es t) socket), w, es).

(** [t.ServeHTTP(w, r)]: the polling transport serves the request; the others answer 400. *)
Definition serve_session (sv : serving W) (r : http_request) (sid : string) (socket : serverSocket) (s : Server)
  : Server * list action :=
  if tr_polling (s_transport socket) then
    let '(socket', w, es) := serve_socket (maxBufferSize s) sv r socket in
    (put_session sid socket' s,
     [ServeTransport sid] ++ omap (fun e => match e with polling.EvOnClose err => Some (GoTransportClose sid err) | _ => None end) es
       ++ match polling.r_status w with Some code => [WriteStatus code] | None => [] end)
  else (s, [ServeTransport sid; WriteStatus 400]).

Definition ServeHTTP (env : environment) (sv : serving W) (r : http_request) (s : Server) : Server * list action :=
  if IsClosed s then (s, [WriteStatus 503])
  else
    let supported := (ProtoMajor r =? 3)%Z ||
      match Atoi (q_EIO r) with Some version => (version =? ProtocolVersion)%Z | None => false end in
    if negb supported then (s, [WriteServerError ErrorUnsupportedProtocolVersion])
    else if String.eqb (q_sid r) "" then handleHandshake env r s
    else
      match store_get (q_sid r) (store s) with
      | None => (s, [WriteServerError ErrorUnknownSID])
      | Some socket =>
          if negb (String.eqb (TransportName socket) (q_transport r))
          then (s, maybeUpgrade env (q_sid r) (q_transport r) false)
          else serve_session sv r (q_sid r) socket s
      end.
End serve.

(** *** The exchange of packets of an upgrade *)

(** The transport that is tried, whether [done] is closed, and the socket. *)
Record upgrade := mkUpgrade {
  up_t : transport;
  up_done : bool;
  up_socket : serverSocket;
  up_errors : nat;           (* calls of [socket.onError] *)
}.

Definition pong_probe : Packet := mkPacket false PacketTypePong (to_bytes "probe").

(** [onPacket] of [maybeUpgrade]. *)
Definition upgrade_onPacket (packet : Packet) (u : upgrade) : upgrade :=
  match Typ packet with
  | PacketTypePing =>
      mkUpgrade (tr_Send [pong_probe] (up_t u)) (up_done u) (Send [noop] (up_socket u)) (up_errors u)
  | PacketTypeUpgrade => mkUpgrade (up_t u) true (upgradeTo (up_t u) (up_socket u)) (up_errors u)
  | _ => mkUpgrade (tr_Close (up_t u)) (up_done u) (up_socket u) (S (up_errors u))
  end.

(** The goroutine that waits for [done]: the timeout fires when it is not closed. *)
Definition upgrade_timeout (u : upgrade) : upgrade :=
  if up_done u then u
  else mkUpgrade (tr_Close (up_t u)) (up_done u) (up_socket u) (S (up_errors u)).

(** ** Lemmas *)

Lemma url_char_inj a b : url_char a = url_char b -> a = b.
Proof.
  assert (forall c, url_char (url_char c) = c) as HI by (intros []; reflexivity).
  intros H. by rewrite <- (HI a), H.
Qed.

Lemma url_encode_inj a b : url_encode a = url_encode b -> a = b.
Proof.
  unfold url_encode. intros H.
  assert (b64_encode a = b64_encode b) as HE.
  { revert H. generalize (b64_encode a) (b64_encode b). intros x. induction x as [|c x IH]; intros [|d y]; cbn; try done.
    intros [= Hc Hx]. f_equal; [by apply url_char_inj|by apply IH]. }
  apply (f_equal b64_decode) in HE. rewrite !b64_decode_encode in HE. by injection HE.
Qed.

Lemma generateSID_loop_spec exists_ g left i :
  match generateSID_loop exists_ g left i with
  | Ret sid => exists_ sid = false
  | Err ErrBase64IDMaxTryReached =>
      (forall j, i <= j <= i + left -> exists sid, g j = Ret sid /\ exists_ sid = true) \/
      exists j, i <= j <= i + left /\ g j = Err ErrBase64IDMaxTryReached
  | _ => True
  end.
Proof.
  revert i. induction left as [|left IH]; intros i; cbn [generateSID_loop].
  - destruct (g i) as [sid|e|] eqn:Eg; [|destruct e; try done; right; exists i; split; [lia|done]|done].
    destruct (exists_ sid) eqn:Ex; [|done]. left. intros j Hj. replace j with i by lia. eauto.
  - destruct (g i) as [sid|e|] eqn:Eg; [|destruct e; try done; right; exists i; split; [lia|done]|done].
    destruct (exists_ sid) eqn:Ex; [|done]. specialize (IH (S i)).
    destruct (generateSID_loop exists_ g left (S i)) as [?|[]|]; try done.
    destruct IH as [IH|(j & Hj & Ej)]; [left|right; exists j; split; [lia|done]].
    intros j Hj. destruct (decide (j = i)) as [->|]; [eauto|]. apply IH. lia.
Qed.

(** The store only grows, by one session with an ID that was free. *)
Definition grows (s s' : Server) : Prop :=
  store s' = store s \/
  exists sid socket, store_get sid (store s) = None /\ s_id socket = sid /\ s_closed socket = false /\
    sockets (store s') = <[sid := socket]> (sockets (store s)).

Lemma newSocket_grows sid upgrades t s :
  store_exists sid (store s) = false ->
  grows s (newSocket sid upgrades t s).1.1 /\ (newSocket sid upgrades t s).2 = true.
Proof.
  intros HE. unfold newSocket, store_set. rewrite HE. cbn. split; [|done]. right.
  exists sid, (newServerSocket sid upgrades t). unfold store_exists in HE. unfold store_get.
  by destruct (sockets (store s) !! sid).
Qed.

Lemma generateSID_free st g sid : generateSID st g = Ret sid -> store_exists sid st = false.
Proof.
  intros HG. pose proof (generateSID_loop_spec (fun sid => store_exists sid st) g Base64IDMaxTry 0) as HS.
  unfold generateSID in HG. by rewrite HG in HS.
Qed.

Lemma onWebTransport_grows env s : grows s (onWebTransport env s).1.
Proof.
  unfold onWebTransport. destruct (negb _); [by left|]. destruct (handshake env _) as [sid|]; [|by left].
  destruct (String.eqb sid "").
  - destruct (generateSID _ _) as [sid'| |] eqn:EG; [|by left..]. apply generateSID_free in EG.
    destruct (newSocket_grows sid' [] (new_transport "webtransport" false) s EG) as [HG HO].
    destruct (newSocket _ _ _ _) as [[s1 acts] ok]. cbn in HG, HO. subst ok.
    by destruct (newHandshakePacket _ _ _ _).
  - destruct (store_get _ _); [|by left]. destruct (String.eqb _ _); by left.
Qed.

Lemma handleHandshake_cases env r s :
  let '(s', acts) := handleHandshake env r s in
  grows s s' /\
  (store s' <> store s -> authenticator env r = true \/
     Method r = "CONNECT" /\ ProtoMajor r = 3%Z /\ q_transport r = "").
Proof.
  unfold handleHandshake. destruct (_ && negb _); [split; [by left|done]|].
  destruct (String.eqb_spec (Method r) "CONNECT") as [HM|], (Z.eqb_spec (ProtoMajor r) 3) as [HP|],
    (String.eqb_spec (q_transport r) "") as [HN|]; cbn [andb].
  1:{ pose proof (onWebTransport_grows env s) as HG. destruct (onWebTransport env s) as [s' acts].
      split; [exact HG|]. intros _. by right. }
  all: destruct (authenticator env r) eqn:EA; cbn [negb]; [|split; [by left|done]].
  all: destruct (generateSID _ _) as [sid| |] eqn:EG; [|split; [by left|done]..]; apply generateSID_free in EG.
  all: destruct (handshake_transport _ _) as [[t upgrades]|]; [|split; [by left|done]].
  all: destruct (newHandshakePacket _ _ _ _); [|split; [by left|done]..].
  all: destruct (handshake env _); [|split; [by left|done]].
  all: destruct (newSocket_grows sid upgrades t s EG) as [HG HO];
    destruct (newSocket _ _ _ _) as [[s1 acts] ok]; cbn in HG, HO; subst ok; split; [exact HG|by left].
Qed.

(** *** What serving a request does to its session *)

Lemma reachable_trans s0 s1 s2 : reachable s0 s1 -> reachable s1 s2 -> reachable s0 s2.
Proof. intros H1 H2. induction H2 as [|s s' _ IH HS]; [done|by apply (re_step _ s)]. Qed.

Lemma reachable_step s s' : step s s' -> reachable s s'.
Proof. intros HS. by apply (re_step _ s); [constructor|]. Qed.

(** A poll: the packets sent meanwhile, then the queue goes to the network. *)
Lemma served_poll max wt t :
  tr_polling t = true ->
  served (polling.poll wt (polling_of max t)).2 (polling.poll wt (polling_of max t)).1 [] t =
  match sent_meanwhile polling.GET wt t, tr_queue t, wt with
  | ps, [], polling.TimedOut _ => tr_Send ps t
  | ps, _, _ => tr_poll (tr_Send ps t)
  end.
Proof.
  intros HP. destruct t as [name pol q wire once cl go]. cbn in HP. subst pol.
  unfold served, tr_poll, tr_Send, polling.poll, polling_of, sent_meanwhile. cbn.
  destruct q as [|p q], wt as [ps|ps]; cbn; by rewrite ?app_nil_r, ?orb_false_r.
Qed.

(** Closing: what [polling.close] adds is [tr_Close]. *)
Lemma served_close polled t0 t t' es :
  tr_polling t = true -> polling.once_done t0 = tr_once t -> polling.close true t0 = (t', es) ->
  served polled t' es t = tr_Close (served polled t0 [] t) /\ forall so, fold_left called_back es so = so.
Proof.
  intros HP HO. unfold polling.close, served, tr_Close, going. cbn. rewrite HO.
  destruct (tr_once t) eqn:EO; intros [= <- <-]; cbn; [by rewrite HO|].
  by rewrite HP, !app_nil_r, orb_true_r.
Qed.

Lemma served_none max t : served [] (polling_of max t) [] t = t.
Proof. destruct t. unfold served. cbn. by rewrite !app_nil_r, orb_false_r. Qed.

Lemma with_transport_same so : with_transport (s_transport so) so = so.
Proof. by destruct so. Qed.

Lemma Send_nil so : Send [] so = so.
Proof.
  destruct so as [id up t old cl pong ping acc log]. unfold Send. cbn. rewrite app_nil_r. f_equal.
  destruct t as [name [] q wire once tcl go]; unfold tr_Send; cbn; by rewrite app_nil_r.
Qed.

Lemma step_fails t so : step (with_transport t so) (with_transport (tr_Close t) so).
Proof. exact (st_fails (with_transport t so)). Qed.

(** A poll request. *)
Lemma serve_poll_steps max wt so ps t1 :
  tr_polling (s_transport so) = true -> ps = sent_meanwhile polling.GET wt (s_transport so) ->
  t1 = served (polling.poll wt (polling_of max (s_transport so))).2 (polling.poll wt (polling_of max (s_transport so))).1 []
         (s_transport so) ->
  reachable so (with_transport t1 (Send ps so)).
Proof.
  intros HP -> ->. rewrite served_poll by done. set (ps := sent_meanwhile _ _ _).
  apply (reachable_trans _ (Send ps so)); [apply reachable_step, st_send|].
  destruct (tr_queue (s_transport so)), wt; try (apply reachable_step, (st_poll (Send ps so))). constructor.
Qed.

(** Serving a request is a sequence of the steps of the session's socket: packets are sent
    while a poll waits, the queue is polled, packets are received, the transport closes. *)
Lemma serve_socket_steps {W E} `{IoWriter W E} JSEscape max (sv : serving W) r so :
  tr_polling (s_transport so) = true -> reachable so (serve_socket JSEscape max sv r so).1.1.
Proof.
  intros HP. unfold serve_socket. set (pr := polling_request sv r).
  pose proof (polling.ServeHTTP_cases JSEscape pr (sv_wait sv) (polling_of max (s_transport so)) (sv_response sv)) as HC.
  destruct (polling.ServeHTTP _ _ _ _ _) as [[t' w] es]. cbn [fst]. destruct (polling.req_method pr).
  - pose proof (serve_poll_steps max (sv_wait sv) so _ _ HP eq_refl eq_refl) as HR.
    destruct HC as [[= -> ->]|HC]; [exact HR|]. symmetry in HC.
    apply (served_close (polling.poll (sv_wait sv) (polling_of max (s_transport so))).2 _ (s_transport so)) in HC
      as [-> ->]; [|done|].
    + apply (reachable_trans _ _ _ HR), reachable_step, step_fails.
    + unfold polling.poll. cbn. destruct (tr_queue (s_transport so)); [|done]. by destruct (sv_wait sv).
  - change (sent_meanwhile polling.POST _ _) with (@nil Packet). rewrite Send_nil.
    destruct HC as [(packets & -> & ->)|HC].
    + assert (served [] (polling_of max (s_transport so)) [polling.EvOnPacket packets] (s_transport so) = s_transport so) as ->
        by apply (served_none max).
      rewrite with_transport_same. apply reachable_step, st_packet.
    + symmetry in HC. apply (served_close [] _ (s_transport so)) in HC as [-> ->]; [|done|done]. rewrite served_none.
      apply reachable_step, st_fails.
  - destruct HC as [-> ->]. rewrite served_none, Send_nil, with_transport_same. constructor.
Qed.

(** The ID of a socket never changes. *)
Lemma handlePackets_id ps so : s_id (fold_left handlePacket ps so) = s_id so.
Proof.
  revert so. induction ps as [|p ps IH]; intros so; cbn; [done|]. rewrite IH. unfold handlePacket. by destruct (Typ p).
Qed.

Lemma close_id reason so : s_id (close reason so) = s_id so.
Proof. unfold close. by destruct (s_closed so). Qed.

Lemma step_id so so' : step so so' -> s_id so' = s_id so.
Proof.
  destruct 1 as [ps s|ps s|reason s|name err s|t s _ _ _ _|i f s _|s|s|s|s _|s _ _|s _|s _ _]; try done.
  - unfold onPacket. by rewrite handlePackets_id.
  - apply close_id.
  - unfold onTransportClose. destruct (s_closed s); [done|]. destruct (negb _); [done|]. apply close_id.
  - unfold ping_tick. by destruct (s_closed s).
  - apply close_id.
Qed.

Lemma reachable_id so so' : reachable so so' -> s_id so' = s_id so.
Proof. induction 1 as [|s s' _ IH HS]; [done|]. by rewrite (step_id _ _ HS). Qed.

(** Serving a request does not by itself close the socket: the goroutine of
    [onTransportClose] does. *)
Lemma serve_socket_closed {W E} `{IoWriter W E} JSEscape max (sv : serving W) r so :
  s_closed (serve_socket JSEscape max sv r so).1.1 = s_closed so.
Proof.
  unfold serve_socket. destruct (polling.ServeHTTP _ _ _ _ _) as [[t' w] es]. cbn [fst].
  assert (forall es so0, s_closed (fold_left called_back es so0) = s_closed so0) as HC; [|by rewrite HC].
  clear. induction es as [|e es IH]; intros so0; cbn [fold_left]; [done|]. rewrite IH. destruct e; try done.
  cbn. unfold onPacket. by destruct (handlePackets_frame packets (with_log [OnPacket packets] so0)) as [-> _].
Qed.

(** *** Sessions of a server *)

(** What the server's goroutines do: requests, the steps of a session's socket (which
    removes itself when it closes), and the end of the server. *)
Inductive sstep : Server -> Server -> Prop :=
  | ss_request {W E} `{IoWriter W E} JSEscape env (sv : serving W) r s : sstep s (ServeHTTP JSEscape env sv r s).1
  | ss_session sid so so' s :
      store_get sid (store s) = Some so -> step so so' -> sstep s (put_session sid so' s)
  | ss_close s : sstep s (Close s).

Inductive sreachable (s0 : Server) : Server -> Prop :=
  | sr_start : sreachable s0 s0
  | sr_step s s' : sreachable s0 s -> sstep s s' -> sreachable s0 s'.

(** Every session is stored under its own ID, is open, and behaves as [EioSocket] says. *)
Definition live (sid : string) (so : serverSocket) : Prop :=
  s_closed so = false /\
  exists upgrades t, tr_wire t = [] /\ tr_queue t = [] /\ tr_going t = [] /\ reachable (newServerSocket sid upgrades t) so.

Definition sessions_live (s : Server) : Prop :=
  forall sid so, store_get sid (store s) = Some so -> live sid so.

Lemma live_id sid so : live sid so -> s_id so = sid.
Proof. intros (_ & u & t & _ & _ & _ & HR). by rewrite (reachable_id _ _ HR). Qed.

(** The store holds what it held, except under [sid]. *)
Definition others_same (sid : string) (s s' : Server) : Prop :=
  forall sid', sid' <> sid -> store_get sid' (store s') = store_get sid' (store s).

Lemma put_session_others sid so s : s_id so = sid -> others_same sid s (put_session sid so s).
Proof.
  intros HI sid' Hne. unfold put_session, store_get. cbn. destruct (s_closed so); cbn.
  - rewrite HI. by apply lookup_delete_ne.
  - by apply lookup_insert_ne.
Qed.

Lemma put_session_at sid so s :
  s_id so = sid -> store_get sid (store (put_session sid so s)) = if s_closed so then None else Some so.
Proof.
  intros HI. unfold put_session, store_get. cbn. destruct (s_closed so); cbn.
  - rewrite HI. apply lookup_delete_eq.
  - apply lookup_insert_eq.
Qed.

Lemma put_session_live sid so so' s :
  sessions_live s -> store_get sid (store s) = Some so -> reachable so so' -> sessions_live (put_session sid so' s).
Proof.
  intros HL Hso HR sid' so1 H1. pose proof (HL _ _ Hso) as HV. assert (s_id so' = sid) as HI.
  { rewrite (reachable_id _ _ HR). by apply live_id. }
  destruct (decide (sid' = sid)) as [->|Hne]; [|rewrite (put_session_others sid so' s HI sid' Hne) in H1; by apply HL].
  rewrite put_session_at in H1 by done. destruct (s_closed so') eqn:EC; [done|]. injection H1 as <-.
  destruct HV as (_ & u & t & Hw & Hq & Hg & HR0). split; [done|]. exists u, t. split_and!; try done.
  by apply (reachable_trans _ so).
Qed.

(** A request is answered without touching the sessions, opens one under a free ID, or is
    served by the transport of the session it names. *)
Lemma ServeHTTP_dispatch {W E} `{IoWriter W E} JSEscape env (sv : serving W) r s :
  let '(s', acts) := ServeHTTP JSEscape env sv r s in
  (grows s s' /\ (store s' <> store s -> q_sid r = "" /\ closed s = false /\
     (authenticator env r = true \/ Method r = "CONNECT" /\ ProtoMajor r = 3%Z /\ q_transport r = ""))) \/
  exists so, q_sid r <> "" /\ store_get (q_sid r) (store s) = Some so /\ tr_polling (s_transport so) = true /\
    s' = put_session (q_sid r) (serve_socket JSEscape (maxBufferSize s) sv r so).1.1 s.
Proof.
  unfold ServeHTTP, IsClosed. destruct (closed s) eqn:EC; [left; split; [by left|done]|].
  destruct (negb _); [left; split; [by left|done]|].
  destruct (String.eqb_spec (q_sid r) "") as [Hs|Hs].
  - pose proof (handleHandshake_cases env r s) as HH. destruct (handleHandshake env r s) as [s' acts].
    destruct HH as [HG HA]. left. split; [done|]. intros Hne. split_and!; [done|done|by apply HA].
  - destruct (store_get _ _) as [so|] eqn:Eso; [|left; split; [by left|done]].
    destruct (negb _); [left; split; [by left|done]|]. unfold serve_session.
    destruct (tr_polling (s_transport so)) eqn:EP; [|left; split; [by left|done]].
    destruct (serve_socket _ _ _ _ _) as [[so' w] es] eqn:ES. right. exists so. by rewrite ES.
Qed.

(** The new session is one of a fresh socket. *)
Lemma newSocket_live sid upgrades t s :
  sessions_live s -> store_exists sid (store s) = false -> tr_wire t = [] -> tr_queue t = [] -> tr_going t = [] ->
  sessions_live (newSocket sid upgrades t s).1.1.
Proof.
  intros HL HE Hw Hq Hg. unfold newSocket, store_set. rewrite HE. cbn. intros sid' so. unfold store_get. cbn.
  intros [[<- <-]|[_ Hso]]%lookup_insert_Some; [|by apply HL]. split; [done|]. exists upgrades, t. split_and!; try done. constructor.
Qed.

Lemma onWebTransport_live env s : sessions_live s -> sessions_live (onWebTransport env s).1.
Proof.
  intros HL. unfold onWebTransport. destruct (negb _); [done|]. destruct (handshake env _) as [sid|]; [|done].
  destruct (String.eqb sid "").
  - destruct (generateSID _ _) as [sid'| |] eqn:EG; [|done..]. apply generateSID_free in EG.
    pose proof (newSocket_live sid' [] (new_transport "webtransport" false) s HL EG eq_refl eq_refl eq_refl) as HN.
    destruct (newSocket _ _ _ _) as [[s1 acts] ok]. destruct ok; [|done]. by destruct (newHandshakePacket _ _ _ _).
  - destruct (store_get _ _); [|done]. by destruct (String.eqb _ _).
Qed.

Lemma handleHandshake_live env r s : sessions_live s -> sessions_live (handleHandshake env r s).1.
Proof.
  intros HL. unfold handleHandshake. destruct (_ && negb _); [done|].
  destruct (_ && _); [by apply onWebTransport_live|].
  destruct (authenticator env r); [|done]. cbn [negb].
  destruct (generateSID _ _) as [sid| |] eqn:EG; [|done..]. apply generateSID_free in EG.
  destruct (handshake_transport _ _) as [[t upgrades]|] eqn:ET; [|done].
  destruct (newHandshakePacket _ _ _ _); [|done..]. destruct (handshake env _); [|done].
  assert (tr_wire t = [] /\ tr_queue t = [] /\ tr_going t = []) as (Hw & Hq & Hg).
  { unfold handshake_transport in ET. repeat case_match; by simplify_eq. }
  pose proof (newSocket_live sid upgrades t s HL EG Hw Hq Hg) as HN.
  destruct (newSocket _ _ _ _) as [[s1 acts] ok]. by destruct ok.
Qed.

Lemma ServeHTTP_live {W E} `{IoWriter W E} JSEscape env (sv : serving W) r s :
  sessions_live s -> sessions_live (ServeHTTP JSEscape env sv r s).1.
Proof.
  intros HL. unfold ServeHTTP. destruct (IsClosed s); [done|]. destruct (negb _); [done|].
  destruct (String.eqb _ _); [by apply handleHandshake_live|].
  destruct (store_get _ _) as [so|] eqn:Eso; [|done]. destruct (negb _); [done|]. unfold serve_session.
  destruct (tr_polling (s_transport so)) eqn:EP; [|done].
  pose proof (serve_socket_steps JSEscape (maxBufferSize s) sv r so EP) as HR.
  destruct (serve_socket _ _ _ _ _) as [[so' w] es]. by apply (put_session_live _ so).
Qed.

(** Closing the server only removes sessions. *)
Lemma closeAll_live s : sessions_live s -> sessions_live (Close s).
Proof.
  intros HL sid so. unfold Close, closeAll, store_get. cbn.
  generalize (store_getAll (store s)) as l. intros l Hso. apply HL. unfold store_get.
  revert Hso. generalize (store s) as st. induction l as [|x l IH]; intros st Hso; cbn in Hso; [done|].
  apply IH in Hso. destruct (s_closed x); [done|]. cbn in Hso. by apply lookup_delete_Some in Hso as [_ Hso].
Qed.

Lemma sreachable_live config s : sreachable (newServer config) s -> sessions_live s.
Proof.
  induction 1 as [|s s' _ IH HS]; [intros sid so Hso; discriminate|].
  destruct HS as [W E HW JSEscape env sv r s|sid so so' s Hso HS|s].
  - by apply ServeHTTP_live.
  - apply (put_session_live _ so); [done..|by apply reachable_step].
  - by apply closeAll_live.
Qed.

(** What a request may do to the sessions: the one it names takes steps of its socket and
    stays; at most one is added, and then [new] holds. *)
Definition sessions_kept (named : string) (new : Prop) (s s' : Server) : Prop :=
  (forall sid so, store_get sid (store s) = Some so ->
     exists so', store_get sid (store s') = Some so' /\ reachable so so' /\ (sid <> named -> so' = so)) /\
  (forall sid sid', store_get sid (store s) = None -> store_get sid' (store s) = None ->
     store_get sid (store s') <> None -> store_get sid' (store s') <> None -> sid = sid') /\
  (forall sid, store_get sid (store s) = None -> store_get sid (store s') <> None -> new).

Lemma grows_kept named new s s' : grows s s' -> (store s' <> store s -> new) -> sessions_kept named new s s'.
Proof.
  intros HG HA. split_and!.
  - intros sid so Hso. exists so. split; [|by split; [constructor|]].
    destruct HG as [->|(k & x & HN & _ & _ & HE)]; [done|]. unfold store_get in *. rewrite HE, lookup_insert_ne; [done|congruence].
  - intros sid sid' H1 H2 H3 H4. destruct HG as [HG|(k & x & HN & _ & _ & HE)]; [by rewrite HG in H3|].
    unfold store_get in *. rewrite HE in H3, H4.
    destruct (decide (sid = k)), (decide (sid' = k)); subst; try done.
    all: rewrite ?lookup_insert_ne in H3 by done; rewrite ?lookup_insert_ne in H4 by done; congruence.
  - intros sid H1 H2. apply HA. intros HE. rewrite HE in H2. congruence.
Qed.

Lemma put_session_kept named new so so' s :
  s_id so' = named -> store_get named (store s) = Some so -> reachable so so' -> s_closed so' = false ->
  sessions_kept named new s (put_session named so' s).
Proof.
  intros HI Hso HR HC.
  assert (forall sid, store_get sid (store s) = None -> store_get sid (store (put_session named so' s)) = None) as HX.
  { intros sid Hn. destruct (decide (sid = named)) as [->|Hne]; [congruence|]. by rewrite (put_session_others _ so' s HI sid Hne). }
  split_and!.
  - intros sid so1 H1. destruct (decide (sid = named)) as [->|Hne].
    + rewrite put_session_at, HC by done. rewrite Hso in H1. injection H1 as <-. by exists so'.
    + rewrite (put_session_others _ so' s HI sid Hne). exists so1. split; [done|by split; [constructor|]].
  - intros sid sid' H1 H2 H3 _. by apply HX in H1.
  - intros sid H1 H2. by apply HX in H1.
Qed.

(** The goroutine of [onTransportClose] removes its own session, when the transport that
    closed is the current one. *)
Lemma transport_close_removes sid so name err s :
  live sid so ->
  let s' := put_session sid (onTransportClose name err so) s in
  others_same sid s s' /\ (store_get sid (store s') = None <-> TransportName so = name).
Proof.
  intros HV. pose proof (live_id _ _ HV) as HI. destruct HV as [HO _].
  assert (s_id (onTransportClose name err so) = sid) as HI' by (by rewrite (step_id so _ (st_transport_close name err so))).
  split; [by apply put_session_others|]. rewrite put_session_at by done. unfold onTransportClose. rewrite HO.
  destruct (String.eqb_spec (TransportName so) name) as [->|Hne]; cbn [negb]; [|rewrite HO; by split].
  unfold close. by rewrite HO.
Qed.

(** A request that names a session touches no other. *)
Lemma ServeHTTP_others {W E} `{IoWriter W E} config JSEscape env (sv : serving W) r s :
  sreachable (newServer config) s -> q_sid r <> "" -> others_same (q_sid r) s (ServeHTTP JSEscape env sv r s).1.
Proof.
  intros HR Hs. pose proof (sreachable_live config s HR) as HL. pose proof (ServeHTTP_dispatch JSEscape env sv r s) as HC.
  destruct (ServeHTTP JSEscape env sv r s) as [s' acts]. destruct HC as [[HG HA]|(so & _ & Hso & HP & ->)]; cbn [fst].
  - destruct HG as [HG|(k & x & HN & _ & _ & HE)]; [intros sid _; by rewrite HG|].
    destruct HA as [HA _]; [|done]. intros HE'. unfold store_get in HN. rewrite HE' in HE.
    apply (f_equal (lookup k)) in HE. rewrite lookup_insert_eq in HE. congruence.
  - apply put_session_others. rewrite (reachable_id _ _ (serve_socket_steps JSEscape (maxBufferSize s) sv r so HP)). by apply live_id, HL.
Qed.

(** ** Properties *)

(** C27: Sessions of the Engine.IO server. In every interleaving of requests, of steps of the sessions' sockets
    (packets, heartbeats, upgrades, closings) and of [Close] of the server, every session of the store is open and
    stored under its own ID; and then, whatever the request, the authenticator and the generated IDs are: every
    session other than the one the request names is left as it is; the named one stays in the store, changed only
    by steps of its own socket (what its polling transport does with the request), and is removed only afterwards,
    by the goroutine of [onTransportClose] when that transport has closed; at most one session is added, under a
    free ID, and only for a request without a session ID on a server that is not closed, which the authenticator
    accepted or which is a WebTransport CONNECT. A request is one step: two handshakes with the same ID do not
    overlap ([newSocket_overlap_evicts]); the user's callbacks and [PostHandshake]'s reading loop are other steps. *)
Theorem ServeHTTP_sessions {W E} `{IoWriter W E} config s JSEscape env (sv : serving W) r :
  sreachable (newServer config) s ->
  (forall sid so, store_get sid (store s) = Some so -> s_id so = sid /\ s_closed so = false) /\
  let '(s', acts) := ServeHTTP JSEscape env sv r s in
  (forall sid so, store_get sid (store s) = Some so ->
     exists so', store_get sid (store s') = Some so' /\ reachable so so' /\ (sid <> q_sid r -> so' = so)) /\
  (forall sid sid', store_get sid (store s) = None -> store_get sid' (store s) = None ->
     store_get sid (store s') <> None -> store_get sid' (store s') <> None -> sid = sid') /\
  (forall sid, store_get sid (store s) = None -> store_get sid (store s') <> None -> q_sid r = "" /\ closed s = false /\
     (authenticator env r = true \/ Method r = "CONNECT" /\ ProtoMajor r = 3%Z /\ q_transport r = "")) /\
  (forall sid so name err, store_get sid (store s') = Some so ->
     let s'' := put_session sid (onTransportClose name err so) s' in
     others_same sid s' s'' /\ (store_get sid (store s'') = None <-> TransportName so = name)).
Proof.
  intros HR. pose proof (sreachable_live config s HR) as HL.
  split; [intros sid so Hso; split; [by apply live_id, HL|by apply HL in Hso as [? _]]|].
  pose proof (ServeHTTP_live JSEscape env sv r s HL) as HL'. pose proof (ServeHTTP_dispatch JSEscape env sv r s) as HC.
  destruct (ServeHTTP JSEscape env sv r s) as [s' acts]. cbn [fst] in HL'.
  enough (sessions_kept (q_sid r) (q_sid r = "" /\ closed s = false /\
    (authenticator env r = true \/ Method r = "CONNECT" /\ ProtoMajor r = 3%Z /\ q_transport r = "")) s s') as (H1 & H2 & H3).
  { split_and!; [exact H1|exact H2|exact H3|]. intros sid so name err Hso. by apply transport_close_removes, HL'. }
  destruct HC as [[HG HA]|(so & _ & Hso & HP & ->)]; [by apply grows_kept|].
  pose proof (serve_socket_steps JSEscape (maxBufferSize s) sv r so HP) as HRR.
  apply (put_session_kept _ _ so); [|done|done|].
  - rewrite (reachable_id _ _ HRR). by apply live_id, HL.
  - rewrite serve_socket_closed. by apply HL in Hso as [? _].
Qed.

Definition sample_env : environment :=
  mkEnvironment (fun _ => false) (fun i => Ret "id") (fun _ => Ret []) (fun _ => Some "").

Definition sample_server : Server := newServer (mkServerConfig 0 0 0 0 false true).

(** A POST with a CLOSE packet, which the server's limit allows, on a connection that takes the bytes. *)
Definition sample_serving : serving bytes :=
  mkServing [] [] 1 [to_bytes "1"] None (polling.TimedOut []) (polling.mkResponse [] None []).

Definition sample_open : Server :=
  (ServeHTTP (E := unit) id (mkEnvironment (fun _ => true) (fun i => Ret "s1") (fun _ => Ret []) (fun _ => Some "")) sample_serving
     (mkHttpRequest 1 "GET" (to_bytes "4") "" "polling") sample_server).1.

Lemma ServeHTTP_sessions_witness :
  let '(s', acts) := ServeHTTP (E := unit) id sample_env sample_serving (mkHttpRequest 1 "POST" (to_bytes "4") "s1" "polling") sample_open in
  acts = [ServeTransport "s1"; WriteStatus 200] /\
  exists so', store_get "s1" (store s') = Some so' /\ tr_closed (s_transport so') = true /\
    store_get "s1" (store (put_session "s1" (onTransportClose "polling" false so') s')) = None.
Proof.
  assert (sreachable (newServer (mkServerConfig 0 0 0 0 false true)) sample_open) as HR.
  { apply (sr_step _ sample_server); [constructor|apply (ss_request (E := unit))]. }
  destruct (ServeHTTP_sessions (E := unit) _ sample_open id sample_env sample_serving
    (mkHttpRequest 1 "POST" (to_bytes "4") "s1" "polling") HR) as (_ & _ & _ & _ & HT).
  split; [vm_compute; reflexivity|]. eexists. split; [vm_compute; reflexivity|]. split; [vm_compute; reflexivity|].
  apply (HT "s1" _ "polling" false); vm_compute; reflexivity.
Defined.

(** A WebTransport handshake is not authenticated: on a server with WebTransport, a CONNECT
    request without a transport name whose client asks for a new session gets one whatever
    the authenticator says; the authenticator is not called. *)
Theorem webtransport_skips_authenticator {W E} `{IoWriter W E} JSEscape env (sv : serving W) r s sid p :
  closed s = false -> webTransportServer s = true ->
  ProtoMajor r = 3%Z -> Method r = "CONNECT" -> q_transport r = "" -> q_sid r = "" ->
  handshake env "webtransport" = Some "" -> gen env 0 = Ret sid -> store_get sid (store s) = None ->
  newHandshakePacket (marshal env) sid [] s = Ret p ->
  let '(s', acts) := ServeHTTP JSEscape env sv r s in
  store_get sid (store s') <> None /\ acts = [Handshake "webtransport" None; OnSocket sid; PostHandshake (Some p)].
Proof.
  intros HC HW HP HM HT HS HH HG HF HK.
  unfold ServeHTTP, IsClosed, handleHandshake, onWebTransport. rewrite HC, HP, HM, HT, HS, HW, HH.
  change (String.eqb "CONNECT" "GET") with false. rewrite !String.eqb_refl, Z.eqb_refl. cbn [negb andb orb].
  assert (store_exists sid (store s) = false) as HE.
  { unfold store_exists, store_get in *. by destruct (sockets (store s) !! sid). }
  assert (generateSID (store s) (gen env) = Ret sid) as HGS.
  { unfold generateSID. destruct Base64IDMaxTry; cbn [generateSID_loop]; by rewrite HG, HE. }
  rewrite HGS. unfold newSocket, store_set. rewrite HE, HK. cbn. unfold store_get. cbn. by rewrite lookup_insert_eq.
Qed.

Lemma webtransport_skips_authenticator_witness :
  let '(s', acts) := ServeHTTP (E := unit) id sample_env sample_serving (mkHttpRequest 3 "CONNECT" [] "" "") sample_server in
  store_get "id" (store s') <> None /\
  acts = [Handshake "webtransport" None; OnSocket "id"; PostHandshake (Some (mkPacket false PacketTypeOpen []))].
Proof.
  apply (webtransport_skips_authenticator (E := unit) id sample_env sample_serving (mkHttpRequest 3 "CONNECT" [] "" "") sample_server "id");
    vm_compute; reflexivity.
Defined.

(** Session IDs are fresh: [generateSID] returns an ID no session of the store has; it
    gives up only after eleven tries that all gave an ID in use (or on an error of the
    generator). *)
Theorem generateSID_fresh st g :
  (forall i, g i <> Err ErrBase64IDMaxTryReached) ->
  match generateSID st g with
  | Ret sid => store_get sid st = None
  | Err ErrBase64IDMaxTryReached => forall j, j <= 10 -> exists sid, g j = Ret sid /\ store_get sid st <> None
  | _ => True
  end.
Proof.
  intros Hg. pose proof (generateSID_loop_spec (fun sid => store_exists sid st) g Base64IDMaxTry 0) as HS.
  unfold generateSID, store_exists, store_get in *.
  destruct (generateSID_loop _ g Base64IDMaxTry 0) as [sid|[]|]; try done.
  - by destruct (sockets st !! sid).
  - destruct HS as [HS|(j & _ & Hj)]; [|by destruct (Hg j)].
    intros j Hj. destruct (HS j) as (sid & Eg & Ex); [unfold Base64IDMaxTry; lia|]. exists sid. split; [done|].
    by destruct (sockets st !! sid).
Qed.

Lemma generateSID_fresh_witness :
  match generateSID newSocketStore (fun _ => Ret "id") with
  | Ret sid => store_get sid newSocketStore = None
  | Err ErrBase64IDMaxTryReached =>
      forall j, j <= 10 -> exists sid, (Ret "id" : outcome id_error string) = Ret sid /\ store_get sid newSocketStore <> None
  | _ => True
  end.
Proof. apply (generateSID_fresh newSocketStore (fun _ => Ret "id")). done. Defined.

(** IDs generated within any 2^24 consecutive calls of [GenerateBase64ID] differ, whatever
    the random bytes are: the three last bytes of the counter are kept in the ID. *)
Theorem GenerateBase64ID_distinct size seq1 seq2 r1 r2 id1 id2 :
  length r1 = length r2 ->
  (GenerateBase64ID size seq1 (Some r1)).2 = Ret id1 -> (GenerateBase64ID size seq2 (Some r2)).2 = Ret id2 ->
  (seq1 mod 2 ^ 24 <> seq2 mod 2 ^ 24)%Z -> id1 <> id2.
Proof.
  intros HL. unfold GenerateBase64ID. destruct (size <=? 4)%Z; [done|]. cbn [snd]. intros [= <-] [= <-] Hne HE.
  apply url_encode_inj in HE. apply app_inj_1 in HE as [_ HE]; [|exact HL].
  assert (be_encode 3 seq1 = be_encode 3 seq2) as HB by exact HE.
  apply (f_equal be_decode) in HB. by rewrite !be_decode_encode in HB.
Qed.

Lemma GenerateBase64ID_distinct_witness :
  exists id1 id2, (GenerateBase64ID 15 7 (Some (repeat x00 12))).2 = Ret id1 /\
    (GenerateBase64ID 15 8 (Some (repeat x00 12))).2 = Ret id2 /\ id1 <> id2.
Proof.
  eexists _, _. split; [vm_compute; reflexivity|]. split; [vm_compute; reflexivity|].
  apply (GenerateBase64ID_distinct 15 7 8 (repeat x00 12) (repeat x00 12)); try (vm_compute; reflexivity).
  vm_compute. discriminate.
Defined.

(** A handshake that loses the race for its ID removes the session that won it. *)
Lemma newSocket_overlap_evicts sid upgrades t s :
  store_exists sid (store s) = true ->
  let '(s', _, ok) := newSocket sid upgrades t s in ok = false /\ store_get sid (store s') = None.
Proof.
  intros HE. unfold newSocket, store_set. rewrite HE. cbn. split; [done|]. apply lookup_delete_eq.
Qed.

(** A probe and an upgrade: the PONG goes out on the new transport, which takes over with
    the packets queued in the old one; the timeout that fires afterwards changes nothing. *)
Lemma upgrade_completes data1 data2 t s :
  tr_polling t = false -> tr_polling (s_transport s) = true ->
  let u0 := mkUpgrade t false s 0 in
  let u := upgrade_onPacket (mkPacket false PacketTypeUpgrade data2)
             (upgrade_onPacket (mkPacket false PacketTypePing data1) u0) in
  s_transport (up_socket u) = fold_left (fun t p => if is_noop p then t else tr_Send [p] t)
                                (tr_queue (s_transport s) ++ [noop]) (tr_Send [pong_probe] t) /\
  upgrade_timeout u = u.
Proof.
  intros HP HQ. split; [|reflexivity].
  assert (tr_queue (tr_Send [noop] (s_transport s)) = tr_queue (s_transport s) ++ [noop]) as HN.
  { unfold tr_Send. by rewrite HQ. }
  rewrite <- HN. cbn [up_socket upgrade_onPacket Typ]. by rewrite upgradeTo_transport.
Qed.

(** Any other packet ends the attempt: the new transport is closed, the socket stays on the
    one it has; the timeout still fires later. *)
Lemma upgrade_refused packet t s :
  Typ packet <> PacketTypePing -> Typ packet <> PacketTypeUpgrade ->
  let u := upgrade_onPacket packet (mkUpgrade t false s 0) in
  up_socket u = s /\ up_t u = tr_Close t /\ up_errors (upgrade_timeout u) = 2.
Proof. unfold upgrade_onPacket. by destruct (Typ packet). Qed.
End eioserver.
