(* ===== verification/EioClient.v ===== *)
(** * The Engine.IO client ([engine.io/client_socket.go], [transport/polling/client.go])

    Connecting with a list of transports, splitting what is sent into payloads, probing and
    switching to another transport, and the polling transport's handshake and requests.
    HTTP and the other transports are arguments. *)

From S2P Require Import Prelude GoIO Strconv EioPacket EioPayload EioSocket EioPolling Handlers.

Module eioclient.
Import eioparser payload eiosocket.

(** ** Sending ([writeWritablePackets]) *)

Section writable.
Context (maxPayload : Z).

(** The loop: [cur] is [packets[:i]], [size] is [payloadSize], and [sends] are the calls of
    [transport.Send] so far. After a split the loop goes on behind the packet that did not
    fit, with an empty size. *)
Fixpoint writable_loop (packets cur : list Packet) (size : Z) (sends : list (list Packet))
  : list (list Packet) * list Packet :=
  match packets with
  | [] => (sends, cur)
  | p :: packets' =>
      let size1 := if (0 <? length (Data p)) then (size + EncodedLen p false)%Z else size in
      if (0 <? length cur) && (maxPayload <? size1)%Z then writable_loop packets' [p] 0 (sends ++ [cur])
      else writable_loop packets' (cur ++ [p]) (size1 + 1) sends
  end.

(** The calls of [transport.Send]; [polling] is whether the transport is polling. *)
Definition writeWritablePackets (polling : bool) (packets : list Packet) : list (list Packet) :=
  let shouldCheckPayloadSize := (0 <? maxPayload)%Z && polling && (1 <? length packets) in
  let '(sends, packets) := if shouldCheckPayloadSize then writable_loop packets [] 0 [] else ([], packets) in
  if 0 <? length packets then sends ++ [packets] else sends.

Lemma writable_loop_concat packets cur size sends :
  let '(sends', cur') := writable_loop packets cur size sends in
  concat sends' ++ cur' = concat sends ++ cur ++ packets.
Proof.
  revert cur size sends. induction packets as [|p packets IH]; intros cur size sends; cbn [writable_loop].
  - by rewrite app_nil_r.
  - destruct (_ && _).
    + specialize (IH [p] 0%Z (sends ++ [cur])). destruct (writable_loop _ _ _ _) as [sends' cur'].
      rewrite IH, concat_app. cbn. by rewrite app_nil_r, <- !app_assoc.
    + match goal with |- context [writable_loop packets (cur ++ [p]) ?z sends] => specialize (IH (cur ++ [p]) z sends) end.
      destruct (writable_loop _ _ _ _) as [sends' cur']. rewrite IH. by rewrite <- !app_assoc.
Qed.

Lemma writable_loop_nonempty packets cur size sends :
  Forall (fun s => s <> []) sends ->
  let '(sends', cur') := writable_loop packets cur size sends in
  Forall (fun s => s <> []) sends' /\ (packets <> [] \/ cur <> [] -> cur' <> []).
Proof.
  revert cur size sends. induction packets as [|p packets IH]; intros cur size sends HF; cbn [writable_loop].
  - split; [done|]. by intros [?|?].
  - destruct ((0 <? length cur) && _) eqn:EC.
    + specialize (IH [p] 0%Z (sends ++ [cur])). destruct (writable_loop _ _ _ _) as [sends' cur'].
      destruct IH as [H1 H2]; [|split; [done|]; intros _; by apply H2; right].
      apply Forall_app. split; [done|]. apply Forall_singleton. apply andb_prop in EC as [EC _]. by destruct cur.
    + match goal with |- context [writable_loop packets (cur ++ [p]) ?z sends] => specialize (IH (cur ++ [p]) z sends HF) end.
      destruct (writable_loop _ _ _ _) as [sends' cur']. destruct IH as [H1 H2]. split; [done|].
      intros _. apply H2. right. by destruct cur.
Qed.
End writable.

(** The client sends every packet once and in order: whatever the payload limit, the calls
    of [transport.Send] that [writeWritablePackets] makes carry the packets given, none is
    empty, and there is one call when the size need not be checked. *)
Theorem writeWritablePackets_complete maxPayload polling packets :
  let sends := writeWritablePackets maxPayload polling packets in
  concat sends = packets /\ Forall (fun s => s <> []) sends /\
  (packets <> [] -> polling = false -> sends = [packets]).
Proof.
  intros sends. subst sends. unfold writeWritablePackets. split_and!.
  - destruct (_ && _ && _) eqn:EC.
    + pose proof (writable_loop_concat maxPayload packets [] 0 []) as HC.
      destruct (writable_loop _ _ _ _ _) as [sends cur]. cbn in HC.
      destruct cur; cbn; [by rewrite app_nil_r in HC|]. rewrite concat_app. cbn. by rewrite app_nil_r.
    + destruct packets; cbn; [done|]. by rewrite app_nil_r.
  - destruct (_ && _ && _) eqn:EC.
    + pose proof (writable_loop_nonempty maxPayload packets [] 0 []) as HC.
      destruct (writable_loop _ _ _ _ _) as [sends cur]. destruct HC as [HF _]; [constructor|].
      destruct cur; cbn; [done|]. apply Forall_app. split; [done|]. by apply Forall_singleton.
    + destruct packets; cbn; [constructor|]. by apply Forall_singleton.
  - intros Hne ->. rewrite andb_false_r. cbn [andb]. by destruct packets.
Qed.

(** The payload limit is not kept: the packet that starts a new payload is not counted, so
    of three packets of which no two fit together the last two are sent together, in a
    payload larger than the limit. *)
Theorem writeWritablePackets_exceeds maxPayload a b c :
  (0 < maxPayload)%Z -> Data a <> [] -> Data b <> [] -> Data c <> [] ->
  (EncodedLen a false <= maxPayload)%Z -> (EncodedLen b false <= maxPayload)%Z -> (EncodedLen c false <= maxPayload)%Z ->
  (maxPayload < EncodedLen a false + 1 + EncodedLen b false)%Z ->
  (maxPayload < EncodedLen b false + 1 + EncodedLen c false)%Z ->
  writeWritablePackets maxPayload true [a; b; c] = [[a]; [b; c]] /\
  (maxPayload < EncodedPayloadsLen [b; c])%Z.
Proof.
  intros Hm Da Db Dc La Lb Lc Hab Hbc. unfold writeWritablePackets.
  assert (forall p, Data p <> [] -> (0 <? length (Data p)) = true) as HD.
  { intros p Hp. by destruct (Data p). }
  destruct (Z.ltb_spec 0 maxPayload); [|lia]. change (1 <? length [a; b; c]) with true. cbn [andb writable_loop].
  change (0 <? length (@nil Packet)) with false. cbn [andb app]. change (0 <? length [a]) with true. cbn [andb].
  rewrite !HD by done.
  destruct (Z.ltb_spec maxPayload (0 + EncodedLen a false + 1 + EncodedLen b false)); [|lia].
  change (0 <? length [b]) with true. cbn [andb].
  destruct (Z.ltb_spec maxPayload (0 + EncodedLen c false)); [lia|].
  split; [done|]. unfold EncodedPayloadsLen. cbn [EncodedPayloadsLen_loop length Nat.eqb Nat.sub negb]. lia.
Qed.

Lemma writeWritablePackets_exceeds_witness :
  let p := mkPacket false PacketTypeMessage (to_bytes "hello") in
  writeWritablePackets 10 true [p; p; p] = [[p]; [p; p]] /\ (10 < EncodedPayloadsLen [p; p])%Z.
Proof.
  pose (p := mkPacket false PacketTypeMessage (to_bytes "hello")).
  apply (writeWritablePackets_exceeds 10 p p p); vm_compute; congruence.
Defined.

(** ** Connecting *)

Inductive connect_error := ErrInvalidTransportName (name : string) | ErrHandshake (e : error).

Definition known_transport (name : string) : bool :=
  String.eqb name "polling" || String.eqb name "websocket" || String.eqb name "webtransport".

(** The loop of [connect]. [hs] is [Handshake] of the transport of that name; the result is
    the transport and its handshake, [None] when there was nothing to try, and the
    transports after it. *)
Fixpoint connect_loop (hs : string -> outcome error HandshakeResponse) (transports : list string) (err : option connect_error)
  : outcome connect_error (option (string * HandshakeResponse) * list string) :=
  match transports with
  | [] => match err with Some e => Err e | None => Ret (None, []) end
  | name :: transports' =>
      if known_transport name then
        match hs name with
        | Ret hr => Ret (Some (name, hr), transports')
        | Err e => connect_loop hs transports' (Some (ErrHandshake e))
        | Panic why => Panic why
        end
      else Err (ErrInvalidTransportName name)
  end.

(** [connect]; [Dial] gives it at least one transport. *)
Definition connect (hs : string -> outcome error HandshakeResponse) (transports : list string) :=
  connect_loop hs transports None.

(** ** Upgrading *)

Definition findTransport (transports : list string) (name : string) : bool := existsb (String.eqb name) transports.

(** The guards of [maybeUpgrade]: whether it goes on. *)
Definition upgrade_wanted (current : string) (transports upgrades : list string) : bool :=
  if String.eqb current "webtransport" then false
  else if String.eqb current "websocket" && negb (findTransport upgrades "webtransport") then false
  else if negb (findTransport upgrades "websocket") && negb (findTransport upgrades "webtransport") then false
  else if negb (findTransport transports "websocket") && negb (findTransport transports "webtransport") then false
  else true.

(** The loop over the transports; [tried] are the upgrades attempted, [try_ok] whether
    [tryUpgradeTo] succeeds. For another name the transport is nil and its [Handshake] is
    called. *)
Fixpoint upgrade_loop (try_ok : string -> bool) (upgrades transports tried : list string) : outcome unit (list string) :=
  match transports with
  | [] => Ret tried
  | upgradeTo :: transports' =>
      if negb (findTransport upgrades upgradeTo) then upgrade_loop try_ok upgrades transports' tried
      else if String.eqb upgradeTo "websocket" || String.eqb upgradeTo "webtransport" then
        if try_ok upgradeTo then Ret (tried ++ [upgradeTo])
        else upgrade_loop try_ok upgrades transports' (tried ++ [upgradeTo])
      else Panic NilDeref
  end.

(** [maybeUpgrade]: [transports] is a slice of the array the caller of [Dial] passed, and
    "webtransport" is moved to the front by removing it in place. The result is the slice,
    whose array the caller sees, and the attempts. *)
Definition maybeUpgrade (try_ok : string -> bool) (current : string) (transports : slices.slice string) (upgrades : list string)
  : slices.slice string * outcome unit (list string) :=
  let ts := take (slices.len transports) (slices.arr transports) in
  if negb (upgrade_wanted current ts upgrades) then (transports, Ret [])
  else if findTransport ts "webtransport" && findTransport ts "websocket" then
    match slices.off_outer String.eqb (seq 0 (slices.len transports)) ["webtransport"%string] transports with
    | Some sl => (sl, upgrade_loop try_ok upgrades ("webtransport"%string :: take (slices.len sl) (slices.arr sl)) [])
    | None => (transports, Panic SliceBounds)
    end
  else (transports, upgrade_loop try_ok upgrades ts []).

(** [tryUpgradeTo]: what the packets received on the new transport do; [None] while it waits. *)
Definition probe_packet : Packet := mkPacket false PacketTypePing (to_bytes "probe").

Definition try_onPacket (packet : Packet) : option bool :=
  match Typ packet with
  | PacketTypePong => if bool_decide (Data packet = to_bytes "probe") then Some true else Some false
  | _ => Some false
  end.

(** ** The socket *)

Inductive c_effect := COnPacket (ps : list Packet) | COnClose (reason : Reason) | CUpgradeDone (name : string).

Record clientSocket := mkClientSocket {
  c_transport : transport;
  c_maxPayload : Z;
  c_closed : bool;
  c_ping : bool;                (* [pingChan] holds a value *)
  c_log : list c_effect;
}.

Definition c_TransportName (s : clientSocket) : string := tr_name (c_transport s).

(** The calls of [Send] of the transport, one after the other. *)
Definition c_Send (packets : list Packet) (s : clientSocket) : clientSocket :=
  mkClientSocket
    (fold_left (fun t ps => tr_Send ps t)
       (writeWritablePackets (c_maxPayload s) (String.eqb (c_TransportName s) "polling") packets) (c_transport s))
    (c_maxPayload s) (c_closed s) (c_ping s) (c_log s).

Definition c_handlePacket (s : clientSocket) (packet : Packet) : clientSocket :=
  match Typ packet with
  | PacketTypePing =>
      let s1 := mkClientSocket (c_transport s) (c_maxPayload s) (c_closed s) true (c_log s) in
      c_Send [mkPacket false PacketTypePong (Data packet)] s1
  | PacketTypeClose => mkClientSocket (tr_Close (c_transport s)) (c_maxPayload s) (c_closed s) (c_ping s) (c_log s)
  | _ => s
  end.

Definition c_onPacket (packets : list Packet) (s : clientSocket) : clientSocket :=
  fold_left c_handlePacket packets
    (mkClientSocket (c_transport s) (c_maxPayload s) (c_closed s) (c_ping s) (c_log s ++ [COnPacket packets])).

(** [Discard] of a client's transport sends nothing. *)
Definition c_tr_Discard (t : transport) : transport :=
  mkTransport (tr_name t) (tr_polling t) (tr_queue t) (tr_wire t) true (tr_closed t) (tr_going t).

Definition finishUpgradeTo (t : transport) (s : clientSocket) : clientSocket * transport :=
  (mkClientSocket (tr_Send [mkPacket false PacketTypeUpgrade []] t) (c_maxPayload s) (c_closed s) (c_ping s)
     (c_log s ++ [CUpgradeDone (tr_name t)]), c_tr_Discard (c_transport s)).

Definition c_close (reason : Reason) (s : clientSocket) : clientSocket :=
  if c_closed s then s
  else
    let t := match reason with
             | ReasonTransportClose | ReasonTransportError => c_transport s
             | _ => tr_Close (c_transport s)
             end in
    mkClientSocket t (c_maxPayload s) true (c_ping s) (c_log s ++ [COnClose reason]).

Definition c_Close (s : clientSocket) : clientSocket := c_close ReasonForcedClose s.

Definition c_onTransportClose (name : string) (err : bool) (s : clientSocket) : clientSocket :=
  if c_closed s then s
  else if negb (String.eqb (c_TransportName s) name) then s
  else c_close (if err then ReasonTransportError else ReasonTransportClose) s.

(** The cases of the [select] of [handleTimeout]; false when the goroutine returns. *)
Inductive timeout_case := CasePing | CaseTimeout | CaseClosed.

Definition handleTimeout (c : timeout_case) (s : clientSocket) : clientSocket * bool :=
  match c with
  | CasePing => (mkClientSocket (c_transport s) (c_maxPayload s) (c_closed s) false (c_log s), true)
  | CaseTimeout => (c_close ReasonPingTimeout s, false)
  | CaseClosed => (s, false)
  end.

(** ** The polling transport ([transport/polling/client.go]) *)

(** The answer to a request: [None] when [Do] fails; the status and the body, decompressed. *)
Record http_response := mkHttpResponse { resp_status : Z; resp_body : stream }.

Inductive poll_error := ErrDo | ErrStatus (code : Z) | ErrDecode (e : error) | ErrNoPacket | ErrHandshakeResponse (e : error).

Definition poll (resp : option http_response) : outcome poll_error (list Packet) :=
  match resp with
  | None => Err ErrDo
  | Some r =>
      if negb (resp_status r =? 200)%Z then Err (ErrStatus (resp_status r))
      else match DecodePayloads (resp_body r) with
           | Ret packets => Ret packets
           | Err e => Err (ErrDecode e)
           | Panic why => Panic why
           end
  end.

(** [Handshake]: the response, and the packet kept for [Run]. *)
Definition c_Handshake (unmarshal : bytes -> option HandshakeResponse) (resp : option http_response)
  : outcome poll_error (HandshakeResponse * option Packet) :=
  packets ← poll resp;
  match packets with
  | [] => Err ErrNoPacket
  | p :: rest =>
      match ParseHandshakeResponse unmarshal p with
      | Ret hr => Ret (hr, match rest with [p1] => Some p1 | _ => None end)
      | Err e => Err (ErrHandshakeResponse e)
      | Panic why => Panic why
      end
  end.

(** One turn of the loop of [Run]: the packets delivered, or [None]: the transport closes. *)
Definition run_turn (resp : option http_response) : option (list Packet) :=
  match poll resp with Ret packets => Some packets | _ => None end.

(** [Send]: the body of the POST, and whether the transport stays open after the answer. *)
Definition c_post (packets : list Packet) : bytes := (EncodePayloads (W := bytes) (E := unit) packets []).1.

Definition post_ok (resp : option http_response) : bool :=
  match resp with
  | None => false
  | Some r =>
      (resp_status r =? 200)%Z &&
      match (stream_read 2 (resp_body r)).1.2 with
      | "o"%byte :: "k"%byte :: _ => true
      | _ => false
      end
  end.

(** ** Properties *)

(** The client connects with the first transport that works: when the handshakes of the
    transports before it fail and its own succeeds, [connect] returns that transport with its
    handshake, and the transports after it are those left for upgrades. *)
Theorem connect_first_working hs pre name post hr :
  Forall (fun n => known_transport n = true /\ exists e, hs n = Err e) pre ->
  known_transport name = true -> hs name = Ret hr ->
  connect hs (pre ++ name :: post) = Ret (Some (name, hr), post).
Proof.
  intros HF HK HR. unfold connect. generalize (@None connect_error).
  induction HF as [|n pre [Hn [e He]] HF IH]; intros err; cbn [app connect_loop].
  - by rewrite HK, HR.
  - rewrite Hn, He. apply IH.
Qed.

Definition sample_hr : HandshakeResponse := mkHandshakeResponse "x" [] 25000 20000 1000000.

Lemma connect_first_working_witness :
  connect (fun n => if String.eqb n "polling" then Ret sample_hr else Err errOpenExpected)
    ["websocket"; "polling"; "webtransport"]%string = Ret (Some ("polling"%string, sample_hr), ["webtransport"%string]).
Proof.
  apply (connect_first_working _ ["websocket"%string] "polling" ["webtransport"%string] sample_hr); [|reflexivity..].
  repeat constructor. eexists. reflexivity.
Defined.

(** Preparing an upgrade overwrites the caller's configuration: with the transports
    "polling", "webtransport", "websocket" passed to [Dial], the in-place removal replaces
    "webtransport" in the caller's array by "websocket", so that a later connection with the
    same configuration does not try WebTransport. *)
Theorem maybeUpgrade_corrupts_config try_ok upgrades :
  findTransport upgrades "websocket" || findTransport upgrades "webtransport" = true ->
  slices.arr (maybeUpgrade try_ok "polling" (slices.mkSlice ["webtransport"; "websocket"]%string 2) upgrades).1 =
  ["websocket"; "websocket"]%string.
Proof.
  intros HU. unfold maybeUpgrade, upgrade_wanted. cbn [slices.len slices.arr take].
  change (String.eqb "polling" "webtransport") with false. change (String.eqb "polling" "websocket") with false.
  cbn [andb]. rewrite <- negb_orb, HU. cbn. reflexivity.
Qed.

Lemma maybeUpgrade_corrupts_config_witness :
  slices.arr (maybeUpgrade (fun _ => true) "polling" (slices.mkSlice ["webtransport"; "websocket"]%string 2) ["websocket"%string]).1 =
  ["websocket"; "websocket"]%string.
Proof. apply (maybeUpgrade_corrupts_config (fun _ => true) ["websocket"%string]). reflexivity. Defined.

(** Packets that arrive together with the handshake can be lost: when the response to the
    first poll holds the OPEN packet and two or more others, the handshake succeeds and none
    of the others is kept; a single one is kept. *)
Theorem Handshake_drops_packets unmarshal r p rest hr :
  resp_status r = 200%Z -> DecodePayloads (resp_body r) = Ret (p :: rest) ->
  ParseHandshakeResponse unmarshal p = Ret hr ->
  c_Handshake unmarshal (Some r) = Ret (hr, if length rest =? 1 then head rest else None).
Proof.
  intros HS HD HP. unfold c_Handshake, poll. rewrite HS, HD. cbn. rewrite HP. by destruct rest as [|p1 [|p2 rest]].
Qed.

Lemma Handshake_drops_packets_witness :
  c_Handshake (fun _ => Some sample_hr) (Some (mkHttpResponse 200 [to_bytes "0" ++ [x1e] ++ to_bytes "4a" ++ [x1e] ++ to_bytes "4b"])) =
  Ret (sample_hr, None).
Proof.
  apply (Handshake_drops_packets (fun _ => Some sample_hr)
    (mkHttpResponse 200 [to_bytes "0" ++ [x1e] ++ to_bytes "4a" ++ [x1e] ++ to_bytes "4b"])
    (mkPacket false PacketTypeOpen []) [mkPacket false PacketTypeMessage (to_bytes "a"); mkPacket false PacketTypeMessage (to_bytes "b")]);
    vm_compute; reflexivity.
Defined.

(** A poll that times out on the server ends the connection: the server answers a poll for
    which it has no packets with an empty payload and status 200, and the client's next turn
    fails to decode it, which closes the transport. Packets that were added before the wait
    began stay queued. *)
Theorem empty_poll_closes JSEscape r t queued chunks :
  polling.req_j r = [] -> polling.pq t = [] ->
  let '(t', w, _) := polling.handlePollRequest (E := unit) JSEscape r (polling.TimedOut queued) t (polling.mkResponse [] None []) in
  polling.pq t' = queued /\
  polling.r_status w = Some 200%Z /\
  (ReadAll chunks = polling.r_body w -> run_turn (Some (mkHttpResponse 200 chunks)) = None).
Proof.
  intros Hj Hq. unfold polling.handlePollRequest, polling.poll, polling.QueuedPackets. rewrite Hj, Hq.
  assert (forall w : polling.response bytes, polling.r_body (polling.setHeaders r w) = polling.r_body w /\
            polling.r_status (polling.setHeaders r w) = polling.r_status w) as HS.
  { intros w. unfold polling.setHeaders. by destruct (_ || _). }
  destruct (HS (polling.mkResponse [] None [])) as [HB HT]. cbn in HB, HT |- *. rewrite HB, HT. split; [done|split; [done|]].
  intros HC. unfold run_turn, poll. cbn [resp_status resp_body Z.eqb Pos.eqb negb].
  unfold DecodePayloads. rewrite HC. reflexivity.
Qed.

Lemma empty_poll_closes_witness :
  let '(t', w, _) := polling.handlePollRequest (E := unit) id (polling.mkRequest polling.GET [] [] 0 [] None) (polling.TimedOut [])
                      (polling.NewServerTransport 0) (polling.mkResponse [] None []) in
  polling.pq t' = [] /\ polling.r_status w = Some 200%Z /\ (ReadAll [] = polling.r_body w -> run_turn (Some (mkHttpResponse 200 [])) = None).
Proof. apply (empty_poll_closes id (polling.mkRequest polling.GET [] [] 0 [] None)); reflexivity. Defined.

(** A PING is answered by a PONG with its data, on the current transport. *)
Lemma ping_answered data s :
  let p := mkPacket false PacketTypePong data in
  c_handlePacket s (mkPacket false PacketTypePing data) =
  mkClientSocket (tr_Send [p] (c_transport s)) (c_maxPayload s) (c_closed s) true (c_log s).
Proof.
  cbn. unfold c_Send, writeWritablePackets. cbn [c_maxPayload c_transport c_closed c_ping c_log length].
  change (1 <? 1) with false. by rewrite andb_false_r.
Qed.

(** The answer "ok" in two chunks is refused: one [Read] is made for its two bytes. *)
Lemma post_ok_split : post_ok (Some (mkHttpResponse 200 [to_bytes "o"; to_bytes "k"])) = false.
Proof. reflexivity. Qed.
End eioclient.
