(* ===== verification/EioDirect.v ===== *)
(** * Transports that hold a connection ([engine.io/transport/websocket], [engine.io/transport/webtransport])

    The WebSocket and the WebTransport transport, of the server and of the client. All four send a
    packet at a time over a connection, read packets in a loop, and end once: by [Discard], silently, or by
    [close], which calls [OnClose]. What they share is written once, over the class [Connection], of which the
    two kinds of transport are instances ([EioWebSocket], [EioWebTransport]); the handshakes, in which they differ, are
    there. The class [LawfulConnection] states what an open connection does with packets. *)

From S2P Require Import Prelude GoIO Strconv EioPacket WebTransport NetHttp EioSocket.

(** ** Callbacks ([engine.io/transport/callbacks.go]) *)

Module callbacks.
Section callbacks.
Context {E F : Type}.

(** The two functions, by the effects of calling them. *)
Record Callbacks := mkCallbacks {
  onPacket : list eioparser.Packet -> list F;
  onClose : string -> option E -> list F;
}.

Definition Set_ (onPacket' : option (list eioparser.Packet -> list F)) (onClose' : option (string -> option E -> list F)) (c : Callbacks)
  : Callbacks :=
  mkCallbacks (match onPacket' with Some f => f | None => fun _ => [] end)
    (match onClose' with Some f => f | None => fun _ _ => [] end).

Definition NewCallbacks : Callbacks := Set_ None None (mkCallbacks (fun _ => []) (fun _ _ => [])).

Definition OnPacket (packet : list eioparser.Packet) (c : Callbacks) : list F := onPacket c packet.

Definition OnClose (transportName : string) (err : option E) (c : Callbacks) : list F := onClose c transportName err.
End callbacks.
Arguments Callbacks : clear implicits.
End callbacks.

Module direct.
Import eioparser.

(** ** What the transports share *)

(** [cn_send] and [cn_next] are the methods [send] and [nextPacket], [cn_shut] the closing of the connection,
    [cn_reported] what [close] makes of an error before it is reported. *)
Class Connection (C E : Type) := {
  cn_name : string;
  cn_send : Packet -> C -> C * option E;
  cn_next : C -> C * outcome E Packet;
  cn_shut : C -> C;
  cn_reported : option E -> option E;
}.

(** The calls of the callbacks. *)
Inductive event (E : Type) :=
| OnPacket (p : Packet)
| OnClose (name : string) (err : option E).
Arguments OnPacket {E} p.
Arguments OnClose {E} name err.

Section lifecycle.
Context {C E : Type} `{CN : Connection C E}.

(** The connection (nil before the handshake), [once], and the calls of the callbacks. *)
Record direct := mkDirect {
  d_conn : option C;
  d_once : bool;
  d_log : list (event E);
}.

Definition new_direct : direct := mkDirect None false [].

Definition set_conn (c : C) (t : direct) : direct := mkDirect (Some c) (d_once t) (d_log t).

Definition Discard (t : direct) : direct :=
  if d_once t then t else mkDirect (cn_shut <$> d_conn t) true (d_log t).

(** The connection is closed first; the call of [OnClose] is deferred. *)
Definition close (err : option E) (t : direct) : direct :=
  if d_once t then t
  else mkDirect (cn_shut <$> d_conn t) true (d_log t ++ [OnClose cn_name (cn_reported err)]).

Definition Close (t : direct) : direct := close None t.

(** [send] of one packet; the error it returns. *)
Definition send (packet : Packet) (t : direct) : outcome unit (direct * option E) :=
  match d_conn t with
  | None => Panic NilDeref
  | Some c => let '(c', err) := cn_send packet c in Ret (set_conn c' t, err)
  end.

(** [Send]: [break] at the first error, after closing. *)
Fixpoint Send (packets : list Packet) (t : direct) : outcome unit direct :=
  match packets with
  | [] => Ret t
  | packet :: packets' =>
      '(t', err) ← send packet t;
      match err with
      | Some e => Ret (close (Some e) t')
      | None => Send packets' t'
      end
  end.

Definition nextPacket (t : direct) : outcome unit (direct * (E + Packet)) :=
  match d_conn t with
  | None => Panic NilDeref
  | Some c =>
      match cn_next c with
      | (c', Ret p) => Ret (set_conn c' t, inr p)
      | (c', Err e) => Ret (set_conn c' t, inl e)
      | (_, Panic why) => Panic why
      end
  end.

Definition deliver (packet : Packet) (t : direct) : direct :=
  mkDirect (d_conn t) (d_once t) (d_log t ++ [OnPacket packet]).

(** The loop of [Run] and of [PostHandshake], for [n] turns at most; false when it has returned. *)
Fixpoint Run (n : nat) (t : direct) : outcome unit (direct * bool) :=
  match n with
  | O => Ret (t, true)
  | S n =>
      '(t', r) ← nextPacket t;
      match r with
      | inl err => Ret (close (Some err) t', false)
      | inr packet => Run n (deliver packet t')
      end
  end.

(** *** Interleavings *)

(** The loop's goroutine holds a packet between [nextPacket] and [OnPacket]; other goroutines send, close
    and discard. A write in progress excludes others, by the mutex or by the connection's. *)
Record running := mkRunning { r_t : direct; r_held : option Packet; r_stopped : bool }.

Inductive step : running -> running -> Prop :=
| st_send p t t' err held stopped : send p t = Ret (t', err) -> step (mkRunning t held stopped) (mkRunning t' held stopped)
| st_close err t held stopped : step (mkRunning t held stopped) (mkRunning (close err t) held stopped)
| st_discard t held stopped : step (mkRunning t held stopped) (mkRunning (Discard t) held stopped)
| st_read t t' p : nextPacket t = Ret (t', inr p) -> step (mkRunning t None false) (mkRunning t' (Some p) false)
| st_read_err t t' e : nextPacket t = Ret (t', inl e) -> step (mkRunning t None false) (mkRunning (close (Some e) t') None true)
| st_deliver t p stopped : step (mkRunning t (Some p) stopped) (mkRunning (deliver p t) None stopped).

Inductive reachable (r0 : running) : running -> Prop :=
| re_start : reachable r0 r0
| re_step r r' : reachable r0 r -> step r r' -> reachable r0 r'.

(** *** The end is announced at most once *)

Definition is_OnClose (e : event E) : bool := match e with OnClose _ _ => true | OnPacket _ => false end.

Definition closes (t : direct) : list (event E) := List.filter is_OnClose (d_log t).

(** Open: nothing announced; ended: at most one announcement. *)
Definition announced (t : direct) : Prop := if d_once t then length (closes t) <= 1 else closes t = [].

Lemma send_frame p t t' err : send p t = Ret (t', err) -> d_once t' = d_once t /\ d_log t' = d_log t.
Proof.
  unfold send. destruct (d_conn t); [|discriminate]. destruct (cn_send p _). by intros [= <- _].
Qed.

Lemma nextPacket_same t t' r : nextPacket t = Ret (t', r) -> d_once t' = d_once t /\ d_log t' = d_log t.
Proof.
  unfold nextPacket. destruct (d_conn t); [|discriminate]. destruct (cn_next _) as [c' [p|e|why]];
    [by intros [= <- _]|by intros [= <- _]|discriminate].
Qed.

Lemma closes_close err t :
  closes (close err t) = closes t ++ (if d_once t then [] else [OnClose cn_name (cn_reported err)]).
Proof.
  unfold closes, close. destruct (d_once t); [by rewrite app_nil_r|]. cbn. by rewrite List.filter_app.
Qed.

Lemma closes_deliver p t : closes (deliver p t) = closes t.
Proof. unfold closes, deliver. cbn. rewrite List.filter_app. cbn. by rewrite app_nil_r. Qed.

Lemma closes_same t t' : d_log t' = d_log t -> closes t' = closes t.
Proof. unfold closes. by intros ->. Qed.

(** A step keeps [once], and what is announced changes only with it. *)
Lemma step_closes r r' :
  step r r' ->
  (d_once (r_t r) = true -> d_once (r_t r') = true /\ closes (r_t r') = closes (r_t r)) /\
  (announced (r_t r) -> announced (r_t r')).
Proof.
  assert (forall err t t0, d_once t = d_once t0 -> d_log t = d_log t0 ->
    (d_once t0 = true -> d_once (close err t) = true /\ closes (close err t) = closes t0) /\
    (announced t0 -> announced (close err t))) as HC.
  { intros err t t0 Ho Hl. pose proof (closes_same _ _ Hl) as Hc. split.
    - intros H1. rewrite closes_close, Ho, H1, app_nil_r. unfold close. by rewrite Ho, H1, Ho, Hc.
    - unfold announced. rewrite closes_close, Ho, Hc. unfold close. rewrite Ho. destruct (d_once t0) eqn:E0.
      + by rewrite Ho, app_nil_r.
      + intros ->. cbn. lia. }
  destruct 1 as [p t t' err held st HS|err t held st|t held st|t t' p HN|t t' e HN|t p st]; cbn [r_t].
  - destruct (send_frame _ _ _ _ HS) as [Ho Hl]. unfold announced. rewrite Ho, (closes_same _ _ Hl). tauto.
  - by apply HC.
  - unfold Discard, announced, closes. destruct (d_once t) eqn:E0; [rewrite E0; tauto|]. cbn. split; [done|].
    intros ->. cbn. lia.
  - destruct (nextPacket_same _ _ _ HN) as [Ho Hl]. unfold announced. rewrite Ho, (closes_same _ _ Hl). tauto.
  - destruct (nextPacket_same _ _ _ HN) as [Ho Hl]. by apply HC.
  - unfold announced. rewrite closes_deliver. cbn. tauto.
Qed.

Lemma reachable_closes r r' :
  reachable r r' ->
  (d_once (r_t r) = true -> d_once (r_t r') = true /\ closes (r_t r') = closes (r_t r)) /\
  (announced (r_t r) -> announced (r_t r')).
Proof.
  induction 1 as [|r1 r2 _ [IH1 IH2] HS]; [done|]. destruct (step_closes _ _ HS) as [H1 H2]. split; [|by auto].
  intros H0. destruct (IH1 H0) as [Ho <-]. by apply H1.
Qed.

End lifecycle.
Arguments direct : clear implicits.
Arguments running : clear implicits.

(** ** Connections that work *)

(** What a transport relies on: while the connection is open a packet is written as its message, and while it
    is readable what comes in is read back, message by message. [M] is the unit of the wire: messages or bytes. [cn_fits]
    is what the reading side accepts. *)
Class LawfulConnection (C E M : Type) `{Connection C E} := {
  cn_message : Packet -> list M;
  cn_open : C -> bool;
  cn_readable : C -> bool;
  cn_fits : C -> Packet -> Prop;
  cn_written : C -> list M;
  cn_incoming : C -> list M;
  cn_send_ok p c : cn_open c = true ->
    exists c', cn_send p c = (c', None) /\ cn_open c' = true /\ cn_readable c' = cn_readable c /\
      cn_written c' = cn_written c ++ cn_message p /\ cn_incoming c' = cn_incoming c /\ cn_fits c' = cn_fits c;
  cn_next_ok p c rest : cn_readable c = true -> wf p = true -> cn_fits c p -> cn_incoming c = cn_message p ++ rest ->
    exists c', cn_next c = (c', Ret p) /\ cn_readable c' = true /\ cn_open c' = cn_open c /\ cn_incoming c' = rest /\
      cn_written c' = cn_written c /\ cn_fits c' = cn_fits c;
  cn_shut_written c : cn_written (cn_shut c) = cn_written c;
}.

Definition messages {C E M} `{LawfulConnection C E M} (ps : list Packet) : list M := concat (cn_message <$> ps).

Section lawful.
Context {C E M : Type} `{LC : LawfulConnection C E M}.

Lemma Send_open ps t c :
  d_conn t = Some c -> cn_open c = true ->
  exists c', Send ps t = Ret (set_conn c' t) /\ cn_open c' = true /\ cn_readable c' = cn_readable c /\
    cn_written c' = cn_written c ++ messages ps /\ cn_incoming c' = cn_incoming c /\ cn_fits c' = cn_fits c.
Proof.
  revert t c. induction ps as [|p ps IH]; intros t c Hc Ho.
  - exists c. cbn. rewrite app_nil_r. split; [|done]. destruct t. cbn in Hc. by subst.
  - destruct (cn_send_ok p c Ho) as (c1 & H1 & Ho1 & Hr1 & Hw1 & Hi1 & Hf1).
    destruct (IH (set_conn c1 t) c1 eq_refl Ho1) as (c2 & H2 & Ho2 & Hr2 & Hw2 & Hi2 & Hf2).
    exists c2. cbn [Send]. unfold send. rewrite Hc, H1. cbn [mbind outcome_bind]. rewrite H2. split; [done|].
    split; [done|]. rewrite Hr2, Hw2, Hw1, Hi2, Hf2, <- app_assoc. done.
Qed.

Lemma Run_open ps t c rest :
  d_conn t = Some c -> cn_readable c = true -> Forall (fun p => wf p = true /\ cn_fits c p) ps ->
  cn_incoming c = messages ps ++ rest ->
  exists c', Run (length ps) t = Ret (mkDirect (Some c') (d_once t) (d_log t ++ (OnPacket <$> ps)), true) /\
    cn_open c' = cn_open c /\ cn_incoming c' = rest /\ cn_written c' = cn_written c /\ cn_fits c' = cn_fits c.
Proof.
  revert t c. induction ps as [|p ps IH]; intros t c Hc Ho HF Hi.
  - exists c. cbn. rewrite app_nil_r. split; [|done]. destruct t. cbn in Hc. by subst.
  - apply Forall_cons in HF as [[Hw Hf] HF]. cbn in Hi. rewrite <- app_assoc in Hi.
    destruct (cn_next_ok p c _ Ho Hw Hf Hi) as (c1 & H1 & Hr1 & Ho1 & Hi1 & Hw1 & Hf1).
    destruct (IH (deliver p (set_conn c1 t)) c1 eq_refl Hr1) as (c2 & H2 & Ho2 & Hi2 & Hw2 & Hf2); [by rewrite Hf1|done|].
    exists c2. cbn [length Run]. unfold nextPacket. rewrite Hc, H1. cbn [mbind outcome_bind]. rewrite H2.
    cbn. rewrite <- app_assoc. split; [done|]. by rewrite Ho2, Hw2, Hf2.
Qed.
End lawful.

(** ** Silence after the end *)

(** A connection of which nothing can be read any more once it was closed. *)
Class ShutsReading (C E : Type) `{Connection C E} := {
  cn_dead : C -> Prop;
  cn_shut_dead c : cn_dead (cn_shut c);
  cn_send_dead p c c' err : cn_dead c -> cn_send p c = (c', err) -> cn_dead c';
  cn_next_dead c c' r : cn_dead c -> cn_next c = (c', r) -> cn_dead c' /\ match r with Ret _ => False | _ => True end;
}.

Section silence.
Context {C E : Type} `{SR : ShutsReading C E}.

(** The events after the first [OnClose]. *)
Fixpoint after_close (l : list (event E)) : list (event E) :=
  match l with
  | [] => []
  | e :: l' => if is_OnClose e then l' else after_close l'
  end.

Lemma after_close_app l1 l2 :
  after_close (l1 ++ l2) = if existsb is_OnClose l1 then after_close l1 ++ l2 else after_close l2.
Proof. induction l1 as [|e l1 IH]; cbn; [done|]. by destruct (is_OnClose e). Qed.

Definition held_count (held : option Packet) : nat := match held with Some _ => 1 | None => 0 end.

Definition dead_conn (t : direct C E) : Prop := match d_conn t with Some c => cn_dead c | None => True end.

(** After the end the connection is dead, and only a packet that was already read is still delivered. *)
Definition silent (r : running C E) : Prop :=
  if d_once (r_t r) then dead_conn (r_t r) /\ length (after_close (d_log (r_t r))) + held_count (r_held r) <= 1
  else existsb is_OnClose (d_log (r_t r)) = false.

Lemma after_close_none l : existsb is_OnClose l = false -> after_close l = [].
Proof. induction l as [|e l IH]; cbn; [done|]. destruct (is_OnClose e); [done|]. apply IH. Qed.

Lemma silent_close err t held st : silent (mkRunning t held st) -> silent (mkRunning (close err t) held st).
Proof.
  unfold silent, close. cbn [r_t r_held]. destruct (d_once t) eqn:E0; [by rewrite E0|]. intros HN. cbn [d_once d_log d_conn].
  rewrite after_close_app, HN. cbn. split; [|destruct held; cbn; lia].
  unfold dead_conn. cbn. destruct (d_conn t); cbn; [apply cn_shut_dead|done].
Qed.

Lemma silent_Discard t held st : silent (mkRunning t held st) -> silent (mkRunning (Discard t) held st).
Proof.
  unfold silent, Discard. cbn [r_t r_held]. destruct (d_once t) eqn:E0; [by rewrite E0|]. intros HN. cbn [d_once d_log d_conn].
  rewrite (after_close_none _ HN). split; [|destruct held; cbn; lia].
  unfold dead_conn. cbn. destruct (d_conn t); cbn; [apply cn_shut_dead|done].
Qed.

(** What does not end the transport keeps a dead connection dead. *)
Lemma silent_frame t t' held held' st st' :
  d_once t' = d_once t -> d_log t' = d_log t -> (dead_conn t -> dead_conn t') ->
  (d_once t = true -> held_count held' <= held_count held) ->
  silent (mkRunning t held st) -> silent (mkRunning t' held' st').
Proof.
  unfold silent. cbn [r_t r_held]. intros -> -> HD HH. destruct (d_once t); [|done]. intros [H1 H2].
  specialize (HH eq_refl). split; [by apply HD|lia].
Qed.

Lemma send_dead p t t' err : send p t = Ret (t', err) -> dead_conn t -> dead_conn t'.
Proof.
  unfold send, dead_conn. destruct (d_conn t) as [c|]; [|discriminate].
  destruct (cn_send p c) as [c' e] eqn:ES. intros [= <- _] HD. cbn. by apply (cn_send_dead p c c' e).
Qed.

Lemma nextPacket_dead t t' r :
  nextPacket t = Ret (t', r) -> dead_conn t -> dead_conn t' /\ match r with inr _ => False | inl _ => True end.
Proof.
  unfold nextPacket, dead_conn. destruct (d_conn t) as [c|]; [|discriminate].
  destruct (cn_next c) as [c' o] eqn:EN. intros HR HD. destruct (cn_next_dead c c' o HD EN) as [H1 H2].
  destruct o as [p|e|why]; [done| |discriminate]. by injection HR as <- <-.
Qed.

Lemma silent_step r r' : silent r -> step r r' -> silent r'.
Proof.
  intros HI HS. destruct HS as [p t t' err held st HS|err t held st|t held st|t t' p HN|t t' e HN|t p st].
  - destruct (send_frame _ _ _ _ HS) as [Ho Hl]. apply (silent_frame t t' held held st st); try done. by apply (send_dead p t t' err).
  - by apply silent_close.
  - by apply silent_Discard.
  - destruct (nextPacket_same _ _ _ HN) as [Ho Hl].
    apply (silent_frame t t' None (Some p) false false); try done.
    + by apply (nextPacket_dead t t' (inr p)).
    + intros H1. unfold silent in HI. cbn [r_t] in HI. rewrite H1 in HI. destruct HI as [HD _].
      by destruct (nextPacket_dead _ _ _ HN HD).
  - destruct (nextPacket_same _ _ _ HN) as [Ho Hl]. apply silent_close.
    apply (silent_frame t t' None None false true); try done. by apply (nextPacket_dead t t' (inl e)).
  - unfold silent, deliver in *. cbn [r_t r_held d_once d_log d_conn] in *. destruct (d_once t).
    + destruct HI as [HD HL]. split; [exact HD|]. rewrite after_close_app.
      destruct (existsb _ _) eqn:EX; [rewrite length_app; cbn in HL |- *; lia|]. cbn. lia.
    + rewrite existsb_app, HI. done.
Qed.

Lemma silent_reachable r0 r : silent r0 -> reachable r0 r -> silent r.
Proof. induction 2 as [|r1 r2 _ IH HS]; [done|]. by apply (silent_step r1). Qed.
End silence.

(** ** The transport an Engine.IO socket sees *)

Section interface.
Context {C E M : Type} `{LC : LawfulConnection C E M}.

(** A transport over a connection implements the abstract one: it queues nothing, has written what was given
    to it, and ends when the abstract one does. *)
Record implements (base : list M) (t : direct C E) (tr : eiosocket.transport) : Prop := {
  im_name : eiosocket.tr_name tr = cn_name;
  im_polling : eiosocket.tr_polling tr = false;
  im_queue : eiosocket.tr_queue tr = [];
  im_going : eiosocket.tr_going tr = [];
  im_once : eiosocket.tr_once tr = d_once t;
  im_closed : eiosocket.tr_closed tr = existsb is_OnClose (d_log t);
  im_wire : exists c, d_conn t = Some c /\ cn_written c = base ++ messages (eiosocket.tr_wire tr);
}.

Lemma implements_Send base t tr ps c :
  implements base t tr -> d_conn t = Some c -> cn_open c = true ->
  exists t', Send ps t = Ret t' /\ implements base t' (eiosocket.tr_Send ps tr).
Proof.
  intros [Hn Hp Hq Hg Ho Hcl (c0 & Hc & Hw)] Hc' Hop. rewrite Hc' in Hc. injection Hc as <-.
  destruct (Send_open ps t c Hc' Hop) as (c' & HS & _ & _ & Hw' & _). exists (set_conn c' t). split; [done|].
  unfold eiosocket.tr_Send. rewrite Hp. split; try done. exists c'. split; [done|].
  rewrite Hw', Hw. cbn. unfold messages. by rewrite fmap_app, concat_app, app_assoc.
Qed.

Lemma implements_shut (t : direct C E) c base ps :
  d_conn t = Some c -> cn_written c = base ++ messages ps ->
  exists c', cn_shut <$> d_conn t = Some c' /\ cn_written c' = base ++ messages ps.
Proof. intros -> Hw. exists (cn_shut c). split; [done|]. by rewrite cn_shut_written. Qed.

Lemma implements_Discard base t tr : implements base t tr -> implements base (Discard t) (eiosocket.tr_Discard tr).
Proof.
  intros [Hn Hp Hq Hg Ho Hcl (c & Hc & Hw)]. unfold Discard, eiosocket.tr_Discard. rewrite Ho.
  destruct (d_once t) eqn:E0.
  - split; try done; [by rewrite Ho, E0|by eauto].
  - split; try done; [|by apply (implements_shut t c)]. cbn. unfold eiosocket.going. by rewrite Hg, Hp.
Qed.

Lemma implements_close base t tr err : implements base t tr -> implements base (close err t) (eiosocket.tr_Close tr).
Proof.
  intros [Hn Hp Hq Hg Ho Hcl (c & Hc & Hw)]. unfold close, eiosocket.tr_Close. rewrite Ho.
  destruct (d_once t) eqn:E0.
  - split; try done; [by rewrite Ho, E0|by eauto].
  - split; try done; [| |by apply (implements_shut t c)].
    + cbn. unfold eiosocket.going. by rewrite Hg, Hp.
    + cbn. rewrite existsb_app. cbn. by rewrite orb_true_r.
Qed.

Lemma implements_QueuedPackets base t tr :
  implements base t tr -> (eiosocket.tr_QueuedPackets tr).2 = [] /\ implements base t (eiosocket.tr_QueuedPackets tr).1.
Proof. intros [Hn Hp Hq Hg Ho Hcl Hw]. split; [done|]. by split. Qed.
End interface.

End direct.
