(* ===== verification/EioWebSocket.v ===== *)
(** * The WebSocket transport ([engine.io/transport/websocket])

    The connection of [nhooyr.io/websocket] is a class: writers of messages, readers of messages, closing, the status of
    a close error, and the limit of a message's size, with laws as its documentation states them. A packet is a
    message, of the binary type when the packet is binary. *)

From S2P Require Import Prelude GoIO Strconv EioPacket NetHttp EioSocket EioDirect.

Module websocket.
Import eioparser direct requestheader.

(** ** The connection *)

(** [ws_Writer] opens a message ([true] is [MessageBinary]), [w_write] adds to it and [ws_WriterClose] ends it.
    [ws_Reader] gives the next message: its type, its bytes as they arrive, and the error that ends it in place of
    the end of file. *)
Class WsConn (C E : Type) := {
  ws_Writer : bool -> C -> C * option E;
  ws_writer :: IoWriter C E;
  ws_WriterClose : C -> C * option E;
  ws_Reader : C -> C * (E + bool * stream * option E);
  ws_SetReadLimit : Z -> C -> C;
  ws_Close : Z -> C -> C;
  ws_CloseStatus : E -> Z;
}.

Inductive ws_error (E : Type) := ErrConn (e : E) | ErrPacket (e : error).
Arguments ErrConn {E} e.
Arguments ErrPacket {E} e.

Definition StatusNormalClosure : Z := 1000.
Definition StatusGoingAway : Z := 1001.
Definition StatusNoStatusRcvd : Z := 1005.
Definition StatusAbnormalClosure : Z := 1006.

Definition expectedCloseCodes : list Z :=
  [StatusNormalClosure; StatusGoingAway; StatusNoStatusRcvd; StatusAbnormalClosure].

Section transport.
Context {C E : Type} `{WS : WsConn C E}.

(** [websocket.CloseStatus(err)]: -1 for nil and for what is not a close error. *)
Definition CloseStatus (err : option (ws_error E)) : Z :=
  match err with
  | Some (ErrConn e) => ws_CloseStatus e
  | _ => -1
  end.

(** What [close] reports. *)
Definition reported (err : option (ws_error E)) : option (ws_error E) :=
  let status := CloseStatus err in
  let err := if (status =? -1)%Z then None else err in
  if existsb (Z.eqb status) expectedCloseCodes then None else err.

(** [send]: the error of the deferred [w.Close()] is dropped. *)
Definition ws_send (packet : Packet) (c : C) : C * option (ws_error E) :=
  let mt := IsBinary packet in
  let '(c1, err) := ws_Writer mt c in
  match err with
  | Some e => (c1, Some (ErrConn e))
  | None =>
      let '(c2, err) := Encode packet true c1 in
      ((ws_WriterClose c2).1, ErrConn <$> err)
  end.

Definition ws_nextPacket (c : C) : C * outcome (ws_error E) Packet :=
  match ws_Reader c with
  | (c', inl e) => (c', Err (ErrConn e))
  | (c', inr (_, _, Some e)) => (c', Err (ErrConn e))
  | (c', inr (binary, r, None)) =>
      (c', match Decode r binary with
           | Ret p => Ret p
           | Err e => Err (ErrPacket e)
           | Panic why => Panic why
           end)
  end.

#[export] Instance ws_connection : Connection C (ws_error E) := {
  cn_name := "websocket";
  cn_send := ws_send;
  cn_next := ws_nextPacket;
  cn_shut := ws_Close StatusNormalClosure;
  cn_reported := reported;
}.

(** ** The client ([client.go]) *)

Record ClientTransport := mkClientTransport {
  ct_sid : string;
  ct_protocolVersion : Z;
  ct_url : URL;
  ct_requestHeader : option RequestHeader;
  ct_dialOptions : Header;                    (* [dialOptions.HTTPHeader], in the caller's structure *)
  ct : direct C (ws_error E);
}.

Definition NewClientTransport (sid : string) (protocolVersion : Z) (url : URL) (requestHeader : option RequestHeader)
    (dialOptions : Header) : ClientTransport :=
  mkClientTransport sid protocolVersion url requestHeader dialOptions new_direct.

Definition with_ct (t : ClientTransport) (d : direct C (ws_error E)) : ClientTransport :=
  mkClientTransport (ct_sid t) (ct_protocolVersion t) (ct_url t) (ct_requestHeader t) (ct_dialOptions t) d.

Definition client_Name : string := "websocket".

(** The URL that is dialed. *)
Definition dial_url (t : ClientTransport) : URL :=
  let q := Values_Set "transport" "websocket" (RawQuery (ct_url t)) in
  let q := Values_Set "EIO" (of_bytes (Itoa (ct_protocolVersion t))) q in
  let q := if negb (String.eqb (ct_sid t) "") then Values_Set "sid" (ct_sid t) q else q in
  let u := with_query q (ct_url t) in
  if String.eqb (Scheme u) "https" then with_scheme "wss" u
  else if String.eqb (Scheme u) "http" then with_scheme "ws" u
  else u.

(** [Handshake]; [Dial] is [websocket.Dial], [unmarshal] is [json.Unmarshal]. The transport is changed also when it
    fails. *)
Definition client_Handshake (Dial : URL -> Header -> outcome E C) (unmarshal : bytes -> option HandshakeResponse)
    (t : ClientTransport) : ClientTransport * outcome (ws_error E) (option HandshakeResponse) :=
  let u := dial_url t in
  let opts := match ct_requestHeader t with Some h => get_Header h | None => ct_dialOptions t end in
  let t := mkClientTransport (ct_sid t) (ct_protocolVersion t) u (ct_requestHeader t) opts (ct t) in
  match Dial u opts with
  | Panic why => (t, Panic why)
  | Err e => (with_ct t (mkDirect None (d_once (ct t)) (d_log (ct t))), Err (ErrConn e))
  | Ret c =>
      let t := with_ct t (set_conn c (ct t)) in
      if String.eqb (ct_sid t) "" then
        let '(c', r) := ws_nextPacket c in
        let t := with_ct t (set_conn c' (ct t)) in
        match r with
        | Panic why => (t, Panic why)
        | Err e => (t, Err e)
        | Ret p =>
            match ParseHandshakeResponse unmarshal p with
            | Panic why => (t, Panic why)
            | Err e => (t, Err (ErrPacket e))
            | Ret hr => (mkClientTransport (hrSID hr) (ct_protocolVersion t) u (ct_requestHeader t) opts (ct t), Ret (Some hr))
            end
        end
      else (t, Ret None)
  end.

Definition client_Run (n : nat) (t : ClientTransport) : outcome unit (ClientTransport * bool) :=
  '(d, on) ← Run n (ct t); Ret (with_ct t d, on).

Definition client_nextPacket (t : ClientTransport) : outcome unit (ClientTransport * (ws_error E + Packet)) :=
  '(d, r) ← nextPacket (ct t); Ret (with_ct t d, r).

Definition client_Send (packets : list Packet) (t : ClientTransport) : outcome unit ClientTransport :=
  with_ct t <$> Send packets (ct t).

Definition client_send (packet : Packet) (t : ClientTransport) : outcome unit (ClientTransport * option (ws_error E)) :=
  '(d, err) ← send packet (ct t); Ret (with_ct t d, err).

Definition client_Discard (t : ClientTransport) : ClientTransport := with_ct t (Discard (ct t)).

Definition client_close (err : option (ws_error E)) (t : ClientTransport) : ClientTransport := with_ct t (close err (ct t)).

Definition client_Close (t : ClientTransport) : ClientTransport := client_close None t.

(** ** The server ([server.go]) *)

Record ServerTransport := mkServerTransport {
  sv_readLimit : Z;
  sv_supportsBinary : bool;
  sv : direct C (ws_error E);
}.

Definition NewServerTransport (maxBufferSize : Z) (supportsBinary : bool) : ServerTransport :=
  mkServerTransport maxBufferSize supportsBinary new_direct.

Definition with_sv (t : ServerTransport) (d : direct C (ws_error E)) : ServerTransport :=
  mkServerTransport (sv_readLimit t) (sv_supportsBinary t) d.

Definition server_Name : string := "websocket".

Definition server_QueuedPackets (t : ServerTransport) : list Packet := [].

Definition server_Send (packets : list Packet) (t : ServerTransport) : outcome unit ServerTransport :=
  with_sv t <$> Send packets (sv t).

Definition server_send (packet : Packet) (t : ServerTransport) : outcome unit (ServerTransport * option (ws_error E)) :=
  '(d, err) ← send packet (sv t); Ret (with_sv t d, err).

Definition server_close (err : option (ws_error E)) (t : ServerTransport) : ServerTransport := with_sv t (close err (sv t)).

(** [writeHandshakePacket] on the connection [c]; the deferred [w.Close()] comes after [t.close]. *)
Definition writeHandshakePacket (packet : option Packet) (c : C) (t : ServerTransport)
    : ServerTransport * option (ws_error E) :=
  match packet with
  | None => (t, None)
  | Some p =>
      let '(c1, err) := ws_Writer false c in
      match err with
      | Some e => (server_close (Some (ErrConn e)) (with_sv t (set_conn c1 (sv t))), Some (ErrConn e))
      | None =>
          let '(c2, err) := Encode p (sv_supportsBinary t) c1 in
          match err with
          | Some e =>
              let t := server_close (Some (ErrConn e)) (with_sv t (set_conn c2 (sv t))) in
              (with_sv t (mkDirect ((fun c => (ws_WriterClose c).1) <$> d_conn (sv t)) (d_once (sv t)) (d_log (sv t))),
               Some (ErrConn e))
          | None => (with_sv t (set_conn (ws_WriterClose c2).1 (sv t)), None)
          end
      end
  end.

(** [Handshake]; [accepted] is the result of [websocket.Accept]. *)
Definition server_Handshake (accepted : outcome E C) (handshakePacket : option Packet) (t : ServerTransport)
    : ServerTransport * outcome (ws_error E) string :=
  match accepted with
  | Panic why => (t, Panic why)
  | Err e => (with_sv t (mkDirect None (d_once (sv t)) (d_log (sv t))), Err (ErrConn e))
  | Ret c =>
      let c := if negb (sv_readLimit t =? 0)%Z then ws_SetReadLimit (sv_readLimit t) c else c in
      let '(t', err) := writeHandshakePacket handshakePacket c (with_sv t (set_conn c (sv t))) in
      (t', match err with Some e => Err e | None => Ret "" end)
  end.

Definition server_PostHandshake (n : nat) (t : ServerTransport) : outcome unit (ServerTransport * bool) :=
  '(d, on) ← Run n (sv t); Ret (with_sv t d, on).

Definition server_nextPacket (t : ServerTransport) : outcome unit (ServerTransport * (ws_error E + Packet)) :=
  '(d, r) ← nextPacket (sv t); Ret (with_sv t d, r).

(** The status [ServeHTTP] answers with. *)
Definition server_ServeHTTP (t : ServerTransport) : Z := 400.

Definition server_Discard (t : ServerTransport) : ServerTransport := with_sv t (Discard (sv t)).

Definition server_Close (t : ServerTransport) : ServerTransport := server_close None t.

End transport.
Arguments ClientTransport : clear implicits.
Arguments ServerTransport : clear implicits.

(** ** What the package documents *)

(** A connection from outside: whether it is open, the limit of a message (none when negative), the messages sent,
    the message being written, and the messages that arrive. *)
Record view := mkView {
  v_open : bool;
  v_limit : Z;
  v_sent : list (bool * bytes);
  v_pending : option (bool * bytes);
  v_inbox : list (bool * bytes);
}.

Definition set_pending (m : option (bool * bytes)) (v : view) : view :=
  mkView (v_open v) (v_limit v) (v_sent v) m (v_inbox v).
Definition set_sent (l : list (bool * bytes)) (v : view) : view :=
  mkView (v_open v) (v_limit v) l None (v_inbox v).
Definition set_inbox (l : list (bool * bytes)) (v : view) : view :=
  mkView (v_open v) (v_limit v) (v_sent v) (v_pending v) l.
Definition set_limit (n : Z) (v : view) : view :=
  mkView (v_open v) n (v_sent v) (v_pending v) (v_inbox v).

Definition within (limit : Z) (m : bytes) : bool := (limit <? 0)%Z || (Z.of_nat (length m) <=? limit)%Z.

(** "By default, the connection has a message read limit of 32768 bytes." *)
Definition defaultReadLimit : Z := 32768.

Class LawfulWsConn (C E : Type) `{WsConn C E} := {
  ws_view : C -> view;
  ws_no_ByteWriter : w_writeByte (W := C) (E := E) = None;
  ws_Writer_open mt c : v_open (ws_view c) = true -> v_pending (ws_view c) = None ->
    exists c', ws_Writer mt c = (c', None) /\ ws_view c' = set_pending (Some (mt, [])) (ws_view c);
  ws_write_open p c mt b : v_open (ws_view c) = true -> v_pending (ws_view c) = Some (mt, b) ->
    exists c', w_write p c = (c', None) /\ ws_view c' = set_pending (Some (mt, b ++ p)) (ws_view c);
  ws_WriterClose_open c m : v_open (ws_view c) = true -> v_pending (ws_view c) = Some m ->
    exists c', ws_WriterClose c = (c', None) /\ ws_view c' = set_sent (v_sent (ws_view c) ++ [m]) (ws_view c);
  ws_Reader_open c mt m rest : v_open (ws_view c) = true -> v_inbox (ws_view c) = (mt, m) :: rest ->
    within (v_limit (ws_view c)) m = true ->
    exists c' r, ws_Reader c = (c', inr (mt, r, None)) /\ ReadAll r = m /\ ws_view c' = set_inbox rest (ws_view c);
  ws_Reader_too_big c mt m rest : v_open (ws_view c) = true -> v_inbox (ws_view c) = (mt, m) :: rest ->
    within (v_limit (ws_view c)) m = false ->
    exists c' r e, ws_Reader c = (c', inr (mt, r, Some e)) /\ v_open (ws_view c') = false;
  ws_Reader_closed c : v_open (ws_view c) = false ->
    exists c' e, ws_Reader c = (c', inl e) /\ v_open (ws_view c') = false;
  ws_Writer_closed mt c : v_open (ws_view c) = false ->
    exists c' e, ws_Writer mt c = (c', Some e) /\ v_open (ws_view c') = false;
  ws_Close_view code c :
    v_open (ws_view (ws_Close code c)) = false /\ v_sent (ws_view (ws_Close code c)) = v_sent (ws_view c);
  ws_SetReadLimit_view n c : ws_view (ws_SetReadLimit n c) = set_limit n (ws_view c);
}.

(** A connection that is its own view. *)
Inductive sample_error := SampleClosed (code : Z) | SampleTooBig.

#[export] Instance sample_writer : IoWriter view sample_error := {
  w_write p v :=
    match v_open v, v_pending v with
    | true, Some (mt, b) => (set_pending (Some (mt, b ++ p)) v, None)
    | _, _ => (v, Some (SampleClosed 1006))
    end;
  w_writeByte := None;
}.

#[export] Instance sample_conn : WsConn view sample_error := {
  ws_Writer mt v :=
    if v_open v && bool_decide (v_pending v = None) then (set_pending (Some (mt, [])) v, None)
    else (v, Some (SampleClosed 1006));
  ws_WriterClose v :=
    match v_open v, v_pending v with
    | true, Some m => (set_sent (v_sent v ++ [m]) v, None)
    | _, _ => (v, Some (SampleClosed 1006))
    end;
  ws_Reader v :=
    if v_open v then
      match v_inbox v with
      | [] => (mkView false (v_limit v) (v_sent v) (v_pending v) [], inl (SampleClosed 1006))
      | (mt, m) :: rest =>
          if within (v_limit v) m then (set_inbox rest v, inr (mt, [m], None))
          else (mkView false (v_limit v) (v_sent v) (v_pending v) rest, inr (mt, [], Some SampleTooBig))
      end
    else (v, inl (SampleClosed 1006));
  ws_SetReadLimit := set_limit;
  ws_Close _ v := mkView false (v_limit v) (v_sent v) (v_pending v) (v_inbox v);
  ws_CloseStatus e := match e with SampleClosed code => code | SampleTooBig => (-1)%Z end;
}.

#[export] Program Instance sample_lawful : LawfulWsConn view sample_error := { ws_view v := v }.
Next Obligation. done. Qed.
Next Obligation. intros mt v Ho Hp. cbn. rewrite Ho, Hp. eauto. Qed.
Next Obligation. intros p v mt b Ho Hp. cbn. rewrite Ho, Hp. eauto. Qed.
Next Obligation. intros v m Ho Hp. cbn. rewrite Ho, Hp. eauto. Qed.
Next Obligation.
  intros v mt m rest Ho Hi Hw. cbn. rewrite Ho, Hi, Hw. eexists _, _. split_and!; [done| |done]. cbn. apply app_nil_r.
Qed.
Next Obligation. intros v mt m rest Ho Hi Hw. cbn. rewrite Ho, Hi, Hw. by eexists _, _, _. Qed.
Next Obligation. intros v Ho. cbn. rewrite Ho. by eexists _, _. Qed.
Next Obligation. intros mt v Ho. cbn. rewrite Ho. by eexists _, _. Qed.
Next Obligation. done. Qed.
Next Obligation. done. Qed.

(** ** The transports over a lawful connection *)

Section lemmas.
Context {C E : Type} `{LW : LawfulWsConn C E}.

Lemma Encode_message p sb c mt b :
  IsBinary p = false \/ sb = true ->
  v_open (ws_view c) = true -> v_pending (ws_view c) = Some (mt, b) ->
  exists c', Encode p sb c = (c', None) /\ ws_view c' = set_pending (Some (mt, b ++ encoding p sb)) (ws_view c).
Proof.
  intros Hsb Ho Hp.
  destruct (Encode_appends (fun b c' => ws_view c' = set_pending (Some (mt, b)) (ws_view c)) p sb b c ws_no_ByteWriter)
    as (c' & H1 & H2); [|done| |by exists c'].
  - intros q b' c1 Hv. destruct (ws_write_open q c1 mt b') as (c2 & H2 & Hv2); [by rewrite Hv..|]. exists c2. by rewrite Hv2, Hv.
  - destruct (ws_view c). cbn in *. by subst.
Qed.

(** A message written from its beginning to its end. *)
Lemma message_written p sb mt c :
  IsBinary p = false \/ sb = true ->
  v_open (ws_view c) = true -> v_pending (ws_view c) = None ->
  exists c1 c2 c3, ws_Writer mt c = (c1, None) /\ Encode p sb c1 = (c2, None) /\ ws_WriterClose c2 = (c3, None) /\
    ws_view c3 = set_sent (v_sent (ws_view c) ++ [(mt, encoding p sb)]) (ws_view c).
Proof.
  intros Hsb Ho Hp. destruct (ws_Writer_open mt c Ho Hp) as (c1 & H1 & Hv1).
  destruct (Encode_message p sb c1 mt [] Hsb) as (c2 & H2 & Hv2); [by rewrite Hv1..|].
  destruct (ws_WriterClose_open c2 (mt, encoding p sb)) as (c3 & H3 & Hv3); [by rewrite Hv2, Hv1..|].
  exists c1, c2, c3. by rewrite Hv3, Hv2, Hv1.
Qed.

#[export] Program Instance ws_lawful : LawfulConnection C (ws_error E) (bool * bytes) := {
  cn_message p := [(IsBinary p, encoding p true)];
  cn_open c := v_open (ws_view c) && bool_decide (v_pending (ws_view c) = None);
  cn_readable c := v_open (ws_view c);
  cn_fits c p := within (v_limit (ws_view c)) (encoding p true) = true;
  cn_written c := v_sent (ws_view c);
  cn_incoming c := v_inbox (ws_view c);
}.
Next Obligation.
  intros p c [Ho Hp%bool_decide_eq_true]%andb_prop. cbn. unfold ws_send.
  destruct (message_written p true (IsBinary p) c) as (c1 & c2 & c3 & -> & -> & -> & Hv); [by right|done..|].
  exists c3. rewrite Hv. cbn. by rewrite Ho.
Qed.
Next Obligation.
  intros p c rest Ho Hw Hf Hi. cbn in Ho, Hf, Hi |- *. unfold ws_nextPacket.
  destruct (ws_Reader_open c _ _ _ Ho Hi Hf) as (c' & r & -> & Hr & Hv). exists c'. unfold Decode. rewrite Hr.
  pose proof (decode_encoding p true Hw) as HD. rewrite andb_true_r in HD. by rewrite HD, Hv.
Qed.
Next Obligation. intros c. cbn. apply ws_Close_view. Qed.

#[export] Program Instance ws_shuts : ShutsReading C (ws_error E) := {
  cn_dead c := v_open (ws_view c) = false;
}.
Next Obligation. intros c. cbn. apply ws_Close_view. Qed.
Next Obligation.
  intros p c c' err Hd. cbn. unfold ws_send. destruct (ws_Writer_closed (IsBinary p) c Hd) as (c1 & e & -> & Hv).
  by intros [= <- _].
Qed.
Next Obligation.
  intros c c' r Hd. cbn. unfold ws_nextPacket. destruct (ws_Reader_closed c Hd) as (c1 & e & -> & Hv). by intros [= <- <-].
Qed.

Definition frames (ps : list Packet) : list (bool * bytes) := (fun p => (IsBinary p, encoding p true)) <$> ps.

Lemma messages_frames ps : messages ps = frames ps.
Proof. induction ps as [|p ps IH]; [done|].
  change ((IsBinary p, encoding p true) :: messages ps = (IsBinary p, encoding p true) :: frames ps). by rewrite IH.
Qed.

(** The server's handshake on a connection that was just accepted. *)
Lemma ws_server_Handshake_ok c p s :
  v_open (ws_view c) = true -> v_pending (ws_view c) = None -> IsBinary p = false ->
  exists c', server_Handshake (Ret c) (Some p) s = (with_sv s (set_conn c' (sv s)), Ret "") /\
    ws_view c' = set_limit (if (sv_readLimit s =? 0)%Z then v_limit (ws_view c) else sv_readLimit s)
                   (set_sent (v_sent (ws_view c) ++ [(false, encoding p true)]) (ws_view c)).
Proof.
  intros Ho Hp Hb. unfold server_Handshake. set (c0 := if negb _ then _ else c).
  assert (ws_view c0 = set_limit (if (sv_readLimit s =? 0)%Z then v_limit (ws_view c) else sv_readLimit s) (ws_view c)) as Hv0.
  { subst c0. destruct (sv_readLimit s =? 0)%Z; cbn; [by destruct (ws_view c)|apply ws_SetReadLimit_view]. }
  assert (encoding p (sv_supportsBinary s) = encoding p true) as He by (unfold encoding; by rewrite Hb).
  destruct (message_written p (sv_supportsBinary s) false c0) as (c1 & c2 & c3 & H1 & H2 & H3 & Hv); [by left|by rewrite Hv0..|].
  exists c3. unfold writeHandshakePacket. cbn [with_sv sv_supportsBinary]. rewrite H1, H2, H3. split; [done|].
  by rewrite Hv, Hv0, He.
Qed.

(** The client's handshake: the OPEN packet is the first message. *)
Lemma ws_client_Handshake_ok Dial unmarshal (t : ClientTransport C E) cr p rest hr :
  ct_sid t = "" ->
  (forall h, Dial (dial_url t) h = Ret cr) -> v_open (ws_view cr) = true ->
  IsBinary p = false -> Typ p = PacketTypeOpen -> unmarshal (Data p) = Some hr ->
  within (v_limit (ws_view cr)) (encoding p true) = true -> v_inbox (ws_view cr) = (false, encoding p true) :: rest ->
  exists cr' t', client_Handshake Dial unmarshal t = (t', Ret (Some hr)) /\ ct_sid t' = hrSID hr /\
    ct t' = set_conn cr' (ct t) /\ ws_view cr' = set_inbox rest (ws_view cr).
Proof.
  intros Hs HD Ho Hb HT HU Hl Hi. destruct (ws_Reader_open cr _ _ _ Ho Hi Hl) as (c' & r & HR & Hr & Hv).
  unfold client_Handshake. rewrite HD. cbn [with_ct ct_sid]. rewrite Hs. cbn [String.eqb]. unfold ws_nextPacket. rewrite HR.
  pose proof (decode_encoding p true) as HDE. unfold wf in HDE. rewrite Hb in HDE. specialize (HDE eq_refl). cbn [andb] in HDE.
  unfold Decode. rewrite Hr, HDE. unfold ParseHandshakeResponse. rewrite HT, bool_decide_eq_true_2 by done. cbn. rewrite HU.
  eexists c', _. split_and!; [reflexivity|done..].
Qed.

(** A message over the limit ends the transport. *)
Lemma Run_too_big n (d : direct C (ws_error E)) c p rest :
  d_conn d = Some c -> d_once d = false -> v_open (ws_view c) = true ->
  v_inbox (ws_view c) = (IsBinary p, encoding p true) :: rest -> (0 <= v_limit (ws_view c) < EncodedLen p true)%Z ->
  exists d' err, Run (S n) d = Ret (d', false) /\ d_log d' = d_log d ++ [OnClose "websocket" err].
Proof.
  intros Hc Hn Ho Hi Hl. destruct (ws_Reader_too_big c _ _ _ Ho Hi) as (c' & r & e & HR & _).
  { unfold within. rewrite EncodedLen_encoding in Hl. destruct (Z.ltb_spec (v_limit (ws_view c)) 0); [lia|]. cbn.
    destruct (Z.leb_spec (Z.of_nat (length (encoding p true))) (v_limit (ws_view c))); [lia|done]. }
  cbn [Run]. unfold nextPacket. rewrite Hc. cbn [cn_next ws_connection]. unfold ws_nextPacket. rewrite HR.
  cbn [mbind outcome_bind]. unfold close. cbn [set_conn d_once d_log]. rewrite Hn. eauto.
Qed.
End lemmas.

(** ** Properties *)

(** C9: A WebSocket session from its handshake on. The server accepts a connection and writes the handshake
    packet, the client dials, reads it and knows its session ID; then the packets each side sends are written as messages in
    their order, and the messages the other side reads are delivered to [OnPacket] in that order and unchanged, in as many
    turns of the loop as there are packets. What each connection receives is what the other has sent; the packets fit the
    read limits. *)
Theorem websocket_session {C E} `{LawfulWsConn C E} Dial unmarshal readLimit sb version url header opts (c cr : C) p hr ps qs :
  let s0 := NewServerTransport readLimit sb in
  let t0 := NewClientTransport "" version url header opts in
  (forall h, Dial (dial_url t0) h = Ret cr) ->
  NewPacket PacketTypeOpen false (Data p) = Ret p -> unmarshal (Data p) = Some hr ->
  v_open (ws_view c) = true -> v_pending (ws_view c) = None -> v_sent (ws_view c) = [] ->
  v_open (ws_view cr) = true -> v_pending (ws_view cr) = None -> v_sent (ws_view cr) = [] ->
  Forall (fun q => wf q = true /\ within (if (readLimit =? 0)%Z then v_limit (ws_view c) else readLimit) (encoding q true) = true) qs ->
  Forall (fun q => wf q = true /\ within (v_limit (ws_view cr)) (encoding q true) = true) (p :: ps) ->
  v_inbox (ws_view cr) = frames (p :: ps) -> v_inbox (ws_view c) = frames qs ->
  exists s1 s2 s3 t1 t2 t3 cs ctt,
    server_Handshake (Ret c) (Some p) s0 = (s1, Ret "") /\ server_Send ps s1 = Ret s2 /\
    client_Handshake Dial unmarshal t0 = (t1, Ret (Some hr)) /\ ct_sid t1 = hrSID hr /\ client_Send qs t1 = Ret t2 /\
    d_conn (sv s2) = Some cs /\ v_sent (ws_view cs) = v_inbox (ws_view cr) /\
    d_conn (ct t2) = Some ctt /\ v_sent (ws_view ctt) = v_inbox (ws_view c) /\
    server_PostHandshake (length qs) s2 = Ret (s3, true) /\ d_log (sv s3) = OnPacket <$> qs /\
    client_Run (length ps) t2 = Ret (t3, true) /\ d_log (ct t3) = OnPacket <$> ps.
Proof.
  intros s0 t0 HD HP HU Ho Hpe Hse Hor Hpr Hsr HQ HPS Hir Hi.
  assert (IsBinary p = false /\ Typ p = PacketTypeOpen) as [Hb HT].
  { apply NewPacket_wf in HP as [_ ->]. done. }
  destruct (ws_server_Handshake_ok c p s0 Ho Hpe Hb) as (c1 & HH & Hv1).
  apply Forall_cons in HPS as [[Hwp Hlp] HPS].
  destruct (ws_client_Handshake_ok Dial unmarshal t0 cr p (frames ps) hr) as (cr1 & t1 & HC & Hsid & Hct & Hvr1); [done..| |].
  { rewrite Hir. cbn. by rewrite Hb. }
  destruct (Send_open ps (set_conn c1 (sv s0)) c1 eq_refl) as (c2 & HS2 & Hop2 & Hrd2 & Hw2 & Hi2 & Hf2).
  { cbn. rewrite Hv1. cbn. by rewrite Ho. }
  destruct (Send_open qs (ct t1) cr1) as (cr2 & HT2 & Hopr2 & Hrdr2 & Hwr2 & Hir2 & Hfr2).
  { by rewrite Hct. }
  { cbn. rewrite Hvr1. cbn. by rewrite Hor, Hpr. }
  destruct (Run_open qs (set_conn c2 (set_conn c1 (sv s0))) c2 []) as (c3 & HR3 & _); [done| | | |].
  { rewrite Hrd2. cbn. by rewrite Hv1. }
  { rewrite Hf2. cbn. rewrite Hv1. exact HQ. }
  { rewrite Hi2, app_nil_r, messages_frames. cbn. by rewrite Hv1. }
  destruct (Run_open ps (set_conn cr2 (ct t1)) cr2 []) as (cr3 & HRr & _); [done| | | |].
  { rewrite Hrdr2. cbn. by rewrite Hvr1. }
  { rewrite Hfr2. cbn. rewrite Hvr1. exact HPS. }
  { rewrite Hir2, app_nil_r, messages_frames. cbn. by rewrite Hvr1. }
  eexists _, _, _, t1, _, _, c2, cr2. split; [exact HH|]. split.
  { unfold server_Send. cbn [sv with_sv]. rewrite HS2. reflexivity. }
  split; [exact HC|]. split; [done|]. split.
  { unfold client_Send. rewrite HT2. reflexivity. }
  split; [done|]. split.
  { cbn in Hw2. rewrite Hw2, messages_frames, Hv1, Hir. cbn. by rewrite Hse, Hb. }
  split; [done|]. split.
  { cbn in Hwr2. rewrite Hwr2, messages_frames, Hvr1, Hi. cbn. by rewrite Hsr. }
  split.
  { unfold server_PostHandshake. cbn [sv with_sv length] in *. rewrite HR3. reflexivity. }
  split; [done|]. split.
  { unfold client_Run. cbn [ct with_ct]. rewrite HRr. reflexivity. }
  cbn. by rewrite Hct.
Qed.

(** Two connections whose inboxes are what the other side sends. *)
Definition sample_open : Packet := mkPacket false PacketTypeOpen (to_bytes "{}").
Definition sample_hr : HandshakeResponse := mkHandshakeResponse "s1" [] 25000 20000 1000000.
Definition sample_text : Packet := mkPacket false PacketTypeMessage (to_bytes "hello").
Definition sample_binary : Packet := mkPacket true PacketTypeMessage [x01; x02; xff].
Definition sample_url : URL := mkURL "http" "localhost" "/engine.io/" ∅.
Definition sample_server_conn : view := mkView true defaultReadLimit [] None (frames [sample_binary]).
Definition sample_client_conn : view := mkView true defaultReadLimit [] None (frames [sample_open; sample_text; sample_binary]).

Lemma websocket_session_witness :
  exists s1 s2 s3 t1 t2 t3 cs ctt,
    server_Handshake (Ret sample_server_conn) (Some sample_open) (NewServerTransport 1000000 true) = (s1, Ret "") /\
    server_Send [sample_text; sample_binary] s1 = Ret s2 /\
    client_Handshake (fun _ _ => Ret sample_client_conn) (fun _ => Some sample_hr) (NewClientTransport "" 4 sample_url None None)
      = (t1, Ret (Some sample_hr)) /\ ct_sid t1 = "s1" /\ client_Send [sample_binary] t1 = Ret t2 /\
    d_conn (sv s2) = Some cs /\ v_sent (ws_view cs) = frames [sample_open; sample_text; sample_binary] /\
    d_conn (ct t2) = Some ctt /\ v_sent (ws_view ctt) = frames [sample_binary] /\
    server_PostHandshake 1 s2 = Ret (s3, true) /\ d_log (sv s3) = [OnPacket sample_binary] /\
    client_Run 2 t2 = Ret (t3, true) /\ d_log (ct t3) = [OnPacket sample_text; OnPacket sample_binary].
Proof.
  unshelve epose proof (websocket_session (C := view) (E := sample_error) (fun _ _ => Ret sample_client_conn)
    (fun _ => Some sample_hr) 1000000 true 4 sample_url None None sample_server_conn sample_client_conn sample_open sample_hr
    [sample_text; sample_binary] [sample_binary] _ _ _ _ _ _ _ _ _ _ _ _ _) as HW; [try reflexivity; repeat constructor..|].
  exact HW.
Defined.

(** C29: After [OnClose] the WebSocket transport is silent. Whatever goroutines send, read, close and discard, [OnClose] is
    called at most once; once the transport was closed or discarded nothing more is announced; and after [OnClose] at most one
    packet is still delivered, the one that the loop had read before. *)
Theorem websocket_silent {C E} `{LawfulWsConn C E} (c : C) (r r' : running C (ws_error E)) :
  reachable (mkRunning (mkDirect (Some c) false []) None false) r -> reachable r r' ->
  length (closes (r_t r)) <= 1 /\
  (d_once (r_t r) = true -> closes (r_t r') = closes (r_t r)) /\
  forall pre n e post, d_log (r_t r') = pre ++ OnClose n e :: post -> existsb is_OnClose pre = false ->
    post = [] \/ exists p, post = [OnPacket p].
Proof.
  intros HR HR'. destruct (reachable_closes _ _ HR) as [_ HA]. specialize (HA eq_refl).
  destruct (reachable_closes _ _ HR') as [HO HA']. specialize (HA' HA). split_and!.
  - unfold announced in HA. destruct (d_once (r_t r)); [done|]. rewrite HA. cbn. lia.
  - intros H1. by apply HO.
  - intros pre n e post HL Hpre.
    assert (silent r') as HS.
    { apply (silent_reachable r); [|done]. by apply (silent_reachable _ _ (eq_refl : silent (mkRunning (mkDirect (Some c) false []) None false))). }
    assert (length (closes (r_t r')) <= 1) as HC.
    { unfold announced in HA'. destruct (d_once (r_t r')); [done|]. rewrite HA'. cbn. lia. }
    unfold silent in HS. rewrite HL in HS. destruct (d_once (r_t r')).
    + destruct HS as [_ HS]. rewrite after_close_app, Hpre in HS. cbn in HS.
      unfold closes in HC. rewrite HL, List.filter_app in HC. cbn in HC. rewrite length_app in HC. cbn in HC.
      destruct post as [|[p|n' e'] [|? ?]]; cbn in HS, HC; [by left|by right; eexists|lia|lia|lia].
    + rewrite existsb_app in HS. cbn in HS. by rewrite orb_true_r in HS.
Qed.

(** The loop reads a packet, another goroutine closes, and the packet is delivered. *)
Lemma websocket_silent_witness :
  length (closes (mkDirect (C := view) (E := ws_error sample_error) None true [OnClose "websocket" None])) <= 1 /\
  exists p, [OnPacket p] = [OnPacket (E := ws_error sample_error) sample_binary].
Proof.
  pose (c := sample_server_conn). pose (c1 := set_inbox [] c).
  pose (r0 := mkRunning (E := ws_error sample_error) (mkDirect (Some c) false []) None false).
  pose (r1 := mkRunning (E := ws_error sample_error) (mkDirect (Some c1) false []) (Some sample_binary) false).
  pose (r2 := mkRunning (Close (r_t r1)) (Some sample_binary) false).
  pose (r3 := mkRunning (deliver sample_binary (r_t r2)) None false).
  assert (reachable r0 r2) as H02.
  { apply (re_step _ r1); [apply (re_step _ r0); [apply re_start|]|].
    - by apply st_read.
    - apply (st_close None). }
  assert (reachable r2 r3) as H23 by (apply (re_step _ r2); [apply re_start|apply st_deliver]).
  destruct (websocket_silent c r2 r3 H02 H23) as (H1 & _ & H3). split; [exact H1|].
  destruct (H3 [] "websocket"%string None [OnPacket sample_binary] eq_refl eq_refl) as [?|[p ?]]; [discriminate|by exists p].
Defined.

(** Which errors are reported. [OnClose] is given an error exactly when the other side closed with a code that is not
    expected; a packet that cannot be decoded, a message that is too big and a lost network are reported as nil, which the sockets
    take for a normal close of the transport. *)
Theorem websocket_reports {C E} `{WsConn C E} (err : option (ws_error E)) (t : direct C (ws_error E)) :
  d_once t = false ->
  exists reported, d_log (close err t) = d_log t ++ [OnClose "websocket" reported] /\
    (reported <> None <-> exists e, err = Some (ErrConn e) /\ reported = err /\
       (ws_CloseStatus e <> -1 /\ ~ In (ws_CloseStatus e) [1000; 1001; 1005; 1006])%Z).
Proof.
  intros Hn. unfold close. rewrite Hn. cbn [d_log cn_name cn_reported ws_connection]. eexists. split; [done|].
  unfold reported. destruct err as [[e|e]|]; cbn [CloseStatus].
  - destruct (existsb _ _) eqn:EX.
    + split; [done|]. intros (e' & [= <-] & _ & _ & HN). apply existsb_exists in EX as (z & Hz & Heq%Z.eqb_eq). by subst z.
    + destruct (Z.eqb_spec (ws_CloseStatus e) (-1)) as [E1|E1].
      * split; [done|]. by intros (e' & [= <-] & _ & ? & _).
      * split; [|done]. intros _. exists e. split_and!; [done..|]. intros HI. assert (existsb (Z.eqb (ws_CloseStatus e)) expectedCloseCodes = true) as HX.
        { apply existsb_exists. exists (ws_CloseStatus e). split; [exact HI|]. apply Z.eqb_refl. }
        congruence.
  - cbn. split; [done|]. by intros (? & ? & _).
  - cbn. split; [done|]. by intros (? & ? & _).
Qed.

Lemma websocket_reports_witness :
  exists reported, d_log (close (C := view) (Some (ErrConn (SampleClosed 1002))) new_direct) = [OnClose "websocket" reported] /\
    reported = Some (ErrConn (SampleClosed 1002)).
Proof.
  destruct (websocket_reports (C := view) (Some (ErrConn (SampleClosed 1002))) new_direct eq_refl) as (r & HL & _ & HR).
  exists r. split; [exact HL|].
  assert (r <> None) as Hr.
  { apply HR. exists (SampleClosed 1002). cbn in HL. injection HL as <-. split_and!; [done..|]. cbn. lia. }
  cbn in HL. by injection HL as <-.
Defined.

(** Messages above 32 KiB break connections that were not given a limit. The client never sets a read limit, and the server
    does not when it is configured without one ([DisableMaxBufferSize]); the connection then keeps the default of the package, and a
    packet that is longer ends the transport without being delivered. *)
Theorem websocket_default_limit {C E} `{LawfulWsConn C E} Dial unmarshal (t : ClientTransport C E) (s : ServerTransport C E) (c : C) n p rest :
  v_open (ws_view c) = true -> v_limit (ws_view c) = defaultReadLimit ->
  v_inbox (ws_view c) = (IsBinary p, encoding p true) :: rest -> (defaultReadLimit < EncodedLen p true)%Z ->
  (ct_sid t <> "" -> d_once (ct t) = false -> (forall h, Dial (dial_url t) h = Ret c) ->
     exists t1 t2 err, client_Handshake Dial unmarshal t = (t1, Ret None) /\ client_Run (S n) t1 = Ret (t2, false) /\
       d_log (ct t2) = d_log (ct t) ++ [OnClose "websocket" err]) /\
  (sv_readLimit s = 0%Z -> d_once (sv s) = false ->
     exists s1 s2 err, server_Handshake (Ret c) None s = (s1, Ret "") /\ server_PostHandshake (S n) s1 = Ret (s2, false) /\
       d_log (sv s2) = d_log (sv s) ++ [OnClose "websocket" err]).
Proof.
  intros Ho Hl Hi Hp. split.
  - intros Hs Hn HD.
    destruct (Run_too_big n (set_conn c (ct t)) c p rest) as (d' & err & HR & HL); [done..|rewrite Hl; unfold defaultReadLimit in *; lia|].
    unfold client_Handshake. rewrite HD. cbn [with_ct ct_sid]. destruct (String.eqb_spec (ct_sid t) ""); [done|].
    eexists _, _, err. split; [reflexivity|]. split; [unfold client_Run; cbn [ct with_ct] in *; by rewrite HR|done].
  - intros Hz Hn.
    destruct (Run_too_big n (set_conn c (sv s)) c p rest) as (d' & err & HR & HL); [done..|rewrite Hl; unfold defaultReadLimit in *; lia|].
    unfold server_Handshake. rewrite Hz. cbn [Z.eqb negb writeHandshakePacket]. eexists _, _, err. split; [reflexivity|].
    split; [unfold server_PostHandshake; cbn [sv with_sv] in *; by rewrite HR|done].
Qed.

Definition sample_long : Packet := mkPacket true PacketTypeMessage (repeat x07 (Z.to_nat 32769)).

Lemma websocket_default_limit_witness :
  let c := mkView true defaultReadLimit [] None (frames [sample_long]) in
  exists s1 s2 err, server_Handshake (Ret c) None (NewServerTransport 0 true) = (s1, Ret "") /\
    server_PostHandshake 1 s1 = Ret (s2, false) /\ d_log (sv s2) = [OnClose "websocket" err].
Proof.
  intros c.
  destruct (websocket_default_limit (C := view) (E := sample_error) (fun _ _ => Ret c) (fun _ => None)
    (NewClientTransport "a" 4 sample_url None None) (NewServerTransport 0 true) c 0 sample_long []) as [_ HS].
  1-3: reflexivity.
  - vm_compute. reflexivity.
  - by apply HS.
Defined.

End websocket.
