(* ===== verification/EioWebTransport.v ===== *)
(** * The WebTransport transport ([engine.io/transport/webtransport/client.go], [server.go])

    A session's bidirectional stream carries the frames of [WebTransport]. The stream of [webtransport-go] is a class: an
    [io.Writer] whose [Close] ends the direction of writing, and the chunks that arrive; the server reads them through its
    limited reader. The last section relates this transport and the WebSocket transport to the abstract transport that
    the Engine.IO sockets are modelled with. *)

From S2P Require Import Prelude GoIO Strconv EioPacket WebTransport NetHttp EioSocket EioDirect EioWebSocket.

Module webtransportconn.
Import eioparser direct requestheader.

(** ** The stream *)

Class WtStream (W E : Type) := {
  wt_writer :: IoWriter W E;
  wt_Close : W -> W;
}.

Inductive wt_error (E : Type) :=
| ErrStream (e : E)
| ErrPacket (e : error)
| ErrMarshal
| ErrUnmarshal
| ErrOpenTypeExpected.
Arguments ErrStream {E} e.
Arguments ErrPacket {E} e.
Arguments ErrMarshal {E}.
Arguments ErrUnmarshal {E}.
Arguments ErrOpenTypeExpected {E}.

(** The two directions of the stream, and the limit of the reader around it (the server's). *)
Record conn (W : Type) := mkConn {
  st_in : stream;
  st_out : W;
  st_limit : option Z;
}.
Arguments mkConn {W} _ _ _.
Arguments st_in {W} _.
Arguments st_out {W} _.
Arguments st_limit {W} _.

Definition newLimitedReader {W} (limit : Z) (c : conn W) : conn W := mkConn (st_in c) (st_out c) (Some limit).

Section transport.
Context {W E : Type} `{WT : WtStream W E}.

(** The reader that is passed to [nextPacket]. *)
Definition st_read (c : conn W) : read_fn :=
  match st_limit c with None => stream_read | Some limit => webtransport.limitedReader_Read limit end.

(** [send(t.stream, packet)], under [sendMu]. *)
Definition wt_send (packet : Packet) (c : conn W) : conn W * option (wt_error E) :=
  let '(w, err) := webtransport.send packet (st_out c) in
  (mkConn (st_in c) w (st_limit c), ErrStream <$> err).

Definition wt_nextPacket (c : conn W) : conn W * outcome (wt_error E) Packet :=
  let '(s, r) := webtransport.nextPacket (st_read c) (st_in c) in
  (mkConn s (st_out c) (st_limit c),
   match r with
   | Ret p => Ret p
   | Err e => Err (ErrPacket e)
   | Panic why => Panic why
   end).

#[export] Instance wt_connection : Connection (conn W) (wt_error E) := {
  cn_name := "webtransport";
  cn_send := wt_send;
  cn_next := wt_nextPacket;
  cn_shut c := mkConn (st_in c) (wt_Close (st_out c)) (st_limit c);
  cn_reported err := err;
}.

(** ** The client ([client.go]) *)

Record ClientTransport := mkClientTransport {
  ct_sid : string;
  ct_protocolVersion : Z;
  ct_url : URL;
  ct_requestHeader : option RequestHeader;
  ct : direct (conn W) (wt_error E);
}.

Definition NewClientTransport (sid : string) (protocolVersion : Z) (url : URL) (requestHeader : option RequestHeader)
    : ClientTransport :=
  mkClientTransport sid protocolVersion url requestHeader new_direct.

Definition with_ct (t : ClientTransport) (d : direct (conn W) (wt_error E)) : ClientTransport :=
  mkClientTransport (ct_sid t) (ct_protocolVersion t) (ct_url t) (ct_requestHeader t) d.

Definition client_Name : string := "webtransport".

Definition dial_url (t : ClientTransport) : URL :=
  let u := ct_url t in
  if String.eqb (Scheme u) "wss" then with_scheme "https" u
  else if String.eqb (Scheme u) "ws" then with_scheme "http" u
  else u.

(** The first packet of the client: OPEN, with the session ID in JSON when there is one. *)
Definition open_packet (marshal : string -> option bytes) (sid : string) : outcome (wt_error E) Packet :=
  let data := if negb (String.eqb sid "") then marshal sid else Some [] in
  match data with
  | None => Err ErrMarshal
  | Some data =>
      match NewPacket PacketTypeOpen false data with
      | Ret p => Ret p
      | Err e => Err (ErrPacket e)
      | Panic why => Panic why
      end
  end.

(** The end of [Handshake]: the OPEN packet of the server, when there was no session ID. *)
Definition read_open (unmarshal : bytes -> option HandshakeResponse) (c : conn W) (t : ClientTransport)
    : ClientTransport * outcome (wt_error E) (option HandshakeResponse) :=
  if String.eqb (ct_sid t) "" then
    let '(c', r) := wt_nextPacket c in
    let t := with_ct t (set_conn c' (ct t)) in
    match r with
    | Panic why => (t, Panic why)
    | Err e => (t, Err e)
    | Ret p =>
        match ParseHandshakeResponse unmarshal p with
        | Panic why => (t, Panic why)
        | Err e => (t, Err (ErrPacket e))
        | Ret hr =>
            (mkClientTransport (hrSID hr) (ct_protocolVersion t) (ct_url t) (ct_requestHeader t) (ct t), Ret (Some hr))
        end
    end
  else (t, Ret None).

(** [Handshake]; [Dial] is [dialer.Dial] followed by [session.OpenStream()]; [marshal] is [json.Marshal] of
    [clientOpenPacketData]. The header is asked for without a check for nil. *)
Definition client_Handshake (Dial : URL -> Header -> outcome E (conn W)) (marshal : string -> option bytes)
    (unmarshal : bytes -> option HandshakeResponse) (t : ClientTransport)
    : ClientTransport * outcome (wt_error E) (option HandshakeResponse) :=
  let t := mkClientTransport (ct_sid t) (ct_protocolVersion t) (dial_url t) (ct_requestHeader t) (ct t) in
  match ct_requestHeader t with
  | None => (t, Panic NilDeref)
  | Some h =>
      match Dial (ct_url t) (get_Header h) with
      | Panic why => (t, Panic why)
      | Err e => (t, Err (ErrStream e))
      | Ret c =>
          let t := with_ct t (set_conn c (ct t)) in
          match open_packet marshal (ct_sid t) with
          | Panic why => (t, Panic why)
          | Err e => (t, Err e)
          | Ret p =>
              let '(c', err) := wt_send p c in
              let t := with_ct t (set_conn c' (ct t)) in
              match err with
              | Some e => (t, Err e)
              | None => read_open unmarshal c' t
              end
          end
      end
  end.

Definition client_Run (n : nat) (t : ClientTransport) : outcome unit (ClientTransport * bool) :=
  '(d, on) ← Run n (ct t); Ret (with_ct t d, on).

Definition client_nextPacket (t : ClientTransport) : outcome unit (ClientTransport * (wt_error E + Packet)) :=
  '(d, r) ← nextPacket (ct t); Ret (with_ct t d, r).

Definition client_Send (packets : list Packet) (t : ClientTransport) : outcome unit ClientTransport :=
  with_ct t <$> Send packets (ct t).

Definition client_send (packet : Packet) (t : ClientTransport) : outcome unit (ClientTransport * option (wt_error E)) :=
  '(d, err) ← send packet (ct t); Ret (with_ct t d, err).

Definition client_Discard (t : ClientTransport) : ClientTransport := with_ct t (Discard (ct t)).

Definition client_close (err : option (wt_error E)) (t : ClientTransport) : ClientTransport := with_ct t (close err (ct t)).

Definition client_Close (t : ClientTransport) : ClientTransport := client_close None t.

(** ** The server ([server.go]) *)

Record ServerTransport := mkServerTransport {
  sv_readLimit : Z;
  sv : direct (conn W) (wt_error E);
}.

Definition NewServerTransport (maxBufferSize : Z) : ServerTransport := mkServerTransport maxBufferSize new_direct.

Definition with_sv (t : ServerTransport) (d : direct (conn W) (wt_error E)) : ServerTransport :=
  mkServerTransport (sv_readLimit t) d.

Definition server_Name : string := "webtransport".

Definition server_QueuedPackets (t : ServerTransport) : list Packet := [].

Definition server_Send (packets : list Packet) (t : ServerTransport) : outcome unit ServerTransport :=
  with_sv t <$> Send packets (sv t).

Definition server_send (packet : Packet) (t : ServerTransport) : outcome unit (ServerTransport * option (wt_error E)) :=
  '(d, err) ← send packet (sv t); Ret (with_sv t d, err).

(** The session ID in the data of the client's OPEN packet. [unmarshal] is [json.Unmarshal] into a pointer to
    a pointer: [None] when it fails, [Some None] when it sets the pointer to nil. *)
Definition open_sid (unmarshal : bytes -> option (option string)) (p : Packet) : outcome (wt_error E) string :=
  if negb (bool_decide (Typ p = PacketTypeOpen)) then Err ErrOpenTypeExpected
  else if 0 <? length (Data p) then
    match unmarshal (Data p) with
    | None => Err ErrUnmarshal
    | Some None => Panic NilDeref
    | Some (Some sid) => Ret sid
    end
  else Ret "".

(** [Handshake]; [upgraded] is the result of [server.Upgrade] and [AcceptStream]. *)
Definition server_Handshake (upgraded : outcome E (conn W)) (unmarshal : bytes -> option (option string)) (t : ServerTransport)
    : ServerTransport * outcome (wt_error E) string :=
  match upgraded with
  | Panic why => (t, Panic why)
  | Err e => (t, Err (ErrStream e))
  | Ret c =>
      let '(c', r) := wt_nextPacket (newLimitedReader (sv_readLimit t) c) in
      let t := with_sv t (set_conn c' (sv t)) in
      (t, p ← r; open_sid unmarshal p)
  end.

Definition writeHandshakePacket (packet : option Packet) (t : ServerTransport)
    : outcome unit (ServerTransport * option (wt_error E)) :=
  match packet with
  | Some p => server_send p t
  | None => Ret (t, None)
  end.

Definition server_close (err : option (wt_error E)) (t : ServerTransport) : ServerTransport := with_sv t (close err (sv t)).

(** [PostHandshake], with at most [n] turns of its loop. *)
Definition server_PostHandshake (n : nat) (handshakePacket : option Packet) (t : ServerTransport)
    : outcome unit (ServerTransport * bool) :=
  '(t, err) ← writeHandshakePacket handshakePacket t;
  match err with
  | Some e => Ret (server_close (Some e) t, false)
  | None => '(d, on) ← Run n (sv t); Ret (with_sv t d, on)
  end.

Definition server_nextPacket (t : ServerTransport) : outcome unit (ServerTransport * (wt_error E + Packet)) :=
  '(d, r) ← nextPacket (sv t); Ret (with_sv t d, r).

(** The status [ServeHTTP] answers with. *)
Definition server_ServeHTTP (t : ServerTransport) : Z := 400.

Definition server_Discard (t : ServerTransport) : ServerTransport := with_sv t (Discard (sv t)).

Definition server_Close (t : ServerTransport) : ServerTransport := server_close None t.

End transport.
Arguments ClientTransport : clear implicits.
Arguments ServerTransport : clear implicits.

(** ** What the package documents *)

(** While the direction of writing is open every write succeeds; [Close] ends it and leaves the other direction alone. *)
Class LawfulWtStream (W E : Type) `{WtStream W E} := {
  wt_open : W -> bool;
  wt_sent : W -> bytes;
  wt_no_ByteWriter : w_writeByte (W := W) (E := E) = None;
  wt_write_open p w : wt_open w = true ->
    exists w', w_write p w = (w', None) /\ wt_open w' = true /\ wt_sent w' = wt_sent w ++ p;
  wt_Close_view w : wt_open (wt_Close w) = false /\ wt_sent (wt_Close w) = wt_sent w;
}.

Inductive sample_error := SampleClosed.

#[export] Instance sample_writer : IoWriter (bool * bytes) sample_error := {
  w_write p w := if w.1 then ((true, w.2 ++ p), None) else (w, Some SampleClosed);
  w_writeByte := None;
}.

#[export] Instance sample_stream : WtStream (bool * bytes) sample_error := { wt_Close w := (false, w.2) }.

#[export] Program Instance sample_lawful : LawfulWtStream (bool * bytes) sample_error := {
  wt_open w := w.1;
  wt_sent w := w.2;
}.
Next Obligation. done. Qed.
Next Obligation. intros p [o b] Ho. cbn in *. rewrite Ho. by eexists. Qed.
Next Obligation. done. Qed.

(** ** The transports over a lawful stream *)

Section lemmas.
Context {W E : Type} `{LW : LawfulWtStream W E}.

Lemma send_open p w :
  wt_open w = true ->
  exists w', webtransport.send p w = (w', None) /\ wt_open w' = true /\ wt_sent w' = wt_sent w ++ webtransport.frame p.
Proof.
  intros Ho. unfold webtransport.send, webtransport.frame.
  destruct (wt_write_open (webtransport.frame_header (EncodedLen p true) (IsBinary p)) w Ho) as (w1 & -> & Ho1 & Hs1).
  destruct (Encode_appends (fun b w' => wt_open w' = true /\ wt_sent w' = wt_sent w1 ++ b) p true [] w1 wt_no_ByteWriter)
    as (w2 & H2 & Ho2 & Hs2).
  - intros q b w0 [Hq Hb]. destruct (wt_write_open q w0 Hq) as (w' & Hw & Hq' & Hs'). exists w'. by rewrite Hs', Hb, app_assoc.
  - by right.
  - by rewrite app_nil_r.
  - exists w2. split; [done|]. split; [done|]. by rewrite Hs2, Hs1, <- app_assoc.
Qed.

(** What a stream carries: frames below 64 KiB, and not above the limit of its reader. *)
Definition fits (limit : option Z) (p : Packet) : Prop :=
  (EncodedLen p true < 65536 /\ match limit with None => True | Some l => 2 <= l /\ EncodedLen p true <= l end)%Z.

Lemma wt_nextPacket_ok p (c : conn W) rest :
  wf p = true -> fits (st_limit c) p -> concat (st_in c) = webtransport.frame p ++ rest ->
  exists s, wt_nextPacket (E := E) c = (mkConn s (st_out c) (st_limit c), Ret p) /\ concat s = rest.
Proof.
  intros Hw [Hl Hlim] Hc. unfold wt_nextPacket.
  destruct (webtransport.nextPacket_frame (st_read c) p (st_in c) rest) as (s & -> & Hs); [|done..|by exists s].
  unfold st_read. destruct (st_limit c) as [l|]; [|done]. apply webtransport.limited_reads_like_stream. lia.
Qed.

#[export] Program Instance wt_lawful : LawfulConnection (conn W) (wt_error E) byte := {
  cn_message := webtransport.frame;
  cn_open c := wt_open (st_out c);
  cn_readable c := true;
  cn_fits c := fits (st_limit c);
  cn_written c := wt_sent (st_out c);
  cn_incoming c := concat (st_in c);
}.
Next Obligation.
  intros p c Ho. cbn. unfold wt_send. destruct (send_open p (st_out c) Ho) as (w & -> & Ho' & Hs). by eexists.
Qed.
Next Obligation.
  intros p c rest _ Hw Hf Hi. cbn. destruct (wt_nextPacket_ok p c rest Hw Hf Hi) as (s & -> & Hs). by eexists.
Qed.
Next Obligation. intros c. cbn. apply wt_Close_view. Qed.

Definition frames (ps : list Packet) : bytes := concat (webtransport.frame <$> ps).

(** The client's OPEN packet reaches the server, which learns the session ID from it. *)
Lemma open_packet_sid marshal unmarshal sid p :
  (forall s d, marshal s = Some d -> d <> [] /\ unmarshal d = Some (Some s)) ->
  open_packet (E := E) marshal sid = Ret p -> open_sid (E := E) unmarshal p = Ret sid /\ wf p = true /\ IsBinary p = false.
Proof.
  intros HM. unfold open_packet. destruct (String.eqb_spec sid "") as [->|Hne]; cbn.
  - by intros [= <-].
  - destruct (marshal sid) as [d|] eqn:EM; [|discriminate]. destruct (HM _ _ EM) as [Hd HU].
    intros [= <-]. cbn. unfold open_sid. cbn. rewrite HU. by destruct d.
Qed.

Lemma wt_server_Handshake_ok marshal unmarshal sid p (c : conn W) rest (s : ServerTransport W E) :
  (forall s d, marshal s = Some d -> d <> [] /\ unmarshal d = Some (Some s)) ->
  open_packet (E := E) marshal sid = Ret p -> fits (Some (sv_readLimit s)) p ->
  concat (st_in c) = webtransport.frame p ++ rest ->
  exists ch, server_Handshake (Ret c) unmarshal s =
      (with_sv s (set_conn (mkConn ch (st_out c) (Some (sv_readLimit s))) (sv s)), Ret sid) /\ concat ch = rest.
Proof.
  intros HM HP Hf Hi. destruct (open_packet_sid marshal unmarshal sid p HM HP) as (HS & Hw & _).
  unfold server_Handshake. destruct (wt_nextPacket_ok p (newLimitedReader (sv_readLimit s) c) rest Hw Hf Hi) as (ch & -> & Hch).
  exists ch. split; [|done]. cbn. by rewrite HS.
Qed.

Lemma wt_client_Handshake_ok Dial marshal unmarshal (t : ClientTransport W E) h (cr : conn W) p hs hr rest :
  ct_requestHeader t = Some h -> Dial (dial_url t) (get_Header h) = Ret cr ->
  wt_open (st_out cr) = true -> open_packet (E := E) marshal (ct_sid t) = Ret p ->
  (ct_sid t = "" -> wf hs = true /\ fits (st_limit cr) hs /\ Typ hs = PacketTypeOpen /\ unmarshal (Data hs) = Some hr) ->
  concat (st_in cr) = (if String.eqb (ct_sid t) "" then webtransport.frame hs else []) ++ rest ->
  exists t' ch w, client_Handshake Dial marshal unmarshal t = (t', Ret (if String.eqb (ct_sid t) "" then Some hr else None)) /\
    ct_sid t' = (if String.eqb (ct_sid t) "" then hrSID hr else ct_sid t) /\
    ct t' = set_conn (mkConn ch w (st_limit cr)) (ct t) /\ concat ch = rest /\
    wt_open w = true /\ wt_sent w = wt_sent (st_out cr) ++ webtransport.frame p.
Proof.
  intros Hh HD Ho HP HH Hi. destruct (send_open p (st_out cr) Ho) as (w & HS & Ho' & Hw).
  unfold client_Handshake. cbn [ct_requestHeader ct_url]. rewrite Hh, HD. cbn [with_ct ct_sid]. rewrite HP.
  unfold wt_send. rewrite HS. cbn [fmap option_fmap option_map]. unfold read_open. cbn [with_ct ct_sid].
  destruct (String.eqb_spec (ct_sid t) "") as [E0|E0].
  - destruct (HH E0) as (Hwf & Hf & HT & HU).
    destruct (wt_nextPacket_ok hs (mkConn (st_in cr) w (st_limit cr)) rest Hwf Hf Hi) as (ch & -> & Hch).
    unfold ParseHandshakeResponse. rewrite HT, bool_decide_eq_true_2 by done. cbn [negb]. rewrite HU.
    eexists _, ch, w. split_and!; [reflexivity|done..].
  - eexists _, (st_in cr), w. split_and!; [reflexivity|done..].
Qed.

(** [PostHandshake] writes the packet and goes into the loop. *)
Lemma server_PostHandshake_ok qs hp (s : ServerTransport W E) c :
  d_conn (sv s) = Some c -> wt_open (st_out c) = true ->
  Forall (fun q => wf q = true /\ fits (st_limit c) q) qs -> concat (st_in c) = frames qs ->
  exists c', server_PostHandshake (length qs) hp s =
      Ret (with_sv s (mkDirect (Some c') (d_once (sv s)) (d_log (sv s) ++ (OnPacket <$> qs))), true) /\
    wt_open (st_out c') = true /\ wt_sent (st_out c') = wt_sent (st_out c) ++ match hp with Some p => webtransport.frame p | None => [] end.
Proof.
  intros Hc Ho HF Hi. unfold server_PostHandshake, writeHandshakePacket. destruct hp as [p|].
  - unfold server_send, send. rewrite Hc. cbn [cn_send wt_connection]. unfold wt_send.
    destruct (send_open p (st_out c) Ho) as (w & -> & Ho' & Hw). cbn [mbind outcome_bind fmap option_fmap option_map].
    destruct (Run_open qs (set_conn (mkConn (st_in c) w (st_limit c)) (sv s)) (mkConn (st_in c) w (st_limit c)) [])
      as (c' & HR & Hop & _ & Hwr & _); [done..|by rewrite app_nil_r|].
    cbn [sv with_sv]. rewrite HR. exists c'. cbn in Hop, Hwr. split; [done|]. split; [by rewrite Hop|by rewrite Hwr, Hw].
  - cbn [mbind outcome_bind].
    destruct (Run_open qs (sv s) c []) as (c' & HR & Hop & _ & Hwr & _); [done..|by rewrite app_nil_r|].
    rewrite HR. exists c'. cbn in Hop, Hwr. rewrite app_nil_r. split; [done|]. by rewrite Hop, Hwr.
Qed.
End lemmas.

(** ** Properties *)

(** C10: A WebTransport session from its handshake on, for a new session ([sid] empty) and for an upgrade. The client
    opens a stream and sends OPEN with its session ID; the server learns this ID from it; for a new session the server sends the handshake
    packet in [PostHandshake], from which the client learns its ID. The packets each side sends after that are delivered by the other in
    order and unchanged, whatever the chunks in which the bytes arrive. What each stream receives is what the other has sent; frames are
    below 64 KiB and within the server's limit. *)
Theorem webtransport_session {W E} `{LawfulWtStream W E} Dial marshal unmarshal unmarshal_open sid version url h limit
    (c cr : conn W) op hs hr ps qs :
  let s0 := NewServerTransport limit in
  let t0 := NewClientTransport sid version url (Some h) in
  let hp := if String.eqb sid "" then Some hs else None in
  Dial (dial_url t0) (get_Header h) = Ret cr ->
  (forall s d, marshal s = Some d -> d <> [] /\ unmarshal_open d = Some (Some s)) ->
  open_packet (E := E) marshal sid = Ret op -> NewPacket PacketTypeOpen false (Data hs) = Ret hs -> unmarshal (Data hs) = Some hr ->
  wt_open (st_out c) = true -> wt_sent (st_out c) = [] ->
  wt_open (st_out cr) = true -> wt_sent (st_out cr) = [] -> st_limit cr = None ->
  Forall (fun q => wf q = true /\ fits (Some limit) q) (op :: qs) ->
  Forall (fun q => wf q = true /\ fits None q) (hs :: ps) ->
  concat (st_in c) = frames (op :: qs) -> concat (st_in cr) = frames (option_list hp ++ ps) ->
  exists s1 s2 s3 t1 t2 t3 cs ctt,
    client_Handshake Dial marshal unmarshal t0 = (t1, Ret (if String.eqb sid "" then Some hr else None)) /\
    ct_sid t1 = (if String.eqb sid "" then hrSID hr else sid) /\
    server_Handshake (Ret c) unmarshal_open s0 = (s1, Ret sid) /\
    server_PostHandshake (length qs) hp s1 = Ret (s2, true) /\ d_log (sv s2) = OnPacket <$> qs /\
    server_Send ps s2 = Ret s3 /\ d_conn (sv s3) = Some cs /\ wt_sent (st_out cs) = concat (st_in cr) /\
    client_Send qs t1 = Ret t2 /\ d_conn (ct t2) = Some ctt /\ wt_sent (st_out ctt) = concat (st_in c) /\
    client_Run (length ps) t2 = Ret (t3, true) /\ d_log (ct t3) = OnPacket <$> ps.
Proof.
  intros s0 t0 hp HD HM HP HN HU Ho Hs Hor Hsr Hlr HQ HPS Hi Hir.
  apply Forall_cons in HQ as [[Hwo Hfo] HQ]. apply Forall_cons in HPS as [[Hwh Hfh] HPS].
  destruct (wt_server_Handshake_ok marshal unmarshal_open sid op c (frames qs) s0 HM HP Hfo Hi) as (ch & HS1 & Hch).
  destruct (wt_client_Handshake_ok Dial marshal unmarshal t0 h cr op hs hr (frames ps)) as (t1 & chr & w & HC1 & Hsid & Hct & Hchr & Hwo1 & Hws);
    [done|done|done|done| | |].
  { intros _. rewrite Hlr. split_and!; [done|done| |done]. by apply NewPacket_wf in HN as [_ ->]. }
  { rewrite Hir. subst hp t0. cbn [ct_sid NewClientTransport]. unfold frames. rewrite fmap_app, concat_app.
    destruct (String.eqb sid ""); cbn; by rewrite ?app_nil_r. }
  destruct (server_PostHandshake_ok qs hp (with_sv s0 (set_conn (mkConn ch (st_out c) (Some limit)) (sv s0)))
    (mkConn ch (st_out c) (Some limit))) as (c2 & HS2 & Ho2 & Hw2); [done..|].
  destruct (Send_open ps (mkDirect (E := wt_error E) (Some c2) false ([] ++ (OnPacket <$> qs))) c2) as (c3 & HS3 & _ & _ & Hw3 & _); [done..|].
  destruct (Send_open qs (ct t1) (mkConn chr w (st_limit cr))) as (c4 & HS4 & _ & _ & Hw4 & Hi4 & Hf4); [by rewrite Hct|done|].
  destruct (Run_open ps (set_conn c4 (ct t1)) c4 []) as (c5 & HS5 & _); [done|done| | |].
  { rewrite Hf4. cbn. by rewrite Hlr. }
  { rewrite Hi4, app_nil_r. exact Hchr. }
  eexists _, _, _, t1, _, _, c3, c4. split; [exact HC1|]. split; [exact Hsid|]. split; [exact HS1|]. split; [exact HS2|].
  split; [done|]. split; [unfold server_Send; cbn [sv with_sv]; cbn in HS3 |- *; by rewrite HS3|]. split; [done|]. split.
  { cbn in Hw3, Hw2. rewrite Hw3, Hw2, Hs, Hir. unfold frames. rewrite fmap_app, concat_app. cbn [app]. f_equal.
    subst hp. destruct (String.eqb sid ""); cbn; by rewrite ?app_nil_r. }
  split; [unfold client_Send; by rewrite HS4|]. split; [done|]. split.
  { cbn in Hw4. rewrite Hw4, Hws, Hsr, Hi. done. }
  split; [unfold client_Run; cbn [ct with_ct]; by rewrite HS5|]. cbn. by rewrite Hct.
Qed.

Definition sample_open : Packet := mkPacket false PacketTypeOpen (to_bytes "{}").
Definition sample_hr : HandshakeResponse := mkHandshakeResponse "s1" [] 25000 20000 1000000.
Definition sample_text : Packet := mkPacket false PacketTypeMessage (to_bytes "hello").
Definition sample_binary : Packet := mkPacket true PacketTypeMessage [x01; x02; xff].
Definition sample_url : URL := mkURL "http" "localhost" "/engine.io/" ∅.

(** A JSON codec of session IDs, in which the empty text is not a value. *)
Definition sample_marshal (sid : string) : option bytes := Some ("S"%byte :: to_bytes sid).
Definition sample_unmarshal (d : bytes) : option (option string) :=
  match d with
  | "S"%byte :: d' => Some (Some (of_bytes d'))
  | _ => if bool_decide (d = to_bytes "null") then Some None else None
  end.

Definition sample_op : Packet := mkPacket false PacketTypeOpen [].

Lemma webtransport_session_witness :
  let c := mkConn (W := bool * bytes) [take 4 (frames [sample_op; sample_binary]); drop 4 (frames [sample_op; sample_binary])] (true, []) None in
  let cr := mkConn (W := bool * bytes) [frames [sample_open; sample_text]] (true, []) None in
  exists s1 s2 s3 t1 t2 t3 cs ctt,
    client_Handshake (fun _ _ => Ret cr) sample_marshal (fun _ => Some sample_hr)
      (NewClientTransport "" 4 sample_url (Some (NewRequestHeader None))) = (t1, Ret (Some sample_hr)) /\
    ct_sid t1 = "s1" /\
    server_Handshake (Ret c) sample_unmarshal (NewServerTransport 1000000) = (s1, Ret "") /\
    server_PostHandshake 1 (Some sample_open) s1 = Ret (s2, true) /\ d_log (sv s2) = [OnPacket sample_binary] /\
    server_Send [sample_text] s2 = Ret s3 /\ d_conn (sv s3) = Some cs /\ wt_sent (st_out cs) = concat (st_in cr) /\
    client_Send [sample_binary] t1 = Ret t2 /\ d_conn (ct t2) = Some ctt /\ wt_sent (st_out ctt) = concat (st_in c) /\
    client_Run 1 t2 = Ret (t3, true) /\ d_log (ct t3) = [OnPacket sample_text].
Proof.
  intros c cr.
  unshelve epose proof (webtransport_session (W := bool * bytes) (E := sample_error) (fun _ _ => Ret cr) sample_marshal (fun _ => Some sample_hr)
    sample_unmarshal "" 4 sample_url (NewRequestHeader None) 1000000 c cr sample_op sample_open sample_hr [sample_text] [sample_binary]
    _ _ _ _ _ _ _ _ _ _ _ _ _ _) as HW.
  all: try reflexivity.
  - intros s d [= <-]. split; [done|]. cbn. by rewrite of_to_bytes.
  - repeat constructor; vm_compute; discriminate.
  - repeat constructor; vm_compute; discriminate.
  - exact HW.
Defined.

(** The WebTransport transport goes on after its end. Closing the stream ends only the direction of writing: after [Close], or a failed
    [Send], has called [OnClose], the loop reads on, and every packet that arrives is still delivered, behind the [OnClose]. *)
Theorem webtransport_talks_on {W E} `{LawfulWtStream W E} (t : ClientTransport W E) (c : conn W) err ps :
  d_conn (ct t) = Some c -> d_once (ct t) = false ->
  Forall (fun p => wf p = true /\ fits (st_limit c) p) ps -> concat (st_in c) = frames ps ->
  exists t', client_Run (length ps) (client_close err t) = Ret (t', true) /\
    d_log (ct t') = d_log (ct t) ++ [OnClose "webtransport" err] ++ (OnPacket <$> ps).
Proof.
  intros Hc Hn HF Hi. unfold client_close, client_Run. cbn [ct with_ct].
  destruct (Run_open ps (close err (ct t)) (cn_shut c) []) as (c' & HR & _).
  - unfold close. by rewrite Hn, Hc.
  - done.
  - exact HF.
  - rewrite app_nil_r. exact Hi.
  - rewrite HR. eexists. split; [reflexivity|]. cbn. unfold close. rewrite Hn. cbn. by rewrite <- app_assoc.
Qed.

Lemma webtransport_talks_on_witness :
  let d := mkDirect (Some (mkConn (W := bool * bytes) [frames [sample_text; sample_binary]] (true, []) None)) false [] in
  exists t', client_Run 2 (client_close (E := sample_error) None (mkClientTransport "a" 4 sample_url None d)) = Ret (t', true) /\
    d_log (ct t') = [OnClose "webtransport" None; OnPacket sample_text; OnPacket sample_binary].
Proof.
  intros d.
  unshelve epose proof (webtransport_talks_on (W := bool * bytes) (E := sample_error) (mkClientTransport "a" 4 sample_url None d)
    (mkConn [frames [sample_text; sample_binary]] (true, []) None) None [sample_text; sample_binary] _ _ _ _) as HW.
  all: try reflexivity.
  - repeat constructor; vm_compute; discriminate.
  - exact HW.
Defined.

(** A client can make the handshake of the server panic: [json.Unmarshal] is given the address of a pointer, which the JSON value null
    sets to nil, and the field of it is read. *)
Theorem null_open_panics {W E} `{LawfulWtStream W E} unmarshal (s : ServerTransport W E) (c : conn W) rest :
  let p := mkPacket false PacketTypeOpen (to_bytes "null") in
  unmarshal (to_bytes "null") = Some None -> fits (Some (sv_readLimit s)) p ->
  concat (st_in c) = webtransport.frame p ++ rest ->
  (server_Handshake (Ret c) unmarshal s).2 = Panic NilDeref.
Proof.
  intros p HU Hf Hi. unfold server_Handshake.
  destruct (wt_nextPacket_ok (E := E) p (newLimitedReader (sv_readLimit s) c) rest eq_refl Hf Hi) as (ch & -> & _).
  cbn [mbind outcome_bind snd]. unfold open_sid. cbn [Typ Data p]. rewrite HU. reflexivity.
Qed.

Lemma null_open_panics_witness :
  (server_Handshake (E := sample_error)
     (Ret (mkConn (W := bool * bytes) [webtransport.frame (mkPacket false PacketTypeOpen (to_bytes "null"))] (true, []) None))
     sample_unmarshal (NewServerTransport 1000000)).2 = Panic NilDeref.
Proof.
  unshelve eapply (null_open_panics (W := bool * bytes) (E := sample_error) sample_unmarshal (NewServerTransport 1000000)); [exact []|reflexivity| |].
  - split; [|split]; vm_compute; discriminate || reflexivity.
  - reflexivity.
Defined.

(** ** The transport of the Engine.IO sockets *)

(** What an Engine.IO socket does to its transport. *)
Inductive operation (E : Type) := DoSend (ps : list Packet) | DoDiscard | DoClose (err : option E).
Arguments DoSend {E} ps.
Arguments DoDiscard {E}.
Arguments DoClose {E} err.

Fixpoint perform {C E} `{Connection C E} (ops : list (operation E)) (t : direct C E) : outcome unit (direct C E) :=
  match ops with
  | [] => Ret t
  | DoSend ps :: ops => t' ← Send ps t; perform ops t'
  | DoDiscard :: ops => perform ops (Discard t)
  | DoClose err :: ops => perform ops (close err t)
  end.

Definition abstract {E} (op : operation E) (tr : eiosocket.transport) : eiosocket.transport :=
  match op with
  | DoSend ps => eiosocket.tr_Send ps tr
  | DoDiscard => eiosocket.tr_Discard tr
  | DoClose _ => eiosocket.tr_Close tr
  end.

(** Nothing is sent after the end. *)
Fixpoint sends_first {E} (ops : list (operation E)) : bool :=
  match ops with
  | [] => true
  | DoSend _ :: ops => sends_first ops
  | _ :: ops => forallb (fun op => match op with DoSend _ => false | _ => true end) ops
  end.

Lemma perform_ended {C E M} `{LawfulConnection C E M} base ops (t : direct C E) tr :
  implements base t tr -> forallb (fun op => match op with DoSend _ => false | _ => true end) ops = true ->
  exists t', perform ops t = Ret t' /\ implements base t' (fold_left (fun tr op => abstract op tr) ops tr).
Proof.
  revert t tr. induction ops as [|op ops IH]; intros t tr HI HF; [by exists t|]. apply andb_prop in HF as [Hop HF].
  destruct op as [ps| |err]; [done|..]; cbn [perform fold_left abstract]; apply IH; try done.
  - by apply implements_Discard.
  - by apply implements_close.
Qed.

(** C13: The transports that hold a connection implement the transport the Engine.IO sockets are modelled with. Both kinds are instances: as long as the
    connection is open, for every sequence of sends that ends with [Discard] or [close] any number of times, the transport
    returns, has written the messages of exactly the packets on the abstract wire, has queued none, and has called [OnClose] exactly when the abstract
    transport is closed. *)
Theorem transports_implement {C E M} `{LawfulConnection C E M} (c : C) ops :
  cn_open c = true -> sends_first ops = true ->
  exists t', perform ops (mkDirect (Some c) false []) = Ret t' /\
    implements (cn_written c) t'
      (fold_left (fun tr op => abstract op tr) ops (eiosocket.mkTransport cn_name false [] [] false false [])).
Proof.
  intros Ho HF.
  assert (implements (cn_written c) (mkDirect (Some c) false []) (eiosocket.mkTransport cn_name false [] [] false false [])) as HI.
  { split; try done. exists c. split; [done|]. cbn. by rewrite app_nil_r. }
  revert HI. generalize (cn_written c) as base. generalize (eiosocket.mkTransport cn_name false [] [] false false []) as tr.
  revert c Ho HF. induction ops as [|[ps| |err] ops IH]; intros c Ho HF tr base HI.
  - by eexists.
  - destruct (Send_open ps (mkDirect (Some c) false []) c eq_refl Ho) as (c' & HS & Ho' & _).
    destruct (implements_Send base _ tr ps c HI eq_refl Ho) as (t' & HS' & HI'). rewrite HS in HS'. injection HS' as <-.
    cbn [perform]. rewrite HS. by apply (IH c').
  - cbn [perform fold_left abstract]. apply perform_ended; [by apply implements_Discard|done].
  - cbn [perform fold_left abstract]. apply perform_ended; [by apply implements_close|done].
Qed.

Lemma transports_implement_witness :
  exists t', perform [DoSend [sample_text; sample_binary]; DoClose None; DoDiscard]
      (mkDirect (E := wt_error sample_error) (Some (mkConn (W := bool * bytes) [] (true, []) None)) false []) = Ret t' /\
    implements [] t' (eiosocket.mkTransport "webtransport" false [] [sample_text; sample_binary] true true []).
Proof.
  exact (transports_implement (M := byte) (mkConn (W := bool * bytes) [] (true, []) None)
    [DoSend [sample_text; sample_binary]; DoClose None; DoDiscard] eq_refl eq_refl).
Defined.

End webtransportconn.
