(* ===== verification/EioPollClient.v ===== *)
(** * The polling transport of the client ([engine.io/transport/polling/client.go], [compression.go])

    The whole transport around the requests of [EioClient]: the request that is made, the handshake with the timeout it
    sets, the loop, sending, and its end. The answers to the requests are arguments; goroutines that are started
    are events of the log. *)

From S2P Require Import Prelude GoIO Strconv EioPacket EioPayload NetHttp EioSocket EioPolling Handlers EioClient.

Module pollingclient.
Import eioparser payload requestheader eioclient.

(** ** Requests *)

Record request := mkRequest {
  rq_Method : string;
  rq_URL : URL;
  rq_Header : gmap string (list string);
}.

Inductive event :=
| OnPacket (ps : list Packet)
| OnClose (name : string) (err : option poll_error)
| GoSend (ps : list Packet).             (* [go t.Send(p)] *)

Record ClientTransport := mkClientTransport {
  pc_sid : string;
  pc_protocolVersion : Z;
  pc_url : URL;
  pc_initialPacket : option Packet;
  pc_requestHeader : RequestHeader;
  pc_pollExit : bool;                    (* the channel is closed *)
  pc_once : bool;
  pc_log : list event;
}.

Definition NewClientTransport (protocolVersion : Z) (url : URL) (requestHeader : RequestHeader) : ClientTransport :=
  mkClientTransport "" protocolVersion url None requestHeader false false [].

Definition Name : string := "polling".

Definition Set_header (key value : string) (m : gmap string (list string)) : gmap string (list string) :=
  <[CanonicalHeaderKey key := [value]]> m.

(** [for _, s := range v { req.Header.Set(k, s) }]. *)
Definition set_values (m : gmap string (list string)) (kv : string * list string) : gmap string (list string) :=
  fold_left (fun m s => Set_header kv.1 s m) kv.2 m.

(** [newRequest]; [order] is the order in which [range] visits the map of headers, [contentLength] is present when
    there is a body. The URL was parsed, so [http.NewRequest] takes it. *)
Definition newRequest (order : list (string * list string)) (method : string) (contentLength : option Z) (t : ClientTransport) : request :=
  let h : gmap string (list string) :=
    match contentLength with
    | Some n => Set_header "Content-Length" (of_bytes (Itoa n)) (Set_header "Content-Type" "text/plain; charset=UTF-8" ∅)
    | None => ∅
    end in
  let h := Set_header "Accept-Encoding" "gzip" (Set_header "Accept" "*/*" h) in
  let h := fold_left set_values order h in
  let q := Values_Set "transport" "polling" (RawQuery (pc_url t)) in
  let q := Values_Set "EIO" (of_bytes (Itoa (pc_protocolVersion t))) q in
  let q := if negb (String.eqb (pc_sid t) "") then Values_Set "sid" (pc_sid t) q else q in
  mkRequest method (with_query q (pc_url t)) h.

(** ** Answers ([compression.go]) *)

(** The body as it came, its encoding, and [gzip.NewReader] with the reading of what it gives. *)
Definition compressedReader (gunzip : stream -> option stream) (encoding : string) (body : stream) : option stream :=
  if String.eqb encoding "gzip" then gunzip body else Some body.

(** ** The transport *)

Definition with_log (es : list event) (t : ClientTransport) : ClientTransport :=
  mkClientTransport (pc_sid t) (pc_protocolVersion t) (pc_url t) (pc_initialPacket t) (pc_requestHeader t) (pc_pollExit t)
    (pc_once t) (pc_log t ++ es).

Definition close_packet : Packet := mkPacket false PacketTypeClose [].

Definition end_transport (es : list event) (t : ClientTransport) : ClientTransport :=
  if pc_once t then t
  else mkClientTransport (pc_sid t) (pc_protocolVersion t) (pc_url t) (pc_initialPacket t) (pc_requestHeader t) true true
         (pc_log t ++ es).

Definition Discard (t : ClientTransport) : ClientTransport := end_transport [] t.

(** [close]: the goroutine that sends CLOSE is started before the deferred [OnClose] runs. *)
Definition close (err : option poll_error) (t : ClientTransport) : ClientTransport :=
  end_transport [GoSend [close_packet]; OnClose Name err] t.

Definition Close (t : ClientTransport) : ClientTransport := close None t.

(** [Handshake]; the second result is the timeout set in an [http.Transport]. *)
Definition Handshake (unmarshal : bytes -> option HandshakeResponse) (resp : option http_response) (t : ClientTransport)
    : ClientTransport * option Z * outcome poll_error HandshakeResponse :=
  match c_Handshake unmarshal resp with
  | Panic why => (t, None, Panic why)
  | Err e => (t, None, Err e)
  | Ret (hr, initial) =>
      let timeout := wrap_s 64 (GetPingInterval hr + GetPingTimeout hr) in
      let timeout := wrap_s 64 (timeout + 10 * 1000000000) in
      (mkClientTransport (hrSID hr) (pc_protocolVersion t) (pc_url t) initial (pc_requestHeader t) (pc_pollExit t) (pc_once t) (pc_log t),
       Some timeout, Ret hr)
  end.

(** The packet that came with the handshake, at the start of [Run]. *)
Definition run_initial (t : ClientTransport) : ClientTransport :=
  match pc_initialPacket t with
  | Some p =>
      let t := with_log [OnPacket [p]] t in
      mkClientTransport (pc_sid t) (pc_protocolVersion t) (pc_url t) None (pc_requestHeader t) (pc_pollExit t) (pc_once t) (pc_log t)
  | None => t
  end.

(** The loop, for the answers given to its polls; false when it has returned. *)
Fixpoint run_loop (resps : list (option http_response)) (t : ClientTransport) : ClientTransport * bool :=
  match resps with
  | [] => (t, negb (pc_pollExit t))
  | resp :: resps =>
      if pc_pollExit t then (t, false)
      else
        match poll resp with
        | Ret packets => run_loop resps (with_log [OnPacket packets] t)
        | Err e => (close (Some e) t, false)
        | Panic _ => (t, false)
        end
  end.

Definition Run (resps : list (option http_response)) (t : ClientTransport) : ClientTransport * bool :=
  run_loop resps (run_initial t).

(** [Send]: the body that is posted, and the transport after the answer. *)
Definition Send (packets : list Packet) (resp : option http_response) (t : ClientTransport) : bytes * ClientTransport :=
  (c_post packets, if post_ok resp then t else close (Some ErrDo) t).

(** ** Lemmas *)

Lemma set_values_lookup k vs k' m :
  CanonicalHeaderKey k = k -> CanonicalHeaderKey k' = k' ->
  set_values m (k, vs) !! k' = if String.eqb k' k then match last vs with Some v => Some [v] | None => m !! k' end else m !! k'.
Proof.
  intros Hk Hk'. unfold set_values. cbn [fst snd]. revert m. induction vs as [|v vs IH] using rev_ind; intros m.
  - cbn. by destruct (String.eqb k' k).
  - rewrite fold_left_app. cbn. unfold Set_header at 1. rewrite Hk, last_snoc.
    destruct (String.eqb_spec k' k) as [->|Hne]; [by rewrite lookup_insert_eq|].
    rewrite lookup_insert_ne by done. rewrite IH. destruct (String.eqb_spec k' k); [done|done].
Qed.

Lemma set_all_lookup order k' m :
  Forall (fun kv => CanonicalHeaderKey kv.1 = kv.1) order -> CanonicalHeaderKey k' = k' -> NoDup order.*1 ->
  fold_left set_values order m !! k' =
    match list_find (fun kv => kv.1 = k') order with
    | Some (_, (_, vs)) => match last vs with Some v => Some [v] | None => m !! k' end
    | None => m !! k'
    end.
Proof.
  intros HC Hk'. revert m. induction order as [|[k vs] order IH]; intros m HN; [done|]. cbn in HN. apply NoDup_cons in HN as [Hin HN].
  apply Forall_cons in HC as [Hk HC]. cbn [fold_left]. rewrite (IH HC) by done. rewrite set_values_lookup by done.
  cbn [list_find]. destruct (decide (k = k')) as [->|Hne].
  - destruct (list_find _ order) as [[i [k1 vs1]]|] eqn:EF.
    + apply list_find_Some in EF as (Hl & Hk1 & _). cbn in Hk1. subst k1. exfalso. apply Hin.
      apply list_elem_of_fmap. exists (k', vs1). split; [done|]. by apply list_elem_of_lookup_2 in Hl.
    + rewrite String.eqb_refl. cbn. by destruct (decide (k' = k')).
  - cbn. destruct (String.eqb_spec k' k) as [->|_]; [done|]. destruct (decide (k = k')); [done|].
    by destruct (list_find _ order) as [[i [k1 vs1]]|].
Qed.

(** Everything that touches the transport, in whatever order. *)
Inductive operation :=
| DoRun (resps : list (option http_response))
| DoSend (packets : list Packet) (resp : option http_response)
| DoDiscard
| DoClose.

Definition perform (t : ClientTransport) (op : operation) : ClientTransport :=
  match op with
  | DoRun resps => (Run resps t).1
  | DoSend packets resp => (Send packets resp t).2
  | DoDiscard => Discard t
  | DoClose => Close t
  end.

(** The events of the end. *)
Definition ends (es : list event) : list event :=
  List.filter (fun e => match e with OnPacket _ => false | _ => true end) es.

Definition ended (t : ClientTransport) : Prop :=
  pc_once t = pc_pollExit t /\
  if pc_once t then ends (pc_log t) = [] \/ exists err, ends (pc_log t) = [GoSend [close_packet]; OnClose Name err]
  else ends (pc_log t) = [].

Lemma ends_app l1 l2 : ends (l1 ++ l2) = ends l1 ++ ends l2.
Proof. apply List.filter_app. Qed.

Lemma ended_close err t : ended t -> ended (close err t).
Proof.
  unfold ended, close, end_transport. destruct (pc_once t) eqn:E0; [by rewrite E0|]. intros [_ HE]. cbn. split; [done|].
  right. exists err. by rewrite ends_app, HE.
Qed.

Lemma ended_log ps t : ended t -> ended (with_log [OnPacket ps] t).
Proof. unfold ended. cbn. rewrite ends_app. cbn. by rewrite app_nil_r. Qed.

Lemma ended_run_loop resps t : ended t -> ended (run_loop resps t).1.
Proof.
  revert t. induction resps as [|resp resps IH]; intros t HE; cbn [run_loop]; [done|]. destruct (pc_pollExit t); [done|].
  destruct (poll resp); [apply IH; by apply ended_log|by apply ended_close|done].
Qed.

Lemma ended_perform op t : ended t -> ended (perform t op).
Proof.
  intros HE. destruct op as [resps|packets resp| |]; cbn [perform].
  - unfold Run. apply ended_run_loop. unfold run_initial. destruct (pc_initialPacket t); [|done]. by apply (ended_log [p] t).
  - unfold Send. destruct (post_ok resp); [done|]. by apply ended_close.
  - unfold Discard, end_transport. destruct HE as [HO HE]. unfold ended. destruct (pc_once t) eqn:E0.
    + rewrite E0. by rewrite <- HO.
    + cbn. split; [done|]. left. by rewrite app_nil_r.
  - by apply ended_close.
Qed.

(** ** Properties *)

(** The end of the client's polling transport: whatever is polled, sent, discarded and closed, and in whatever order, CLOSE is
    sent at most once and [OnClose] is called at most once, after it, and neither after a [Discard] that came first. *)
Theorem polling_closes_once ops version url h :
  let t := fold_left perform ops (NewClientTransport version url h) in
  ends (pc_log t) = [] \/ exists err, ends (pc_log t) = [GoSend [close_packet]; OnClose Name err].
Proof.
  intros t. assert (ended t) as [_ HE].
  { subst t. assert (ended (NewClientTransport version url h)) as HE by done. revert HE.
    generalize (NewClientTransport version url h) as t0. induction ops as [|op ops IH]; intros t0 HE; [done|].
    cbn. apply IH. by apply ended_perform. }
  destruct (pc_once t); [done|by left].
Qed.

(** The handshake over polling, client and server together: the server's answer holds the handshake packet, from which the client learns its session ID; the
    server has nothing queued afterwards. *)
Theorem polling_handshake JSEscape unmarshal (t : ClientTransport) max ua wt p hr chunks :
  NewPacket PacketTypeOpen false (Data p) = Ret p -> separable p = true -> unmarshal (Data p) = Some hr ->
  let get := polling.mkRequest polling.GET ua [] 0 [] None in
  exists w, polling.Handshake (E := unit) JSEscape (Some p) get wt (polling.NewServerTransport max) (polling.mkResponse [] None []) =
      (polling.NewServerTransport max, w, [], "") /\
    (ReadAll chunks = polling.r_body w ->
     exists t' timeout, Handshake unmarshal ((fun code => mkHttpResponse code chunks) <$> polling.r_status w) t = (t', Some timeout, Ret hr) /\
       pc_sid t' = hrSID hr /\ pc_initialPacket t' = None /\ pc_log t' = pc_log t).
Proof.
  intros HP Hsep HU get. apply NewPacket_wf in HP as [Hwf Hp].
  pose proof (polling.poll_response JSEscape get wt [p] (polling.Send [p] (polling.NewServerTransport max)) chunks eq_refl ltac:(done)
    ltac:(by left) ltac:(by repeat constructor) ltac:(by repeat constructor)) as HR.
  unfold polling.Handshake. cbn [polling.req_method get polling.Send polling.with_pq polling.pq polling.NewServerTransport app
    polling.maxHTTPBufferSize polling.once_done polling.ServeHTTP] in *.
  change (polling.mkServerTransport max [] false) with (polling.NewServerTransport max) in *.
  destruct (polling.handlePollRequest _ _ _ _ _) as [[s' w] es]. destruct HR as (-> & -> & HS & _ & HR).
  exists w. split; [done|]. intros HC. specialize (HR HC). unfold Handshake, c_Handshake, poll. rewrite HS.
  cbn [fmap option_fmap option_map resp_status resp_body Z.eqb Pos.eqb negb]. rewrite HR. cbn [mbind outcome_bind].
  unfold ParseHandshakeResponse. rewrite Hp. cbn [Typ Data]. rewrite bool_decide_eq_true_2 by done. cbn [negb]. rewrite HU. by eexists _, _.
Qed.

Lemma polling_handshake_witness :
  exists w, polling.Handshake (E := unit) id (Some (mkPacket false PacketTypeOpen (to_bytes "{}"))) (polling.mkRequest polling.GET [] [] 0 [] None)
      (polling.TimedOut []) (polling.NewServerTransport 0) (polling.mkResponse [] None []) = (polling.NewServerTransport 0, w, [], "").
Proof.
  destruct (polling_handshake id (fun _ => Some sample_hr) (NewClientTransport 4 (mkURL "http" "localhost" "/" ∅) (NewRequestHeader None)) 0 [] (polling.TimedOut [])
    (mkPacket false PacketTypeOpen (to_bytes "{}")) sample_hr []) as (w & HW & _); [reflexivity..|]. by exists w.
Defined.

(** C11: An exchange over polling, client and server together. What the client sends is posted, delivered to the server's session in one call and in order, and
    answered so that the client's transport stays open; the packets in the queue of the server's transport, or, when it is empty, those an [add] wakes the waiting
    request with, are the answer to the client's next poll: the queue is empty afterwards, and the client's transport delivers them in one call and in order. Plain
    requests (no JSONP) on connections that do not fail; the POST announces no more than the server's limit; the packets are those of [NewPacket] without a
    separator in their text, one or more each way; bodies are cut into chunks in any way, except that the two bytes of the answer to the POST arrive in one read
    (otherwise the client closes, [post_ok_split]). *)
Theorem polling_exchange JSEscape ps qs (t : ClientTransport) (s : polling.ServerTransport) ua wt wt' chunks chunks' :
  ps <> [] -> Forall (fun p => wf p = true) ps -> Forall (fun p => separable p = true) ps ->
  qs <> [] -> Forall (fun p => wf p = true) qs -> Forall (fun p => separable p = true) qs ->
  polling.pq s = qs \/ polling.pq s = [] /\ wt' = polling.Woken qs ->
  pc_pollExit t = false -> pc_initialPacket t = None -> polling.once_done s = false ->
  let body := (Send ps None t).1 in
  let post := polling.mkRequest polling.POST ua [] (Z.of_nat (length body)) chunks None in
  let get := polling.mkRequest polling.GET ua [] 0 [] None in
  ReadAll chunks = body ->
  (polling.maxHTTPBufferSize s <= 0 \/ Z.of_nat (length body) <= polling.maxHTTPBufferSize s)%Z ->
  (exists w, polling.ServeHTTP (E := unit) JSEscape post wt s (polling.mkResponse [] None []) = (s, w, [polling.EvOnPacket ps]) /\
     Send ps ((fun code => mkHttpResponse code [polling.r_body w]) <$> polling.r_status w) t = (body, t)) /\
  (exists s' w, polling.ServeHTTP (E := unit) JSEscape get wt' s (polling.mkResponse [] None []) = (s', w, []) /\
     polling.pq s' = [] /\ polling.once_done s' = false /\
     (ReadAll chunks' = polling.r_body w ->
      Run [(fun code => mkHttpResponse code chunks') <$> polling.r_status w] t = (with_log [OnPacket qs] t, true))).
Proof.
  intros Hne Hwf Hsep Hne' Hwf' Hsep' Hq Hx Hi Ho body post get HC HL. split.
  - assert (polling.data_packets post = Ret ps) as HD.
    { cbn. apply payload_decodes; [done..|]. rewrite HC. subst body. unfold Send, c_post. cbn [fst]. rewrite EncodePayloads_buffer. reflexivity. }
    cbn [polling.ServeHTTP polling.req_method post]. unfold polling.handleDataRequest. rewrite HD.
    assert ((0 <? polling.maxHTTPBufferSize s)%Z && (polling.maxHTTPBufferSize s <? polling.req_ContentLength post)%Z = false) as ->.
    { change (polling.req_ContentLength post) with (Z.of_nat (length body)).
      destruct (Z.ltb_spec 0 (polling.maxHTTPBufferSize s)); [|done].
      destruct (Z.ltb_spec (polling.maxHTTPBufferSize s) (Z.of_nat (length body))); [lia|done]. }
    eexists. split; [reflexivity|]. unfold polling.setHeaders. by destruct (_ || _).
  - pose proof (polling.poll_response JSEscape get wt' qs s chunks' eq_refl Hne' Hq Hwf' Hsep') as HP.
    cbn [polling.ServeHTTP polling.req_method get] in *.
    destruct (polling.handlePollRequest _ _ _ _ _) as [[s' w] es]. destruct HP as (-> & -> & HS & _ & HR).
    eexists _, _. split; [reflexivity|split; [done|split; [done|]]]. intros HC'. specialize (HR HC'). rewrite HS. cbn [fmap option_fmap option_map].
    unfold Run, run_initial. rewrite Hi. cbn [run_loop]. rewrite Hx. unfold poll. cbn [resp_status resp_body Z.eqb Pos.eqb negb].
    rewrite HR. cbn. by rewrite Hx.
Qed.

Definition sample_client : ClientTransport :=
  mkClientTransport "s1" 4 (mkURL "http" "localhost" "/" ∅) None (NewRequestHeader None) false false [].

Lemma polling_exchange_witness :
  let ps := [mkPacket false PacketTypeMessage (to_bytes "a"); mkPacket true PacketTypeMessage [x01]] in
  let qs := [mkPacket false PacketTypePing []] in
  let s := polling.Send qs (polling.NewServerTransport 100) in
  (exists w, polling.ServeHTTP (E := unit) id (polling.mkRequest polling.POST [] [] 8 [c_post ps] None) (polling.TimedOut []) s
      (polling.mkResponse [] None []) = (s, w, [polling.EvOnPacket ps]) /\
    Send ps ((fun code => mkHttpResponse code [polling.r_body w]) <$> polling.r_status w) sample_client = (c_post ps, sample_client)) /\
  (exists s' w, polling.ServeHTTP (E := unit) id (polling.mkRequest polling.GET [] [] 0 [] None) (polling.TimedOut []) s
      (polling.mkResponse [] None []) = (s', w, []) /\ polling.pq s' = []).
Proof.
  intros ps qs s.
  destruct (polling_exchange id ps qs sample_client s [] (polling.TimedOut []) (polling.TimedOut []) [c_post ps] [to_bytes "2"])
    as [HP (s' & w & HG & HQ & _)];
    [done|by repeat constructor|by repeat constructor|done|by repeat constructor|by repeat constructor|by left|done|done|done|done
    |right; vm_compute; discriminate|].
  split; [exact HP|]. by exists s', w.
Defined.

(** Of several values of a header the polling transport sends the last one only: they are set, not added. The WebSocket transport passes
    the header as it is. [order] is the order in which the map of headers is visited; its keys are canonical. *)
Theorem polling_drops_values (m : gmap string (list string)) order method len (t : ClientTransport) k vs v :
  header (pc_requestHeader t) = Some m -> order ≡ₚ map_to_list m -> Forall (fun kv => CanonicalHeaderKey kv.1 = kv.1) (map_to_list m) ->
  m !! k = Some (vs ++ [v]) ->
  rq_Header (newRequest order method len t) !! k = Some [v].
Proof.
  intros _ HP HC Hk. unfold newRequest. cbn [rq_Header].
  assert (Forall (fun kv => CanonicalHeaderKey kv.1 = kv.1) order) as HC' by (by rewrite HP).
  assert (NoDup order.*1) as HN by (rewrite HP; apply NoDup_fst_map_to_list).
  assert ((k, vs ++ [v]) ∈ order) as Hin by (rewrite HP; by apply elem_of_map_to_list).
  assert (CanonicalHeaderKey k = k) as Hck by (rewrite Forall_forall in HC'; by apply (HC' _ Hin)).
  rewrite set_all_lookup by done. destruct (list_find _ order) as [[i [k1 vs1]]|] eqn:EF.
  - apply list_find_Some in EF as (Hl & Hk1 & _). cbn in Hk1. subst k1. apply list_elem_of_lookup_2 in Hl.
    rewrite HP in Hl. apply elem_of_map_to_list in Hl. rewrite Hk in Hl. injection Hl as <-. by rewrite last_snoc.
  - apply list_find_None in EF. rewrite Forall_forall in EF. by destruct (EF _ Hin).
Qed.

Lemma polling_drops_values_witness :
  let m := {["Cookie" := ["a=1"; "b=2"]]} : gmap string (list string) in
  rq_Header (newRequest (map_to_list m) "GET" None (NewClientTransport 4 (mkURL "http" "localhost" "/" ∅) (NewRequestHeader (Some m)))) !! "Cookie" = Some ["b=2"].
Proof.
  intros m. apply (polling_drops_values m _ _ _ _ "Cookie" ["a=1"] "b=2"); [done|done| |done].
  subst m. rewrite map_to_list_singleton. repeat constructor.
Defined.

End pollingclient.
