(* ===== verification/EioDial.v ===== *)
(** * Dialing and upgrading ([engine.io/client.go], [callbacks.go], [client_socket.go])

    The entry points of the Engine.IO client: the defaults of its configuration, the URL, the HTTP client with its own copy
    of the transport, and connecting. Then the client's side of an upgrade, and client and server together: the requests of the
    client's transports are routed to the session they belong to, and the exchange of packets of an upgrade moves both
    sockets to the new transport. *)

From S2P Require Import Prelude Base64 GoIO Strconv EioPacket NetHttp EioSocket EioPolling EioServer Handlers EioClient EioDirect EioWebSocket EioPollClient.

Module dial.
Import eioparser eiosocket requestheader eioclient.

(** ** Callbacks of the user ([callbacks.go]) *)

Section client.
Context {F : Type}.

Record Callbacks := mkCallbacks {
  OnPacket : option (list Packet -> list F);
  OnError : option (string -> list F);
  OnClose : option (Reason -> list F);
}.

Definition or_nop {A} (f : option (A -> list F)) : option (A -> list F) := Some (match f with Some f => f | None => fun _ => [] end).

(** [setMissing] writes to the structure of the caller. *)
Definition setMissing (c : Callbacks) : Callbacks := mkCallbacks (or_nop (OnPacket c)) (or_nop (OnError c)) (or_nop (OnClose c)).

(** [setCallbacks] of a server socket stores a copy of what the user's function returned, completed. *)
Definition setCallbacks (callbacks : option Callbacks) : Callbacks :=
  setMissing (match callbacks with Some c => c | None => mkCallbacks None None None end).

(** ** Configuration ([client.go]) *)

(** An [http.RoundTripper], by its address: an [*http.Transport] or something else. *)
Inductive RoundTripper := HTTPTransport (addr : nat) | OtherTripper (addr : nat).

Record ClientConfig := mkClientConfig {
  cc_Transports : list string;
  cc_UpgradeTimeout : Z;
  cc_UpgradeDone : option (string -> list F);
  cc_RequestHeader : option RequestHeader;
  cc_HTTPTransport : option RoundTripper;
  cc_WebTransportDialer : option nat;             (* addresses of the caller's structures *)
  cc_WebSocketDialOptions : option nat;
}.

(** [new(ClientConfig)] *)
Definition zeroConfig : ClientConfig := mkClientConfig [] 0 None None None None None.

(** What [dial] puts into a [clientSocket] before it connects. *)
Record socket := mkSocket {
  sk_url : URL;
  sk_upgradeTimeout : Z;
  sk_upgradeDone : string -> list F;
  sk_httpClient : RoundTripper;
  sk_requestHeader : RequestHeader;
  sk_webTransportDialer : nat;
  sk_wsDialOptions : nat;
  sk_callbacks : Callbacks;
}.

Inductive dial_error := ErrParseURL | ErrConnect (e : connect_error).

(** [newHTTPClient]; [default] is [http.DefaultTransport], [fresh] the address of a clone. *)
Definition newHTTPClient (default : RoundTripper) (fresh : nat) (t : option RoundTripper) : RoundTripper :=
  match t with
  | None => match default with HTTPTransport _ => HTTPTransport fresh | OtherTripper a => OtherTripper a end
  | Some (HTTPTransport _) => HTTPTransport fresh
  | Some t => t
  end.

(** [len(url.Path) > 0 && url.Path[len(url.Path)-1] != '/'] *)
Definition missing_slash (path : string) : bool :=
  match last (to_bytes path) with
  | Some c => negb (Byte.eqb c "/"%byte)
  | None => false
  end.

(** [parseURL]; [parse] is [url.Parse]. *)
Definition parseURL (parse : string -> option URL) (rawURL : string) : option URL :=
  u ← parse rawURL;
  let u := if missing_slash (Path u) then mkURL (Scheme u) (Host u) (Path u ++ "/") (RawQuery u) else u in
  Some (if String.eqb (Scheme u) "wss" then with_scheme "https" u
        else if String.eqb (Scheme u) "ws" then with_scheme "http" u
        else u).

Definition defaultTransports : list string := ["polling"; "webtransport"; "websocket"].

(** The transports [dial] connects with. *)
Definition dial_transports (config : ClientConfig) : list string :=
  if 0 <? length (cc_Transports config) then cc_Transports config else defaultTransports.

(** [dial]: [fresh] are the addresses of the structures it makes (a cloned transport, a dialer, dial options), [hs] the
    handshakes of the socket's transports. The result is the socket, the transport that connected with its
    handshake, and the transports left for an upgrade. *)
Definition dial_ (parse : string -> option URL) (default : RoundTripper) (fresh : nat * nat * nat)
    (hs : socket -> string -> outcome error HandshakeResponse) (rawURL : string) (callbacks : option Callbacks) (config : option ClientConfig)
    : outcome dial_error (socket * option (string * HandshakeResponse) * list string) :=
  let callbacks := setMissing (match callbacks with Some c => c | None => mkCallbacks None None None end) in
  let config := match config with Some c => c | None => zeroConfig end in
  let requestHeader := match cc_RequestHeader config with Some h => h | None => NewRequestHeader None end in
  let upgradeTimeout := if negb (cc_UpgradeTimeout config =? 0)%Z then cc_UpgradeTimeout config else eioserver.defaultUpgradeTimeout in
  let upgradeDone := match cc_UpgradeDone config with Some f => f | None => fun _ => [] end in
  let dialer := match cc_WebTransportDialer config with Some a => a | None => fresh.1.2 end in
  let options := match cc_WebSocketDialOptions config with Some a => a | None => fresh.2 end in
  match parseURL parse rawURL with
  | None => Err ErrParseURL
  | Some u =>
      let s := mkSocket u upgradeTimeout upgradeDone (newHTTPClient default fresh.1.1 (cc_HTTPTransport config)) requestHeader dialer options callbacks in
      match connect (hs s) (dial_transports config) with
      | Ret (connected, rest) => Ret (s, connected, rest)
      | Err e => Err (ErrConnect e)
      | Panic why => Panic why
      end
  end.

(** *** Lemmas *)

(** What [connect] has done when it returns a socket: the transports before the one that connected have failed. *)
Lemma connect_loop_Ret hs ts err r rest :
  connect_loop hs ts err = Ret (r, rest) ->
  (r = None /\ ts = [] /\ err = None) \/
  exists pre name hr, ts = pre ++ name :: rest /\ r = Some (name, hr) /\ known_transport name = true /\ hs name = Ret hr /\
    Forall (fun n => known_transport n = true /\ exists e, hs n = Err e) pre.
Proof.
  revert err. induction ts as [|n ts IH]; intros err; cbn [connect_loop].
  - destruct err; [discriminate|]. intros [= <- _]. by left.
  - destruct (known_transport n) eqn:EK; [|discriminate]. destruct (hs n) as [hr|e|why] eqn:EH; [| |discriminate].
    + intros [= <- <-]. right. exists [], n, hr. by repeat split.
    + intros HR. destruct (IH _ HR) as [(_ & _ & ?)|(pre & name & hr & -> & -> & HK & HH & HF)]; [done|].
      right. exists (n :: pre), name, hr. split_and!; try done. constructor; [by eauto|done].
Qed.

Lemma missing_slash_add path : missing_slash path = true -> missing_slash (path ++ "/") = false.
Proof. intros _. unfold missing_slash. rewrite to_bytes_app. change (to_bytes "/") with ["/"%byte]. by rewrite last_snoc. Qed.

Lemma parseURL_normal parse rawURL u :
  parseURL parse rawURL = Some u -> missing_slash (Path u) = false /\ Scheme u <> "ws" /\ Scheme u <> "wss".
Proof.
  unfold parseURL. destruct (parse rawURL) as [u0|]; cbn; [|discriminate].
  set (u1 := if missing_slash (Path u0) then _ else u0).
  assert (missing_slash (Path u1) = false) as H1.
  { subst u1. destruct (missing_slash (Path u0)) eqn:EM; [by apply missing_slash_add|done]. }
  destruct (String.eqb_spec (Scheme u1) "wss"); [by intros [= <-]|].
  destruct (String.eqb_spec (Scheme u1) "ws"); by intros [= <-].
Qed.

Lemma dial_transports_nonempty config : dial_transports config <> [].
Proof. unfold dial_transports. by destruct (cc_Transports config). Qed.

End client.
Arguments Callbacks : clear implicits.
Arguments ClientConfig : clear implicits.
Arguments socket : clear implicits.

(** ** The client's side of an upgrade ([tryUpgradeTo]) *)

(** The transport that is tried, whether its callbacks are those of the socket yet, whether [done] is closed, the socket, the transports that were
    discarded, and the number of calls of [onError]. *)
Record client_upgrade := mkClientUpgrade {
  cu_t : transport;
  cu_switched : bool;
  cu_done : bool;
  cu_socket : clientSocket;
  cu_old : list transport;
  cu_errors : nat;
}.

(** Up to the [select]: the handshake of the new transport, whose error is an argument, and [go t.Send(ping)]; false when the function has
    returned. The packet of the probe can be made ([probe_makes]). *)
Definition tryUpgradeTo (handshake : option error) (t : transport) (s : clientSocket) : client_upgrade * bool :=
  match handshake with
  | Some _ => (mkClientUpgrade (tr_Close t) false false s [] 1, false)
  | None => (mkClientUpgrade (tr_Send [probe_packet] t) false false s [] 0, true)
  end.

Lemma probe_makes : NewPacket PacketTypePing false (to_bytes "probe") = Ret probe_packet.
Proof. reflexivity. Qed.

Definition with_cu_t (t : transport) (errors : nat) (u : client_upgrade) : client_upgrade :=
  mkClientUpgrade t (cu_switched u) (cu_done u) (cu_socket u) (cu_old u) (cu_errors u + errors).

(** A packet received on the new transport. When the callbacks are the socket's, the transport is the socket's. *)
Definition cu_onPacket (packet : Packet) (u : client_upgrade) : client_upgrade :=
  if cu_switched u then
    let s := c_onPacket [packet] (cu_socket u) in
    mkClientUpgrade (c_transport s) true (cu_done u) s (cu_old u) (cu_errors u)
  else
    match Typ packet with
    | PacketTypePong =>
        if negb (bool_decide (Data packet = to_bytes "probe")) then with_cu_t (tr_Close (cu_t u)) 1 u
        else
          let '(s, old) := finishUpgradeTo (cu_t u) (cu_socket u) in
          mkClientUpgrade (c_transport s) true true s (cu_old u ++ [old]) (cu_errors u)
    | _ => with_cu_t (tr_Close (cu_t u)) 1 u
    end.

(** The timeout of the [select], when [done] is not closed. *)
Definition cu_timeout (u : client_upgrade) : client_upgrade :=
  if cu_done u then u else with_cu_t (tr_Close (cu_t u)) 1 u.

(** ** What the server reads of a request ([server.go]) *)

Definition request_of (proto : Z) (method : string) (u : URL) : eioserver.http_request :=
  eioserver.mkHttpRequest proto method (to_bytes (Values_Get "EIO" (RawQuery u))) (Values_Get "sid" (RawQuery u))
    (Values_Get "transport" (RawQuery u)).

Lemma version_accepted : eioserver.Atoi (to_bytes (of_bytes (Itoa eioserver.ProtocolVersion))) = Some 4%Z.
Proof. by vm_compute. Qed.

(** The query the client's transports make of the user's. *)
Definition client_query (name : string) (version : Z) (sid : string) (q : Values) : Values :=
  let q := Values_Set "EIO" (of_bytes (Itoa version)) (Values_Set "transport" name q) in
  if negb (String.eqb sid "") then Values_Set "sid" sid q else q.

Lemma request_of_query proto method u name sid :
  (sid = "" -> Values_Get "sid" (RawQuery u) = "") ->
  request_of proto method (with_query (client_query name eioserver.ProtocolVersion sid (RawQuery u)) u) =
  eioserver.mkHttpRequest proto method (Itoa eioserver.ProtocolVersion) sid name.
Proof.
  intros Hs. unfold request_of, client_query. cbn [RawQuery with_query].
  destruct (String.eqb_spec sid "") as [->|Hne]; cbn [negb]; rewrite !Values_Get_Set; cbn; by rewrite ?Hs.
Qed.

Lemma dial_url_query {C E} `{websocket.WsConn C E} (t : websocket.ClientTransport C E) :
  RawQuery (websocket.dial_url t) =
  client_query "websocket" (websocket.ct_protocolVersion t) (websocket.ct_sid t) (RawQuery (websocket.ct_url t)).
Proof.
  unfold websocket.dial_url, client_query. set (q := if negb _ then _ else _).
  destruct (String.eqb _ "https"); [done|]. by destruct (String.eqb _ "http").
Qed.

(** *** Client and server together *)

Lemma ServeHTTP_routes {W E} `{IoWriter W E} JSEscape env (sv : eioserver.serving W) method name sid (s : eioserver.Server) :
  eioserver.IsClosed s = false ->
  eioserver.ServeHTTP JSEscape env sv (eioserver.mkHttpRequest 1 method (Itoa eioserver.ProtocolVersion) sid name) s =
  if String.eqb sid "" then
    eioserver.handleHandshake env (eioserver.mkHttpRequest 1 method (Itoa eioserver.ProtocolVersion) sid name) s
  else match eioserver.store_get sid (eioserver.store s) with
       | None => (s, [eioserver.WriteServerError eioserver.ErrorUnknownSID])
       | Some socket =>
           if negb (String.eqb (TransportName socket) name) then (s, eioserver.maybeUpgrade env sid name false)
           else eioserver.serve_session JSEscape sv (eioserver.mkHttpRequest 1 method (Itoa eioserver.ProtocolVersion) sid name) sid socket s
       end.
Proof. intros HC. unfold eioserver.ServeHTTP. by rewrite HC. Qed.

(** What is moved to the new transport, exactly. *)
Lemma moved_wire qp t :
  tr_polling t = false ->
  let t' := fold_left (fun t p => if is_noop p then t else tr_Send [p] t) qp t in
  tr_wire t' = tr_wire t ++ List.filter (fun p => negb (is_noop p)) qp /\ tr_name t' = tr_name t.
Proof.
  revert t. induction qp as [|p qp IH]; intros t HP; cbn [fold_left List.filter].
  - cbn. by rewrite app_nil_r.
  - destruct (is_noop p); cbn [negb]; [by apply IH|].
    destruct (IH (tr_Send [p] t)) as [-> ->]; [unfold tr_Send; by rewrite HP|]. unfold tr_Send. rewrite HP. cbn.
    by rewrite <- app_assoc.
Qed.

(** ** Properties *)

(** C28: The requests of the client are routed to the session they belong to. Polls, posts and the WebSocket upgrade of a client with a
    session ID reach the session of that ID (or the answer that it is unknown): they are served by its transport, whatever the request holds and however
    the connection fails, or start an upgrade to the transport they name; no other session of the server is touched, and none is added. Without a session
    ID they are a handshake for the transport they name, unless the user's own URL has a session ID in its query. For a server that is not closed, in every
    state that requests, its sessions and their ends lead to; what the user's callbacks do is not part of it. *)
Theorem client_requests_routed {W E} `{IoWriter W E} JSEscape env (sv : eioserver.serving W) config (s : eioserver.Server)
    order len url h opts sid method C E' `{websocket.WsConn C E'} :
  eioserver.sreachable (eioserver.newServer config) s ->
  eioserver.IsClosed s = false -> (sid = "" -> Values_Get "sid" (RawQuery url) = "") ->
  let poll := pollingclient.newRequest order method len
                (pollingclient.mkClientTransport sid eioserver.ProtocolVersion url None h false false []) in
  let ws : websocket.ClientTransport C E' := websocket.NewClientTransport sid eioserver.ProtocolVersion url (Some h) opts in
  let routed name method r :=
    eioserver.ServeHTTP JSEscape env sv r s =
    (if String.eqb sid "" then
      eioserver.handleHandshake env (eioserver.mkHttpRequest 1 method (Itoa eioserver.ProtocolVersion) "" name) s
    else match eioserver.store_get sid (eioserver.store s) with
         | None => (s, [eioserver.WriteServerError eioserver.ErrorUnknownSID])
         | Some socket =>
             if negb (String.eqb (TransportName socket) name) then (s, eioserver.maybeUpgrade env sid name false)
             else eioserver.serve_session JSEscape sv
                    (eioserver.mkHttpRequest 1 method (Itoa eioserver.ProtocolVersion) sid name) sid socket s
         end) /\
    (sid <> "" -> eioserver.others_same sid s (eioserver.ServeHTTP JSEscape env sv r s).1) in
  routed "polling" (pollingclient.rq_Method poll) (request_of 1 (pollingclient.rq_Method poll) (pollingclient.rq_URL poll)) /\
  routed "websocket" "GET" (request_of 1 "GET" (websocket.dial_url ws)).
Proof.
  intros HR HC Hs poll ws routed. split; subst routed; cbn beta.
  - replace (request_of 1 (pollingclient.rq_Method poll) (pollingclient.rq_URL poll))
      with (eioserver.mkHttpRequest 1 method (Itoa eioserver.ProtocolVersion) sid "polling");
      [|symmetry; apply (request_of_query 1 method url "polling" sid Hs)].
    split; [|intros Hne; exact (eioserver.ServeHTTP_others config JSEscape env sv
      (eioserver.mkHttpRequest 1 method (Itoa eioserver.ProtocolVersion) sid "polling") s HR Hne)].
    rewrite ServeHTTP_routes by done. cbn [pollingclient.rq_Method poll pollingclient.newRequest].
    by destruct (String.eqb_spec sid "") as [->|_].
  - replace (request_of 1 "GET" (websocket.dial_url ws))
      with (eioserver.mkHttpRequest 1 "GET" (Itoa eioserver.ProtocolVersion) sid "websocket");
      [|symmetry; rewrite <- (request_of_query 1 "GET" url "websocket" sid Hs); unfold request_of; by rewrite dial_url_query].
    split; [|intros Hne; exact (eioserver.ServeHTTP_others config JSEscape env sv
      (eioserver.mkHttpRequest 1 "GET" (Itoa eioserver.ProtocolVersion) sid "websocket") s HR Hne)].
    rewrite ServeHTTP_routes by done. by destruct (String.eqb_spec sid "") as [->|_].
Qed.

Definition sample_env : eioserver.environment :=
  eioserver.mkEnvironment (fun _ => true) (fun _ => Ret "new") (fun _ => Ret []) (fun _ => Some "").

(** A POST with a malformed packet. *)
Definition sample_post : eioserver.serving bytes :=
  eioserver.mkServing [] [] 1 [to_bytes "x"] None (polling.TimedOut []) (polling.mkResponse [] None []).

Definition sample_server : eioserver.Server :=
  (eioserver.ServeHTTP (E := unit) id sample_env sample_post (eioserver.mkHttpRequest 1 "GET" (to_bytes "4") "" "polling")
     (eioserver.newServer (eioserver.mkServerConfig 0 0 0 0 false false))).1.

Lemma client_requests_routed_witness :
  let url := mkURL "http" "localhost" "/engine.io/" ∅ in
  let post := pollingclient.newRequest [] "POST" (Some 1%Z)
                (pollingclient.mkClientTransport "new" 4 url None (NewRequestHeader None) false false []) in
  (eioserver.ServeHTTP (E := unit) id sample_env sample_post (request_of 1 "POST" (pollingclient.rq_URL post)) sample_server).2 =
    [eioserver.ServeTransport "new"; eioserver.GoTransportClose "new" true; eioserver.WriteStatus 400] /\
  eioserver.others_same "new" sample_server
    (eioserver.ServeHTTP (E := unit) id sample_env sample_post (request_of 1 "POST" (pollingclient.rq_URL post)) sample_server).1.
Proof.
  intros url post.
  destruct (client_requests_routed (E := unit) (H0 := websocket.sample_conn) id sample_env sample_post
    (eioserver.mkServerConfig 0 0 0 0 false false) sample_server [] (Some 1%Z) url (NewRequestHeader None) None "new" "POST"
    websocket.view websocket.sample_error) as [[H1 H2] _].
  - apply (eioserver.sr_step _ (eioserver.newServer (eioserver.mkServerConfig 0 0 0 0 false false))); [constructor|apply (eioserver.ss_request (E := unit))].
  - vm_compute. reflexivity.
  - done.
  - split; [|by apply H2]. refine (eq_trans (f_equal snd H1) _). vm_compute. reflexivity.
Defined.

(** [Dial] returns a socket only when it is connected. The socket then has a transport, the first of the configured ones (or of the defaults) whose
    handshake succeeded, all before it being known and refused; those after it are left for an upgrade. Its URL has a path that is empty or ends with
    a slash and the scheme of HTTP, its callbacks are set, and its HTTP transport is not one that the caller or the default client uses,
    unless that cannot be copied. *)
Theorem dial_connects {F} parse default fresh hs rawURL callbacks (config : option (ClientConfig F)) sk r rest :
  dial_ parse default fresh hs rawURL callbacks config = Ret (sk, r, rest) ->
  (exists pre name hr, r = Some (name, hr) /\ hs sk name = Ret hr /\
     dial_transports (match config with Some c => c | None => zeroConfig end) = pre ++ name :: rest /\
     Forall (fun n => known_transport n = true /\ exists e, hs sk n = Err e) pre) /\
  missing_slash (Path (sk_url sk)) = false /\ Scheme (sk_url sk) <> "ws" /\ Scheme (sk_url sk) <> "wss" /\
  (OnPacket (sk_callbacks sk) <> None /\ OnError (sk_callbacks sk) <> None /\ OnClose (sk_callbacks sk) <> None) /\
  match sk_httpClient sk with HTTPTransport a => a = fresh.1.1 | OtherTripper _ => True end.
Proof.
  unfold dial_. set (cfg := match config with Some c => c | None => zeroConfig end).
  destruct (parseURL parse rawURL) as [u|] eqn:EU; [|discriminate].
  match goal with |- context [connect (hs ?s) _] => set (sk0 := s) end.
  destruct (connect (hs sk0) (dial_transports cfg)) as [[r0 rest0]|e|why] eqn:EC; [|discriminate|discriminate].
  intros [= <- <- <-]. destruct (parseURL_normal _ _ _ EU) as (HM & HW & HWS). split_and!; try done.
  - destruct (connect_loop_Ret _ _ _ _ _ EC) as [(_ & HN & _)|(pre & name & hr & HT & -> & _ & HH & HF)].
    + by destruct (dial_transports_nonempty cfg).
    + by exists pre, name, hr.
  - cbn. unfold newHTTPClient. by destruct (cc_HTTPTransport cfg) as [[]|], default.
Qed.

Lemma dial_connects_witness :
  exists sk : socket unit,
    dial_ (fun _ => Some (mkURL "ws" "localhost" "/socket.io" ∅)) (HTTPTransport 0) (1, 2, 3)
      (fun _ n => if String.eqb n "polling" then Err errOpenExpected else Ret sample_hr) "ws://localhost/socket.io" None None
    = Ret (sk, Some ("webtransport", sample_hr), ["websocket"]) /\
    missing_slash (Path (sk_url sk)) = false /\ Scheme (sk_url sk) <> "ws" /\ sk_httpClient sk = HTTPTransport 1.
Proof.
  eexists. split; [reflexivity|].
  destruct (dial_connects (F := unit) (fun _ => Some (mkURL "ws" "localhost" "/socket.io" ∅)) (HTTPTransport 0) (1, 2, 3)
    (fun _ n => if String.eqb n "polling" then Err errOpenExpected else Ret sample_hr) "ws://localhost/socket.io" None None
    _ _ _ eq_refl) as (_ & H1 & H2 & _). split_and!; [exact H1|exact H2|reflexivity].
Defined.

(** C25: The exchange of an upgrade, client and server together. The client sends the probe on the new transport; the server answers it there and sends
    NOOP on the old one; the client switches and sends UPGRADE; the server switches. Then both sockets are on the new transport, the old ones
    are discarded, the packets that waited in the server's old transport are on the new one behind the answer to the probe, none was lost or
    reordered, no error was reported, and the timeouts of both sides change nothing any more. *)
Theorem upgrade_protocol (tc ts : transport) (cs : clientSocket) (ss : serverSocket) :
  tr_name tc = tr_name ts -> tr_polling tc = false -> tr_wire tc = [] ->
  tr_polling ts = false -> tr_wire ts = [] -> tr_polling (s_transport ss) = true ->
  let u0 := (tryUpgradeTo None tc cs).1 in
  let v1 := fold_left (fun v p => eioserver.upgrade_onPacket p v) (tr_wire (cu_t u0)) (eioserver.mkUpgrade ts false ss 0) in
  let u1 := fold_left (fun u p => cu_onPacket p u) (tr_wire (eioserver.up_t v1)) u0 in
  let v2 := fold_left (fun v p => eioserver.upgrade_onPacket p v) (drop (length (tr_wire (cu_t u0))) (tr_wire (cu_t u1))) v1 in
  c_TransportName (cu_socket u1) = tr_name tc /\ TransportName (eioserver.up_socket v2) = tr_name tc /\
  cu_old u1 = [c_tr_Discard (c_transport cs)] /\
  tr_once <$> s_old (eioserver.up_socket v2) = (tr_once <$> s_old ss) ++ [true] /\
  tr_wire (s_transport (eioserver.up_socket v2)) =
    eioserver.pong_probe :: List.filter (fun p => negb (is_noop p)) (tr_queue (s_transport ss)) /\
  cu_errors u1 = 0 /\ eioserver.up_errors v2 = 0 /\ cu_timeout u1 = u1 /\ eioserver.upgrade_timeout v2 = v2.
Proof.
  intros Hn Hpc Hwc Hps Hws Hpo u0 v1 u1 v2.
  assert (u0 = mkClientUpgrade (mkTransport (tr_name tc) false (tr_queue tc) [probe_packet] (tr_once tc) (tr_closed tc) (tr_going tc)) false false cs [] 0) as Hu0.
  { subst u0. unfold tryUpgradeTo, tr_Send. by rewrite Hpc, Hwc. }
  assert (v1 = eioserver.mkUpgrade (mkTransport (tr_name ts) false (tr_queue ts) [eioserver.pong_probe] (tr_once ts) (tr_closed ts) (tr_going ts)) false
                 (Send [noop] ss) 0) as Hv1.
  { subst v1. rewrite Hu0. cbn. unfold tr_Send at 1. by rewrite Hps, Hws. }
  assert (u1 = let s := (finishUpgradeTo (cu_t u0) cs).1 in mkClientUpgrade (c_transport s) true true s [c_tr_Discard (c_transport cs)] 0) as Hu1.
  { subst u1. rewrite Hv1, Hu0. reflexivity. }
  assert (v2 = eioserver.mkUpgrade (eioserver.up_t v1) true (upgradeTo (eioserver.up_t v1) (Send [noop] ss)) 0) as Hv2.
  { subst v2. rewrite Hu1, Hu0, Hv1. reflexivity. }
  assert (tr_queue (tr_Send [noop] (s_transport ss)) = tr_queue (s_transport ss) ++ [noop]) as Hq by (unfold tr_Send; by rewrite Hpo).
  destruct (moved_wire (tr_queue (s_transport ss) ++ [noop]) (eioserver.up_t v1)) as [HW HN]; [by rewrite Hv1|].
  split_and!.
  - by rewrite Hu1, Hu0.
  - rewrite Hv2. cbn [eioserver.up_socket]. unfold TransportName. rewrite upgradeTo_transport. cbn [s_transport Send].
    rewrite Hq, HN, Hv1. by rewrite Hn.
  - by rewrite Hu1.
  - rewrite Hv2. cbn. rewrite fmap_app. cbn. by rewrite (proj2 (proj2 (tr_Discard_same _))).
  - rewrite Hv2. cbn [eioserver.up_socket]. rewrite upgradeTo_transport. cbn [s_transport Send].
    rewrite Hq, HW, Hv1, List.filter_app. cbn. by rewrite app_nil_r.
  - by rewrite Hu1.
  - by rewrite Hv2.
  - by rewrite Hu1.
  - by rewrite Hv2.
Qed.

Lemma upgrade_protocol_witness :
  let t := eioserver.new_transport "websocket" false in
  let m := mkPacket false PacketTypeMessage (to_bytes "queued") in
  let ss := Send [m] (newServerSocket "s1" ["websocket"] (eioserver.new_transport "polling" true)) in
  let cs := mkClientSocket (eioserver.new_transport "polling" true) 1000000 false false [] in
  let u0 := (tryUpgradeTo None t cs).1 in
  let v1 := eioserver.upgrade_onPacket probe_packet (eioserver.mkUpgrade t false ss 0) in
  let u1 := cu_onPacket eioserver.pong_probe u0 in
  c_TransportName (cu_socket u1) = "websocket" /\
  tr_wire (s_transport (eioserver.up_socket (eioserver.upgrade_onPacket (mkPacket false PacketTypeUpgrade []) v1))) = [eioserver.pong_probe; m].
Proof.
  intros t m ss cs u0 v1 u1.
  destruct (upgrade_protocol t t cs ss) as (H1 & _ & _ & _ & H2 & _); [reflexivity..|]. split; [exact H1|exact H2].
Defined.

(** A PONG that arrives after the timeout of the upgrade still completes it: the socket moves to the transport that the timeout has closed, of which nothing
    more is announced. Only a transport that reads on after it was closed can deliver it, as the WebTransport transport does. *)
Theorem late_pong_upgrades t (s : clientSocket) :
  tr_once t = false ->
  let u := cu_onPacket eioserver.pong_probe (cu_timeout (tryUpgradeTo None t s).1) in
  c_TransportName (cu_socket u) = tr_name t /\ tr_once (c_transport (cu_socket u)) = true /\ tr_closed (c_transport (cu_socket u)) = true /\
  forall reason, c_transport (c_close reason (cu_socket u)) = c_transport (cu_socket u).
Proof.
  intros Ho u. assert (tr_once (c_transport (cu_socket u)) = true /\ tr_closed (c_transport (cu_socket u)) = true /\ c_TransportName (cu_socket u) = tr_name t) as (H1 & H2 & H3).
  { subst u. unfold cu_timeout, tryUpgradeTo. cbn. unfold tr_Send, tr_Close, c_TransportName. by destruct (tr_polling t); cbn; rewrite Ho. }
  split_and!; [done..|]. intros reason. unfold c_close. destruct (c_closed _); [done|]. unfold tr_Close. rewrite H1. by destruct reason.
Qed.

Lemma late_pong_upgrades_witness :
  let t := eioserver.new_transport "webtransport" false in
  let s := mkClientSocket (eioserver.new_transport "polling" true) 1000000 false false [] in
  tr_closed (c_transport (cu_socket (cu_onPacket eioserver.pong_probe (cu_timeout (tryUpgradeTo None t s).1)))) = true.
Proof.
  intros t s. destruct (late_pong_upgrades t s eq_refl) as (_ & _ & H & _). exact H.
Defined.

End dial.
