(* ===== verification/Dispatch.v ===== *)
(** * What the two kinds of sockets share ([server_socket.go], [client_socket.go], [server_conn.go])

    The sockets of the server and of the client hand events to handlers and packets to the
    connection with the same code, written twice. [reflect] is a parameter. *)

From S2P Require Import Prelude EioPacket Handlers Events.

Module dispatch.
Import handler.

(** ** From the buffers of a packet to Engine.IO packets *)

(** The body of [sendBuffers]: the text, then the attachments. [None] is an empty list of
    buffers, for which nothing is sent. *)
Definition attachment_packets (buffers : list bytes) : outcome eioparser.error (list eioparser.Packet) :=
  mapM (fun attachment => eioparser.NewPacket eioparser.PacketTypeMessage true attachment) buffers.

Definition message_packets (buffers : list bytes) : outcome eioparser.error (option (list eioparser.Packet)) :=
  match buffers with
  | [] => Ret None
  | buf :: buffers' =>
      first ← eioparser.NewPacket eioparser.PacketTypeMessage false buf;
      rest ← attachment_packets buffers';
      Ret (Some (first :: rest))
  end.

(** What it amounts to: the packets of a message. *)
Definition message_of (buffers : list bytes) : list eioparser.Packet :=
  match buffers with
  | [] => []
  | buf :: atts =>
      eioparser.mkPacket false eioparser.PacketTypeMessage buf ::
      ((fun a => eioparser.mkPacket true eioparser.PacketTypeMessage a) <$> atts)
  end.

Lemma attachment_packets_Ret atts :
  attachment_packets atts = Ret ((fun a => eioparser.mkPacket true eioparser.PacketTypeMessage a) <$> atts).
Proof. apply mapM_outcome_Ret, Forall2_fmap_r, Forall_Forall2_diag, Forall_forall. reflexivity. Qed.

(** It never fails: the type is that of a message. *)
Lemma message_packets_Ret buffers :
  message_packets buffers = Ret (match buffers with [] => None | _ => Some (message_of buffers) end).
Proof. destruct buffers as [|buf atts]; [done|]. cbn. by rewrite attachment_packets_Ret. Qed.

(** ** Arguments of handlers *)

(** What the code asks of a [reflect.Value] it has decoded. *)
Class ReflectValue (V : Type) := {
  rv_isPtr : V -> bool;
  rv_Elem : V -> V;
  rv_String : V -> option string;     (* the string, when the kind is [reflect.String] *)
  rv_CanInterface : V -> bool;
}.

Section values.
Context {V : Type} `{ReflectValue V}.

Definition is_ptr_type (t : gotype) : bool := match t with TPtr => true | _ => false end.

(** [if inputArgs[i].Kind() != reflect.Ptr && v.Kind() == reflect.Ptr { values[i] = v.Elem() }],
    for as many values as there are parameters. *)
Definition convert (t : gotype) (v : V) : V := if negb (is_ptr_type t) && rv_isPtr v then rv_Elem v else v.

Definition convert_values (inputArgs : list gotype) (values : list V) : option (list V) :=
  if length values =? length inputArgs then Some (zip_with convert inputArgs values) else None.

(** An argument of a handler: a decoded value, or the acknowledgement function made for it.
    The function refers to the cell with the flags of what has been acknowledged. *)
Inductive harg :=
  | HVal (v : V)
  | HAck (cell : nat) (id : Z).

(** The last argument becomes the acknowledgement function when the packet asks for one and
    the handler takes one. [values[len(values)-1]] of no values panics. *)
Definition with_ack (h : eventHandler) (id : option Z) (cell : nat) (values : list V) : outcome unit (list harg * bool) :=
  match id, eventHandler_ack h with
  | Some id, Ret true =>
      match values with
      | [] => Panic IndexRange
      | _ => Ret ((HVal <$> take (length values - 1) values) ++ [HAck cell id], true)
      end
  | _, _ => Ret (HVal <$> values, false)
  end.
End values.
Arguments harg V : clear implicits.
End dispatch.
