(* ===== verification/ServerApi.v ===== *)
(** * What users call on servers, namespaces and sockets ([server.go], [namespace.go], [server_socket.go])

    The methods that make a broadcast operator and those that delegate to one. A namespace is its world, the in-memory adapter with
    the store of its sockets; operators share a heap of room sets, as in [Broadcast]. The server's methods are those of the namespace "/". *)

From S2P Require Import Prelude MapSet SioPacket EioPacket Handlers Events Adapter Stores Broadcast Dispatch.

Module serverapi.
Import parser adapter broadcast reserved.
#[local] Open Scope string_scope.

Section api.
Context {RS SS : Type} `{!MapSet Room RS} `{!MapSet SocketID SS}.
Context {ST Sock : Type} `{!SocketStore ST Sock}.
(** A new store of sockets. *)
Context (newSocketStore : ST).

Record Server := mkServer {
  srv_heap : list RS;
  srv_nsps : gmap string (world RS SS ST);
}.

Definition set_world (name : string) (w : world RS SS ST) (s : Server) : Server := mkServer (srv_heap s) (<[name := w]> (srv_nsps s)).

Definition newWorld : world RS SS ST := mkWorld newInMemoryAdapter newSocketStore.

(** [s.Of(namespace)], without the handlers of new namespaces, which are not called for "/". *)
Definition Of_ (namespace : string) (s : Server) : Server * string :=
  let namespace := if String.prefix "/" namespace then namespace else "/" ++ namespace in
  match srv_nsps s !! namespace with
  | Some _ => (s, namespace)
  | None => (set_world namespace newWorld s, namespace)
  end.

Definition world_of (name : string) (s : Server) : world RS SS ST := default newWorld (srv_nsps s !! name).

(** ** Namespaces *)

(** A method that makes an operator out of the one of [NewBroadcastOperator]. *)
Definition with_operator (f : BroadcastOperator -> list RS -> list RS * BroadcastOperator) (name : string) (s : Server)
    : Server * BroadcastOperator :=
  let '(h, b) := NewBroadcastOperator name (srv_heap s) in
  let '(h, b) := f b h in
  (mkServer h (srv_nsps s), b).

Definition nsp_newBroadcastOperator (name : string) (s : Server) : Server * BroadcastOperator :=
  with_operator (fun b h => (h, b)) name s.

Definition nsp_To (rs : list Room) (name : string) (s : Server) := with_operator (op_To rs) name s.
Definition nsp_In (rs : list Room) (name : string) (s : Server) := with_operator (op_In rs) name s.
Definition nsp_Except (rs : list Room) (name : string) (s : Server) := with_operator (op_Except rs) name s.
Definition nsp_Compress (compress : bool) (name : string) (s : Server) := with_operator (fun b h => (h, op_Compress compress b)) name s.
Definition nsp_Local (name : string) (s : Server) := with_operator (fun b h => (h, op_Local b)) name s.

Section emission.
Context {V E : Type} (of_string : string -> V) (is_func : V -> bool) (Encode : PacketHeader -> list V -> outcome E (list bytes)).

(** [Emit] of an operator: what it hands to the adapter of its namespace is broadcast. *)
Definition Emit (eventName : string) (v : list V) (sch : schedule) (b : BroadcastOperator) (s : Server) : outcome E Server :=
  '(header, v, opts) ← op_Emit of_string is_func IsEventReservedForServer eventName v b (srv_heap s);
  (fun w => set_world (op_nsp b) w s) <$> Broadcast Encode header v opts sch (world_of (op_nsp b) s).

Definition nsp_Emit (eventName : string) (v : list V) (sch : schedule) (name : string) (s : Server) : outcome E Server :=
  let '(s, b) := nsp_newBroadcastOperator name s in Emit eventName v sch b s.

(** [ServerSideEmit]: both adapters do nothing with the header and the values. *)
Definition nsp_ServerSideEmit (eventName : string) (v : list V) (name : string) (s : Server) : outcome E Server :=
  let header := mkPacketHeader PacketTypeEvent name None 0 in
  if IsEventReservedForNsp eventName then Panic (UserPanic "attempted to emit to a reserved event")
  else
    let v := of_string eventName :: v in
    Ret s.
End emission.

(** The sockets of this node, in the order of the map of the store. *)
Definition nsp_Sockets (name : string) (s : Server) : list Sock := GetAll (w_store (world_of name s)).

Definition nsp_FetchSockets (sch : schedule) (name : string) (s : Server) : list Sock :=
  let '(s, b) := nsp_newBroadcastOperator name s in op_FetchSockets b (srv_heap s) sch (world_of name s).

Definition nsp_SocketsJoin (rs : list Room) (sch : schedule) (name : string) (s : Server) : Server :=
  let '(s, b) := nsp_newBroadcastOperator name s in set_world name (op_SocketsJoin rs b (srv_heap s) sch (world_of name s)) s.

Definition nsp_SocketsLeave (rs : list Room) (sch : schedule) (name : string) (s : Server) : Server :=
  let '(s, b) := nsp_newBroadcastOperator name s in set_world name (op_SocketsLeave rs b (srv_heap s) sch (world_of name s)) s.

Definition nsp_DisconnectSockets (disconnect : bool -> Sock -> world RS SS ST -> world RS SS ST) (close : bool) (sch : schedule)
    (name : string) (s : Server) : Server :=
  let '(s, b) := nsp_newBroadcastOperator name s in
  set_world name (op_DisconnectSockets disconnect close b (srv_heap s) sch (world_of name s)) s.

(** ** The server: the methods of its namespace "/" *)

Definition on_root {A} (f : string -> Server -> A) (s : Server) : A := let '(s, name) := Of_ "/" s in f name s.

Definition srv_To (rs : list Room) (s : Server) := on_root (nsp_To rs) s.
Definition srv_In (rs : list Room) (s : Server) := on_root (nsp_In rs) s.
Definition srv_Except (rs : list Room) (s : Server) := on_root (nsp_Except rs) s.
Definition srv_Compress (compress : bool) (s : Server) := on_root (nsp_Compress compress) s.
Definition srv_Local (s : Server) := on_root nsp_Local s.
Definition srv_Sockets (s : Server) := on_root nsp_Sockets s.
Definition srv_FetchSockets (room : list string) (sch : schedule) (s : Server) := on_root (nsp_FetchSockets sch) s.
Definition srv_SocketsJoin (rs : list Room) (sch : schedule) (s : Server) := on_root (nsp_SocketsJoin rs sch) s.
Definition srv_SocketsLeave (rs : list Room) (sch : schedule) (s : Server) := on_root (nsp_SocketsLeave rs sch) s.
Definition srv_DisconnectSockets (disconnect : bool -> Sock -> world RS SS ST -> world RS SS ST) (close : bool) (sch : schedule) (s : Server) :=
  on_root (nsp_DisconnectSockets disconnect close sch) s.
Definition srv_Emit {V E} (of_string : string -> V) is_func (Encode : PacketHeader -> list V -> outcome E (list bytes)) eventName v sch (s : Server) :=
  on_root (nsp_Emit of_string is_func Encode eventName v sch) s.
Definition srv_ServerSideEmit {V E} (of_string : string -> V) eventName v (s : Server) : outcome E Server :=
  on_root (nsp_ServerSideEmit of_string eventName v) s.

(** ** Sockets *)

(** The socket with the ID [sid] of the namespace [name]. *)
Definition sock_newBroadcastOperator (name : string) (sid : SocketID) (s : Server) : Server * BroadcastOperator :=
  with_operator (op_Except [sid]) name s.

Definition sock_modify (f : BroadcastOperator -> list RS -> list RS * BroadcastOperator) (name : string) (sid : SocketID) (s : Server)
    : Server * BroadcastOperator :=
  let '(s, b) := sock_newBroadcastOperator name sid s in
  let '(h, b) := f b (srv_heap s) in
  (mkServer h (srv_nsps s), b).

Definition sock_To (rs : list Room) (name : string) (sid : SocketID) (s : Server) := sock_modify (op_To rs) name sid s.
Definition sock_In (rs : list Room) (name : string) (sid : SocketID) (s : Server) := sock_To rs name sid s.
Definition sock_Except (rs : list Room) (name : string) (sid : SocketID) (s : Server) := sock_modify (op_Except rs) name sid s.
Definition sock_Local (name : string) (sid : SocketID) (s : Server) := sock_modify (fun b h => (h, op_Local b)) name sid s.
Definition sock_Broadcast (name : string) (sid : SocketID) (s : Server) := sock_newBroadcastOperator name sid s.

Definition sock_Rooms (order : list Room) (name : string) (sid : SocketID) (s : Server) : RS :=
  match SocketRooms sid order (w_adapter (world_of name s)) with
  | Some rooms => rooms
  | None => NewSet
  end.

End api.
Arguments Server : clear implicits.

(** ** Server-side events *)

Section server_side.
Context {V : Type} `{dispatch.ReflectValue V}.

(** The goroutine of [OnServerSideEmit]: the calls it makes. [values[i]] is overwritten, for the handlers that follow as well; the goroutine
    returns at the first handler with another number of parameters. *)
Fixpoint side_calls (handlers : list handler.eventHandler) (values : list V) : list (handler.eventHandler * list V) :=
  match handlers with
  | [] => []
  | h :: handlers =>
      match dispatch.convert_values (handler.eh_inputArgs h) values with
      | Some values' => (h, values') :: side_calls handlers values'
      | None => []
      end
  end.

Definition OnServerSideEmit (eventName : string) (v : list V) (st : eventHandlerStore.eventHandlerStore handler.eventHandler)
    : eventHandlerStore.eventHandlerStore handler.eventHandler * list (handler.eventHandler * list V) :=
  let '(st, handlers) := eventHandlerStore.ev_getAll eventName st in
  (st, side_calls handlers v).
End server_side.
(** ** What is reached *)

Section reach.
Context {RS SS : Type} `{!MapSet Room RS} `{!MapSet SocketID SS}.
Context `{!LawfulMapSet Room RS} `{!LawfulMapSet SocketID SS}.
Context {ST Sock : Type} `{!SocketStore ST Sock} `{!LawfulSocketStore ST Sock}.
Context (newSocketStore : ST).
Implicit Types (s : Server RS SS ST).

(** The sockets of a namespace that are in one of [to] (any known one when there is none) and in none of [except]. *)
Definition addressed (to except : list Room) (w : world RS SS ST) (sid : SocketID) (socket : Sock) : Prop :=
  (if bool_decide (to = []) then known (w_adapter w) sid = true
   else exists room, room ∈ to /\ in_room (w_adapter w) room sid = true) /\
  (forall room, room ∈ except -> in_room (w_adapter w) room sid = false) /\ Get sid (w_store w) = Some socket.

Lemma target_addressed opts to except w sid socket :
  (forall r, Contains r (Rooms opts) = true <-> r ∈ to) -> (forall r, Contains r (Except opts) = true <-> r ∈ except) ->
  target opts w sid socket <-> addressed to except w sid socket.
Proof.
  intros HT HE. unfold target, addressed, selected, excluded.
  assert ((Cardinality (Rooms opts) =? 0)%nat = bool_decide (to = [])) as ->.
  { destruct (Nat.eqb_spec (Cardinality (Rooms opts)) 0) as [H0|H0].
    - rewrite Cardinality_zero in H0. symmetry. apply bool_decide_eq_true_2. destruct to as [|r to]; [done|].
      assert (Contains r (Rooms opts) = true) as Hr by (apply HT; left). by rewrite H0 in Hr.
    - symmetry. apply bool_decide_eq_false_2. intros ->. apply H0, Cardinality_zero. intros x.
      destruct (Contains x (Rooms opts)) eqn:EC; [|done]. apply HT in EC. by apply not_elem_of_nil in EC. }
  assert ((~ exists room, Contains room (Except opts) = true /\ in_room (w_adapter w) room sid = true) <->
          (forall room, room ∈ except -> in_room (w_adapter w) room sid = false)) as ->.
  { split.
    - intros HN room Hr%HE. destruct (in_room (w_adapter w) room sid) eqn:EI; [|done]. destruct HN. by exists room.
    - intros HA (room & Hr%HE & HI). by rewrite HA in HI. }
  assert ((exists room, Contains room (Rooms opts) = true /\ in_room (w_adapter w) room sid = true) <->
          (exists room, room ∈ to /\ in_room (w_adapter w) room sid = true)) as HX.
  { split; intros (room & Hr & HI); exists room; (split; [by apply HT|done]). }
  destruct (bool_decide (to = [])); [done|]. by rewrite HX.
Qed.

Section emission.
Context {V E : Type} (of_string : string -> V) (is_func : V -> bool) (Encode : PacketHeader -> list V -> outcome E (list bytes)).

(** Emission of an operator with known rooms. *)
Lemma Emit_reaches to except b s ev v buffers sch :
  let w := world_of newSocketStore (op_nsp b) s in
  (forall r, Contains r (deref (srv_heap s) (op_rooms b)) = true <-> r ∈ to) ->
  (forall r, Contains r (deref (srv_heap s) (op_exceptRooms b)) = true <-> r ∈ except) ->
  ready (op_options b (srv_heap s)) sch w ->
  IsEventReservedForServer ev = false -> (forall f, last (of_string ev :: v) = Some f -> is_func f = false) ->
  Encode (mkPacketHeader PacketTypeEvent (op_nsp b) None 0) (of_string ev :: v) = Ret buffers ->
  exists vs : list Sock,
    NoDup (sock_ID <$> vs) /\ (forall socket, socket ∈ vs <-> exists sid, addressed to except w sid socket) /\
    Emit newSocketStore of_string is_func Encode ev v sch b s =
      Ret (set_world (op_nsp b) (mkWorld (w_adapter w)
             (fold_left (fun st socket => (SendBuffers (sock_ID socket) buffers st).1) vs (w_store w))) s).
Proof.
  intros w HT HE HR Hev HF HEnc.
  destruct (Broadcast_targets Encode _ _ buffers (op_options b (srv_heap s)) sch w HR HEnc) as (vs & HN & HV & HB).
  exists vs. split; [done|]. split.
  - intros socket. rewrite HV. split; intros [sid Hs]; exists sid; by apply (target_addressed (op_options b (srv_heap s)) to except).
  - unfold Emit, op_Emit. rewrite Hev. destruct (last (of_string ev :: v)) as [f|] eqn:EL; [|by destruct v using rev_ind; [|rewrite app_comm_cons, last_snoc in EL]].
    rewrite (HF f eq_refl). cbn [mbind outcome_bind]. fold w. by rewrite HB.
Qed.
End emission.

Lemma new_operator_spec name (h : list RS) :
  let '(h', b) := NewBroadcastOperator name h in
  op_valid b h' /\ op_nsp b = name /\
  (forall r, Contains r (deref h' (op_rooms b)) = false) /\ (forall r, Contains r (deref h' (op_exceptRooms b)) = false).
Proof.
  unfold NewBroadcastOperator, alloc, op_valid, deref. cbn. rewrite !length_app. cbn.
  split_and!; [lia|lia|done| |]; intros r.
  - rewrite <- app_assoc, lookup_app_r, Nat.sub_diag by lia. cbn. apply Contains_NewSet.
  - rewrite <- app_assoc, lookup_app_r by lia. replace (length h + 1 - length h)%nat with 1%nat by lia. cbn. apply Contains_NewSet.
Qed.

Lemma chain_nsp ms b (h : list RS) : op_nsp (chain ms b h).2 = op_nsp b.
Proof. revert b h. induction ms as [|m ms IH]; intros b h; [done|]. by destruct m; cbn; rewrite IH. Qed.

(** A new operator, refined by a chain of calls, and an event emitted with it. *)
Lemma chain_Emit_reaches {V E} (of_string : string -> V) is_func (Encode : PacketHeader -> list V -> outcome E (list bytes))
    ms name s ev v buffers sch :
  let '(h0, b0) := NewBroadcastOperator name (srv_heap s) in
  let '(h, b) := chain ms b0 h0 in
  let s' := mkServer h (srv_nsps s) in
  let w := world_of newSocketStore name s in
  ready (op_options b h) sch w ->
  IsEventReservedForServer ev = false -> (forall f, last (of_string ev :: v) = Some f -> is_func f = false) ->
  Encode (mkPacketHeader PacketTypeEvent name None 0) (of_string ev :: v) = Ret buffers ->
  exists vs : list Sock,
    NoDup (sock_ID <$> vs) /\
    (forall socket, socket ∈ vs <-> exists sid, addressed (to_rooms ms) (except_rooms ms) w sid socket) /\
    Emit newSocketStore of_string is_func Encode ev v sch b s' =
      Ret (set_world name (mkWorld (w_adapter w)
             (fold_left (fun st socket => (SendBuffers (sock_ID socket) buffers st).1) vs (w_store w))) s').
Proof.
  pose proof (new_operator_spec name (srv_heap s)) as HN. destruct (NewBroadcastOperator name (srv_heap s)) as [h0 b0].
  destruct HN as (HV0 & Hn0 & HR0 & HE0). pose proof (chain_spec ms b0 h0 HV0) as HC. pose proof (chain_nsp ms b0 h0) as Hn2.
  destruct (chain ms b0 h0) as [h b]. destruct HC as (HV & _ & _ & HR & HE). cbn [snd] in Hn2.
  intros s' w Hready Hev HF HEnc. assert (op_nsp b = name) as Hb by congruence. clear Hn0 Hn2. subst name.
  apply (Emit_reaches of_string is_func Encode (to_rooms ms) (except_rooms ms) b (mkServer h (srv_nsps s)) ev v buffers sch);
    [| |exact Hready|exact Hev|exact HF|exact HEnc].
  - intros r. cbn [srv_heap]. by rewrite HR, HR0, orb_false_r, bool_decide_eq_true.
  - intros r. cbn [srv_heap]. by rewrite HE, HE0, orb_false_r, bool_decide_eq_true.
Qed.
End reach.

(** ** Properties *)

(** C16: What a socket broadcasts reaches everyone it addresses but itself. The operator of a socket, however it is refined by [To], [In], [Except], [Local] and
    [Compress], sends an event once to each socket of the namespace that is in one of the rooms named (to all when none is named) and in none of the
    rooms excluded, not counting those in the room that has the sender's ID; the sender, which is in that room since it connected, is not among them. Rooms
    and members do not change, and neither does any other namespace. *)
Theorem socket_broadcast_reaches {RS SS} `{!MapSet Room RS} `{!MapSet SocketID SS} `{!LawfulMapSet Room RS} `{!LawfulMapSet SocketID SS}
    {ST Sock} `{!SocketStore ST Sock} `{!LawfulSocketStore ST Sock} (newSocketStore : ST)
    {V E} (of_string : string -> V) is_func (Encode : PacketHeader -> list V -> outcome E (list bytes)) ms name sid (s : Server RS SS ST) ev v buffers sch :
  let '(s1, b0) := sock_Broadcast name sid s in
  let '(h, b) := chain ms b0 (srv_heap s1) in
  let s2 := mkServer h (srv_nsps s1) in
  let w := world_of newSocketStore name s in
  ready (op_options b h) sch w -> in_room (w_adapter w) sid sid = true ->
  IsEventReservedForServer ev = false -> (forall f, last (of_string ev :: v) = Some f -> is_func f = false) ->
  Encode (mkPacketHeader PacketTypeEvent name None 0) (of_string ev :: v) = Ret buffers ->
  exists vs : list Sock,
    NoDup (sock_ID <$> vs) /\ (sid ∉ (sock_ID <$> vs)) /\
    (forall socket, socket ∈ vs <-> exists sid', addressed (to_rooms ms) (sid :: except_rooms ms) w sid' socket) /\
    Emit newSocketStore of_string is_func Encode ev v sch b s2 =
      Ret (set_world name (mkWorld (w_adapter w)
             (fold_left (fun st socket => (SendBuffers (sock_ID socket) buffers st).1) vs (w_store w))) s2).
Proof.
  pose proof (chain_Emit_reaches newSocketStore of_string is_func Encode (MExcept [sid] :: ms) name s ev v buffers sch) as HL.
  unfold sock_Broadcast, sock_newBroadcastOperator, with_operator.
  destruct (NewBroadcastOperator name (srv_heap s)) as [h0 bn]. cbn [chain modify] in HL.
  destruct (op_Except [sid] bn h0) as [h1 b1]. cbn [srv_heap srv_nsps]. destruct (chain ms b1 h1) as [h b].
  intros Hready Hown Hev HF HEnc. destruct (HL Hready Hev HF HEnc) as (vs & HND & HVS & HEm).
  assert (store_ok (w_store (world_of newSocketStore name s))) as Hok by apply Hready.
  exists vs. split; [done|]. split; [|split; [exact HVS|exact HEm]].
  intros (socket & Hid & Hs)%list_elem_of_fmap. apply HVS in Hs as (sid' & _ & HX & HG).
  pose proof (Get_ID _ _ _ Hok HG) as HI. rewrite Hid, HI in Hown, HX.
  specialize (HX sid' (list_elem_of_here _ _)). congruence.
Qed.

(** Two sockets, each in the room of its ID and in "r". *)
Definition two_sockets : world (gset string) (gset string) (nspSocketStore.nspSocketStore string (list (string * list bytes))) :=
  mkWorld (AddAll "b" ["b"; "r"] (AddAll "a" ["a"; "r"] newInMemoryAdapter))
    (nspSocketStore.mkNspSocketStore {["a" := "a"; "b" := "b"]} []).

Definition two_sch : schedule := mkSchedule ["a"] ["r"] (fun _ => ["b"; "a"]) ["a"; "b"].

Lemma two_ready (opts : BroadcastOptions (gset string)) :
  Rooms opts = {["r"]} -> Except opts = {["a"]} -> @ready _ _ _ _ _ _ sample_ss sample_lss opts two_sch two_sockets.
Proof.
  intros HR HE.
  assert (forall sid, known (w_adapter two_sockets) sid = true -> sid ∈ ["b"; "a"]) as HK.
  { intros sid. unfold two_sockets. cbn [w_adapter]. rewrite !known_AddAll.
    rewrite !orb_true_iff, !bool_decide_eq_true. intros [->|[->|HX]]; [left|right; left|].
    vm_compute in HX. discriminate. }
  unfold ready, complete. rewrite HR, HE. split_and!.
  - apply wf_AddAll, wf_AddAll, wf_new.
  - intros sid socket. cbn. by intros [[<- <-]|[_ [<- <-]%lookup_singleton_Some]]%lookup_insert_Some.
  - intros room Hr%bool_decide_eq_true. change (room ∈ ({["a"]} : gset string)) in Hr. apply elem_of_singleton in Hr as ->. left.
  - intros room Hr%bool_decide_eq_true. change (room ∈ ({["r"]} : gset string)) in Hr. apply elem_of_singleton in Hr as ->. left.
  - intros room. exact HK.
  - apply (bool_decide_unpack _). vm_compute. exact I.
  - intros sid Hs%HK. cbn. set_solver.
Qed.

Lemma socket_broadcast_reaches_witness :
  exists vs : list string, NoDup ((fun x => x) <$> vs) /\ ("a" ∉ ((fun x => x) <$> vs)) /\
    (forall socket, socket ∈ vs <-> exists sid', addressed (SocketStore0 := sample_ss) ["r"] ["a"] two_sockets sid' socket).
Proof.
  pose (s := mkServer (RS := gset string) [] {["/" := two_sockets]}).
  destruct (@socket_broadcast_reaches _ _ _ _ _ _ _ _ sample_ss sample_lss (nspSocketStore.mkNspSocketStore ∅ []) bytes unit to_bytes
    (fun _ => false) (fun _ b => Ret b) [MTo ["r"]] "/" "a" s "news" [] [to_bytes "news"] two_sch) as (vs & H1 & H2 & H3 & _).
  - apply two_ready; vm_compute; reflexivity.
  - vm_compute. reflexivity.
  - vm_compute. reflexivity.
  - done.
  - reflexivity.
  - exists vs. split_and!; [exact H1|exact H2|exact H3].
Defined.

(** The rooms given to the server's [FetchSockets] are not looked at. *)
Lemma FetchSockets_ignores_rooms {RS SS} `{!MapSet Room RS} `{!MapSet SocketID SS} {ST Sock} `{!SocketStore ST Sock} (new : ST) rooms sch (s : Server RS SS ST) :
  srv_FetchSockets new rooms sch s = srv_FetchSockets new [] sch s.
Proof. reflexivity. Qed.

(** Of the handlers of a server-side event those behind one with another number of parameters are not called; and a handler that takes a value leaves it dereferenced
    for a handler that takes the pointer. *)
Theorem side_calls_stop {V} `{dispatch.ReflectValue V} (h : handler.eventHandler) handlers (values : list V) :
  length (handler.eh_inputArgs h) <> length values -> side_calls (h :: handlers) values = [].
Proof.
  intros Hl. cbn. unfold dispatch.convert_values. destruct (Nat.eqb_spec (length values) (length (handler.eh_inputArgs h))); [|done]. congruence.
Qed.

End serverapi.
