(* ===== verification/ClientQueue.v ===== *)
(** * The client's retry queue ([client_packet_queue.go])

    With [Retries] set, a client socket sends one packet at a time and waits for its
    acknowledgement before the next. The goroutines are tasks: every step is one of
    their critical sections, and a run is an interleaving. *)

From stdpp Require Import sorting.
From S2P Require Import Prelude Events.

Module clientQueue.
Import handler.

(** ** State *)

Record queuedPacket := mkQueued {
  qp_id : Z;                      (* uint64 *)
  qp_v : list any;                (* the arguments before the acknowledgement function *)
  qp_haveAck : bool;              (* the user gave an acknowledgement function *)
  qp_ackParams : list gotype;     (* the parameters of [replacementAck] *)
  qp_tryCount : Z;
  qp_pending : bool;
}.

(** What a goroutine does next: [drainQueue(force)]; [go pq.socket.emit(...)] for a packet;
    waiting for the acknowledgement of an emission; the user's function, which
    [replacementAck] calls after it has released [pq.mu]; the end of [replacementAck]. *)
Inductive task :=
  | TDrain (force : bool)
  | TEmit (p : nat)
  | TWait (p : nat)
  | TCall (p : nat) (hasError : bool)
  | TClear (p : nat).

#[export] Instance task_eq_decision : EqDecision task.
Proof. solve_decision. Defined.

(** A [*queuedPacket] is the index of the packet in [cq_packets], in the order in which
    the packets are appended to [queuedPackets]. *)
Record clientPacketQueue := mkClientQueue {
  cq_seq : Z;
  cq_packets : list queuedPacket;
  cq_queue : list nat;            (* [queuedPackets] *)
  cq_stuck : bool;                (* a goroutine has panicked while it held [pq.mu] *)
  cq_connected : bool;            (* [pq.socket.Connected()] *)
  cq_tasks : list task;
  cq_wire : list nat;             (* the packets emitted, in order *)
  cq_acked : list (nat * bool);   (* calls of the users' acknowledgement functions: packet, error *)
}.

Definition newClientPacketQueue : clientPacketQueue := mkClientQueue 0 [] [] false false [] [] [].

Definition set_tasks (ts : list task) (q : clientPacketQueue) : clientPacketQueue :=
  mkClientQueue (cq_seq q) (cq_packets q) (cq_queue q) (cq_stuck q) (cq_connected q) ts (cq_wire q) (cq_acked q).

Definition set_packets (ps : list queuedPacket) (q : clientPacketQueue) : clientPacketQueue :=
  mkClientQueue (cq_seq q) ps (cq_queue q) (cq_stuck q) (cq_connected q) (cq_tasks q) (cq_wire q) (cq_acked q).

Definition spawn (t : task) (q : clientPacketQueue) : clientPacketQueue := set_tasks (cq_tasks q ++ [t]) q.

Definition set_pending (b : bool) (x : queuedPacket) : queuedPacket :=
  mkQueued (qp_id x) (qp_v x) (qp_haveAck x) (qp_ackParams x) (qp_tryCount x) b.

(** ** Operations *)

Section queue.
(** [pq.socket.config.Retries]. *)
Context (Retries : Z).

Definition nextSeq (q : clientPacketQueue) : clientPacketQueue * Z :=
  (mkClientQueue (wrap_u 64 (cq_seq q + 1)) (cq_packets q) (cq_queue q) (cq_stuck q) (cq_connected q) (cq_tasks q)
     (cq_wire q) (cq_acked q), cq_seq q).

(** [addToQueue], up to the call of [drainQueue], which is the task it leaves. *)
Definition addToQueue (v : list any) (q : clientPacketQueue) : outcome unit clientPacketQueue :=
  match last v with
  | None => Panic IndexRange
  | Some f =>
      let haveAck := match f with AnyFunc _ _ _ => true | _ => false end in
      let front := if haveAck then take (length v - 1) v else v in
      let '(q, id) := nextSeq q in
      params ← (match f with
                | AnyFunc _ params _ =>
                    match checkAckFunc f true with
                    | Ret _ => Ret params
                    | _ => Panic (UserPanic "sio: ack handler")
                    end
                | _ => Ret [TInterface true]
                end);
      let packet := mkQueued id front haveAck params 0 false in
      Ret (mkClientQueue (cq_seq q) (cq_packets q ++ [packet]) (cq_queue q ++ [length (cq_packets q)])
             (cq_stuck q) (cq_connected q) (cq_tasks q ++ [TDrain false]) (cq_wire q) (cq_acked q))
  end.

Definition drainQueue (force : bool) (q : clientPacketQueue) : clientPacketQueue :=
  if negb (cq_connected q) || (length (cq_queue q) =? 0) then q
  else
    match cq_queue q with
    | [] => q
    | p :: _ =>
        match cq_packets q !! p with
        | None => q
        | Some packet =>
            if qp_pending packet && negb force then q
            else
              let packet' := mkQueued (qp_id packet) (qp_v packet) (qp_haveAck packet) (qp_ackParams packet)
                               (qp_tryCount packet + 1) true in
              spawn (TEmit p) (set_packets (<[p := packet']> (cq_packets q)) q)
        end
    end.

(** [pq.queuedPackets = pq.queuedPackets[1:]], with [pq.mu] locked. What is left of
    [replacementAck] is the task: the user's function, if there is one, and the end. On an
    empty queue the slice expression panics while [pq.mu] is locked; the panic is
    recovered by the caller of [replacementAck], the mutex stays locked. *)
Definition pop (p : nat) (packet : queuedPacket) (hasError : bool) (q : clientPacketQueue) : clientPacketQueue :=
  match cq_queue q with
  | [] => mkClientQueue (cq_seq q) (cq_packets q) [] true (cq_connected q) (cq_tasks q) (cq_wire q) (cq_acked q)
  | _ :: queue' =>
      mkClientQueue (cq_seq q) (cq_packets q) queue' (cq_stuck q) (cq_connected q)
        (cq_tasks q ++ [if qp_haveAck packet then TCall p hasError else TClear p]) (cq_wire q) (cq_acked q)
  end.

(** [rv.Call(args)]: the user's function. *)
Definition call_user (p : nat) (hasError : bool) (q : clientPacketQueue) : clientPacketQueue :=
  mkClientQueue (cq_seq q) (cq_packets q) (cq_queue q) (cq_stuck q) (cq_connected q) (cq_tasks q ++ [TClear p]) (cq_wire q)
    (cq_acked q ++ [(p, hasError)]).

(** [replacementAck], up to the user's function. *)
Definition replacementAck (p : nat) (hasError : bool) (q : clientPacketQueue) : clientPacketQueue :=
  match cq_packets q !! p with
  | None => q
  | Some packet =>
      if hasError then
        if (Retries <? qp_tryCount packet)%Z then pop p packet hasError q else spawn (TClear p) q
      else pop p packet hasError q
  end.

(** The rest of [replacementAck]. *)
Definition ack_end (p : nat) (q : clientPacketQueue) : clientPacketQueue :=
  spawn (TDrain false) (set_packets (alter (set_pending false) p (cq_packets q)) q).

(** [emit("", 0, false, true, packet.v...)]: the packet goes to the socket, and its
    acknowledgement is awaited. *)
Definition emit_packet (p : nat) (q : clientPacketQueue) : clientPacketQueue :=
  mkClientQueue (cq_seq q) (cq_packets q) (cq_queue q) (cq_stuck q) (cq_connected q) (cq_tasks q ++ [TWait p])
    (cq_wire q ++ [p]) (cq_acked q).

(** ** Runs *)

(** A call of [addToQueue]; the socket connecting (its [onConnect] forces a drain) and
    disconnecting; the next step of the [i]-th task, where [hasError] is how an awaited
    acknowledgement ends. *)
Inductive action :=
  | AAdd (v : list any)
  | AConnect
  | ADisconnect
  | ATask (i : nat) (hasError : bool).

Definition set_connected (b : bool) (q : clientPacketQueue) : clientPacketQueue :=
  mkClientQueue (cq_seq q) (cq_packets q) (cq_queue q) (cq_stuck q) b (cq_tasks q) (cq_wire q) (cq_acked q).

Definition run_task (t : task) (hasError : bool) (q : clientPacketQueue) : option clientPacketQueue :=
  match t with
  | TDrain force => if cq_stuck q then None else Some (drainQueue force q)
  | TEmit p => Some (emit_packet p q)
  | TWait p => if cq_stuck q then None else Some (replacementAck p hasError q)
  | TCall p e => Some (call_user p e q)
  | TClear p => Some (ack_end p q)
  end.

(** [None]: the action is not possible, or waits for the mutex forever. *)
Definition exec (a : action) (q : clientPacketQueue) : option clientPacketQueue :=
  match a with
  | AAdd v => if cq_stuck q then None else match addToQueue v q with Ret q' => Some q' | _ => None end
  | AConnect => Some (spawn (TDrain true) (set_connected true q))
  | ADisconnect => Some (set_connected false q)
  | ATask i hasError =>
      match cq_tasks q !! i with
      | None => None
      | Some t => run_task t hasError (set_tasks (delete i (cq_tasks q)) q)
      end
  end.

Inductive reachable : clientPacketQueue -> Prop :=
  | re_new : reachable newClientPacketQueue
  | re_exec a q q' : reachable q -> exec a q = Some q' -> reachable q'.

(** A forced drain while the first packet awaits its acknowledgement. *)
Definition overlaps (a : action) (q : clientPacketQueue) : Prop :=
  exists i e p x, a = ATask i e /\ cq_tasks q !! i = Some (TDrain true) /\
    head (cq_queue q) = Some p /\ cq_packets q !! p = Some x /\ qp_pending x = true.

(** Runs in which the socket does not reconnect while an acknowledgement is awaited. *)
Inductive calm : clientPacketQueue -> Prop :=
  | calm_new : calm newClientPacketQueue
  | calm_exec a q q' : calm q -> ~ overlaps a q -> exec a q = Some q' -> calm q'.

Fixpoint execs (l : list action) (q : clientPacketQueue) : option clientPacketQueue :=
  match l with
  | [] => Some q
  | a :: l' => q' ← exec a q; execs l' q'
  end.

Lemma execs_reachable l q q' : reachable q -> execs l q = Some q' -> reachable q'.
Proof.
  revert q. induction l as [|a l IH]; intros q HR; cbn; [by intros [= <-]|].
  intros (q1 & H1 & H2)%bind_Some. eapply IH; [|exact H2]. by eapply re_exec.
Qed.

(** ** The invariant of calm runs *)

Definition cnt {A} `{EqDecision A} (x : A) (l : list A) : nat := length (filter (fun y => y = x) l).
#[local] Arguments cnt : simpl never.

Definition one {A} `{EqDecision A} (x y : A) : nat := if decide (y = x) then 1 else 0.

(** Comparing tasks. *)
Ltac counting := unfold one; repeat case_decide; simplify_eq; try lia.

Lemma cnt_snoc {A} `{EqDecision A} (x y : A) l : cnt x (l ++ [y]) = cnt x l + one x y.
Proof.
  unfold cnt, one. rewrite filter_app, length_app. f_equal.
  destruct (decide (y = x)); [by rewrite filter_cons_True|by rewrite filter_cons_False].
Qed.

Lemma cnt_delete {A} `{EqDecision A} (x y : A) l i :
  l !! i = Some y -> cnt x l = cnt x (delete i l) + one x y.
Proof.
  intros Hi. unfold cnt, one. rewrite (delete_Permutation l i y Hi) at 1.
  destruct (decide (y = x)); [rewrite filter_cons_True by done|rewrite filter_cons_False by done]; cbn; lia.
Qed.

Lemma filter_ext_in {A} (P Q : A -> Prop) `{forall x, Decision (P x)} `{forall x, Decision (Q x)} (l : list A) :
  (forall x, x ∈ l -> P x <-> Q x) -> filter P l = filter Q l.
Proof.
  induction l as [|a l IH]; intros HE; [done|]. specialize (IH ltac:(set_solver)).
  destruct (decide (P a)) as [HP|HP].
  - rewrite !filter_cons_True; [by rewrite IH|by apply HE; [left|]|done].
  - rewrite !filter_cons_False; [done|intros HQ; apply HP, HE; [left|done]|done].
Qed.

Definition tries (q : clientPacketQueue) (p : nat) : Z := default 0%Z (qp_tryCount <$> cq_packets q !! p).
Definition pending (q : clientPacketQueue) (p : nat) : bool := default false (qp_pending <$> cq_packets q !! p).
Definition haveAck (q : clientPacketQueue) (p : nat) : bool := default false (qp_haveAck <$> cq_packets q !! p).

(** The tasks that work on a packet, and the packet that is next in the queue: it is
    pending exactly when one task works on it. *)
Definition work (q : clientPacketQueue) (p : nat) : nat :=
  cnt (TEmit p) (cq_tasks q) + cnt (TWait p) (cq_tasks q) + cnt (TClear p) (cq_tasks q).

Definition current (q : clientPacketQueue) (k : nat) : Prop :=
  Z.of_nat (cnt k (cq_wire q) + cnt (TEmit k) (cq_tasks q)) = tries q k /\
  (if pending q k then
     work q k = 1 /\ (1 <= tries q k <= Retries + 1)%Z /\
     (0 < cnt (TClear k) (cq_tasks q) -> (tries q k <= Retries)%Z)
   else work q k = 0 /\ (tries q k <= Retries)%Z).

Definition fresh (q : clientPacketQueue) (p : nat) : Prop :=
  pending q p = false /\ tries q p = 0%Z /\ work q p = 0 /\ cnt p (cq_wire q) = 0.

Definition finished (q : clientPacketQueue) (p : nat) : Prop :=
  cnt (TEmit p) (cq_tasks q) = 0 /\ cnt (TWait p) (cq_tasks q) = 0 /\
  (1 <= Z.of_nat (cnt p (cq_wire q)) <= Retries + 1)%Z.

(** The calls of a packet's user function, made and about to be made. *)
Definition calls (q : clientPacketQueue) (p : nat) : nat :=
  cnt (TCall p true) (cq_tasks q) + cnt (TCall p false) (cq_tasks q) + cnt p (cq_acked q).*1.

Lemma calls_same q q' p :
  (forall e, cnt (TCall p e) (cq_tasks q') = cnt (TCall p e) (cq_tasks q)) -> cq_acked q' = cq_acked q -> calls q' p = calls q p.
Proof. intros HC HA. unfold calls. by rewrite !HC, HA. Qed.

(** One for every packet that has left the queue and has such a function. *)
Definition called_once (k : nat) (q : clientPacketQueue) : Prop :=
  forall p, calls q p = if decide (p < k /\ haveAck q p = true) then 1 else 0.

Lemma called_once_same k q q' :
  (forall p e, cnt (TCall p e) (cq_tasks q') = cnt (TCall p e) (cq_tasks q)) -> cq_acked q' = cq_acked q ->
  (forall p, p < k -> haveAck q' p = haveAck q p) -> called_once k q -> called_once k q'.
Proof.
  intros HC HA HH I p. rewrite (calls_same q q' p (HC p) HA), I. repeat case_decide; try done; exfalso;
    destruct (decide (p < k)) as [Hp|]; try tauto; rewrite (HH p Hp) in *; tauto.
Qed.

Record inv (k : nat) (q : clientPacketQueue) : Prop := {
  inv_queue : cq_queue q = seq k (length (cq_packets q) - k);
  inv_le : k <= length (cq_packets q);
  inv_stuck : cq_stuck q = false;
  inv_current : current q k;
  inv_fresh p : k < p -> fresh q p;
  inv_finished p : p < k -> finished q p;
  inv_wire : StronglySorted le (cq_wire q) /\ Forall (fun p => p <= k) (cq_wire q);
  inv_acked : called_once k q;
}.

Lemma inv_new : (0 <= Retries)%Z -> inv 0 newClientPacketQueue.
Proof.
  intros HR. split; try done; try (cbn; lia). split; constructor.
Qed.

(** Nothing but the tasks changes, and no task that works on a packet. *)
Lemma inv_tasks k q ts :
  inv k q ->
  (forall p, cnt (TEmit p) ts = cnt (TEmit p) (cq_tasks q) /\ cnt (TWait p) ts = cnt (TWait p) (cq_tasks q) /\
     cnt (TClear p) ts <= cnt (TClear p) (cq_tasks q) /\
     (p >= k -> cnt (TClear p) ts = cnt (TClear p) (cq_tasks q))) ->
  (forall p e, cnt (TCall p e) ts = cnt (TCall p e) (cq_tasks q)) ->
  inv k (set_tasks ts q).
Proof.
  intros I HT HU. split; try apply I; [..|by apply (called_once_same k q); try apply I].
  - destruct (HT k) as (E1 & E2 & _ & E3). specialize (E3 ltac:(lia)). destruct (inv_current _ _ I) as [H1 H2].
    unfold current, work in *. cbn [cq_tasks set_tasks] in *.
    change (tries (set_tasks ts q) k) with (tries q k). change (pending (set_tasks ts q) k) with (pending q k).
    rewrite E1, E2, E3. done.
  - intros p Hp. destruct (HT p) as (E1 & E2 & _ & E3). specialize (E3 ltac:(lia)).
    destruct (inv_fresh _ _ I p Hp) as (H1 & H2 & H3 & H4).
    split; [done|]. split; [done|]. split; [|done]. unfold work in *. cbn [cq_tasks set_tasks]. lia.
  - intros p Hp. destruct (HT p) as (E1 & E2 & _). destruct (inv_finished _ _ I p Hp) as (H1 & H2 & H3).
    split; [cbn; lia|]. split; [cbn; lia|done].
Qed.

Lemma inv_connected k q b : inv k q -> inv k (set_connected b q).
Proof. intros I. split; apply I. Qed.

(** *** The steps preserve it *)

Lemma addToQueue_inv k v q q' : inv k q -> addToQueue v q = Ret q' -> inv k q'.
Proof.
  intros I. unfold addToQueue. destruct (last v) as [f|]; [|done]. cbn [nextSeq].
  intros (params & _ & [= <-])%outcome_bind_Ret.
  set (x := mkQueued _ _ _ _ _ _). set (q' := mkClientQueue _ _ _ _ _ _ _ _).
  assert (forall p, tries q' p = tries q p /\ pending q' p = pending q p /\ (p < k -> haveAck q' p = haveAck q p)) as HL.
  { intros p. unfold tries, pending, haveAck. cbn [cq_packets q'].
    destruct (decide (p < length (cq_packets q))) as [Hp|Hp]; [by rewrite lookup_app_l|].
    rewrite (lookup_ge_None_2 (cq_packets q)) by lia. pose proof (inv_le _ _ I).
    destruct (decide (p = length (cq_packets q))) as [->|Hne].
    - rewrite lookup_app_r, Nat.sub_diag by lia. cbn. split_and!; [done..|lia].
    - rewrite lookup_ge_None_2; [done|]. rewrite length_app. cbn. lia. }
  assert (forall p, cnt (TEmit p) (cq_tasks q') = cnt (TEmit p) (cq_tasks q) /\
                    cnt (TWait p) (cq_tasks q') = cnt (TWait p) (cq_tasks q) /\
                    cnt (TClear p) (cq_tasks q') = cnt (TClear p) (cq_tasks q)) as HC.
  { intros p. cbn [cq_tasks q']. rewrite !cnt_snoc. counting. }
  assert (forall p e, cnt (TCall p e) (cq_tasks q') = cnt (TCall p e) (cq_tasks q)) as HU.
  { intros p e. cbn [cq_tasks q']. rewrite !cnt_snoc. counting. }
  split.
  - cbn [cq_queue cq_packets q']. rewrite (inv_queue _ _ I), length_app. cbn [length]. pose proof (inv_le _ _ I).
    replace (length (cq_packets q) + 1 - k) with (length (cq_packets q) - k + 1) by lia.
    rewrite seq_app. cbn. do 2 f_equal. lia.
  - cbn [cq_packets q']. rewrite length_app. pose proof (inv_le _ _ I). lia.
  - apply I.
  - destruct (inv_current _ _ I) as [H1 H2]. destruct (HL k) as (E1 & E2 & _). destruct (HC k) as (E3 & E4 & E5).
    unfold current, work in *. rewrite E1, E2, E3, E4, E5. done.
  - intros p Hp. destruct (inv_fresh _ _ I p Hp) as (H1 & H2 & H3 & H4). destruct (HL p) as (E1 & E2 & _).
    destruct (HC p) as (E3 & E4 & E5). unfold fresh, work in *. rewrite E1, E2, E3, E4, E5. done.
  - intros p Hp. destruct (inv_finished _ _ I p Hp) as (H1 & H2 & H3). destruct (HC p) as (E3 & E4 & E5).
    unfold finished. rewrite E3, E4. done.
  - apply I.
  - apply (called_once_same k q); [done|done| |apply I]. intros p Hp. destruct (HL p) as (_ & _ & E). by apply E.
Qed.

Lemma drainQueue_inv k force q :
  inv k q -> (force = true -> pending q k = false \/ cq_queue q = []) -> inv k (drainQueue force q).
Proof.
  intros I HF. unfold drainQueue. destruct (cq_connected q); cbn [negb orb]; [|done].
  pose proof (inv_queue _ _ I) as EQ. pose proof (inv_le _ _ I) as HL.
  destruct (cq_queue q) as [|p queue'] eqn:Eq; cbn; [done|].
  assert (p = k /\ k < length (cq_packets q)) as [-> Hk].
  { destruct (length (cq_packets q) - k) eqn:E; [done|]. cbn in EQ. injection EQ as -> _. split; [done|lia]. }
  destruct (lookup_lt_is_Some_2 _ _ Hk) as [x Hx]. rewrite Hx.
  assert (pending q k = qp_pending x) as EP by (unfold pending; by rewrite Hx).
  destruct (qp_pending x && negb force) eqn:EB; [done|].
  assert (pending q k = false) as HP.
  { rewrite EP. destruct (qp_pending x); [|done]. destruct force; [|done]. destruct HF as [HF|HF]; [done|congruence|done]. }
  set (x' := mkQueued _ _ _ _ _ _). set (q' := spawn _ _).
  assert (forall p, p <> k -> cq_packets q' !! p = cq_packets q !! p) as HO.
  { intros p Hp. cbn [cq_packets q' spawn set_tasks set_packets]. by rewrite list_lookup_insert_ne. }
  assert (cq_packets q' !! k = Some x') as HK.
  { cbn [cq_packets q' spawn set_tasks set_packets]. by rewrite list_lookup_insert_eq. }
  assert (forall u, cnt u (cq_tasks q') = cnt u (cq_tasks q) + one u (TEmit k)) as HC by (intros; apply cnt_snoc).
  destruct (inv_current _ _ I) as [HW HP']. rewrite HP in HP'. destruct HP' as [HW' HT].
  unfold work in HW'.
  assert (tries q k = qp_tryCount x) as ET by (unfold tries; by rewrite Hx).
  split.
  - cbn. rewrite length_insert. congruence.
  - cbn. rewrite length_insert. done.
  - apply I.
  - unfold current, work, tries, pending. rewrite HK, !HC. counting.
    cbn. split; [lia|]. split_and!; lia.
  - intros p Hp. destruct (inv_fresh _ _ I p Hp) as (H1 & H2 & H3 & H4). unfold fresh, work, tries, pending in *.
    rewrite HO by lia. rewrite !HC. counting. by split_and!; try lia.
  - intros p Hp. destruct (inv_finished _ _ I p Hp) as (H1 & H2 & H3). unfold finished. rewrite !HC.
    change (cq_wire q') with (cq_wire q). counting.
  - apply I.
  - apply (called_once_same k q); [|done| |apply I].
    + intros p e. rewrite HC. counting.
    + intros p Hp. unfold haveAck. by rewrite HO by lia.
Qed.

(** One task less, which is then performed. *)
Definition without (i : nat) (q : clientPacketQueue) : clientPacketQueue := set_tasks (delete i (cq_tasks q)) q.

Lemma emit_inv k i p q : inv k q -> cq_tasks q !! i = Some (TEmit p) -> inv k (emit_packet p (without i q)).
Proof.
  intros I Hi. set (q' := emit_packet p (without i q)).
  assert (forall u, cnt u (cq_tasks q') + one u (TEmit p) = cnt u (cq_tasks q) + one u (TWait p)) as HC.
  { intros u. cbn [q' emit_packet cq_tasks without set_tasks]. rewrite cnt_snoc, (cnt_delete u _ _ _ Hi). lia. }
  assert (0 < cnt (TEmit p) (cq_tasks q)) as Hpos.
  { rewrite (cnt_delete _ _ _ _ Hi). counting. }
  assert (p = k) as ->.
  { destruct (Nat.lt_trichotomy p k) as [Hp|[Hp|Hp]]; [|done|].
    - destruct (inv_finished _ _ I p Hp). lia.
    - destruct (inv_fresh _ _ I p Hp) as (_ & _ & HW & _). unfold work in HW. lia. }
  destruct (inv_current _ _ I) as [HW HP].
  split; try apply I.
  - pose proof (HC (TEmit k)) as C1. pose proof (HC (TWait k)) as C2. pose proof (HC (TClear k)) as C3.
    revert C1 C2 C3. counting. intros C1 C2 C3. unfold current, work in *.
    change (tries q' k) with (tries q k). change (pending q' k) with (pending q k).
    change (cq_wire q') with (cq_wire q ++ [k]). rewrite cnt_snoc. counting. split; [lia|].
    destruct (pending q k); [|lia]. split_and!; lia.
  - intros p Hp. pose proof (HC (TEmit p)) as C1. pose proof (HC (TWait p)) as C2. pose proof (HC (TClear p)) as C3.
    revert C1 C2 C3. counting. intros C1 C2 C3. destruct (inv_fresh _ _ I p Hp) as (F1 & F2 & F3 & F4).
    unfold fresh, work in *. change (cq_wire q') with (cq_wire q ++ [k]). rewrite cnt_snoc.
    counting. split; [done|]. split; [done|]. lia.
  - intros p Hp. pose proof (HC (TEmit p)) as C1. pose proof (HC (TWait p)) as C2.
    revert C1 C2. counting. intros C1 C2. destruct (inv_finished _ _ I p Hp) as (F1 & F2 & F3).
    unfold finished. change (cq_wire q') with (cq_wire q ++ [k]). rewrite cnt_snoc. counting.
  - destruct (inv_wire _ _ I) as [HS HF]. change (cq_wire q') with (cq_wire q ++ [k]). split.
    + apply StronglySorted_app_2; [|done|by repeat constructor].
      intros x y Hx ->%list_elem_of_singleton. by apply (proj1 (Forall_forall _ _) HF).
    + apply Forall_app. by repeat constructor.
  - apply (called_once_same k q); [|done|done|apply I]. intros p e. pose proof (HC (TCall p e)) as C. revert C. counting.
Qed.

Lemma clear_inv k i p q : inv k q -> cq_tasks q !! i = Some (TClear p) -> inv k (ack_end p (without i q)).
Proof.
  intros I Hi. set (q' := ack_end p (without i q)).
  assert (forall u, cnt u (cq_tasks q') + one u (TClear p) = cnt u (cq_tasks q) + one u (TDrain false)) as HC.
  { intros u. cbn [q' ack_end spawn cq_tasks without set_tasks set_packets]. rewrite cnt_snoc, (cnt_delete u _ _ _ Hi). lia. }
  assert (0 < cnt (TClear p) (cq_tasks q)) as Hpos.
  { rewrite (cnt_delete _ _ _ _ Hi). counting. }
  assert (forall j, cq_packets q' !! j = if decide (j = p) then set_pending false <$> cq_packets q !! p else cq_packets q !! j) as HL.
  { intros j. cbn [q' ack_end spawn cq_packets without set_tasks set_packets]. case_decide; subst.
    - by rewrite list_lookup_alter_eq.
    - by rewrite list_lookup_alter_ne. }
  assert (forall j, tries q' j = tries q j /\ haveAck q' j = haveAck q j /\
            pending q' j = if decide (j = p) then false else pending q j) as HT.
  { intros j. unfold tries, haveAck, pending. rewrite HL. case_decide; subst; [|done]. by destruct (cq_packets q !! p). }
  assert (p <= k) as Hpk.
  { destruct (Nat.le_gt_cases p k) as [|Hp]; [done|]. destruct (inv_fresh _ _ I p Hp) as (_ & _ & HW & _).
    unfold work in HW. lia. }
  assert (length (cq_packets q') = length (cq_packets q)) as EL by apply length_alter.
  split.
  - rewrite EL. apply I.
  - rewrite EL. apply I.
  - apply I.
  - destruct (HT k) as (T1 & _ & T3). destruct (inv_current _ _ I) as [HW HP].
    pose proof (HC (TEmit k)) as C1. pose proof (HC (TWait k)) as C2. pose proof (HC (TClear k)) as C3.
    unfold current, work in *. rewrite T1, T3. change (cq_wire q') with (cq_wire q).
    revert C1 C2 C3. unfold one. destruct (decide (k = p)) as [->|Hne].
    + destruct (pending q p); [|lia]. repeat case_decide; simplify_eq. intros. split; lia.
    + repeat case_decide; simplify_eq. intros C1 C2 C3. destruct (pending q k); lia.
  - intros j Hj. destruct (inv_fresh _ _ I j Hj) as (F1 & F2 & F3 & F4). destruct (HT j) as (T1 & _ & T3).
    pose proof (HC (TEmit j)) as C1. pose proof (HC (TWait j)) as C2. pose proof (HC (TClear j)) as C3.
    unfold fresh, work in *. rewrite T1, T3. change (cq_wire q') with (cq_wire q).
    revert C1 C2 C3. unfold one. repeat case_decide; simplify_eq; try lia. intros. split; [done|]. lia.
  - intros j Hj. destruct (inv_finished _ _ I j Hj) as (F1 & F2 & F3).
    pose proof (HC (TEmit j)) as C1. pose proof (HC (TWait j)) as C2. unfold finished.
    change (cq_wire q') with (cq_wire q). revert C1 C2. unfold one. repeat case_decide; simplify_eq. lia.
  - apply I.
  - apply (called_once_same k q); [|done| |apply I].
    + intros j e. pose proof (HC (TCall j e)) as C. revert C. counting.
    + intros j _. by destruct (HT j) as (_ & T2 & _).
Qed.

(** The facts about an awaited acknowledgement: it is the first packet's. *)
Lemma wait_current k i p q :
  inv k q -> cq_tasks q !! i = Some (TWait p) ->
  p = k /\ exists x, cq_packets q !! k = Some x /\ qp_pending x = true /\ tries q k = qp_tryCount x /\
    cnt (TEmit k) (cq_tasks q) = 0 /\ cnt (TWait k) (cq_tasks q) = 1 /\ cnt (TClear k) (cq_tasks q) = 0 /\
    Z.of_nat (cnt k (cq_wire q)) = tries q k /\ (1 <= tries q k <= Retries + 1)%Z.
Proof.
  intros I Hi. assert (0 < cnt (TWait p) (cq_tasks q)) as Hpos.
  { rewrite (cnt_delete _ _ _ _ Hi). counting. }
  assert (p = k) as ->.
  { destruct (Nat.lt_trichotomy p k) as [Hp|[Hp|Hp]]; [|done|].
    - destruct (inv_finished _ _ I p Hp) as (_ & H2 & _). lia.
    - destruct (inv_fresh _ _ I p Hp) as (_ & _ & HW & _). unfold work in HW. lia. }
  split; [done|]. destruct (inv_current _ _ I) as [HW HP]. unfold work in HP.
  destruct (pending q k) eqn:EP; [|lia]. unfold pending in EP.
  destruct (cq_packets q !! k) as [x|] eqn:Ex; [|done]. exists x. cbn in EP.
  unfold tries in *. rewrite Ex in *. cbn in *. split_and!; done || lia.
Qed.

(** What replacing a task by the one that follows it does. *)
Lemma next_cnt i t t' q q' :
  cq_tasks q !! i = Some t -> cq_tasks q' = delete i (cq_tasks q) ++ [t'] ->
  forall u, cnt u (cq_tasks q') + one u t = cnt u (cq_tasks q) + one u t'.
Proof. intros Hi -> u. rewrite cnt_snoc, (cnt_delete u _ _ _ Hi). lia. Qed.

Ltac task_counts HC j :=
  pose proof (HC (TEmit j)) as C1; pose proof (HC (TWait j)) as C2; pose proof (HC (TClear j)) as C3;
  revert C1 C2 C3; counting; intros.

Ltac pop_counts HC Ht j x :=
  pose proof (HC (TEmit j)) as C1; pose proof (HC (TWait j)) as C2; pose proof (HC (TClear j)) as C3;
  rewrite Ht in C1, C2, C3; revert C1 C2 C3; destruct (qp_haveAck x); counting; intros.

(** A failed try that is not the last. *)
Lemma retry_inv k i q :
  inv k q -> cq_tasks q !! i = Some (TWait k) -> (tries q k <= Retries)%Z -> inv k (spawn (TClear k) (without i q)).
Proof.
  intros I Hi HT. destruct (wait_current _ _ _ _ I Hi) as (_ & x & Hx & HP & ET & CE & CW & CC & HW & HB).
  set (q' := spawn (TClear k) (without i q)). pose proof (next_cnt i _ _ q q' Hi eq_refl) as HC.
  split; try apply I.
  - unfold current, work. change (tries q' k) with (tries q k). change (pending q' k) with (pending q k).
    change (cq_wire q') with (cq_wire q). task_counts HC k.
    assert (pending q k = true) as -> by (unfold pending; by rewrite Hx). split; [lia|]. split_and!; lia.
  - intros j Hj. destruct (inv_fresh _ _ I j Hj) as (F1 & F2 & F3 & F4). task_counts HC j.
    unfold fresh, work in *. split; [done|]. split; [done|]. split; [lia|done].
  - intros j Hj. destruct (inv_finished _ _ I j Hj) as (F1 & F2 & F3). task_counts HC j.
    unfold finished. change (cq_wire q') with (cq_wire q). lia.
  - apply (called_once_same k q); [|done|done|apply I]. intros p e. pose proof (HC (TCall p e)) as C. revert C. counting.
Qed.

(** The first packet leaves the queue. *)
Lemma pop_inv k i x e q :
  (0 <= Retries)%Z -> inv k q -> cq_tasks q !! i = Some (TWait k) -> cq_packets q !! k = Some x ->
  inv (S k) (pop k x e (without i q)).
Proof.
  intros HR I Hi Hx. destruct (wait_current _ _ _ _ I Hi) as (_ & x' & Hx' & HP & ET & CE & CW & CC & HW & HB).
  rewrite Hx in Hx'. injection Hx' as <-.
  assert (k < length (cq_packets q)) as Hk by (by eapply lookup_lt_Some).
  assert (cq_queue q = k :: seq (S k) (length (cq_packets q) - S k)) as EQ.
  { rewrite (inv_queue _ _ I). by replace (length (cq_packets q) - k) with (S (length (cq_packets q) - S k)) by lia. }
  unfold pop. change (cq_queue (without i q)) with (cq_queue q). rewrite EQ.
  set (t := if qp_haveAck x then TCall k e else TClear k). set (q' := mkClientQueue _ _ _ _ _ _ _ _).
  pose proof (next_cnt i _ t q q' Hi eq_refl) as HC.
  assert (forall u, one u t = if qp_haveAck x then one u (TCall k e) else one u (TClear k)) as Ht
    by (intros u; unfold t; by destruct (qp_haveAck x)).
  split; [done|done|apply I|..].
  - destruct (inv_fresh _ _ I (S k) ltac:(lia)) as (F1 & F2 & F3 & F4). pop_counts HC Ht (S k) x;
      unfold current, work in *; change (tries q' (S k)) with (tries q (S k));
      change (pending q' (S k)) with (pending q (S k)); change (cq_wire q') with (cq_wire q); rewrite F1, F2; split; lia.
  - intros j Hj. destruct (inv_fresh _ _ I j ltac:(lia)) as (F1 & F2 & F3 & F4). pop_counts HC Ht j x;
      unfold fresh, work in *; (split; [done|]; split; [done|]; split; [lia|done]).
  - intros j Hj. unfold finished. change (cq_wire q') with (cq_wire q).
    destruct (decide (j = k)) as [->|Hne]; [pop_counts HC Ht k x; lia|].
    destruct (inv_finished _ _ I j ltac:(lia)) as (F1 & F2 & F3). pop_counts HC Ht j x.
  - destruct (inv_wire _ _ I) as [HS HF]. split; [done|]. eapply Forall_impl; [exact HF|]. cbn. lia.
  - intros p. pose proof (inv_acked _ _ I p) as IA. unfold calls in *. change (cq_acked q') with (cq_acked q).
    change (haveAck q' p) with (haveAck q p). pose proof (HC (TCall p true)) as C1. pose proof (HC (TCall p false)) as C2.
    rewrite Ht in C1, C2. assert (haveAck q k = qp_haveAck x) as EA by (unfold haveAck; by rewrite Hx).
    destruct (decide (p = k)) as [->|Hne].
    + rewrite decide_False in IA by lia. rewrite EA. revert C1 C2. destruct (qp_haveAck x).
      * rewrite decide_True by (split; [lia|done]). destruct e; counting.
      * rewrite decide_False by (intros [_ ?]; done). counting.
    + assert (one (TCall p true) (TCall k e) = 0 /\ one (TCall p false) (TCall k e) = 0) as [E1 E2] by (split; counting).
      rewrite E1, E2 in *.
      assert ((if decide (p < S k /\ haveAck q p = true) then 1 else 0) = if decide (p < k /\ haveAck q p = true) then 1 else 0) as ->.
      { destruct (decide (p < k)) as [Hp|Hp]; repeat case_decide; try done; exfalso; lia || naive_solver lia. }
      rewrite <- IA. revert C1 C2. destruct (qp_haveAck x); counting.
Qed.

(** The user's function is called: it is the one of a packet that has left. *)
Lemma call_inv k i p e q : inv k q -> cq_tasks q !! i = Some (TCall p e) -> inv k (call_user p e (without i q)).
Proof.
  intros I Hi. set (q' := call_user p e (without i q)). pose proof (next_cnt i _ _ q q' Hi eq_refl) as HC.
  assert (p < k) as Hp.
  { assert (0 < calls q p) as Hc; [|rewrite (inv_acked _ _ I) in Hc; case_decide; lia].
    unfold calls. pose proof (cnt_delete (TCall p e) _ _ _ Hi) as C. revert C. unfold one. rewrite decide_True by done.
    destruct e; lia. }
  split; try apply I.
  - destruct (inv_current _ _ I) as [HW HP]. pose proof (HC (TEmit k)) as C1. pose proof (HC (TWait k)) as C2. pose proof (HC (TClear k)) as C3.
    revert C1 C2 C3. counting. intros. unfold current, work in *. change (tries q' k) with (tries q k). change (pending q' k) with (pending q k).
    change (cq_wire q') with (cq_wire q). split; [lia|]. destruct (pending q k); lia.
  - intros j Hj. destruct (inv_fresh _ _ I j Hj) as (F1 & F2 & F3 & F4). task_counts HC j.
    unfold fresh, work in *. split; [done|]. split; [done|]. split; [lia|done].
  - intros j Hj. destruct (inv_finished _ _ I j Hj) as (F1 & F2 & F3). pose proof (HC (TEmit j)) as C1. pose proof (HC (TWait j)) as C2.
    revert C1 C2. counting. intros. unfold finished. change (cq_wire q') with (cq_wire q). lia.
  - intros j. pose proof (inv_acked _ _ I j) as IA. change (haveAck q' j) with (haveAck q j). rewrite <- IA. unfold calls.
    change (cq_acked q') with (cq_acked q ++ [(p, e)]). rewrite fmap_app. cbn [fmap list_fmap fst]. rewrite cnt_snoc.
    pose proof (HC (TCall j true)) as C1. pose proof (HC (TCall j false)) as C2. revert C1 C2. destruct e; counting.
Qed.

Lemma reply_inv k i p e q :
  (0 <= Retries)%Z -> inv k q -> cq_tasks q !! i = Some (TWait p) ->
  exists k', inv k' (replacementAck p e (without i q)).
Proof.
  intros HR I Hi. destruct (wait_current _ _ _ _ I Hi) as (-> & x & Hx & _ & ET & _).
  unfold replacementAck. change (cq_packets (without i q)) with (cq_packets q). rewrite Hx.
  destruct e; [destruct (Z.ltb_spec Retries (qp_tryCount x))|]; [exists (S k); by apply pop_inv|exists k; apply retry_inv; [done..|lia]|exists (S k); by apply pop_inv].
Qed.

Lemma inv_without_drain k i f q : inv k q -> cq_tasks q !! i = Some (TDrain f) -> inv k (without i q).
Proof.
  intros I Hi. apply inv_tasks; [done|intros p..].
  - rewrite !(cnt_delete _ _ (cq_tasks q) _ Hi). counting.
  - intros e. rewrite !(cnt_delete _ _ (cq_tasks q) _ Hi). counting.
Qed.

Lemma calm_inv q : (0 <= Retries)%Z -> calm q -> exists k, inv k q.
Proof.
  intros HR. induction 1 as [|a q q' _ [k I] HO HX]; [exists 0; by apply inv_new|].
  destruct a as [v| | |i e]; cbn in HX.
  - rewrite (inv_stuck _ _ I) in HX. destruct (addToQueue v q) as [q1| |] eqn:Ea; [|done..]. injection HX as <-.
    exists k. by eapply addToQueue_inv.
  - injection HX as <-. exists k. apply inv_tasks; [by apply inv_connected|..].
    all: intros p; try intros e; cbn [cq_tasks set_connected]; rewrite !cnt_snoc; counting.
  - injection HX as <-. exists k. by apply inv_connected.
  - destruct (cq_tasks q !! i) as [t|] eqn:Hi; [|done].
    change (set_tasks (delete i (cq_tasks q)) q) with (without i q) in HX.
    destruct t as [f|p|p|p e'|p]; cbn [run_task] in HX; change (cq_stuck (without i q)) with (cq_stuck q) in HX;
      rewrite ?(inv_stuck _ _ I) in HX; injection HX as <-.
    + exists k. apply drainQueue_inv; [by eapply inv_without_drain|]. intros ->.
      destruct (cq_queue q) as [|p queue'] eqn:EQ; [by right|left].
      change (pending (without i q) k) with (pending q k). unfold pending.
      assert (p = k) as ->.
      { pose proof (inv_queue _ _ I) as EQ'. rewrite EQ in EQ'. destruct (length (cq_packets q) - k); [done|].
        by injection EQ'. }
      destruct (cq_packets q !! k) as [x|] eqn:Ex; [|done]. cbn. destruct (qp_pending x) eqn:EP; [|done].
      destruct HO. exists i, e, k, x. by rewrite EQ.
    + exists k. by apply emit_inv.
    + by eapply reply_inv.
    + exists k. by apply call_inv.
    + exists k. by apply clear_inv.
Qed.
End queue.

(** ** Properties *)


(** Two packets, the first acknowledged at the second try. *)
Definition sample_run : list action :=
  [AConnect; ATask 0 false; AAdd [AnyOther; AnyFunc 7 [TInterface true] 0]; AAdd [AnyOther];
   ATask 0 false; ATask 0 false; ATask 0 false; ATask 0 true; ATask 0 false; ATask 0 false; ATask 0 false; ATask 0 false; ATask 0 false].

Lemma sample_run_ends :
  exists q, execs 1 sample_run newClientPacketQueue = Some q /\
    cq_queue q = [1] /\ cq_wire q = [0; 0] /\ cq_acked q = [(0, false)].
Proof. eexists. split; [vm_compute; reflexivity|]. repeat split. Qed.

(** No action of the run is a forced drain with the first packet pending. *)
Fixpoint calm_run (Retries : Z) (l : list action) (q : clientPacketQueue) : bool :=
  match l with
  | [] => true
  | a :: l' =>
      match a with
      | ATask i _ =>
          match cq_tasks q !! i with
          | Some (TDrain true) =>
              match head (cq_queue q) with
              | Some p => negb (pending q p)
              | None => true
              end
          | _ => true
          end
      | _ => true
      end && match exec Retries a q with Some q' => calm_run Retries l' q' | None => true end
  end.

Lemma calm_run_calm Retries l q q' :
  calm Retries q -> calm_run Retries l q = true -> execs Retries l q = Some q' -> calm Retries q'.
Proof.
  revert q. induction l as [|a l IH]; intros q HC HR HX; [by injection HX as <-|].
  cbn in HX. destruct (exec Retries a q) as [q1|] eqn:E1; [|done]. cbn [calm_run] in HR. rewrite E1 in HR.
  apply andb_prop in HR as [HA HR]. eapply IH; [|exact HR|exact HX]. eapply calm_exec; [done| |exact E1].
  intros (i & e & p & x & -> & Hi & Hh & Hp & HP). rewrite Hi, Hh in HA.
  unfold pending in HA. rewrite Hp in HA. cbn in HA. by rewrite HP in HA.
Qed.


(** The first packet leaves the queue; before its function is called the second is sent, acknowledged, and its
    function is called. *)
Definition overtaking_run : list action :=
  let ack := AnyFunc 7 [TInterface true] 0 in
  [AConnect; ATask 0 false; AAdd [AnyOther; ack]; ATask 0 false; ATask 0 false; ATask 0 false;
   AAdd [AnyOther; ack]; ATask 1 false; ATask 1 false; ATask 1 false; ATask 1 false; ATask 0 false].

(** Between the removal of the first packet and the call of its user's function the next
    packet can be sent, acknowledged, and its function called. *)
Theorem acks_out_of_order :
  exists q, calm 1 q /\ cq_acked q = [(1, false); (0, false)] /\ cq_wire q = [0; 1].
Proof.
  eexists. split; [|split].
  - apply (calm_run_calm 1 overtaking_run newClientPacketQueue); [constructor|vm_compute; reflexivity|vm_compute; reflexivity].
  - reflexivity.
  - reflexivity.
Qed.

(** A reconnection while an acknowledgement is awaited breaks the queue: the first packet
    is sent again, and each of the two emissions takes a packet off the queue when it is
    answered or times out. With two packets queued the second is lost without having been
    sent, and the first is acknowledged twice; with one packet the second removal panics with the
    mutex locked, after which no packet can be added any more. *)
Theorem forced_drain_loses :
  (exists q, reachable 1 q /\ cq_connected q = true /\ length (cq_packets q) = 2 /\
     cq_queue q = [] /\ cq_wire q = [0; 0] /\ cq_acked q = [(0, true); (0, false)] /\
     cnt (TEmit 1) (cq_tasks q) = 0) /\
  (exists q, reachable 1 q /\ cq_stuck q = true /\ forall v, exec 1 (AAdd v) q = None).
Proof.
  set (ack := AnyFunc 7 [TInterface true] 0).
  split.
  - eexists. split.
    { eapply (execs_reachable 1
        [AConnect; ATask 0 false; AAdd [AnyOther; ack]; ATask 0 false; ATask 0 false; AAdd [AnyOther]; ATask 1 false;
         ADisconnect; AConnect; ATask 1 false; ATask 1 false; ATask 0 true; ATask 0 false; ATask 0 false; ATask 0 false]); [constructor|].
      vm_compute. reflexivity. }
    repeat split.
  - eexists. split.
    { eapply (execs_reachable 1
        [AConnect; ATask 0 false; AAdd [AnyOther; ack]; ATask 0 false; ATask 0 false;
         ADisconnect; AConnect; ATask 1 false; ATask 1 false; ATask 0 true; ATask 0 false]); [constructor|].
      vm_compute. reflexivity. }
    repeat split.
Qed.
End clientQueue.
