(* ===== verification/ClientManager.v ===== *)
(** * The client's manager ([client_manager.go], [client_manager_conn.go])

    The connection of a client: opening it, reconnecting with growing delays, closing.
    The goroutines that open and reconnect are serialised by [connectMu]: one of them
    runs, the others wait, or are in [open] after an error. Its steps, theirs, the calls of [Close], and the closing of Engine.IO
    connections interleave. *)

From Stdlib Require Import Strings.Ascii.
From S2P Require Import Prelude Strconv SioPacket JsonHeader JsonParser EioPacket Stores Backoff.

Module manager.
Import backoff reassembly.

(** ** State *)

Inductive clientConnectionState :=
  | clientConnStateConnecting
  | clientConnStateConnected
  | clientConnStateReconnecting
  | clientConnStateDisconnected.

#[export] Instance state_eq_decision : EqDecision clientConnectionState.
Proof. solve_decision. Defined.

Abbreviation Reason := string.

(** The runs of the handlers of the manager's events, and what it does to connections and
    queues, in order. *)
Inductive event :=
  | EvOpen
  | EvError
  | EvClose (reason : Reason)
  | EvReconnect (attempts : Z)
  | EvReconnectAttempt (attempts : Z)
  | EvReconnectError
  | EvReconnectFailed
  | EvSleep (delay : Z)
  | EvDial
  | EvEioClose (conn : nat)
  | EvCloseQueue (queue : nat).

(** Where the goroutine that holds [connectMu] is. *)
Inductive pc :=
  | PcOpen                              (* [connect(false)], before [skipReconnect = false] *)
  | PcConnect (recursed : bool)         (* before the check of the state *)
  | PcDial (recursed : bool)
  | PcDialed (recursed : bool) (conn : nat)
  | PcReconnectStart                    (* [reconnect(false)], before the check of [skipReconnect] *)
  | PcReconnect                         (* before the check of the state *)
  | PcAttempts
  | PcWake                              (* after the sleep *)
  | PcWake2                             (* after the handlers of [reconnect_attempt] *)
  | PcFailed                            (* [connect(true)] has failed *)
  | PcReconnected.

(** The goroutines without [connectMu]: those that wait for it, in [open] or in [reconnect(false)], and those in [open] after an
    error of [connect], which has released it: before [cleanup], and before [maybeReconnectOnOpen]. *)
Inductive starter := GOpen | GReconnect | GOpenFailed | GMaybeReconnect.

Record Manager := mkManager {
  m_state : clientConnectionState;
  m_skipReconnect : bool;
  m_noReconnection : bool;
  m_reconnectionAttempts : Z;      (* uint32 *)
  m_backoff : backoff;
  m_parser : Parser;
  m_eio : option nat;              (* connections are numbered in the order of the dials *)
  m_dialed : nat;                  (* how many there have been *)
  m_queue : nat;                   (* the number of [eioPacketQueue] *)
  m_subs : list nat;               (* the connections the functions in [subs] deactivate *)
  m_inactive : list nat;           (* those whose [active] is false *)
  m_dead : list nat;               (* those that have called [OnClose] *)
  m_running : option pc;
  m_waiting : list starter;
  m_closers : nat;                 (* calls of [Close] that wait for [eioMu] *)
  m_log : list event;
}.

Definition with_state (st : clientConnectionState) (m : Manager) : Manager :=
  mkManager st (m_skipReconnect m) (m_noReconnection m) (m_reconnectionAttempts m) (m_backoff m) (m_parser m) (m_eio m)
    (m_dialed m) (m_queue m) (m_subs m) (m_inactive m) (m_dead m) (m_running m) (m_waiting m) (m_closers m) (m_log m).

Definition with_skip (b : bool) (m : Manager) : Manager :=
  mkManager (m_state m) b (m_noReconnection m) (m_reconnectionAttempts m) (m_backoff m) (m_parser m) (m_eio m)
    (m_dialed m) (m_queue m) (m_subs m) (m_inactive m) (m_dead m) (m_running m) (m_waiting m) (m_closers m) (m_log m).

Definition with_backoff (b : backoff) (m : Manager) : Manager :=
  mkManager (m_state m) (m_skipReconnect m) (m_noReconnection m) (m_reconnectionAttempts m) b (m_parser m) (m_eio m)
    (m_dialed m) (m_queue m) (m_subs m) (m_inactive m) (m_dead m) (m_running m) (m_waiting m) (m_closers m) (m_log m).

Definition with_running (g : option pc) (m : Manager) : Manager :=
  mkManager (m_state m) (m_skipReconnect m) (m_noReconnection m) (m_reconnectionAttempts m) (m_backoff m) (m_parser m)
    (m_eio m) (m_dialed m) (m_queue m) (m_subs m) (m_inactive m) (m_dead m) g (m_waiting m) (m_closers m) (m_log m).

Definition with_waiting (l : list starter) (m : Manager) : Manager :=
  mkManager (m_state m) (m_skipReconnect m) (m_noReconnection m) (m_reconnectionAttempts m) (m_backoff m) (m_parser m)
    (m_eio m) (m_dialed m) (m_queue m) (m_subs m) (m_inactive m) (m_dead m) (m_running m) l (m_closers m) (m_log m).

Definition with_closers (n : nat) (m : Manager) : Manager :=
  mkManager (m_state m) (m_skipReconnect m) (m_noReconnection m) (m_reconnectionAttempts m) (m_backoff m) (m_parser m)
    (m_eio m) (m_dialed m) (m_queue m) (m_subs m) (m_inactive m) (m_dead m) (m_running m) (m_waiting m) n (m_log m).

Definition log (evs : list event) (m : Manager) : Manager :=
  mkManager (m_state m) (m_skipReconnect m) (m_noReconnection m) (m_reconnectionAttempts m) (m_backoff m) (m_parser m)
    (m_eio m) (m_dialed m) (m_queue m) (m_subs m) (m_inactive m) (m_dead m) (m_running m) (m_waiting m) (m_closers m)
    (m_log m ++ evs).

(** ** Configuration *)

Record ManagerConfig := mkManagerConfig {
  NoReconnection : bool;
  ReconnectionAttempts : Z;
  ReconnectionDelay : option Z;
  ReconnectionDelayMax : option Z;
  RandomizationInRange : option bool;   (* [RandomizationFactor], whether it is in (0, 1] *)
}.

Definition second : Z := 1000000000.
Definition DefaultReconnectionDelay : Z := 1 * second.
Definition DefaultReconnectionDelayMax : Z := 5 * second.

(** [state] is not set: it has the zero value, [clientConnStateConnecting]. *)
Definition NewManager (config : option ManagerConfig) : Manager :=
  let config := default (mkManagerConfig false 0 None None None) config in
  let reconnectionDelay := default DefaultReconnectionDelay (ReconnectionDelay config) in
  let reconnectionDelayMax := default DefaultReconnectionDelayMax (ReconnectionDelayMax config) in
  let randomization := default true (RandomizationInRange config) in
  mkManager clientConnStateConnecting false (NoReconnection config) (ReconnectionAttempts config)
    (newBackoff reconnectionDelay reconnectionDelayMax randomization) (NewParser 0) None 0 0 [] [] [] None [] 0 [].

(** The namespace of [Manager.socket]: the same as that of [Server.Of]. *)
Definition normalize_nsp (namespace : string) : string :=
  match namespace with
  | EmptyString => "/"
  | String c _ => if Ascii.eqb c "/"%char then namespace else String "/"%char namespace
  end.

(** The sockets of a manager by their namespaces; [newClientSocket] with its configuration and namespace. *)
Section sockets.
Context {CS Config : Type} (namespace_of : CS -> string) (newClientSocket : Config -> string -> CS) (zero : Config).

(** [Socket]: the copy of the configuration is used only when there is no socket of the namespace yet. *)
Definition Socket (namespace : string) (config : option Config) (s : clientSocketStore.clientSocketStore) : clientSocketStore.clientSocketStore * CS :=
  let namespace := normalize_nsp namespace in
  let config := match config with Some c => c | None => zero end in
  match clientSocketStore.cs_get namespace s with
  | Some socket => (s, socket)
  | None => let socket := newClientSocket config namespace in (clientSocketStore.cs_set namespace_of socket s, socket)
  end.

(** A namespace has one socket, whatever its spelling: a second call returns it, with the configuration of the first one, and
    changes nothing; the sockets of other namespaces are not touched. *)
Lemma Socket_shared n config n' config' s :
  (forall c n, namespace_of (newClientSocket c n) = n) ->
  normalize_nsp n' = normalize_nsp n ->
  let '(s1, socket) := Socket n config s in
  Socket n' config' s1 = (s1, socket) /\
  forall m, m <> normalize_nsp n -> clientSocketStore.cs_get m s1 = clientSocketStore.cs_get m s.
Proof.
  intros HN Hn. unfold Socket at 1. destruct (clientSocketStore.cs_get (normalize_nsp n) s) as [x|] eqn:EG.
  - split; [|done]. unfold Socket. by rewrite Hn, EG.
  - unfold Socket. rewrite Hn. unfold clientSocketStore.cs_get, clientSocketStore.cs_set. cbn. rewrite HN. split.
    + by rewrite lookup_insert_eq.
    + intros m Hm. by rewrite lookup_insert_ne by congruence.
Qed.
End sockets.

Definition truncateURL (url : string) : string :=
  if 50 <? String.length url then (String.substring 0 50 url ++ "...")%string else url.

(** ** Closing *)

Definition is_state (a b : clientConnectionState) : bool :=
  match a, b with
  | clientConnStateConnecting, clientConnStateConnecting | clientConnStateConnected, clientConnStateConnected
  | clientConnStateReconnecting, clientConnStateReconnecting | clientConnStateDisconnected, clientConnStateDisconnected => true
  | _, _ => false
  end.

Definition connected (m : Manager) : bool := is_state (m_state m) clientConnStateConnected.

Definition active (c : nat) (m : Manager) : bool := negb (bool_decide (c ∈ m_inactive m)).

Definition resetParser (m : Manager) : Manager :=
  mkManager (m_state m) (m_skipReconnect m) (m_noReconnection m) (m_reconnectionAttempts m) (m_backoff m) (Reset (m_parser m))
    (m_eio m) (m_dialed m) (m_queue m) (m_subs m) (m_inactive m) (m_dead m) (m_running m) (m_waiting m) (m_closers m) (m_log m).

Definition cleanup (m : Manager) : Manager :=
  resetParser
    (mkManager (m_state m) (m_skipReconnect m) (m_noReconnection m) (m_reconnectionAttempts m) (m_backoff m) (m_parser m)
      (m_eio m) (m_dialed m) (m_queue m) [] (m_inactive m ++ m_subs m) (m_dead m) (m_running m) (m_waiting m) (m_closers m)
      (m_log m)).

Definition onClose (reason : Reason) (m : Manager) : Manager :=
  let m := cleanup m in
  let m := with_backoff (b_reset (m_backoff m)) m in
  let m := with_state clientConnStateDisconnected m in
  let m := log [EvClose reason] m in
  if negb (m_noReconnection m) && negb (m_skipReconnect m)
  then with_waiting (m_waiting m ++ [GReconnect]) m else m.

(** [Close], up to the lock of [eioMu]; and the rest. *)
Definition Close (m : Manager) : Manager :=
  let m := with_state clientConnStateDisconnected m in
  let m := with_skip true m in
  let m := onClose "forced close" m in
  with_closers (S (m_closers m)) m.

Definition close_eio (m : Manager) : Manager :=
  with_closers (m_closers m - 1)
    (log (match m_eio m with Some c => [EvEioClose c] | None => [] end ++ [EvCloseQueue (m_queue m)]) m).

(** [destroy]: closes when no socket of the store is active. *)
Definition destroy (socket_active : list bool) (m : Manager) : Manager :=
  if existsb id socket_active then m else Close m.

(** [OnClose] of the callbacks given to [eio.Dial] for connection [c]. *)
Definition conn_OnClose (c : nat) (reason : Reason) (m : Manager) : Manager :=
  let m := mkManager (m_state m) (m_skipReconnect m) (m_noReconnection m) (m_reconnectionAttempts m) (m_backoff m)
             (m_parser m) (m_eio m) (m_dialed m) (m_queue m) (m_subs m) (m_inactive m) (c :: m_dead m) (m_running m)
             (m_waiting m) (m_closers m) (m_log m) in
  if active c m then onClose reason m else m.

(** ** Receiving *)

Section receive.
Context {V : Type} `{JSONSerializer V}.

(** What [onEIOPacket] leads to: a packet given to the socket of its namespace
    ([onParserFinish]; a packet for a namespace without a socket is dropped), the run of the
    ping handlers, or [go m.onClose(ReasonParseError, err)]. A panic of the parser is not
    recovered. *)
Inductive received :=
  | RSocket (namespace : string) (fin : finished)
  | RPing
  | RParseError (err : jsonparser.error).

Definition onParserFinish (has_socket : string -> bool) (fin : finished) : list received :=
  let '(header, eventName, buffers) := fin in
  let nsp := if String.eqb (parser.Namespace header) "" then "/" else parser.Namespace header in
  let header := parser.mkPacketHeader (parser.Typ header) nsp (parser.ID header) (parser.Attachments header) in
  if has_socket nsp then [RSocket nsp (header, eventName, buffers)] else [].

Fixpoint onEIOPacket (has_socket : string -> bool) (packets : list eioparser.Packet) (p : Parser)
  : Parser * outcome unit (list received) :=
  match packets with
  | [] => (p, Ret [])
  | packet :: packets' =>
      match eioparser.Typ packet with
      | eioparser.PacketTypeMessage =>
          match Add p (eioparser.Data packet) with
          | (p, Ret fin) =>
              let now := match fin with Some f => onParserFinish has_socket f | None => [] end in
              let '(p, rest) := onEIOPacket has_socket packets' p in
              (p, rest ← rest; Ret (now ++ rest))
          | (p, Err e) => (p, Ret [RParseError e])
          | (p, Panic why) => (p, Panic why)
          end
      | eioparser.PacketTypePing =>
          let '(p, rest) := onEIOPacket has_socket packets' p in (p, rest ← rest; Ret (RPing :: rest))
      | _ => onEIOPacket has_socket packets' p
      end
  end.
End receive.

(** ** Connecting and reconnecting *)

Section connect.
Context (to_int64 round : Z -> Z).

(** What a step of the running goroutine depends on: whether [eio.Dial] succeeds, and the
    jitter of the delay. *)
Record oracle := mkOracle { o_dial : bool; o_deviation : Z; o_subtract : bool }.

(** The end of [connect] without an error. *)
Definition after_connect (recursed : bool) : option pc := if recursed then Some PcReconnected else None.

(** [connect], from [eio.Dial] to its end. *)
Definition dial (o : oracle) (recursed : bool) (m : Manager) : Manager * option pc :=
  let m := log [EvDial] m in
  if o_dial o then
    (mkManager (m_state m) (m_skipReconnect m) (m_noReconnection m) (m_reconnectionAttempts m) (m_backoff m) (m_parser m)
       (m_eio m) (S (m_dialed m)) (m_queue m) (m_subs m) (m_inactive m) (m_dead m) (m_running m) (m_waiting m)
       (m_closers m) (m_log m), Some (PcDialed recursed (m_dialed m)))
  else
    let m := log [EvError] (with_state clientConnStateDisconnected (resetParser m)) in
    if recursed then (m, Some PcFailed) else (with_waiting (m_waiting m ++ [GOpenFailed]) m, None).

Definition dialed (recursed : bool) (c : nat) (m : Manager) : Manager * option pc :=
  let m := with_state clientConnStateConnected m in
  let m := cleanup (log [EvCloseQueue (m_queue m)] (resetParser m)) in
  let m := mkManager (m_state m) (m_skipReconnect m) (m_noReconnection m) (m_reconnectionAttempts m) (m_backoff m)
             (m_parser m) (Some c) (m_dialed m) (S (m_queue m)) (m_subs m ++ if active c m then [c] else []) (m_inactive m)
             (m_dead m) (m_running m) (m_waiting m) (m_closers m) (m_log m) in
  (log [EvOpen] m, after_connect recursed).

(** The goroutine goes on to [reconnect(false)], where it waits for [connectMu]. *)
Definition maybeReconnectOnOpen (m : Manager) : Manager :=
  if (attempts (m_backoff m) =? 0)%Z && negb (m_noReconnection m)
  then with_waiting (m_waiting m ++ [GReconnect]) m else m.

(** A step of [open] after an error of [connect]. *)
Definition open_failed (g : starter) (m : Manager) : option Manager :=
  match g with
  | GOpenFailed => let m := cleanup m in Some (with_waiting (m_waiting m ++ [GMaybeReconnect]) m)
  | GMaybeReconnect => Some (maybeReconnectOnOpen m)
  | GOpen | GReconnect => None
  end.

(** Where a goroutine begins that gets [connectMu]. *)
Definition acquired (g : starter) : option pc :=
  match g with GOpen => Some PcOpen | GReconnect => Some PcReconnectStart | GOpenFailed | GMaybeReconnect => None end.

Definition onReconnect (m : Manager) : Manager :=
  let a := attempts (m_backoff m) in
  log [EvReconnect a] (with_backoff (b_reset (m_backoff m)) m).

(** [reconnect], the part that decides whether to go on. *)
Definition check_attempts (o : oracle) (m : Manager) : Manager * option pc :=
  let a := attempts (m_backoff m) in
  let didAttemptsReachedMaxAttempts := (0 <? m_reconnectionAttempts m)%Z && (m_reconnectionAttempts m <=? a)%Z in
  let didAttemptsReachedMaxInt := (m_reconnectionAttempts m =? 0)%Z && (a =? max_uint32)%Z in
  if didAttemptsReachedMaxAttempts || didAttemptsReachedMaxInt then
    let m := with_backoff (b_reset (m_backoff m)) m in
    (log [EvReconnectFailed] (with_state clientConnStateDisconnected m), None)
  else
    let d := duration to_int64 round (o_deviation o) (o_subtract o) (m_backoff m) in
    (log [EvSleep d.2] (with_backoff d.1 m), Some PcWake).

(** One step of the goroutine that holds [connectMu]. *)
Definition step_pc (o : oracle) (g : pc) (m : Manager) : Manager * option pc :=
  match g with
  | PcOpen => (with_skip false m, Some (PcConnect false))
  | PcConnect recursed =>
      if connected m then (m, after_connect recursed)
      else (with_state clientConnStateConnecting m, Some (PcDial recursed))
  | PcDial recursed => dial o recursed m
  | PcDialed recursed c => dialed recursed c m
  | PcReconnectStart => (m, if m_skipReconnect m then None else Some PcReconnect)
  | PcReconnect =>
      if is_state (m_state m) clientConnStateDisconnected
      then (with_state clientConnStateReconnecting m, Some PcAttempts) else (m, None)
  | PcAttempts => check_attempts o m
  | PcWake =>
      if m_skipReconnect m then (m, None)
      else (log [EvReconnectAttempt (attempts (m_backoff m))] m, Some PcWake2)
  | PcWake2 => (m, if m_skipReconnect m then None else Some (PcConnect true))
  | PcFailed => (log [EvReconnectError] (with_state clientConnStateDisconnected m), Some PcReconnect)
  | PcReconnected => (onReconnect m, None)
  end.

(** ** Interleavings *)

(** [eioMu] is held from the dial to the end of [connect]. *)
Definition eio_locked (m : Manager) : bool :=
  match m_running m with Some (PcDial _) | Some (PcDialed _ _) => true | _ => false end.

Inductive action :=
  | AOpen                              (* a call of [Open], or [go s.manager.open()] *)
  | AAcquire (i : nat)                 (* the [i]-th waiting goroutine gets [connectMu] *)
  | AOpenFailed (i : nat)              (* a step of the [i]-th, which is in [open] and does not wait *)
  | AStep (o : oracle)
  | AClose
  | ACloseEio
  | AConnClosed (c : nat) (reason : Reason).

Definition exec (a : action) (m : Manager) : option Manager :=
  match a with
  | AOpen => Some (with_waiting (m_waiting m ++ [GOpen]) m)
  | AAcquire i =>
      match m_running m, m_waiting m !! i ≫= acquired with
      | None, Some g => Some (with_running (Some g) (with_waiting (delete i (m_waiting m)) m))
      | _, _ => None
      end
  | AOpenFailed i => g ← m_waiting m !! i; open_failed g (with_waiting (delete i (m_waiting m)) m)
  | AStep o =>
      match m_running m with
      | Some g => let '(m', g') := step_pc o g m in Some (with_running g' m')
      | None => None
      end
  | AClose => Some (Close m)
  | ACloseEio => if (0 <? m_closers m) && negb (eio_locked m) then Some (close_eio m) else None
  | AConnClosed c reason =>
      if (c <? m_dialed m) && negb (bool_decide (c ∈ m_dead m)) then Some (conn_OnClose c reason m) else None
  end.

Fixpoint execs (l : list action) (m : Manager) : option Manager :=
  match l with
  | [] => Some m
  | a :: l' => m' ← exec a m; execs l' m'
  end.

Inductive reachable (P : action -> Prop) (m0 : Manager) : Manager -> Prop :=
  | re_start : reachable P m0 m0
  | re_exec a m m' : reachable P m0 m -> P a -> exec a m = Some m' -> reachable P m0 m'.

Lemma manager_execs_reachable (P : action -> Prop) m0 l m m' :
  reachable P m0 m -> Forall P l -> execs l m = Some m' -> reachable P m0 m'.
Proof.
  revert m. induction l as [|a l IH]; intros m HR HP HX; [by injection HX as <-|].
  apply Forall_cons in HP as [HP HPs]. cbn in HX. apply bind_Some in HX as (m1 & H1 & H2).
  eapply IH; [|done|exact H2]. by eapply re_exec.
Qed.

(** *** The goroutine on its own *)

(** One step, when nothing else happens: [os a] decides the step taken with [a] attempts. *)
Definition alone (os : Z -> oracle) (m : Manager) : Manager :=
  match m_running m with
  | Some g => let '(m', g') := step_pc (os (attempts (m_backoff m))) g m in with_running g' m'
  | None => m
  end.

Fixpoint run_alone (k : nat) (os : Z -> oracle) (m : Manager) : Manager :=
  match k with O => m | S k' => run_alone k' os (alone os m) end.

Lemma run_alone_add k1 k2 os m : run_alone (k1 + k2) os m = run_alone k2 os (run_alone k1 os m).
Proof. revert m. induction k1 as [|k1 IH]; intros m; cbn; [done|apply IH]. Qed.

Lemma run_alone_done k os m : m_running m = None -> run_alone k os m = m.
Proof. intros HN. induction k as [|k IH]; cbn; [done|]. unfold alone at 1. by rewrite HN. Qed.

Lemma run_alone_more k1 k2 os m :
  k1 <= k2 -> m_running (run_alone k1 os m) = None -> run_alone k2 os m = run_alone k1 os m.
Proof.
  intros HK HN. replace k2 with (k1 + (k2 - k1)) by lia. rewrite run_alone_add. by apply run_alone_done.
Qed.

Definition dial_of (e : event) : nat := match e with EvDial => 1 | _ => 0 end.

(** How many dials there have been. *)
Definition dials (m : Manager) : nat := sum_list_with dial_of (m_log m).

Lemma duration_attempts dev sub b : attempts (duration to_int64 round dev sub b).1 = wrap_u 32 (attempts b + 1).
Proof. reflexivity. Qed.

Lemma check_attempts_go o m :
  (0 < m_reconnectionAttempts m)%Z -> (attempts (m_backoff m) < m_reconnectionAttempts m)%Z ->
  let d := duration to_int64 round (o_deviation o) (o_subtract o) (m_backoff m) in
  check_attempts o m = (log [EvSleep d.2] (with_backoff d.1 m), Some PcWake).
Proof.
  intros H1 H2 d. unfold check_attempts.
  destruct (Z.leb_spec (m_reconnectionAttempts m) (attempts (m_backoff m))), (Z.eqb_spec (m_reconnectionAttempts m) 0); [lia..|].
  by rewrite andb_false_r.
Qed.

Lemma check_attempts_stop o m :
  (0 < m_reconnectionAttempts m <= attempts (m_backoff m))%Z ->
  check_attempts o m =
    (log [EvReconnectFailed] (with_state clientConnStateDisconnected (with_backoff (b_reset (m_backoff m)) m)), None).
Proof.
  intros H1. unfold check_attempts.
  destruct (Z.ltb_spec 0 (m_reconnectionAttempts m)), (Z.leb_spec (m_reconnectionAttempts m) (attempts (m_backoff m))); [|lia..].
  done.
Qed.

(** What the rounds of [reconnect] depend on. *)
Record view := mkView { v_running : option pc; v_state : clientConnectionState; v_attempts : Z; v_dials : nat }.

Definition view_of (m : Manager) : view := mkView (m_running m) (m_state m) (attempts (m_backoff m)) (dials m).

(** The step [g] takes [m] to a state seen as [v], and keeps [skipReconnect] and the limit. *)
Definition goes (os : Z -> oracle) (m : Manager) (v : view) : Prop :=
  view_of (alone os m) = v /\ m_skipReconnect (alone os m) = m_skipReconnect m /\
  m_reconnectionAttempts (alone os m) = m_reconnectionAttempts m.

Lemma dials_log evs m : dials (log evs m) = dials m + sum_list_with dial_of evs.
Proof. unfold dials. cbn. apply sum_list_with_app. Qed.

Ltac one_step := unfold goes, view_of, alone; intros ->; cbn [step_pc].

Lemma go_reconnect os m :
  m_running m = Some PcReconnect -> m_state m = clientConnStateDisconnected ->
  goes os m (mkView (Some PcAttempts) clientConnStateReconnecting (attempts (m_backoff m)) (dials m)).
Proof. one_step. intros ->. done. Qed.

Lemma go_attempts os m :
  m_running m = Some PcAttempts ->
  (0 < m_reconnectionAttempts m)%Z -> (attempts (m_backoff m) < m_reconnectionAttempts m)%Z ->
  goes os m (mkView (Some PcWake) (m_state m) (wrap_u 32 (attempts (m_backoff m) + 1)) (dials m)).
Proof.
  one_step. intros H1 H2. rewrite check_attempts_go by done. cbn [log with_running with_backoff m_backoff m_running m_state].
  split; [|done]. f_equal. unfold dials. cbn. rewrite sum_list_with_app. cbn. lia.
Qed.

Lemma go_stop os m :
  m_running m = Some PcAttempts -> (0 < m_reconnectionAttempts m <= attempts (m_backoff m))%Z ->
  goes os m (mkView None clientConnStateDisconnected 0 (dials m)) /\
  last (m_log (alone os m)) = Some EvReconnectFailed.
Proof.
  one_step. intros H1. rewrite check_attempts_stop by done. split; [split; [|done]|].
  - unfold dials. cbn. f_equal. rewrite sum_list_with_app. cbn. lia.
  - cbn. by rewrite last_snoc.
Qed.

Lemma go_wake os m :
  m_running m = Some PcWake -> m_skipReconnect m = false ->
  goes os m (mkView (Some PcWake2) (m_state m) (attempts (m_backoff m)) (dials m)).
Proof.
  one_step. intros HS. rewrite HS. split; [|by rewrite <- HS]. unfold dials. cbn. f_equal. rewrite sum_list_with_app. cbn. lia.
Qed.

Lemma go_wake2 os m :
  m_running m = Some PcWake2 -> m_skipReconnect m = false ->
  goes os m (mkView (Some (PcConnect true)) (m_state m) (attempts (m_backoff m)) (dials m)).
Proof. one_step. intros HS. rewrite HS. split; [done|]. by rewrite <- HS. Qed.

Lemma go_connect os m :
  m_running m = Some (PcConnect true) -> m_state m <> clientConnStateConnected ->
  goes os m (mkView (Some (PcDial true)) clientConnStateConnecting (attempts (m_backoff m)) (dials m)).
Proof. one_step. unfold connected. by destruct (m_state m). Qed.

Lemma go_dial os m :
  m_running m = Some (PcDial true) ->
  if o_dial (os (attempts (m_backoff m)))
  then goes os m (mkView (Some (PcDialed true (m_dialed m))) (m_state m) (attempts (m_backoff m)) (S (dials m)))
  else goes os m (mkView (Some PcFailed) clientConnStateDisconnected (attempts (m_backoff m)) (S (dials m))).
Proof.
  one_step. unfold dial. destruct (o_dial _); (split; [|done]); unfold dials; cbn; f_equal; rewrite !sum_list_with_app; cbn; lia.
Qed.

Lemma go_failed os m :
  m_running m = Some PcFailed ->
  goes os m (mkView (Some PcReconnect) clientConnStateDisconnected (attempts (m_backoff m)) (dials m)).
Proof. one_step. split; [|done]. unfold dials. cbn. f_equal. rewrite sum_list_with_app. cbn. lia. Qed.

Lemma go_dialed os m c :
  m_running m = Some (PcDialed true c) ->
  goes os m (mkView (Some PcReconnected) clientConnStateConnected (attempts (m_backoff m)) (dials m)).
Proof. one_step. split; [|done]. unfold dials. cbn. f_equal. rewrite !sum_list_with_app. cbn. lia. Qed.

Lemma go_reconnected os m :
  m_running m = Some PcReconnected -> goes os m (mkView None (m_state m) 0 (dials m)).
Proof. one_step. split; [|done]. unfold dials. cbn. f_equal. rewrite !sum_list_with_app. cbn. lia. Qed.

(** A state seen as [v], with the limit [n] and [skipReconnect] not set. *)
Definition sees (n : Z) (v : view) (m : Manager) : Prop :=
  view_of m = v /\ m_skipReconnect m = false /\ m_reconnectionAttempts m = n.

Lemma sees_step os n v v' m :
  sees n v m -> (m_running m = v_running v -> m_state m = v_state v -> attempts (m_backoff m) = v_attempts v ->
    dials m = v_dials v -> m_skipReconnect m = false -> m_reconnectionAttempts m = n -> goes os m v') ->
  sees n v' (alone os m).
Proof.
  intros (<- & HS & HN) HG. destruct HG as (V & S & N); [done..|]. split; [done|]. by rewrite S, N.
Qed.

Lemma sees_fields n r s a d m :
  sees n (mkView r s a d) m -> m_running m = r /\ m_state m = s /\ dials m = d.
Proof. by intros ([= <- <- _ <-] & _). Qed.

Section round.
Context (n : Z) (Hn : (0 < n <= max_uint32)%Z) (os : Z -> oracle).

(** A round of [reconnect] begins. *)
Definition at_round (a : Z) (d : nat) : Manager -> Prop := sees n (mkView (Some PcReconnect) clientConnStateDisconnected a d).

Lemma round_to_dial a d m :
  at_round a d m -> (0 <= a < n)%Z ->
  sees n (mkView (Some (PcDial true)) clientConnStateConnecting (a + 1) d) (run_alone 5 os m).
Proof.
  intros H0 Ha. assert (wrap_u 32 (a + 1) = (a + 1)%Z) as HW by (apply wrap_u_small; unfold max_uint32 in Hn; lia).
  assert (sees n (mkView (Some PcAttempts) clientConnStateReconnecting a d) (alone os m)) as H1.
  { eapply sees_step; [exact H0|]. intros R S A D _ _. cbn in A, D. rewrite <- A, <- D. by apply go_reconnect. }
  assert (sees n (mkView (Some PcWake) clientConnStateReconnecting (a + 1) d) (alone os (alone os m))) as H2.
  { eapply sees_step; [exact H1|]. intros R S A D _ N. cbn in A, D, S. rewrite <- HW, <- A, <- D, <- S.
    apply go_attempts; [done|lia..]. }
  assert (sees n (mkView (Some PcWake2) clientConnStateReconnecting (a + 1) d) (alone os (alone os (alone os m)))) as H3.
  { eapply sees_step; [exact H2|]. intros R S A D K N. cbn in A, D, S. rewrite <- A, <- D, <- S. by apply go_wake. }
  assert (sees n (mkView (Some (PcConnect true)) clientConnStateReconnecting (a + 1) d)
            (alone os (alone os (alone os (alone os m))))) as H4.
  { eapply sees_step; [exact H3|]. intros R S A D K N. cbn in A, D, S. rewrite <- A, <- D, <- S. by apply go_wake2. }
  eapply sees_step; [exact H4|]. intros R S A D K N. cbn in A, D, S. rewrite <- A, <- D.
  apply go_connect; [done|by rewrite S].
Qed.

Lemma round_failed a d m :
  at_round a d m -> (0 <= a < n)%Z -> o_dial (os (a + 1)) = false -> at_round (a + 1) (S d) (run_alone 7 os m).
Proof.
  intros H0 Ha HD. pose proof (round_to_dial a d m H0 Ha) as H5.
  assert (run_alone 7 os m = alone os (alone os (run_alone 5 os m))) as -> by reflexivity.
  revert H5. generalize (run_alone 5 os m). intros m5 H5.
  assert (sees n (mkView (Some PcFailed) clientConnStateDisconnected (a + 1) (S d)) (alone os m5)) as H6.
  { eapply sees_step; [exact H5|]. intros R S A D _ _. cbn in A, D. pose proof (go_dial os m5 R) as G.
    rewrite A, HD in G. by rewrite <- D. }
  eapply sees_step; [exact H6|]. intros R S A D _ _. cbn in A, D. rewrite <- A, <- D. by apply go_failed.
Qed.

Lemma round_connected a d m :
  at_round a d m -> (0 <= a < n)%Z -> o_dial (os (a + 1)) = true ->
  sees n (mkView None clientConnStateConnected 0 (S d)) (run_alone 8 os m).
Proof.
  intros H0 Ha HD. pose proof (round_to_dial a d m H0 Ha) as H5.
  assert (run_alone 8 os m = alone os (alone os (alone os (run_alone 5 os m)))) as -> by reflexivity.
  revert H5. generalize (run_alone 5 os m). intros m5 H5.
  assert (sees n (mkView (Some (PcDialed true (m_dialed m5))) clientConnStateConnecting (a + 1) (S d)) (alone os m5)) as H6.
  { eapply sees_step; [exact H5|]. intros R S A D _ _. cbn in A, D, S. pose proof (go_dial os m5 R) as G.
    rewrite A, HD in G. by rewrite <- D, <- S. }
  assert (sees n (mkView (Some PcReconnected) clientConnStateConnected (a + 1) (S d)) (alone os (alone os m5))) as H7.
  { eapply sees_step; [exact H6|]. intros R S A D _ _. cbn in A, D. rewrite <- A, <- D. by eapply go_dialed. }
  eapply sees_step; [exact H7|]. intros R S A D _ _. cbn in S, D. rewrite <- S, <- D. by apply go_reconnected.
Qed.

Lemma round_stop a d m :
  at_round a d m -> (n <= a)%Z ->
  sees n (mkView None clientConnStateDisconnected 0 d) (run_alone 2 os m) /\
  last (m_log (run_alone 2 os m)) = Some EvReconnectFailed.
Proof.
  intros H0 Ha. change (run_alone 2 os m) with (alone os (alone os m)).
  assert (sees n (mkView (Some PcAttempts) clientConnStateReconnecting a d) (alone os m)) as H1.
  { eapply sees_step; [exact H0|]. intros R S A D _ _. cbn in A, D. rewrite <- A, <- D. by apply go_reconnect. }
  destruct H1 as (V & HS & HN). injection V as V1 V2 V3 V4.
  destruct (go_stop os (alone os m) V1) as [G1 G2]; [lia|]. split; [|done].
  eapply (sees_step os n (mkView (Some PcAttempts) clientConnStateReconnecting a d)); [by split; [unfold view_of; congruence|]|].
  intros. by rewrite <- V4.
Qed.
End round.

(** The rounds: by induction on the attempts that are left. *)
Lemma rounds_end n os left a d m :
  (0 < n <= max_uint32)%Z -> at_round n a d m -> (0 <= a)%Z -> (n - a <= Z.of_nat left)%Z ->
  let m' := run_alone (7 * left + 8) os m in
  m_running m' = None /\
  ((exists i, (i < left)%nat /\ (a + Z.of_nat i < n)%Z /\ o_dial (os (a + Z.of_nat i + 1)%Z) = true /\
      (forall j, (j < i)%nat -> o_dial (os (a + Z.of_nat j + 1)%Z) = false) /\
      m_state m' = clientConnStateConnected /\ dials m' = d + S i) \/
   ((forall j, (a + Z.of_nat j < n)%Z -> o_dial (os (a + Z.of_nat j + 1)%Z) = false) /\
      m_state m' = clientConnStateDisconnected /\ dials m' = d + Z.to_nat (n - a) /\
      last (m_log m') = Some EvReconnectFailed)).
Proof.
  intros Hn. revert a d m. induction left as [|left IH]; intros a d m HR Ha HL.
  - (* no attempt is left *)
    destruct (round_stop n Hn os a d m HR ltac:(lia)) as [(V1 & V2 & V4)%sees_fields HF].
    rewrite (run_alone_more 2) by (done || lia). split; [done|]. right. split; [intros j; lia|].
    split; [done|]. split; [|done]. rewrite V4. lia.
  - destruct (Z.le_gt_cases n a) as [Hle|Hlt].
    { destruct (round_stop n Hn os a d m HR Hle) as [(V1 & V2 & V4)%sees_fields HF].
      rewrite (run_alone_more 2) by (done || lia). split; [done|]. right. split; [intros j; lia|].
      split; [done|]. split; [|done]. rewrite V4. lia. }
    destruct (o_dial (os (a + 1)%Z)) eqn:ED.
    + destruct (sees_fields _ _ _ _ _ _ (round_connected n Hn os a d m HR ltac:(lia) ED)) as (V1 & V2 & V4).
      rewrite (run_alone_more 8) by (done || lia). split; [done|]. left. exists 0. cbn [Z.of_nat].
      rewrite Z.add_0_r. split_and!; [lia..|done|lia|done|lia].
    + pose proof (round_failed n Hn os a d m HR ltac:(lia) ED) as HR'.
      replace (7 * S left + 8) with (7 + (7 * left + 8)) by lia. rewrite run_alone_add.
      destruct (IH (a + 1)%Z (S d) _ HR' ltac:(lia) ltac:(lia)) as [H1 H2]. split; [exact H1|].
      destruct H2 as [(i & I1 & I2 & I3 & I4 & I5 & I6)|(J1 & J2 & J3 & J4)]; [left|right].
      * exists (S i). replace (a + Z.of_nat (S i))%Z with (a + 1 + Z.of_nat i)%Z by lia.
        split_and!; [lia|lia|done| |done|lia]. intros [|j] Hj.
        { by replace (a + Z.of_nat 0 + 1)%Z with (a + 1)%Z by lia. }
        replace (a + Z.of_nat (S j))%Z with (a + 1 + Z.of_nat j)%Z by lia. apply I4. lia.
      * split; [|split; [done|split; [lia|done]]]. intros [|j] Hj.
        { by replace (a + Z.of_nat 0 + 1)%Z with (a + 1)%Z by lia. }
        replace (a + Z.of_nat (S j))%Z with (a + 1 + Z.of_nat j)%Z by lia. apply J1. lia.
Qed.
End connect.

(** ** Properties *)

(** C22: Reconnecting comes to an end: with a limit of [n] attempts of which [a] have been made,
    [reconnect], on its own, returns after a bounded number of steps, whatever the dials
    give and whatever the delays are. If the dials all fail it has dialed [n - a] times, the
    manager is disconnected and the last thing it has done is to run the handlers of
    [reconnect_failed]; otherwise the manager is connected after the first dial that
    succeeds, and has dialed no further. *)
Theorem reconnect_terminates to_int64 round os m :
  let n := m_reconnectionAttempts m in
  let a := attempts (m_backoff m) in
  (0 < n <= max_uint32)%Z -> (0 <= a)%Z ->
  m_running m = Some PcReconnectStart -> m_state m = clientConnStateDisconnected -> m_skipReconnect m = false ->
  let m' := run_alone to_int64 round (1 + (7 * Z.to_nat (n - a) + 8)) os m in
  m_running m' = None /\
  ((exists i, (a + Z.of_nat i < n)%Z /\ o_dial (os (a + Z.of_nat i + 1)%Z) = true /\
      (forall j, (j < i)%nat -> o_dial (os (a + Z.of_nat j + 1)%Z) = false) /\
      m_state m' = clientConnStateConnected /\ dials m' = dials m + S i) \/
   ((forall j, (a + Z.of_nat j < n)%Z -> o_dial (os (a + Z.of_nat j + 1)%Z) = false) /\
      m_state m' = clientConnStateDisconnected /\ dials m' = dials m + Z.to_nat (n - a) /\
      last (m_log m') = Some EvReconnectFailed)).
Proof.
  intros n a Hn Ha HR HS HK m'. subst m'. rewrite run_alone_add.
  assert (run_alone to_int64 round 1 os m = with_running (Some PcReconnect) m) as ->.
  { cbn. unfold alone. rewrite HR. cbn [step_pc]. by rewrite HK. }
  destruct (rounds_end to_int64 round n os (Z.to_nat (n - a)) a (dials m) (with_running (Some PcReconnect) m))
    as [H1 H2]; [done| |done|lia|].
  { split; [|done]. unfold view_of. cbn. by rewrite HS. }
  split; [exact H1|]. destruct H2 as [(i & _ & H2)|H2]; [left; by exists i|by right].
Qed.

(** A disconnected manager with two attempts, none of which succeeds. *)
Definition two_attempts : Manager :=
  with_running (Some PcReconnectStart)
    (with_state clientConnStateDisconnected (NewManager (Some (mkManagerConfig false 2 None None (Some false))))).

Lemma reconnect_terminates_witness :
  let m' := run_alone id id (1 + (7 * Z.to_nat (2 - 0) + 8)) (fun _ => mkOracle false 0 false) two_attempts in
  m_running m' = None /\
  ((exists i, (0 + Z.of_nat i < 2)%Z /\ false = true /\ (forall j, (j < i)%nat -> false = false) /\
      m_state m' = clientConnStateConnected /\ dials m' = dials two_attempts + S i) \/
   ((forall j, (0 + Z.of_nat j < 2)%Z -> false = false) /\
      m_state m' = clientConnStateDisconnected /\ dials m' = dials two_attempts + Z.to_nat (2 - 0) /\
      last (m_log m') = Some EvReconnectFailed)).
Proof.
  apply (reconnect_terminates id id (fun _ => mkOracle false 0 false) two_attempts); try reflexivity; vm_compute; done.
Defined.

(** *** Interleavings *)

Definition working (g : option pc) : Prop :=
  match g with Some PcAttempts | Some PcWake | Some PcWake2 | Some (PcConnect true) => True | _ => False end.

Definition tended (m : Manager) : Prop :=
  m_skipReconnect m = false /\ (m_state m = clientConnStateReconnecting -> working (m_running m)).

Lemma tended_onClose reason m : m_skipReconnect m = false -> tended (onClose reason m).
Proof. intros HK. unfold onClose. cbn. destruct (_ && _); by split. Qed.

Lemma tended_step to_int64 round o g m :
  m_running m = Some g -> tended m ->
  tended (with_running (step_pc to_int64 round o g m).2 (step_pc to_int64 round o g m).1).
Proof.
  intros HR [HK HT]. rewrite HR in HT. destruct g; cbn [step_pc].
  - by split.
  - unfold connected. destruct (m_state m) eqn:ES; cbn; (split; [done|]); try done; cbn; rewrite ES; try done.
  - unfold dial. destruct (o_dial o); [|destruct recursed]; cbn; [|by split..]. split; [done|]. cbn. intros HS. by apply HT in HS.
  - by split.
  - rewrite HK. split; [done|]. cbn. intros HS. by apply HT in HS.
  - destruct (is_state _ _) eqn:ES; cbn; (split; [done|]); cbn; [done|]. intros HS. by apply HT in HS.
  - unfold check_attempts. destruct (_ || _); cbn; by split.
  - rewrite HK. split; [done|]. cbn. done.
  - rewrite HK. split; [done|]. cbn. done.
  - by split.
  - split; [done|]. cbn. intros HS. by apply HT in HS.
Qed.

Lemma tended_open_failed g m m' : open_failed g m = Some m' -> tended m -> tended m'.
Proof.
  intros HX [HK HT]. destruct g; cbn in HX; [done..| |]; injection HX as <-; [by split|].
  unfold maybeReconnectOnOpen. by destruct (_ && _).
Qed.

(** C23: Nobody is forgotten: as long as [Close] is not called, in every interleaving of opening,
    reconnecting and connections that close, a manager in the state "reconnecting" has a
    goroutine that is about to dial again. *)
Theorem reconnecting_is_tended to_int64 round config m :
  reachable to_int64 round (fun a => a <> AClose) (NewManager config) m ->
  m_state m = clientConnStateReconnecting -> working (m_running m).
Proof.
  intros HR. enough (tended m) as [_ HT] by exact HT.
  induction HR as [|a m m' _ [HK HT] HA HX]; [by split|]. destruct a as [|i|i|o| | |c reason]; cbn in HX.
  - injection HX as <-. by split.
  - destruct (m_running m) eqn:ER; [done|]. destruct (m_waiting m !! i ≫= acquired) as [g|]; [|done]. injection HX as <-.
    split; [done|]. cbn. intros HS. by apply HT in HS.
  - apply bind_Some in HX as (g & _ & HX). by eapply tended_open_failed.
  - destruct (m_running m) as [g|] eqn:ER; [|done].
    pose proof (tended_step to_int64 round o g m ER) as HS. destruct (step_pc _ _ o g m) as [m1 g1].
    injection HX as <-. apply HS. split; [done|]. by rewrite ER.
  - done.
  - destruct (_ && _); [|done]. injection HX as <-. by split.
  - destruct (_ && _); [|done]. injection HX as <-. unfold conn_OnClose. destruct (active _ _); [|by split].
    by apply tended_onClose.
Qed.

Definition dial_ok : oracle := mkOracle true 0 false.
Definition dial_bad : oracle := mkOracle false 0 false.

Lemma reconnecting_is_tended_witness :
  exists m, execs id id [AOpen; AAcquire 0; AStep dial_ok; AStep dial_ok; AStep dial_ok; AStep dial_ok;
                         AConnClosed 0 "ping timeout"; AAcquire 0; AStep dial_ok; AStep dial_ok] (NewManager None) = Some m /\
    m_state m = clientConnStateReconnecting /\ working (m_running m).
Proof.
  eexists. split; [vm_compute; reflexivity|]. split; [reflexivity|].
  apply (reconnecting_is_tended id id None); [|reflexivity].
  eapply (manager_execs_reachable id id (fun a => a <> AClose) (NewManager None)
    [AOpen; AAcquire 0; AStep dial_ok; AStep dial_ok; AStep dial_ok; AStep dial_ok;
     AConnClosed 0 "ping timeout"; AAcquire 0; AStep dial_ok; AStep dial_ok]);
    [constructor|repeat constructor; discriminate|vm_compute; reflexivity].
Defined.

(** After [Close]: the dial that may still come, and what is left of the rest. *)
Definition dial_left (g : option pc) : nat :=
  match g with Some (PcConnect _) | Some (PcDial _) => 1 | _ => 0 end.

Definition winding_down (bound : nat) (m : Manager) : Prop :=
  m_skipReconnect m = true /\ (GOpen ∉ m_waiting m) /\ m_running m <> Some PcOpen /\
  dials m + dial_left (m_running m) <= bound.

Lemma GOpen_notin_snoc g l : g <> GOpen -> GOpen ∉ l -> GOpen ∉ l ++ [g].
Proof. rewrite elem_of_app, list_elem_of_singleton. intros Hg HN [?|?]; [done|by subst]. Qed.

Lemma GOpen_notin_delete (i : nat) (l : list starter) : GOpen ∉ l -> GOpen ∉ delete i l.
Proof. intros HN Hin. apply HN. apply (elem_of_submseteq _ _ _ Hin), submseteq_delete. Qed.

Lemma winding_down_onClose bound reason m : winding_down bound m -> winding_down bound (onClose reason m).
Proof.
  intros (HK & HW & HR & HD). unfold onClose. cbn. rewrite HK. cbn. rewrite andb_false_r.
  split_and!; try done. unfold dials in *. cbn. rewrite sum_list_with_app. cbn. lia.
Qed.

Lemma winding_down_closers bound k m : winding_down bound m -> winding_down bound (with_closers k m).
Proof. intros H. exact H. Qed.

Lemma winding_down_step to_int64 round bound o g m :
  m_running m = Some g -> winding_down bound m ->
  winding_down bound (with_running (step_pc to_int64 round o g m).2 (step_pc to_int64 round o g m).1).
Proof.
  intros HR (HK & HW & HO & HD). rewrite HR in HO, HD. unfold winding_down, dials in *.
  destruct g; cbn [step_pc dial_left] in *; [done|..].
  - unfold connected. destruct (is_state _ _), recursed; cbn; split_and!; try done; lia.
  - unfold dial. destruct (o_dial o); [|destruct recursed]; cbn; rewrite !sum_list_with_app; cbn; split_and!; try done; try lia.
    by apply GOpen_notin_snoc.
  - destruct recursed; cbn; rewrite !sum_list_with_app; cbn; split_and!; try done; lia.
  - rewrite HK. by split_and!.
  - destruct (is_state _ _); cbn; by split_and!.
  - unfold check_attempts. destruct (_ || _); cbn; rewrite !sum_list_with_app; cbn; split_and!; try done; lia.
  - rewrite HK. by split_and!.
  - rewrite HK. by split_and!.
  - cbn; rewrite !sum_list_with_app; cbn; split_and!; try done; lia.
  - cbn; rewrite !sum_list_with_app; cbn; split_and!; try done; lia.
Qed.

Lemma winding_down_open_failed bound g m m' : open_failed g m = Some m' -> winding_down bound m -> winding_down bound m'.
Proof.
  intros HX (HK & HW & HO & HD). destruct g; cbn in HX; [done..| |]; injection HX as <-.
  - split_and!; try done. by apply GOpen_notin_snoc.
  - unfold maybeReconnectOnOpen. destruct (_ && _); [|by split_and!]. split_and!; try done. by apply GOpen_notin_snoc.
Qed.

(** C37: [Close] stops the reconnecting: when no [open] is waiting or beginning, then after [Close], in
    every interleaving without further calls of [Open], at most one more dial is made, the one
    that is already under way. *)
Theorem closed_stops_dialing to_int64 round m m' :
  (GOpen ∉ m_waiting m) -> m_running m <> Some PcOpen ->
  reachable to_int64 round (fun a => a <> AOpen) (Close m) m' ->
  dials m' <= dials m + dial_left (m_running m).
Proof.
  intros HW HO HR. enough (winding_down (dials m + dial_left (m_running m)) m') as (_ & _ & _ & HD) by lia.
  induction HR as [|a m1 m2 _ (HK & HW' & HO' & HD) HA HX].
  - unfold Close, onClose. cbn. rewrite andb_false_r. split_and!; try done.
    unfold dials. cbn. rewrite sum_list_with_app. cbn. lia.
  - destruct a as [|i|i|o| | |c reason]; cbn in HX.
    + done.
    + destruct (m_running m1) eqn:ER; [done|]. destruct (m_waiting m1 !! i) as [g|] eqn:Eg; [|done]. cbn in HX.
      destruct g; cbn in HX; try done; [by apply list_elem_of_lookup_2 in Eg|]. injection HX as <-.
      split; [done|]. cbn. split; [by apply GOpen_notin_delete|split; [done|exact HD]].
    + apply bind_Some in HX as (g & _ & HX). eapply winding_down_open_failed; [exact HX|].
      split_and!; try done. by apply GOpen_notin_delete.
    + destruct (m_running m1) as [g|] eqn:ER; [|done].
      pose proof (winding_down_step to_int64 round (dials m + dial_left (m_running m)) o g m1 ER) as HS.
      destruct (step_pc _ _ o g m1) as [m3 g3]. injection HX as <-. apply HS. rewrite <- ER in HO', HD. by split_and!.
    + injection HX as <-. unfold Close.
      assert (winding_down (dials m + dial_left (m_running m))
                (onClose "forced close" (with_skip true (with_state clientConnStateDisconnected m1)))) as HC
        by (apply winding_down_onClose; by split_and!).
      by apply winding_down_closers.
    + destruct (_ && _); [|done]. injection HX as <-. split_and!; try done.
      unfold dials in *. cbn. rewrite !sum_list_with_app. destruct (m_eio m1); cbn; lia.
    + destruct (_ && _); [|done]. injection HX as <-. unfold conn_OnClose. destruct (active _ _); [|by split_and!].
      apply winding_down_onClose. by split_and!.
Qed.

(** A manager whose reconnecting goroutine sleeps when [Close] is called. *)
Lemma closed_stops_dialing_witness :
  exists m, execs id id [AOpen; AAcquire 0; AStep dial_bad; AStep dial_bad; AStep dial_bad; AOpenFailed 0; AOpenFailed 0;
                         AAcquire 0; AStep dial_bad; AStep dial_bad; AStep dial_bad] (NewManager None) = Some m /\
    exists m', execs id id [AStep dial_ok; ACloseEio] (Close m) = Some m' /\ dials m' <= dials m + 0.
Proof.
  eexists. split; [vm_compute; reflexivity|]. eexists. split; [vm_compute; reflexivity|].
  eapply (closed_stops_dialing id id).
  - by apply not_elem_of_nil.
  - discriminate.
  - eapply (manager_execs_reachable id id (fun a => a <> AOpen) _ [AStep dial_ok; ACloseEio]);
      [constructor|repeat constructor; discriminate|vm_compute; reflexivity].
Defined.

(** Two interleavings leave a manager without a connection and without anyone who tries to
    get one. When [Close] is called between a failed attempt and the next round, the round
    sets the state to "reconnecting" and then gives up: the state stays, and a socket's
    [Connect] does not open a manager in that state. When a new connection closes
    before [connect] has set the state, the state becomes "connected" although the
    connection is gone, and the goroutine that should reconnect gives up. *)
Theorem manager_gets_stuck :
  (exists m, reachable id id (fun _ => True) (NewManager None) m /\
     m_running m = None /\ m_waiting m = [] /\ m_closers m = 0 /\
     m_state m = clientConnStateReconnecting) /\
  (exists m, reachable id id (fun a => a <> AClose) (NewManager None) m /\
     m_running m = None /\ m_waiting m = [] /\
     m_state m = clientConnStateConnected /\ m_eio m = Some 0 /\ m_dead m = [0]).
Proof.
  split.
  - eexists. split.
    { eapply (manager_execs_reachable id id (fun _ => True) (NewManager None)
        ([AOpen; AAcquire 0; AStep dial_bad; AStep dial_bad; AStep dial_bad; AOpenFailed 0; AOpenFailed 0; AAcquire 0] ++
         repeat (AStep dial_bad) 7 ++ [AClose; ACloseEio; AStep dial_bad; AStep dial_bad; AStep dial_bad; AStep dial_bad]));
        [constructor|apply Forall_true; intros; exact I|vm_compute; reflexivity]. }
    by vm_compute.
  - eexists. split.
    { eapply (manager_execs_reachable id id (fun a => a <> AClose) (NewManager None)
        [AOpen; AAcquire 0; AStep dial_ok; AStep dial_ok; AStep dial_ok; AConnClosed 0 "transport close";
         AStep dial_ok; AAcquire 0; AStep dial_ok; AStep dial_ok]);
        [constructor|repeat constructor; discriminate|vm_compute; reflexivity]. }
    by vm_compute.
Qed.
End manager.
