(* ===== verification/ClientSocket.v ===== *)
(** * The client's socket ([client_socket.go], [emitter.go])

    A socket of a manager for one namespace: connecting, emitting, buffering while it is not
    connected, dispatching events and acknowledgements. What it does to its manager, to
    its retry queue and to the users' handlers is a list of effects; goroutines it starts
    are tasks. *)

From S2P Require Import Prelude SioPacket EioPacket Handlers Events Dispatch ClientManager.

Module clientsocket.
Import parser handler reserved dispatch.
#[local] Open Scope string_scope.

(** ** State *)

Inductive clientSocketConnectionState :=
  | clientSocketConnStateConnected
  | clientSocketConnStateConnectPending
  | clientSocketConnStateDisconnected.

#[export] Instance conn_state_eq_decision : EqDecision clientSocketConnectionState.
Proof. solve_decision. Defined.

Section socket.
(** [V]: decoded values. [A]: what users pass to [Emit], with the function values among them.
    [Auth]: authentication data. *)
Context {V A Auth : Type} `{ReflectValue V} (any_of : A -> any) (event_arg : string -> A).

(** What is given to [Encode]: the event's name and arguments, the data of a CONNECT packet
    (the private session ID with the last offset, if there is one, and the authentication
    data), the arguments of an acknowledgement, or nothing. *)
Inductive payload :=
  | PEvent (v : list A)
  | PConnect (session : option (string * string)) (auth : option Auth)
  | PAck (v : list V)
  | PNil.

Record clientEvent := mkClientEvent {
  ce_handler : eventHandler;
  ce_header : PacketHeader;
  ce_values : list V;
}.

Record sendBufferItem := mkItem { si_ackID : option Z; si_packet : eioparser.Packet }.

(** The identity and the connection state of the socket; [None] is an [atomic.Value] that has
    not been stored to. *)
Record session := mkSession {
  cs_id : string;
  cs_state : clientSocketConnectionState;
  cs_pid : option string;
  cs_lastOffset : option string;
  cs_recovered : bool;
}.

Record buffers := mkBuffers {
  cs_sendBuffer : list sendBufferItem;
  cs_receiveBuffer : list clientEvent;
  cs_stuck : bool;                       (* a goroutine has panicked while it held [sendBufferMu] *)
}.

(** The IDs of the acknowledgements awaited, which are the keys of [s.acks], and the handler
    registered under each ID; and for each batch of received events the IDs that are
    acknowledged ([sent] of [onPacket], [ackIDs] of [emitBuffered]). *)
Record acks := mkAcks {
  cs_acks : gset Z;
  cs_ackHandlers : gmap Z ackHandler;
  cs_ackID : Z;                          (* uint64 *)
  cs_cells : list (gmap Z bool);
}.

(** The registrations with the manager: how many times the three functions are registered, and
    whether [subDeregister] is set (it removes the latest). *)
Record subs := mkSubs { cs_active : bool; cs_registered : nat; cs_deregister : bool }.

Inductive effect :=
  | OPacket (packets : list eioparser.Packet)       (* [manager.packet] *)
  | OConnectHandlers
  | OConnectError
  | ODisconnect (reason : string)
  | OError                                          (* [manager.onError] *)
  | OCall (h : eventHandler) (args : list (harg V))
  | OAckCall (id : Z) (args : list V)
  | OAckTimeout (id : Z)                            (* the user's function is told of the timeout *)
  | OQueue (v : list A)                             (* [packetQueue.addToQueue] *)
  | ODrain                                          (* [packetQueue.drainQueue(true)] *)
  | OManagerOpen                                    (* [go manager.open()] *)
  | OManagerDestroy.

(** The goroutines: [go s.sendControlPacket(parser.PacketTypeConnect, v)]; the one that
    sleeps until an acknowledgement has timed out; an [emit] that has created the handler of its
    acknowledgement (and started its timer) and has not stored it yet; an [onAck] that has taken the
    handler out of the map and has not called it yet. *)
Inductive task :=
  | TConnect (v : payload)
  | TTimeout (id : Z)
  | TEmitRest (id : Z) (v : list A) (volatile : bool)
  | TReply (id : Z) (decode : list gotype -> outcome unit (list V)).

Record ClientSocketConfig := mkSocketConfig { Retries : Z; AckTimeout : Z }.

Record clientSocket := mkClientSocket {
  cs_config : ClientSocketConfig;
  cs_namespace : string;
  cs_auth : option Auth;
  cs_handlers : eventHandlerStore.eventHandlerStore eventHandler;
  cs_session : session;
  cs_buffers : buffers;
  cs_ackState : acks;
  cs_subs : subs;
  cs_tasks : list task;
  cs_out : list effect;
}.

Definition with_session (x : session) (s : clientSocket) : clientSocket :=
  mkClientSocket (cs_config s) (cs_namespace s) (cs_auth s) (cs_handlers s) x (cs_buffers s) (cs_ackState s) (cs_subs s)
    (cs_tasks s) (cs_out s).

Definition with_buffers (x : buffers) (s : clientSocket) : clientSocket :=
  mkClientSocket (cs_config s) (cs_namespace s) (cs_auth s) (cs_handlers s) (cs_session s) x (cs_ackState s) (cs_subs s)
    (cs_tasks s) (cs_out s).

Definition with_acks (x : acks) (s : clientSocket) : clientSocket :=
  mkClientSocket (cs_config s) (cs_namespace s) (cs_auth s) (cs_handlers s) (cs_session s) (cs_buffers s) x (cs_subs s)
    (cs_tasks s) (cs_out s).

Definition with_subs (x : subs) (s : clientSocket) : clientSocket :=
  mkClientSocket (cs_config s) (cs_namespace s) (cs_auth s) (cs_handlers s) (cs_session s) (cs_buffers s) (cs_ackState s) x
    (cs_tasks s) (cs_out s).

Definition with_tasks (x : list task) (s : clientSocket) : clientSocket :=
  mkClientSocket (cs_config s) (cs_namespace s) (cs_auth s) (cs_handlers s) (cs_session s) (cs_buffers s) (cs_ackState s)
    (cs_subs s) x (cs_out s).

Definition with_handlers (x : eventHandlerStore.eventHandlerStore eventHandler) (s : clientSocket) : clientSocket :=
  mkClientSocket (cs_config s) (cs_namespace s) (cs_auth s) x (cs_session s) (cs_buffers s) (cs_ackState s) (cs_subs s)
    (cs_tasks s) (cs_out s).

Definition with_auth (x : option Auth) (s : clientSocket) : clientSocket :=
  mkClientSocket (cs_config s) (cs_namespace s) x (cs_handlers s) (cs_session s) (cs_buffers s) (cs_ackState s) (cs_subs s)
    (cs_tasks s) (cs_out s).

Definition emits (l : list effect) (s : clientSocket) : clientSocket :=
  mkClientSocket (cs_config s) (cs_namespace s) (cs_auth s) (cs_handlers s) (cs_session s) (cs_buffers s) (cs_ackState s)
    (cs_subs s) (cs_tasks s) (cs_out s ++ l).

Definition newClientSocket (config : ClientSocketConfig) (namespace : string) (auth : option Auth) : clientSocket :=
  mkClientSocket config namespace auth eventHandlerStore.newEventHandlerStore
    (mkSession "" clientSocketConnStateDisconnected None None false) (mkBuffers [] [] false) (mkAcks ∅ ∅ 0 [])
    (mkSubs false 0 false) [] [].

Definition state (s : clientSocket) : clientSocketConnectionState := cs_state (cs_session s).

Definition set_state (st : clientSocketConnectionState) (s : clientSocket) : clientSocket :=
  let x := cs_session s in
  with_session (mkSession (cs_id x) st (cs_pid x) (cs_lastOffset x) (cs_recovered x)) s.

Definition setID (id : string) (s : clientSocket) : clientSocket :=
  let x := cs_session s in
  with_session (mkSession id (cs_state x) (cs_pid x) (cs_lastOffset x) (cs_recovered x)) s.

Definition setPID (pid : string) (s : clientSocket) : clientSocket :=
  let x := cs_session s in
  with_session (mkSession (cs_id x) (cs_state x) (Some pid) (cs_lastOffset x) (cs_recovered x)) s.

Definition setLastOffset (offset : string) (s : clientSocket) : clientSocket :=
  let x := cs_session s in
  with_session (mkSession (cs_id x) (cs_state x) (cs_pid x) (Some offset) (cs_recovered x)) s.

Definition setRecovered (b : bool) (s : clientSocket) : clientSocket :=
  let x := cs_session s in
  with_session (mkSession (cs_id x) (cs_state x) (cs_pid x) (cs_lastOffset x) b) s.

Definition pid (s : clientSocket) : option string :=
  match cs_pid (cs_session s) with
  | Some p => if String.eqb p "" then None else Some p
  | None => None
  end.

Definition is_connected (st : clientSocketConnectionState) : bool :=
  match st with clientSocketConnStateConnected => true | _ => false end.

Definition is_pending (st : clientSocketConnectionState) : bool :=
  match st with clientSocketConnStateConnectPending => true | _ => false end.

(** [Connected] and [connectedOrConnectPending]; [mgr] is [s.manager.connected()]. *)
Definition Connected (mgr : bool) (s : clientSocket) : bool := mgr && is_connected (state s).

Definition connectedOrConnectPending (mgr : bool) (s : clientSocket) : bool :=
  mgr && (is_connected (state s) || is_pending (state s)).

(** What the environment decides: how packets are encoded, and what the handlers of the users
    do when they are called: how often and with what they call the acknowledgement function
    before they return, and whether they panic. *)
Record environment := mkEnv {
  env_Encode : PacketHeader -> payload -> outcome unit (list bytes);
  env_acks : eventHandler -> list (harg V) -> list (list V);
  env_panics : eventHandler -> list (harg V) -> bool;
  env_ack_invoke : list (arg V) -> option string;
}.
Context (env : environment).

(** ** Sending *)

(** [_sendBuffers]. A panic cannot occur; an error of [NewPacket] would go to [onError]. *)
Definition sendBuffers (volatile forceSend : bool) (ackID : option Z) (bufs : list bytes) (s : clientSocket)
  : outcome unit clientSocket :=
  match message_packets bufs with
  | Ret None => Ret s
  | Ret (Some packets) =>
      let sendImmediately := is_connected (state s) || is_pending (state s) in
      if sendImmediately || forceSend then Ret (emits [OPacket packets] s)
      else if negb volatile then
        let b := cs_buffers s in
        if cs_stuck b then Panic Blocked
        else Ret (with_buffers (mkBuffers (cs_sendBuffer b ++ (mkItem ackID <$> packets)) (cs_receiveBuffer b) false) s)
      else Ret s
  | _ => Ret (emits [OError] s)
  end.

Definition encode_and_send (header : PacketHeader) (v : payload) (volatile forceSend : bool) (s : clientSocket)
  : outcome unit clientSocket :=
  match env_Encode env header v with
  | Ret bufs => sendBuffers volatile forceSend (ID header) bufs s
  | Err _ => Ret (emits [OError] s)
  | Panic why => Panic why
  end.

Definition sendControlPacket (typ : PacketType) (v : payload) (s : clientSocket) : outcome unit clientSocket :=
  encode_and_send (mkPacketHeader typ (cs_namespace s) None 0) v false true s.

Definition sendAckPacket (id : Z) (values : list V) (s : clientSocket) : outcome unit clientSocket :=
  if forallb rv_CanInterface values then
    encode_and_send (mkPacketHeader PacketTypeAck (cs_namespace s) (Some id) 0) (PAck values) false false s
  else Ret (emits [OError] s).

Definition nextAckID (s : clientSocket) : clientSocket * Z :=
  let a := cs_ackState s in
  (with_acks (mkAcks (cs_acks a) (cs_ackHandlers a) (wrap_u 64 (cs_ackID a + 1)) (cs_cells a)) s, cs_ackID a).

(** [registerAckHandler] up to the assignment to [s.acks]: the ID is taken, the handler is created, and with a
    timeout its timer is running. *)
Definition startAckHandler (f : any) (timeout : Z) (s : clientSocket) : outcome unit (clientSocket * Z) :=
  let timeout := if (timeout =? 0)%Z && (0 <? AckTimeout (cs_config s))%Z then AckTimeout (cs_config s) else timeout in
  let '(s, id) := nextAckID s in
  match (if (timeout =? 0)%Z then newAckHandler f false else newAckHandlerWithTimeout f) with
  | Ret h =>
      let a := cs_ackState s in
      let s := with_acks (mkAcks (cs_acks a) (<[id := h]> (cs_ackHandlers a)) (cs_ackID a) (cs_cells a)) s in
      Ret (if (timeout =? 0)%Z then s else with_tasks (cs_tasks s ++ [TTimeout id]) s, id)
  | Err _ => Panic (UserPanic "ack handler")
  | Panic why => Panic why
  end.

(** [s.acks[id] = h]. *)
Definition storeAck (id : Z) (s : clientSocket) : clientSocket :=
  let a := cs_ackState s in with_acks (mkAcks ({[id]} ∪ cs_acks a) (cs_ackHandlers a) (cs_ackID a) (cs_cells a)) s.

Definition registerAckHandler (f : any) (timeout : Z) (s : clientSocket) : outcome unit (clientSocket * Z) :=
  '(s, id) ← startAckHandler f timeout s; Ret (storeAck id s, id).

Definition is_func (a : A) : bool := match any_of a with AnyFunc _ _ _ => true | _ => false end.

Definition emit (eventName : string) (timeout : Z) (volatile fromQueue : bool) (v : list A) (s : clientSocket)
  : outcome unit clientSocket :=
  if IsEventReservedForClient eventName then Panic (UserPanic "sio: Emit: attempted to emit a reserved event")
  else
    let v := if String.eqb eventName "" then v else event_arg eventName :: v in
    if (0 <? Retries (cs_config s))%Z && negb fromQueue && negb volatile then Ret (emits [OQueue v] s)
    else
      match last v with
      | None => Panic IndexRange
      | Some f =>
          if is_func f then
            '(s, ackID) ← registerAckHandler (any_of f) timeout s;
            encode_and_send (mkPacketHeader PacketTypeEvent (cs_namespace s) (Some ackID) 0)
              (PEvent (take (length v - 1) v)) volatile false s
          else
            encode_and_send (mkPacketHeader PacketTypeEvent (cs_namespace s) None 0) (PEvent v) volatile false s
      end.

(** The rest of [emit] once [registerAckHandler] has started the timer. *)
Definition emit_rest (id : Z) (v : list A) (volatile : bool) (s : clientSocket) : outcome unit clientSocket :=
  let s := storeAck id s in
  encode_and_send (mkPacketHeader PacketTypeEvent (cs_namespace s) (Some id) 0) (PEvent v) volatile false s.

(** [emit], when other goroutines run before [s.acks[id] = h]: the rest is a task. *)
Definition emit_start (eventName : string) (timeout : Z) (volatile fromQueue : bool) (v : list A) (s : clientSocket)
  : outcome unit clientSocket :=
  if IsEventReservedForClient eventName then Panic (UserPanic "sio: Emit: attempted to emit a reserved event")
  else
    let v := if String.eqb eventName "" then v else event_arg eventName :: v in
    if (0 <? Retries (cs_config s))%Z && negb fromQueue && negb volatile then Ret (emits [OQueue v] s)
    else
      match last v with
      | None => Panic IndexRange
      | Some f =>
          if is_func f then
            '(s, ackID) ← startAckHandler (any_of f) timeout s;
            Ret (with_tasks (cs_tasks s ++ [TEmitRest ackID (take (length v - 1) v) volatile]) s)
          else
            encode_and_send (mkPacketHeader PacketTypeEvent (cs_namespace s) None 0) (PEvent v) volatile false s
      end.

Definition Emit (eventName : string) (v : list A) (s : clientSocket) : outcome unit clientSocket :=
  emit eventName 0 false false v s.

(** [Emitter]: a socket with a timeout and the volatile flag. *)
Record Emitter := mkEmitter { e_timeout : Z; e_volatile : bool }.

Definition Timeout (timeout : Z) : Emitter := mkEmitter timeout false.
Definition Volatile : Emitter := mkEmitter 0 true.
Definition e_Timeout (timeout : Z) (e : Emitter) : Emitter := mkEmitter timeout (e_volatile e).
Definition e_Volatile (e : Emitter) : Emitter := mkEmitter (e_timeout e) true.

(** With a timeout an acknowledgement function must take an error first. *)
Definition refused (e : Emitter) (v : list A) : bool :=
  match last v with
  | Some f => negb (e_timeout e =? 0)%Z && is_func f && negb (is_ret (checkAckFunc (any_of f) true))
  | None => false
  end.

Definition e_Emit (e : Emitter) (eventName : string) (v : list A) (s : clientSocket) : outcome unit clientSocket :=
  if refused e v then Panic (UserPanic "ack handler") else emit eventName (e_timeout e) (e_volatile e) false v s.

(** ** Connecting and disconnecting *)

Definition sendConnectPacket (authData : option Auth) (s : clientSocket) : clientSocket :=
  let v := match pid s with
           | Some p => PConnect (Some (p, default "" (cs_lastOffset (cs_session s)))) authData
           | None => match authData with Some a => PConnect None (Some a) | None => PNil end
           end in
  with_tasks (cs_tasks s ++ [TConnect v]) s.

Definition onOpen (s : clientSocket) : clientSocket := sendConnectPacket (cs_auth s) s.

(** The functions [registerSubEvents] registers. *)
Definition openFunc (s : clientSocket) : clientSocket :=
  if is_pending (state s) then s else onOpen (set_state clientSocketConnStateConnectPending s).

Definition errorFunc (mgr : bool) (s : clientSocket) : clientSocket :=
  if connectedOrConnectPending mgr s then s else emits [OConnectError] s.

Definition onClose (reason : string) (s : clientSocket) : clientSocket :=
  emits [ODisconnect reason] (setID "" (set_state clientSocketConnStateDisconnected s)).

Definition closeFunc (reason : string) (s : clientSocket) : clientSocket := onClose reason s.

(** What the manager's [open] and [close] events do to the socket: every registration runs. *)
Definition manager_open (s : clientSocket) : clientSocket := Nat.iter (cs_registered (cs_subs s)) openFunc s.
Definition manager_close (reason : string) (s : clientSocket) : clientSocket :=
  Nat.iter (cs_registered (cs_subs s)) (closeFunc reason) s.

Definition registerSubEvents (s : clientSocket) : clientSocket :=
  with_subs (mkSubs true (S (cs_registered (cs_subs s))) true) s.

Definition deregisterSubEvents (s : clientSocket) : clientSocket :=
  let b := cs_subs s in
  with_subs (mkSubs false (if cs_deregister b then cs_registered b - 1 else cs_registered b) false) s.

Definition Connect (mstate : manager.clientConnectionState) (s : clientSocket) : clientSocket :=
  if is_connected (state s) then s
  else
    let s := registerSubEvents s in
    let s := match mstate with manager.clientConnStateReconnecting => s | _ => emits [OManagerOpen] s end in
    match mstate with
    | manager.clientConnStateConnected =>
        if is_pending (state s) then s else onOpen (set_state clientSocketConnStateConnectPending s)
    | _ => s
    end.

Definition destroy (s : clientSocket) : clientSocket := emits [OManagerDestroy] (deregisterSubEvents s).

Definition Disconnect (mgr : bool) (s : clientSocket) : outcome unit clientSocket :=
  s ← (if connectedOrConnectPending mgr s then sendControlPacket PacketTypeDisconnect PNil s else Ret s);
  let s := destroy s in
  Ret (if is_connected (state s) || is_pending (state s) then onClose "io client disconnect" s else s).

(** ** Receiving *)

(** [sendAck]: the closure for the batch [cell]. *)
Definition sendAck (cell : nat) (id : Z) (values : list V) (s : clientSocket) : outcome unit clientSocket :=
  let a := cs_ackState s in
  match cs_cells a !! cell with
  | None => Ret s
  | Some m =>
      match m !! id with
      | Some true => Ret s
      | _ => sendAckPacket id values (with_acks (mkAcks (cs_acks a) (cs_ackHandlers a) (cs_ackID a) (<[cell := <[id := true]> m]> (cs_cells a))) s)
      end
  end.

(** The calls of the acknowledgement function that the handler makes before it returns. *)
Fixpoint sync_acks (cell : nat) (id : Z) (calls : list (list V)) (s : clientSocket) : outcome unit clientSocket :=
  match calls with
  | [] => Ret s
  | values :: calls' => s ← sendAck cell id values s; sync_acks cell id calls' s
  end.

(** The offset: the last value, when it is a string and a session can be recovered. *)
Definition take_offset (values : list V) (s : clientSocket) : clientSocket * list V :=
  match pid s, last values with
  | Some _, Some v =>
      match rv_String v with
      | Some offset => (setLastOffset offset s, take (length values - 1) values)
      | None => (s, values)
      end
  | _, _ => (s, values)
  end.

(** [handler.call] fails when [reflect] is given another number of arguments than the function
    takes (for a function that is not variadic), and when the function panics. *)
Definition callEvent (h : eventHandler) (header : PacketHeader) (values : list V) (cell : nat) (s : clientSocket)
  : outcome unit (clientSocket * bool) :=
  let '(s, values) := take_offset values s in
  r ← with_ack h (ID header) cell values;
  let '(args, hasAckFunc) := r : list (harg V) * bool in
  if negb (length args =? length (eh_inputArgs h))%nat then Ret (emits [OError] s, hasAckFunc)
  else
    let s := emits [OCall h args] s in
    s ← (match ID header with
         | Some id => if hasAckFunc then sync_acks cell id (env_acks env h args) s else Ret s
         | None => Ret s
         end);
    Ret (if env_panics env h args then emits [OError] s else s, hasAckFunc).

(** [decode] of a packet, for the types of a handler. *)
Definition onEvent (h : eventHandler) (header : PacketHeader) (decode : list gotype -> outcome unit (list V)) (cell : nat)
    (s : clientSocket) : outcome unit (clientSocket * bool) :=
  match decode (eh_inputArgs h) with
  | Panic why => Panic why
  | Err _ => Ret (emits [OError] s, false)
  | Ret values =>
      match convert_values (eh_inputArgs h) values with
      | None => Ret (emits [OError] s, false)
      | Some values =>
          if is_connected (state s) then callEvent h header values cell s
          else
            let b := cs_buffers s in
            Ret (with_buffers (mkBuffers (cs_sendBuffer b) (cs_receiveBuffer b ++ [mkClientEvent h header values])
                                 (cs_stuck b)) s, false)
      end
  end.

Definition new_cell (m : gmap Z bool) (s : clientSocket) : clientSocket * nat :=
  let a := cs_ackState s in
  (with_acks (mkAcks (cs_acks a) (cs_ackHandlers a) (cs_ackID a) (cs_cells a ++ [m])) s, length (cs_cells a)).

Fixpoint on_each (hs : list eventHandler) (header : PacketHeader) (decode : list gotype -> outcome unit (list V)) (cell : nat)
    (s : clientSocket) : outcome unit clientSocket :=
  match hs with
  | [] => Ret s
  | h :: hs' => '(s, _) ← onEvent h header decode cell s; on_each hs' header decode cell s
  end.

Definition set_ack (id : Z) (h : ackHandler) (s : clientSocket) : clientSocket :=
  let a := cs_ackState s in with_acks (mkAcks (cs_acks a) (<[id := h]> (cs_ackHandlers a)) (cs_ackID a) (cs_cells a)) s.

Definition remove_ack (id : Z) (s : clientSocket) : clientSocket :=
  let a := cs_ackState s in with_acks (mkAcks (cs_acks a ∖ {[id]}) (cs_ackHandlers a) (cs_ackID a) (cs_cells a)) s.

Definition lookup_ack (id : Z) (s : clientSocket) : option ackHandler :=
  if bool_decide (id ∈ cs_acks (cs_ackState s)) then cs_ackHandlers (cs_ackState s) !! id else None.

(** [onAck] once it has taken the handler out of the map. *)
Definition reply_ack (id : Z) (decode : list gotype -> outcome unit (list V)) (s : clientSocket) : outcome unit clientSocket :=
  match cs_ackHandlers (cs_ackState s) !! id with
  | None => Ret s
  | Some ack =>
      let inputArgs := if ah_hasError ack then drop 1 (ah_inputArgs ack) else ah_inputArgs ack in
      match decode inputArgs with
      | Panic why => Panic why
      | Err _ => Ret (emits [OError] s)
      | Ret values =>
          match convert_values inputArgs values with
          | None => Ret (emits [OError] s)
          | Some values =>
              let '(ack', called, err) := ack_call (env_ack_invoke env) values ack in
              let s := set_ack id ack' s in
              let s := match called with [] => s | _ => emits [OAckCall id values] s end in
              Ret (match err with Some _ => emits [OError] s | None => s end)
          end
      end
  end.

Definition onAck (header : PacketHeader) (decode : list gotype -> outcome unit (list V)) (s : clientSocket)
  : outcome unit clientSocket :=
  match ID header with
  | None => Ret (emits [OError] s)
  | Some id =>
      match lookup_ack id s with
      | None => Ret (emits [OError] s)
      | Some _ => reply_ack id decode (remove_ack id s)
      end
  end.

(** [onAck], when other goroutines run before the handler is called: the call is a task. *)
Definition onAck_start (header : PacketHeader) (decode : list gotype -> outcome unit (list V)) (s : clientSocket) : clientSocket :=
  match ID header with
  | None => emits [OError] s
  | Some id =>
      match lookup_ack id s with
      | None => emits [OError] s
      | Some _ => let s := remove_ack id s in with_tasks (cs_tasks s ++ [TReply id decode]) s
      end
  end.

(** The timeout of the acknowledgement [id]: [timeoutFunc] removes the handler and the packets
    waiting in the send buffer, in place; then the user's function is called. When the removal
    panics, the panic is recovered with [sendBufferMu] locked, and the user's function is not
    called; nor is it when another goroutine has left the mutex locked. *)
Definition same_ack (item : sendBufferItem) (id : Z) : bool :=
  match si_ackID item with Some i => (i =? id)%Z | None => false end.

Definition ack_expired (id : Z) (s : clientSocket) : clientSocket :=
  match cs_ackHandlers (cs_ackState s) !! id with
  | None => s
  | Some h =>
      let '(h', effects) := ack_timeout (V := V) h in
      match effects with
      | [] => s
      | _ =>
          let s := remove_ack id (set_ack id h' s) in
          let b := cs_buffers s in
          if cs_stuck b then s
          else
            match slices.off_slice same_ack [id] (cs_sendBuffer b) with
            | Ret items => emits [OAckTimeout id] (with_buffers (mkBuffers items (cs_receiveBuffer b) false) s)
            | _ => with_buffers (mkBuffers (cs_sendBuffer b) (cs_receiveBuffer b) true) s
            end
      end
  end.

(** A goroutine of the socket runs. *)
Definition run_task (t : task) (s : clientSocket) : outcome unit clientSocket :=
  match t with
  | TConnect v => sendControlPacket PacketTypeConnect v s
  | TTimeout id => Ret (ack_expired id s)
  | TEmitRest id v volatile => emit_rest id v volatile s
  | TReply id decode => reply_ack id decode s
  end.

(** ** The buffers are emitted when the socket connects *)

(** [ackIDs] at the beginning. *)
Definition initial_acks (evs : list clientEvent) : gmap Z bool :=
  fold_left (fun m e => match ID (ce_header e) with Some id => <[id := false]> m | None => m end) evs ∅.

(** The loop over the received events; [false]: it has returned from [emitBuffered]. *)
Fixpoint emit_received (cell : nat) (evs : list clientEvent) (s : clientSocket) : outcome unit (clientSocket * bool) :=
  match evs with
  | [] => Ret (s, true)
  | e :: evs' =>
      r ← callEvent (ce_handler e) (ce_header e) (ce_values e) cell s;
      let '(s, hasAckFunc) := r : clientSocket * bool in
      match ID (ce_header e) with
      | None => emit_received cell evs' s
      | Some id =>
          let a := cs_ackState s in
          match cs_cells a !! cell with
          | None => Ret (s, true)
          | Some m =>
              match m !! id with
              | Some true => Ret (s, false)
              | _ =>
                  let s := with_acks (mkAcks (cs_acks a) (cs_ackHandlers a) (cs_ackID a) (<[cell := <[id := true]> m]> (cs_cells a))) s in
                  s ← (if negb hasAckFunc then sendAckPacket id [] s else Ret s);
                  emit_received cell evs' s
              end
          end
      end
  end.

Definition flush_sendBuffer (s : clientSocket) : clientSocket :=
  let b := cs_buffers s in
  match cs_sendBuffer b with
  | [] => s
  | items => emits [OPacket (si_packet <$> items)] (with_buffers (mkBuffers [] (cs_receiveBuffer b) (cs_stuck b)) s)
  end.

Definition emitBuffered (s : clientSocket) : outcome unit clientSocket :=
  let evs := cs_receiveBuffer (cs_buffers s) in
  let '(s, cell) := new_cell (initial_acks evs) s in
  r ← emit_received cell evs s;
  let '(s, finished) := r : clientSocket * bool in
  if finished then
    let b := cs_buffers s in
    if cs_stuck b then Panic Blocked
    else Ret (flush_sendBuffer (with_buffers (mkBuffers (cs_sendBuffer b) [] (cs_stuck b)) s))
  else Ret s.

(** [onConnect]: [info] is the decoded [sidInfo]; [None] is a wrong number or type of values. *)
Definition onConnect (info : outcome unit (option (string * string))) (s : clientSocket) : outcome unit clientSocket :=
  match info with
  | Panic why => Panic why
  | Err _ | Ret None => Ret (emits [OConnectError] s)
  | Ret (Some (sid, new_pid)) =>
      if String.eqb sid "" then Ret (emits [OConnectError] s)
      else
        let s := if String.eqb new_pid "" then s
                 else
                   let s := match pid s with
                            | Some p => if String.eqb p new_pid then setRecovered true s else s
                            | None => s
                            end in
                   setPID new_pid s in
        let s := set_state clientSocketConnStateConnected (setID sid s) in
        s ← emitBuffered s;
        Ret (emits [OConnectHandlers; ODrain] s)
  end.

(** [ok]: the error was decoded. *)
Definition onConnectError (ok : bool) (s : clientSocket) : clientSocket :=
  let s := destroy s in
  if ok then emits [OConnectError] s else emits [OError] s.

Definition onDisconnect (s : clientSocket) : clientSocket := onClose "io server disconnect" (destroy s).

(** A received packet: its header, and what decoding gives. *)
Record received := mkReceived {
  rc_header : PacketHeader;
  rc_eventName : string;
  rc_decode : list gotype -> outcome unit (list V);
  rc_info : outcome unit (option (string * string));
  rc_error_ok : bool;
}.

Definition onPacket (p : received) (s : clientSocket) : outcome unit clientSocket :=
  match Typ (rc_header p) with
  | PacketTypeConnect => onConnect (rc_info p) s
  | PacketTypeEvent | PacketTypeBinaryEvent =>
      let '(s, cell) := new_cell ∅ s in
      let '(st, hs) := eventHandlerStore.ev_getAll (rc_eventName p) (cs_handlers s) in
      on_each hs (rc_header p) (rc_decode p) cell (with_handlers st s)
  | PacketTypeAck | PacketTypeBinaryAck => onAck (rc_header p) (rc_decode p) s
  | PacketTypeConnectError => Ret (onConnectError (rc_error_ok p) s)
  | PacketTypeDisconnect => Ret (onDisconnect s)
  end.

(** [setAuth]: the kind of the data, after a pointer is followed, must be a struct or a map. *)
Definition SetAuth (data : option (Auth * bool)) (s : clientSocket) : outcome unit clientSocket :=
  match data with
  | None => Ret (with_auth None s)
  | Some (a, true) => Ret (with_auth (Some a) s)
  | Some (_, false) => Panic (UserPanic "sio: SetAuth: non-JSON data cannot be accepted")
  end.


(** ** What is emitted while the socket is disconnected *)
#[local] Open Scope list_scope.

(** The specification: the header and the payload of an event whose arguments are [v], when the
    next acknowledgement ID is [id], and whether it takes that ID. *)
Definition frame (ns : string) (id : Z) (v : list A) : PacketHeader * payload * bool :=
  match last v with
  | Some f =>
      if is_func f then (mkPacketHeader PacketTypeEvent ns (Some id) 0, PEvent (take (length v - 1) v), true)
      else (mkPacketHeader PacketTypeEvent ns None 0, PEvent v, false)
  | None => (mkPacketHeader PacketTypeEvent ns None 0, PEvent v, false)
  end.

Definition packets_of (header : PacketHeader) (v : payload) : list eioparser.Packet :=
  match env_Encode env header v with Ret bufs => message_of bufs | _ => [] end.

Definition emission : Type := Emitter * string * list A.

(** What has to be sent for a sequence of emissions: the packets of those that are not volatile,
    in the order in which they were made. *)
Fixpoint wire (ns : string) (id : Z) (l : list emission) : list eioparser.Packet :=
  match l with
  | [] => []
  | (e, name, v) :: l' =>
      let '(header, p, takes) := frame ns id (event_arg name :: v) in
      (if e_volatile e then [] else packets_of header p) ++ wire ns (if takes then id + 1 else id)%Z l'
  end.

Fixpoint emit_all (l : list emission) (s : clientSocket) : outcome unit clientSocket :=
  match l with
  | [] => Ret s
  | (e, name, v) :: l' => s ← e_Emit e name v s; emit_all l' s
  end.

(** An emission the code accepts: a name that is not reserved (nor empty, which stands for an
    event of the retry queue), and an acknowledgement function of the right form. *)
Definition effective_timeout (timeout : Z) (s : clientSocket) : Z :=
  if (timeout =? 0)%Z && (0 <? AckTimeout (cs_config s))%Z then AckTimeout (cs_config s) else timeout.

Definition acceptable (x : emission) (s : clientSocket) : bool :=
  let '(e, name, v) := x in
  negb (IsEventReservedForClient name) && negb (String.eqb name "") &&
  match last (event_arg name :: v) with
  | Some f => negb (is_func f) || is_ret (checkAckFunc (any_of f) (negb (effective_timeout (e_timeout e) s =? 0)%Z))
  | None => false
  end.

Definition encodable : Prop := forall header v why, env_Encode env header v <> Panic why.

(** The state a disconnected socket keeps while it buffers. *)
Record buffering (s : clientSocket) : Prop := mkBuffering {
  bf_state : state s = clientSocketConnStateDisconnected;
  bf_stuck : cs_stuck (cs_buffers s) = false;
  bf_received : cs_receiveBuffer (cs_buffers s) = [];
  bf_retries : (Retries (cs_config s) <= 0)%Z;
}.

(** From [s] to [s'] only [packets] were added to the buffer; errors may have been reported. *)
Record buffered (packets : list eioparser.Packet) (s s' : clientSocket) : Prop := mkBuffered {
  bd_config : cs_config s' = cs_config s;
  bd_namespace : cs_namespace s' = cs_namespace s;
  bd_session : cs_session s' = cs_session s;
  bd_received : cs_receiveBuffer (cs_buffers s') = cs_receiveBuffer (cs_buffers s);
  bd_stuck : cs_stuck (cs_buffers s') = cs_stuck (cs_buffers s);
  bd_packets : si_packet <$> cs_sendBuffer (cs_buffers s') = (si_packet <$> cs_sendBuffer (cs_buffers s)) ++ packets;
  bd_out : exists errs, cs_out s' = cs_out s ++ errs /\ Forall (fun e => e = OError) errs;
}.

Lemma buffered_refl s : buffered [] s s.
Proof. constructor; [reflexivity..| |]; [by rewrite app_nil_r|]. exists []. by rewrite app_nil_r. Qed.

Lemma buffered_trans p1 p2 s1 s2 s3 : buffered p1 s1 s2 -> buffered p2 s2 s3 -> buffered (p1 ++ p2) s1 s3.
Proof.
  intros [? ? ? ? ? H6 (e1 & H7 & F1)] [? ? ? ? ? K6 (e2 & K7 & F2)].
  constructor; [congruence..| |].
  - by rewrite K6, H6, app_assoc.
  - exists (e1 ++ e2). rewrite K7, H7, app_assoc. split; [done|]. by apply Forall_app.
Qed.

Lemma buffering_buffered p s s' : buffered p s s' -> buffering s -> buffering s'.
Proof.
  intros [B1 B2 B3 B4 B5 _ _] [F1 F2 F3 F4].
  constructor; unfold state in *; [by rewrite B3|by rewrite B5|by rewrite B4|by rewrite B1].
Qed.

Lemma sendBuffers_buffering volatile id bufs s :
  buffering s -> exists s', sendBuffers volatile false id bufs s = Ret s' /\
  buffered (if volatile then [] else message_of bufs) s s' /\ cs_ackState s' = cs_ackState s.
Proof.
  intros [Hst Hstuck _ _]. unfold sendBuffers. rewrite message_packets_Ret, Hst.
  destruct bufs as [|b bs]; cbn [is_connected is_pending orb].
  - exists s. destruct volatile; eauto using buffered_refl.
  - destruct volatile; cbn [negb]; [eauto using buffered_refl|]. rewrite Hstuck.
    eexists. split; [reflexivity|]. split; [|reflexivity]. constructor; [reflexivity..| | |].
    + by rewrite Hstuck.
    + cbn [cs_buffers with_buffers cs_sendBuffer]. rewrite fmap_app, <- list_fmap_compose. f_equal. apply list_fmap_id.
    + exists []. by rewrite app_nil_r.
Qed.

Lemma encode_buffering header v volatile s :
  encodable -> buffering s -> exists s', encode_and_send header v volatile false s = Ret s' /\
  buffered (if volatile then [] else packets_of header v) s s' /\ cs_ackState s' = cs_ackState s.
Proof.
  intros HE HB. unfold encode_and_send, packets_of. destruct (env_Encode env header v) as [bufs|[]|why] eqn:E.
  - by apply sendBuffers_buffering.
  - exists (emits [OError] s). split; [reflexivity|]. split; [|reflexivity].
    destruct volatile; (constructor; [reflexivity..| |]; [by rewrite app_nil_r|]; exists [OError]; by repeat constructor).
  - by destruct (HE header v why).
Qed.

Lemma registerAckHandler_buffering f timeout s :
  (0 <= cs_ackID (cs_ackState s))%Z -> (cs_ackID (cs_ackState s) + 1 < 2 ^ 64)%Z -> is_func f = true ->
  is_ret (checkAckFunc (any_of f) (negb (effective_timeout timeout s =? 0)%Z)) = true ->
  exists s', registerAckHandler (any_of f) timeout s = Ret (s', cs_ackID (cs_ackState s)) /\ buffered [] s s' /\
  cs_ackID (cs_ackState s') = (cs_ackID (cs_ackState s) + 1)%Z.
Proof.
  intros H0 H1 Hf HC. unfold registerAckHandler, startAckHandler. fold (effective_timeout timeout s). cbn zeta.
  unfold nextAckID. rewrite wrap_u_small by lia.
  set (t := effective_timeout timeout s) in *. unfold is_func in Hf.
  destruct (any_of f) as [|ptr params n|] eqn:Ef; [done| |done].
  unfold newAckHandlerWithTimeout, newAckHandler, storeAck. destruct (t =? 0)%Z; cbn [negb] in HC;
    (destruct (checkAckFunc _ _); [|done..]); cbn [mbind outcome_bind];
    (eexists; split; [reflexivity|]; split; [|reflexivity]);
    (constructor; [reflexivity..| |]; [by rewrite app_nil_r|]; exists []; by rewrite app_nil_r).
Qed.

Lemma e_Emit_buffering e name v s :
  encodable -> buffering s -> acceptable (e, name, v) s = true ->
  (0 <= cs_ackID (cs_ackState s))%Z -> (cs_ackID (cs_ackState s) + 1 < 2 ^ 64)%Z ->
  let '(header, p, takes) := frame (cs_namespace s) (cs_ackID (cs_ackState s)) (event_arg name :: v) in
  exists s', e_Emit e name v s = Ret s' /\ buffered (if e_volatile e then [] else packets_of header p) s s' /\
  cs_ackID (cs_ackState s') = (if takes then cs_ackID (cs_ackState s) + 1 else cs_ackID (cs_ackState s))%Z.
Proof.
  intros HE HB HA H0 H1. cbn in HA. apply andb_prop in HA as [[Hr Hn]%andb_prop HA].
  unfold frame. destruct (last (event_arg name :: v)) as [f|] eqn:Ef; [|done].
  assert (e_Emit e name v s = emit name (e_timeout e) (e_volatile e) false v s) as ->.
  { unfold e_Emit, refused. destruct (last v) as [f'|] eqn:Ev; [|done].
    assert (f' = f) as -> by (rewrite last_cons, Ev in Ef; congruence).
    destruct (e_timeout e =? 0)%Z eqn:Et; [done|]. destruct (is_func f) eqn:Eff; [|done]. cbn in HA |- *.
    unfold effective_timeout in HA. rewrite Et in HA. cbn in HA. rewrite Et in HA. cbn in HA. by rewrite HA. }
  unfold emit. rewrite (proj1 (negb_true_iff _) Hr), (proj1 (negb_true_iff _) Hn).
  assert ((0 <? Retries (cs_config s))%Z = false) as -> by (apply Z.ltb_ge, HB). cbn [andb].
  rewrite Ef. destruct (is_func f) eqn:Eff; cbn [negb orb] in HA.
  - destruct (registerAckHandler_buffering f (e_timeout e) s H0 H1 Eff HA) as (s1 & -> & B1 & I1).
    cbn [mbind outcome_bind]. rewrite (bd_namespace _ _ _ B1).
    destruct (encode_buffering (mkPacketHeader PacketTypeEvent (cs_namespace s) (Some (cs_ackID (cs_ackState s))) 0)
      (PEvent (take (length (event_arg name :: v) - 1) (event_arg name :: v))) (e_volatile e) s1) as (s2 & -> & B2 & I2);
      [done|by eapply buffering_buffered|].
    exists s2. split; [done|]. split; [exact (buffered_trans _ _ _ _ _ B1 B2)|]. by rewrite I2.
  - destruct (encode_buffering (mkPacketHeader PacketTypeEvent (cs_namespace s) None 0) (PEvent (event_arg name :: v)) (e_volatile e) s)
      as (s2 & -> & B2 & I2); [done..|]. exists s2. split; [done|]. split; [exact B2|]. by rewrite I2.
Qed.

Lemma acceptable_config x s s' : cs_config s' = cs_config s -> acceptable x s' = acceptable x s.
Proof. destruct x as [[e name] v]. unfold acceptable, effective_timeout. by intros ->. Qed.

Lemma emit_all_buffering l s :
  encodable -> buffering s -> Forall (fun x => acceptable x s = true) l ->
  (0 <= cs_ackID (cs_ackState s))%Z -> (cs_ackID (cs_ackState s) + Z.of_nat (length l) < 2 ^ 64)%Z ->
  exists s', emit_all l s = Ret s' /\ buffered (wire (cs_namespace s) (cs_ackID (cs_ackState s)) l) s s'.
Proof.
  intros HE. revert s. induction l as [|[[e name] v] l IH]; intros s HB HA H0 H1; cbn [emit_all wire].
  { exists s. split; [done|]. apply buffered_refl. }
  apply Forall_cons in HA as [Ha HA]. cbn [length] in H1.
  pose proof (e_Emit_buffering e name v s HE HB Ha H0 ltac:(lia)) as Hs.
  destruct (frame _ _ _) as [[header p] takes]. destruct Hs as (s1 & -> & B1 & I1). cbn [mbind outcome_bind].
  destruct (IH s1) as (s2 & -> & B2).
  - by eapply buffering_buffered.
  - eapply Forall_impl; [exact HA|]. intros x Hx. cbn beta in *. by rewrite (acceptable_config _ s) by apply B1.
  - rewrite I1. destruct takes; lia.
  - rewrite I1. destruct takes; lia.
  - exists s2. split; [done|]. rewrite <- I1, <- (bd_namespace _ _ _ B1). by eapply buffered_trans.
Qed.

(** What [manager.packet] is given for a list of packets that may be empty. *)
Definition flushed (packets : list eioparser.Packet) : list effect :=
  match packets with [] => [] | _ => [OPacket packets] end.

Lemma onConnect_flushes s sid new_pid :
  cs_receiveBuffer (cs_buffers s) = [] -> cs_stuck (cs_buffers s) = false -> sid <> "" ->
  exists s', onConnect (Ret (Some (sid, new_pid))) s = Ret s' /\ state s' = clientSocketConnStateConnected /\
  cs_sendBuffer (cs_buffers s') = [] /\
  cs_out s' = cs_out s ++ flushed (si_packet <$> cs_sendBuffer (cs_buffers s)) ++ [OConnectHandlers; ODrain].
Proof.
  intros HR HS Hsid. unfold onConnect. destruct (String.eqb_spec sid ""); [done|].
  set (s0 := if String.eqb new_pid "" then s else _).
  assert (cs_buffers s0 = cs_buffers s /\ cs_out s0 = cs_out s) as [EB EO].
  { subst s0. destruct (String.eqb new_pid ""); [done|]. destruct (pid s); [|done]. by destruct (String.eqb _ _). }
  clearbody s0. cbn zeta. unfold emitBuffered.
  change (cs_buffers (set_state clientSocketConnStateConnected (setID sid s0))) with (cs_buffers s0).
  rewrite EB, HR. unfold new_cell. cbn [emit_received mbind outcome_bind].
  unfold flush_sendBuffer. cbn [cs_buffers with_acks with_buffers set_state setID with_session cs_sendBuffer cs_stuck].
  rewrite EB, HS. destruct (cs_sendBuffer (cs_buffers s)) as [|x l] eqn:E; cbn [mbind outcome_bind fmap list_fmap flushed].
  - eexists. split; [reflexivity|]. split; [done|]. cbn. by rewrite EO.
  - eexists. split; [reflexivity|]. split; [done|]. cbn. by rewrite EO, <- app_assoc.
Qed.

(** C20: What is emitted on a disconnected socket is not lost and not reordered, when nothing else happens before it is
    connected. On a disconnected socket without retry queue (Retries <= 0), with an empty receive buffer and
    sendBufferMu not left locked by a panic, with an encoder that does not panic (an event it refuses is reported
    to the error handlers only), take any sequence of emissions that pass the checks of their arguments, fewer
    than 2^64 acknowledgement IDs in all, and then a CONNECT packet with a non-empty sid; no connecting phase,
    acknowledgement timeout or other operation comes in between. Every [Emit] returns and sends nothing, and when
    the socket is connected, the packets of all emissions that are not volatile are handed to the manager
    together, each once, in the order of the emissions, after what was buffered before and before the connect
    handlers run; the buffer is then empty. *)
Theorem buffered_in_order l s sid new_pid :
  encodable -> buffering s -> Forall (fun x => acceptable x s = true) l ->
  (0 <= cs_ackID (cs_ackState s))%Z -> (cs_ackID (cs_ackState s) + Z.of_nat (length l) < 2 ^ 64)%Z -> sid <> "" ->
  exists s1 s2 errs, emit_all l s = Ret s1 /\ onConnect (Ret (Some (sid, new_pid))) s1 = Ret s2 /\
    Forall (fun e => e = OError) errs /\ cs_out s1 = cs_out s ++ errs /\
    cs_out s2 = cs_out s1 ++
      flushed ((si_packet <$> cs_sendBuffer (cs_buffers s)) ++ wire (cs_namespace s) (cs_ackID (cs_ackState s)) l) ++
      [OConnectHandlers; ODrain] /\
    cs_sendBuffer (cs_buffers s2) = [].
Proof.
  intros HE HB HA H0 H1 Hsid. destruct (emit_all_buffering l s HE HB HA H0 H1) as (s1 & E1 & B).
  destruct (buffering_buffered _ _ _ B HB) as [_ HS HR _].
  destruct (onConnect_flushes s1 sid new_pid HR HS Hsid) as (s2 & E2 & _ & HN & HO).
  destruct (bd_out _ _ _ B) as (errs & Ho & HF). exists s1, s2, errs.
  repeat (split; [done|]). split; [|done]. by rewrite HO, (bd_packets _ _ _ B).
Qed.

(** ** Every acknowledgement is delivered at most once *)

(** What users, the manager and the goroutines do to the socket. *)
Inductive op :=
  | OpEmit (e : Emitter) (eventName : string) (v : list A)
  | OpFromQueue (timeout : Z) (v : list A)
  | OpEmitStart (e : Emitter) (eventName : string) (v : list A)      (* interrupted before [s.acks[id] = h] *)
  | OpFromQueueStart (timeout : Z) (v : list A)
  | OpAckStart (p : received)                                        (* interrupted before the handler is called *)
  | OpConnect (mstate : manager.clientConnectionState)
  | OpDisconnect (mgr : bool)
  | OpPacket (p : received)
  | OpLateAck (cell : nat) (id : Z) (values : list V)
  | OpOn (h : eventHandlerStore.eventHandlerStore eventHandler)
  | OpAuth (data : option (Auth * bool))
  | OpManagerOpen
  | OpManagerError (mgr : bool)
  | OpManagerClose (reason : string)
  | OpRun (i : nat).

(** [None]: the operation panics, never returns, or there is no such goroutine. *)
Definition returned (m : outcome unit clientSocket) : option clientSocket := match m with Ret s => Some s | _ => None end.

Definition exec (o : op) (s : clientSocket) : option clientSocket :=
  match o with
  | OpEmit e name v => returned (e_Emit e name v s)
  | OpFromQueue timeout v => returned (emit "" timeout false true v s)
  | OpEmitStart e name v => if refused e v then None else returned (emit_start name (e_timeout e) (e_volatile e) false v s)
  | OpFromQueueStart timeout v => returned (emit_start "" timeout false true v s)
  | OpAckStart p => Some (onAck_start (rc_header p) (rc_decode p) s)
  | OpConnect mstate => Some (Connect mstate s)
  | OpDisconnect mgr => returned (Disconnect mgr s)
  | OpPacket p => returned (onPacket p s)
  | OpLateAck cell id values => returned (sendAck cell id values s)
  | OpOn h => Some (with_handlers h s)
  | OpAuth data => returned (SetAuth data s)
  | OpManagerOpen => Some (manager_open s)
  | OpManagerError mgr => Some (errorFunc mgr s)
  | OpManagerClose reason => Some (manager_close reason s)
  | OpRun i => t ← cs_tasks s !! i; returned (run_task t (with_tasks (delete i (cs_tasks s)) s))
  end.

(** The acknowledgements that have been delivered, by a reply or by a timeout, and the timers
    that are running. *)
Definition answer (e : effect) : option Z :=
  match e with OAckCall id _ | OAckTimeout id => Some id | _ => None end.

Definition answered (s : clientSocket) : list Z := omap answer (cs_out s).

Definition timer (t : task) : option Z := match t with TTimeout id => Some id | _ => None end.

Definition timers (s : clientSocket) : list Z := omap timer (cs_tasks s).

(** The handlers that goroutines hold: before they are stored, and after they are taken out. *)
Definition hold (t : task) : option Z := match t with TEmitRest id _ _ | TReply id _ => Some id | _ => None end.

Definition held (s : clientSocket) : list Z := omap hold (cs_tasks s).

(** What the invariant speaks of. *)
Definition ack_view (s : clientSocket) : gset Z * gmap Z ackHandler * Z * (list Z * list Z) * list Z :=
  (cs_acks (cs_ackState s), cs_ackHandlers (cs_ackState s), cs_ackID (cs_ackState s), (timers s, held s), answered s).

(** [id] was not delivered, or with a timeout, after which its handler is not called. *)
Definition undelivered (id : Z) (s : clientSocket) : Prop :=
  id ∈ answered s -> exists h, cs_ackHandlers (cs_ackState s) !! id = Some h /\ ah_timedOut h = true.

Record ack_inv (n : Z) (s : clientSocket) : Prop := mkAckInv {
  ai_id : (0 <= cs_ackID (cs_ackState s) <= n)%Z;
  ai_acks : forall id, id ∈ cs_acks (cs_ackState s) \/ id ∈ held s ->
    (id < cs_ackID (cs_ackState s))%Z /\ undelivered id s;
  ai_apart : forall id, id ∈ cs_acks (cs_ackState s) -> id ∈ held s -> False;
  ai_held : NoDup (held s);
  ai_timers : forall id, id ∈ timers s ->
    (id < cs_ackID (cs_ackState s))%Z /\
    forall h, cs_ackHandlers (cs_ackState s) !! id = Some h -> ah_called h = false -> id ∉ answered s;
  ai_answered : forall id, id ∈ answered s -> (id < cs_ackID (cs_ackState s))%Z;
  ai_timers_nodup : NoDup (timers s);
  ai_nodup : NoDup (answered s);
}.

Lemma ack_inv_view n s s' : ack_view s' = ack_view s -> ack_inv n s -> ack_inv n s'.
Proof.
  unfold ack_view. intros [= E1 E2 E3 E4 E4' E5] [I1 I2 I2' I2'' I3 I4 I5 I6].
  constructor; unfold undelivered; rewrite ?E1, ?E2, ?E3, ?E4, ?E4', ?E5; assumption.
Qed.

(** *** What leaves the acknowledgements alone *)

Lemma view_emits l s : Forall (fun e => answer e = None) l -> ack_view (emits l s) = ack_view s.
Proof.
  intros HF. unfold ack_view. f_equal. unfold answered. cbn [cs_out emits]. rewrite omap_app.
  replace (omap answer l) with (@nil Z); [apply app_nil_r|].
  induction HF as [|e l He HF IH]; [done|]. cbn. by rewrite He.
Qed.

Lemma view_error s : ack_view (emits [OError] s) = ack_view s.
Proof. apply view_emits. by repeat constructor. Qed.

Lemma view_sendBuffers volatile forceSend id bufs s s' :
  sendBuffers volatile forceSend id bufs s = Ret s' -> ack_view s' = ack_view s.
Proof.
  unfold sendBuffers. rewrite message_packets_Ret. intros HS.
  destruct bufs; [by injection HS as <-|]. cbn zeta in HS. go_case; injection HS as <-; [|reflexivity..].
  apply view_emits. by repeat constructor.
Qed.

Lemma view_encode header v volatile forceSend s s' :
  encode_and_send header v volatile forceSend s = Ret s' -> ack_view s' = ack_view s.
Proof.
  unfold encode_and_send. destruct (env_Encode env header v); [apply view_sendBuffers| |done].
  intros [= <-]. apply view_error.
Qed.

Lemma view_sendAckPacket id values s s' : sendAckPacket id values s = Ret s' -> ack_view s' = ack_view s.
Proof.
  unfold sendAckPacket. destruct (forallb _ _); [apply view_encode|]. intros [= <-]. apply view_error.
Qed.

Lemma view_sendAck cell id values s s' : sendAck cell id values s = Ret s' -> ack_view s' = ack_view s.
Proof.
  unfold sendAck. intros HS. destruct (cs_cells (cs_ackState s) !! cell) as [m|]; [|by injection HS as <-].
  destruct (m !! id) as [[]|]; [by injection HS as <-| |]; by apply view_sendAckPacket in HS.
Qed.

Lemma view_sync_acks cell id calls s s' : sync_acks cell id calls s = Ret s' -> ack_view s' = ack_view s.
Proof.
  revert s. induction calls as [|v calls IH]; intros s; cbn [sync_acks]; [by intros [= <-]|].
  intros (s1 & H1 & H2)%outcome_bind_Ret. rewrite (IH _ H2). by eapply view_sendAck.
Qed.

Lemma view_take_offset values s : ack_view (take_offset values s).1 = ack_view s.
Proof. unfold take_offset. destruct (pid s), (last values) as [v|]; try done. by destruct (rv_String v). Qed.

Lemma view_callEvent h header values cell s r :
  callEvent h header values cell s = Ret r -> ack_view r.1 = ack_view s.
Proof.
  unfold callEvent. pose proof (view_take_offset values s) as H1. destruct (take_offset values s) as [s1 values1].
  intros ((args & b) & _ & HR)%outcome_bind_Ret. cbn in H1, HR. rewrite <- H1. clear H1.
  destruct (negb _); [injection HR as <-; apply view_error|].
  apply outcome_bind_Ret in HR as (s2 & HS & [= <-]). cbn [fst].
  transitivity (ack_view s2); [destruct (env_panics _ _ _); [apply view_error|done]|].
  transitivity (ack_view (emits [OCall h args] s1)); [|apply view_emits; by repeat constructor].
  destruct (ID header) as [id|]; [|by injection HS as <-].
  destruct b; [by apply view_sync_acks in HS|by injection HS as <-].
Qed.

Lemma view_onEvent h header decode cell s r :
  onEvent h header decode cell s = Ret r -> ack_view r.1 = ack_view s.
Proof.
  unfold onEvent. destruct (decode (eh_inputArgs h)) as [values| |]; [|intros [= <-]; apply view_error|done].
  destruct (convert_values _ _) as [values'|]; [|intros [= <-]; apply view_error].
  destruct (is_connected _); [apply view_callEvent|]. by intros [= <-].
Qed.

Lemma view_on_each hs header decode cell s s' :
  on_each hs header decode cell s = Ret s' -> ack_view s' = ack_view s.
Proof.
  revert s. induction hs as [|h hs IH]; intros s; cbn [on_each]; [by intros [= <-]|].
  intros ([s1 b] & H1 & H2)%outcome_bind_Ret. rewrite (IH _ H2). by apply view_onEvent in H1.
Qed.

Lemma view_emit_received cell evs s r :
  emit_received cell evs s = Ret r -> ack_view r.1 = ack_view s.
Proof.
  revert s. induction evs as [|e evs IH]; intros s; cbn [emit_received]; [by intros [= <-]|].
  intros ([s1 b] & H1 & H2)%outcome_bind_Ret. apply view_callEvent in H1. cbn [fst] in H1. rewrite <- H1. clear H1.
  destruct (ID (ce_header e)) as [id|]; [|by apply IH in H2].
  destruct (cs_cells (cs_ackState s1) !! cell) as [m|]; [|by injection H2 as <-].
  assert (forall m', match m' with Some true => Ret (s1, false) | _ =>
     s ← (if negb b then sendAckPacket id [] (with_acks (mkAcks (cs_acks (cs_ackState s1)) (cs_ackHandlers (cs_ackState s1))
        (cs_ackID (cs_ackState s1)) (<[cell := <[id := true]> m]> (cs_cells (cs_ackState s1)))) s1)
      else Ret (with_acks (mkAcks (cs_acks (cs_ackState s1)) (cs_ackHandlers (cs_ackState s1))
        (cs_ackID (cs_ackState s1)) (<[cell := <[id := true]> m]> (cs_cells (cs_ackState s1)))) s1));
     emit_received cell evs s end = Ret r -> ack_view r.1 = ack_view s1) as HX; [|by apply (HX (m !! id))].
  intros m' HM. assert (r = (s1, false) \/ m' <> Some true) as [->|Hm]; [|done|].
  { destruct m' as [[]|]; [left; by injection HM as <-|by right..]. }
  assert (match m' with Some true => False | _ => True end) by (by destruct m' as [[]|]).
  destruct m' as [[]|]; [done| |];
    (apply outcome_bind_Ret in HM as (s2 & H3 & H4); rewrite (IH _ H4);
     destruct (negb b); [by apply view_sendAckPacket in H3|by injection H3 as <-]).
Qed.

Lemma view_flush s : ack_view (flush_sendBuffer s) = ack_view s.
Proof.
  unfold flush_sendBuffer. destruct (cs_sendBuffer _); [done|]. rewrite view_emits by by repeat constructor. done.
Qed.

Lemma view_emitBuffered s s' : emitBuffered s = Ret s' -> ack_view s' = ack_view s.
Proof.
  unfold emitBuffered, new_cell. intros ([s1 b] & H1 & H2)%outcome_bind_Ret. apply view_emit_received in H1.
  cbn [fst] in H1. transitivity (ack_view s1); [|exact H1]. destruct b; [|by injection H2 as <-].
  destruct (cs_stuck _); [done|]. injection H2 as <-. by rewrite view_flush.
Qed.

Lemma view_onConnect info s s' : onConnect info s = Ret s' -> ack_view s' = ack_view s.
Proof.
  unfold onConnect. destruct info as [[[sid p]|]|e|why]; [|intros [= <-]; apply view_emits; by repeat constructor..|done].
  destruct (String.eqb sid ""); [intros [= <-]; apply view_emits; by repeat constructor|].
  intros (s1 & H1 & [= <-])%outcome_bind_Ret. rewrite view_emits by by repeat constructor.
  rewrite (view_emitBuffered _ _ H1). destruct (String.eqb p ""); [done|].
  destruct (pid s); [|done]. by destruct (String.eqb _ _).
Qed.

Lemma view_destroy s : ack_view (destroy s) = ack_view s.
Proof. unfold destroy. by rewrite view_emits by by repeat constructor. Qed.

Lemma view_onClose reason s : ack_view (onClose reason s) = ack_view s.
Proof. unfold onClose. by rewrite view_emits by by repeat constructor. Qed.

Lemma view_onOpen s : ack_view (onOpen s) = ack_view s.
Proof.
  unfold onOpen, sendConnectPacket, ack_view, timers, held. cbn [cs_tasks with_tasks cs_ackState]. rewrite !omap_app. cbn.
  by rewrite !app_nil_r.
Qed.

Lemma view_openFunc s : ack_view (openFunc s) = ack_view s.
Proof. unfold openFunc. destruct (is_pending _); [done|]. by rewrite view_onOpen. Qed.

Lemma view_iter f n s : (forall s, ack_view (f s) = ack_view s) -> ack_view (Nat.iter n f s) = ack_view s.
Proof. intros HF. induction n as [|n IH]; [done|]. cbn. by rewrite HF. Qed.

Lemma view_Connect mstate s : ack_view (Connect mstate s) = ack_view s.
Proof.
  unfold Connect. destruct (is_connected _); [done|]. cbn zeta.
  assert (ack_view (emits [OManagerOpen] (registerSubEvents s)) = ack_view s) as E
    by (etransitivity; [apply view_emits; by repeat constructor|reflexivity]).
  destruct mstate; [exact E| |reflexivity|exact E]. destruct (is_pending _); [exact E|]. rewrite view_onOpen. exact E.
Qed.

(** *** What changes the acknowledgements *)

(** Handlers that are stored, or that a goroutine holds. *)
Lemma inv_storeAck n id s :
  ack_inv n s -> (id < cs_ackID (cs_ackState s))%Z -> id ∉ held s -> undelivered id s -> ack_inv n (storeAck id s).
Proof.
  intros [I1 I2 I2' I2'' I3 I4 I5 I6] Hlt Hh Hu. constructor; try assumption.
  - intros x [[->%elem_of_singleton|Hx]%elem_of_union|Hx]; [by split|apply I2; by left|apply I2; by right].
  - intros x [->%elem_of_singleton|Hx]%elem_of_union Hx'; [done|by apply (I2' x)].
Qed.

Lemma inv_hold n id t s :
  ack_inv n s -> hold t = Some id -> timer t = None -> (id < cs_ackID (cs_ackState s))%Z ->
  id ∉ cs_acks (cs_ackState s) -> id ∉ held s -> undelivered id s -> ack_inv n (with_tasks (cs_tasks s ++ [t]) s).
Proof.
  intros [I1 I2 I2' I2'' I3 I4 I5 I6] Ht Htm Hlt Hc Hh Hu. set (s' := with_tasks _ s).
  assert (held s' = held s ++ [id]) as EH by (unfold held, s'; cbn [cs_tasks with_tasks]; rewrite omap_app; cbn; by rewrite Ht).
  assert (timers s' = timers s) as ET by (unfold timers, s'; cbn [cs_tasks with_tasks]; rewrite omap_app; cbn; by rewrite Htm, app_nil_r).
  constructor; rewrite ?EH, ?ET; try assumption.
  - intros x [Hx|[Hx| ->%list_elem_of_singleton]%elem_of_app]; [apply I2; by left|apply I2; by right|by split].
  - intros x Hx [Hx'| ->%list_elem_of_singleton]%elem_of_app; [by apply (I2' x)|done].
  - apply NoDup_app. split; [exact I2''|]. split; [|apply NoDup_singleton]. by intros x Hx ->%list_elem_of_singleton.
Qed.

(** An operation that returns has taken at most one ID, which is new. *)
Lemma inv_startAckHandler n f timeout s s' id :
  (n < 2 ^ 64 - 1)%Z -> ack_inv n s -> startAckHandler f timeout s = Ret (s', id) ->
  ack_inv (n + 1) s' /\ (id < cs_ackID (cs_ackState s'))%Z /\ (id ∉ cs_acks (cs_ackState s')) /\ (id ∉ held s') /\ (id ∉ answered s').
Proof.
  intros Hn [I1 I2 I2' I2'' I3 I4 I5 I6] HR. unfold startAckHandler, nextAckID in HR. cbn zeta in HR.
  set (t := if _ && _ then _ else _) in HR. set (i := cs_ackID (cs_ackState s)) in *.
  assert (exists h, id = i /\ s' = (let s1 := with_acks (mkAcks (cs_acks (cs_ackState s))
      (<[i := h]> (cs_ackHandlers (cs_ackState s))) (i + 1)%Z (cs_cells (cs_ackState s))) s in
     if (t =? 0)%Z then s1 else with_tasks (cs_tasks s1 ++ [TTimeout i]) s1)) as (h & -> & ->).
  { rewrite wrap_u_small in HR by (subst i; lia). destruct (if (t =? 0)%Z then _ else _) as [h| |]; [|done..].
    exists h. by injection HR as <- <-. }
  clear HR. cbn zeta. set (s1 := with_acks _ s).
  assert ((i ∉ cs_acks (cs_ackState s)) /\ (i ∉ held s) /\ (i ∉ answered s) /\ (i ∉ timers s)) as (F1 & F2 & F3 & F4).
  { split_and!; [intros Hx; destruct (I2 i (or_introl Hx)); lia|intros Hx; destruct (I2 i (or_intror Hx)); lia
      |intros Hx%I4; lia|intros [Hx _]%I3; lia]. }
  assert (ack_inv (n + 1) s1) as J.
  { constructor; change (answered s1) with (answered s); change (timers s1) with (timers s); change (held s1) with (held s);
      cbn [cs_ackState with_acks s1 cs_acks cs_ackHandlers cs_ackID]; try assumption; try lia.
    - intros x Hx. destruct (I2 x Hx) as [Hl Hu]. split; [lia|]. intros Ha. destruct (Hu Ha) as (g & Hg & Ht). exists g.
      cbn. rewrite lookup_insert_ne by (intros ->; done). done.
    - intros x Hx. destruct (I3 x Hx) as [Hl Hf]. split; [lia|]. intros g Hg. rewrite lookup_insert_ne in Hg by (intros ->; done). by apply Hf.
    - intros x Hx%I4. lia. }
  destruct (t =? 0)%Z; [split; [exact J|]; cbn; split_and!; [lia|done..]|].
  assert (held (with_tasks (cs_tasks s1 ++ [TTimeout i]) s1) = held s) as EH
    by (unfold held; cbn [cs_tasks with_tasks]; rewrite omap_app; cbn; by rewrite app_nil_r).
  assert (timers (with_tasks (cs_tasks s1 ++ [TTimeout i]) s1) = timers s ++ [i]) as ET
    by (unfold timers; cbn [cs_tasks with_tasks]; by rewrite omap_app).
  split; [|rewrite EH; cbn; split_and!; [lia|done..]]. destruct J as [J1 J2 J2' J2'' J3 J4 J5 J6].
  constructor; rewrite ?EH, ?ET; try assumption.
  - intros x [Hx| ->%list_elem_of_singleton]%elem_of_app; [by apply J3|]. split; [cbn; lia|]. by intros _ _ _.
  - apply NoDup_app. split; [exact I5|]. split; [|apply NoDup_singleton]. by intros x Hx ->%list_elem_of_singleton.
Qed.

Lemma inv_registerAckHandler n f timeout s s' id :
  (n < 2 ^ 64 - 1)%Z -> ack_inv n s -> registerAckHandler f timeout s = Ret (s', id) -> ack_inv (n + 1) s'.
Proof.
  intros Hn I HR. unfold registerAckHandler in HR. apply outcome_bind_Ret in HR as ([s1 i] & H1 & [= <- <-]).
  destruct (inv_startAckHandler n f timeout s s1 i Hn I H1) as (I1 & Hlt & _ & Hh & Ha).
  apply inv_storeAck; [done..|]. by intros ?.
Qed.

Lemma inv_weaken n m s : (n <= m)%Z -> ack_inv n s -> ack_inv m s.
Proof. intros Hl [I1 I2 I2' I2'' I3 I4 I5 I6]. constructor; try assumption. lia. Qed.

Lemma inv_emit n name timeout volatile fromQueue v s s' :
  (n < 2 ^ 64 - 1)%Z -> ack_inv n s -> emit name timeout volatile fromQueue v s = Ret s' -> ack_inv (n + 1) s'.
Proof.
  intros Hn I HE. unfold emit in HE. destruct (IsEventReservedForClient name); [done|].
  set (v' := if String.eqb name "" then v else _) in HE. cbn zeta in HE.
  destruct (_ && _ && _).
  { injection HE as <-. eapply ack_inv_view; [|apply (inv_weaken n); [lia|exact I]]. apply view_emits. by repeat constructor. }
  destruct (last v') as [f|]; [|done]. destruct (is_func f).
  - apply outcome_bind_Ret in HE as ([s1 id] & H1 & H2). eapply ack_inv_view; [by eapply view_encode|].
    by eapply inv_registerAckHandler.
  - eapply ack_inv_view; [by eapply view_encode|]. apply (inv_weaken n); [lia|exact I].
Qed.

Lemma inv_emit_start n name timeout volatile fromQueue v s s' :
  (n < 2 ^ 64 - 1)%Z -> ack_inv n s -> emit_start name timeout volatile fromQueue v s = Ret s' -> ack_inv (n + 1) s'.
Proof.
  intros Hn I HE. unfold emit_start in HE. destruct (IsEventReservedForClient name); [done|].
  set (v' := if String.eqb name "" then v else _) in HE. cbn zeta in HE.
  destruct (_ && _ && _).
  { injection HE as <-. eapply ack_inv_view; [|apply (inv_weaken n); [lia|exact I]]. apply view_emits. by repeat constructor. }
  destruct (last v') as [f|]; [|done]. destruct (is_func f).
  - apply outcome_bind_Ret in HE as ([s1 id] & H1 & [= <-]).
    destruct (inv_startAckHandler n _ _ s s1 id Hn I H1) as (I1 & Hlt & Hc & Hh & Ha).
    apply (inv_hold _ id); [done..|]. by intros ?.
  - eapply ack_inv_view; [by eapply view_encode|]. apply (inv_weaken n); [lia|exact I].
Qed.

(** Delivering [id], which is not in the map; a goroutine that still holds its handler finds it timed out. *)
Lemma inv_deliver n id e s s' :
  ack_inv n s -> id ∉ answered s -> (id < cs_ackID (cs_ackState s))%Z -> answer e = Some id ->
  cs_ackID (cs_ackState s') = cs_ackID (cs_ackState s) ->
  cs_acks (cs_ackState s') = cs_acks (cs_ackState s) -> id ∉ cs_acks (cs_ackState s) ->
  timers s' = timers s -> held s' = held s -> cs_out s' = cs_out s ++ [e] ->
  (forall x, x <> id -> cs_ackHandlers (cs_ackState s') !! x = cs_ackHandlers (cs_ackState s) !! x) ->
  (id ∉ timers s \/ forall h, cs_ackHandlers (cs_ackState s') !! id = Some h -> ah_called h = true) ->
  (id ∉ held s \/ exists h, cs_ackHandlers (cs_ackState s') !! id = Some h /\ ah_timedOut h = true) ->
  ack_inv n s'.
Proof.
  intros [I1 I2 I2' I2'' I3 I4 I5 I6] Hid Hlt He E1 E2 E2' E3 E3' E4 E5 E6 E7.
  assert (answered s' = answered s ++ [id]) as EA by (unfold answered; rewrite E4, omap_app; cbn; by rewrite He).
  constructor; rewrite ?E1, ?E2, ?E3, ?E3', ?EA; try assumption.
  - intros x Hx. destruct (I2 x Hx) as [Hl Hu]. split; [exact Hl|]. unfold undelivered. rewrite EA.
    intros [Ha| ->%list_elem_of_singleton]%elem_of_app.
    + destruct (Hu Ha) as (h & Hh & Ht). exists h. rewrite E5; [done|]. by intros ->.
    + destruct E7 as [Hn|E7]; [|exact E7]. by destruct Hx.
  - intros x Hx. destruct (I3 x Hx) as [Hl Hh]. split; [exact Hl|]. intros h Hlk Hc.
    destruct (decide (x = id)) as [->|Hne].
    + destruct E6 as [Hn|Hc']; [done|]. rewrite (Hc' h Hlk) in Hc. done.
    + rewrite E5 in Hlk by exact Hne. rewrite elem_of_app, list_elem_of_singleton. intros [Ha|Ha]; [|done]. by apply (Hh h).
  - intros x [Hx| ->%list_elem_of_singleton]%elem_of_app; [by apply I4|exact Hlt].
  - apply NoDup_app. split; [exact I6|]. split; [|apply NoDup_singleton].
    by intros x Hx ->%list_elem_of_singleton.
Qed.

Lemma inv_remove n id s : ack_inv n s -> ack_inv n (remove_ack id s).
Proof.
  intros [I1 I2 I2' I2'' I3 I4 I5 I6]. constructor; try assumption.
  - intros x [[Hx _]%elem_of_difference|Hx]; apply I2; [by left|by right].
  - intros x [Hx _]%elem_of_difference. by apply I2'.
Qed.

Lemma not_in_removed id s : id ∉ cs_acks (cs_ackState (remove_ack id s)).
Proof. cbn. rewrite elem_of_difference, elem_of_singleton. by intros [_ ?]. Qed.

Lemma inv_error n s : ack_inv n s -> ack_inv n (emits [OError] s).
Proof. apply ack_inv_view, view_error. Qed.

(** The handler that was taken out is called, unless it has timed out. *)
Lemma inv_reply_ack n id decode s s' :
  ack_inv n s -> (id < cs_ackID (cs_ackState s))%Z -> id ∉ cs_acks (cs_ackState s) -> id ∉ held s -> undelivered id s ->
  reply_ack id decode s = Ret s' -> ack_inv n s'.
Proof.
  intros I Hlt Hc Hh Hu HA. unfold reply_ack in HA.
  destruct (cs_ackHandlers (cs_ackState s) !! id) as [ack|] eqn:El; [|by injection HA as <-]. cbn zeta in HA.
  destruct (decode _) as [values| |]; [|injection HA as <-; by apply inv_error|done].
  destruct (convert_values _ _) as [values'|]; [|injection HA as <-; by apply inv_error].
  unfold ack_call in HA. destruct (ah_timedOut ack) eqn:Et; injection HA as <-.
  - eapply ack_inv_view; [|exact I]. unfold set_ack, ack_view. cbn. by rewrite insert_id.
  - set (h' := mkAckHandler _ _ true _).
    assert (ack_inv n (emits [OAckCall id values'] (set_ack id h' s))) as I2.
    { eapply (inv_deliver n id (OAckCall id values') s); try reflexivity; [exact I| |exact Hlt|exact Hc| | |by left].
      - intros Ha. destruct (Hu Ha) as (g & Hg & Ht). rewrite El in Hg. injection Hg as <-. congruence.
      - intros x Hne. cbn. by rewrite lookup_insert_ne.
      - right. intros h. cbn. rewrite lookup_insert_eq. by intros [= <-]. }
    destruct (env_ack_invoke env _); [by apply inv_error|exact I2].
Qed.

Lemma inv_onAck n header decode s s' : ack_inv n s -> onAck header decode s = Ret s' -> ack_inv n s'.
Proof.
  intros I HA. unfold onAck in HA. destruct (ID header) as [id|]; [|injection HA as <-; by apply inv_error].
  destruct (lookup_ack id s) as [ack|] eqn:El; [|injection HA as <-; by apply inv_error].
  unfold lookup_ack in El. case_bool_decide as Hid; [|done]. destruct (ai_acks _ _ I id (or_introl Hid)) as [Hlt Hu].
  apply (inv_reply_ack n id decode (remove_ack id s)); [by apply inv_remove|exact Hlt|apply not_in_removed| |exact Hu|exact HA].
  intros Hx. by apply (ai_apart _ _ I id Hid).
Qed.

Lemma inv_onAck_start n header decode s : ack_inv n s -> ack_inv n (onAck_start header decode s).
Proof.
  intros I. unfold onAck_start. destruct (ID header) as [id|]; [|by apply inv_error].
  destruct (lookup_ack id s) as [ack|] eqn:El; [|by apply inv_error].
  unfold lookup_ack in El. case_bool_decide as Hid; [|done]. destruct (ai_acks _ _ I id (or_introl Hid)) as [Hlt Hu].
  apply (inv_hold n id); [by apply inv_remove|done|done|exact Hlt|apply not_in_removed| |exact Hu].
  intros Hx. by apply (ai_apart _ _ I id Hid).
Qed.

Lemma inv_ack_expired n id s :
  ack_inv n s -> id ∉ timers s -> (id < cs_ackID (cs_ackState s))%Z ->
  (forall h, cs_ackHandlers (cs_ackState s) !! id = Some h -> ah_called h = false -> id ∉ answered s) ->
  ack_inv n (ack_expired id s).
Proof.
  intros I Ht Hlt Hh. unfold ack_expired. destruct (cs_ackHandlers (cs_ackState s) !! id) as [h|] eqn:El; [|done].
  unfold ack_timeout. destruct (ah_called h) eqn:Ec; [done|]. specialize (Hh h eq_refl Ec).
  set (h' := mkAckHandler _ _ _ true).
  assert (ack_inv n (remove_ack id (set_ack id h' s))) as I1.
  { apply inv_remove. destruct I as [I1 I2 I2' I2'' I3 I4 I5 I6]. constructor; try assumption.
    - intros x Hx. destruct (I2 x Hx) as [Hl Hu]. split; [exact Hl|]. intros Ha. destruct (Hu Ha) as (g & Hg & Hto). exists g.
      cbn. rewrite lookup_insert_ne by (intros ->; done). done.
    - intros x Hx. destruct (I3 x Hx) as [Hl Hf]. split; [exact Hl|]. intros g Hg. cbn in Hg.
      rewrite lookup_insert_ne in Hg by (intros ->; done). by apply Hf. }
  assert (forall b, ack_inv n (emits [OAckTimeout id] (with_buffers b (remove_ack id (set_ack id h' s))))) as I2.
  { intros b. eapply (inv_deliver n id (OAckTimeout id) (remove_ack id (set_ack id h' s))); try reflexivity;
      [exact I1|exact Hh|exact Hlt|apply not_in_removed|by left|].
    right. exists h'. split; [apply lookup_insert_eq|reflexivity]. }
  assert (forall b, ack_inv n (with_buffers b (remove_ack id (set_ack id h' s)))) as I3
    by (intros b; by apply (ack_inv_view n (remove_ack id (set_ack id h' s)))).
  destruct (ah_inputArgs h); cbn zeta; (destruct (cs_stuck _); [exact I1|]);
    (destruct (slices.off_slice _ _ _); [apply I2|apply I3..]).
Qed.

Lemma timers_delete t i s :
  cs_tasks s !! i = Some t ->
  timers s ≡ₚ (match timer t with Some id => [id] | None => [] end) ++ timers (with_tasks (delete i (cs_tasks s)) s).
Proof.
  intros Hi. unfold timers at 1. rewrite (delete_Permutation _ _ _ Hi) at 1. cbn [omap list_omap]. by destruct (timer t).
Qed.

Lemma held_delete t i s :
  cs_tasks s !! i = Some t ->
  held s ≡ₚ (match hold t with Some id => [id] | None => [] end) ++ held (with_tasks (delete i (cs_tasks s)) s).
Proof.
  intros Hi. unfold held at 1. rewrite (delete_Permutation _ _ _ Hi) at 1. cbn [omap list_omap]. by destruct (hold t).
Qed.

(** What a goroutine that holds a handler knows. *)
Lemma inv_task n i t s :
  ack_inv n s -> cs_tasks s !! i = Some t ->
  let s0 := with_tasks (delete i (cs_tasks s)) s in
  ack_inv n s0 /\
  (forall id, hold t = Some id ->
     (id < cs_ackID (cs_ackState s0))%Z /\ (id ∉ cs_acks (cs_ackState s0)) /\ (id ∉ held s0) /\ undelivered id s0).
Proof.
  intros [I1 I2 I2' I2'' I3 I4 I5 I6] Hi s0. pose proof (timers_delete t i s Hi) as HP. pose proof (held_delete t i s Hi) as HH. fold s0 in HP, HH.
  assert (forall x, x ∈ held s0 -> x ∈ held s) as HM by (intros x Hx; rewrite HH; apply elem_of_app; by right).
  split.
  - constructor; try assumption.
    + intros x [Hx|Hx]; apply I2; [by left|right; by apply HM].
    + intros x Hx Hx'%HM. by apply (I2' x).
    + rewrite HH in I2''. by apply NoDup_app in I2'' as (_ & _ & ?).
    + intros x Hx. apply I3. rewrite HP. apply elem_of_app. by right.
    + rewrite HP in I5. by apply NoDup_app in I5 as (_ & _ & ?).
  - intros id Ht. rewrite Ht in HH. assert (id ∈ held s) as Hin by (rewrite HH; by left).
    destruct (I2 id (or_intror Hin)) as [Hl Hu]. split_and!; [exact Hl|intros Hx; by apply (I2' id)| |exact Hu].
    rewrite HH in I2''. by apply NoDup_cons in I2'' as [? _].
Qed.

Lemma ack_inv_run_task n i t s s' :
  ack_inv n s -> cs_tasks s !! i = Some t -> run_task t (with_tasks (delete i (cs_tasks s)) s) = Ret s' -> ack_inv n s'.
Proof.
  intros I Hi HR. pose proof (timers_delete t i s Hi) as HP. destruct (inv_task n i t s I Hi) as [I0 H0]. set (s0 := with_tasks _ s) in *.
  destruct t as [v|id|id v volatile|id decode]; cbn [run_task timer hold] in *.
  - eapply ack_inv_view; [|exact I0]. by eapply view_encode.
  - injection HR as <-. destruct (ai_timers _ _ I id) as [Hl Hh]; [rewrite HP; apply elem_of_app; left; by constructor|].
    apply inv_ack_expired; [exact I0| |exact Hl|exact Hh].
    pose proof (ai_timers_nodup _ _ I) as HN. rewrite HP in HN. apply NoDup_cons in HN as [? _]. done.
  - destruct (H0 id eq_refl) as (Hl & _ & Hh & Hu). eapply ack_inv_view; [by eapply view_encode|]. by apply inv_storeAck.
  - destruct (H0 id eq_refl) as (Hl & Hc & Hh & Hu). by eapply inv_reply_ack.
Qed.

Lemma view_Disconnect mgr s s' : Disconnect mgr s = Ret s' -> ack_view s' = ack_view s.
Proof.
  unfold Disconnect. intros (s1 & H1 & [= <-])%outcome_bind_Ret. transitivity (ack_view s1).
  - destruct (_ || _); [rewrite view_onClose|]; apply view_destroy.
  - destruct (connectedOrConnectPending mgr s); [by eapply view_encode|by injection H1 as <-].
Qed.

Lemma ack_inv_onPacket n p s s' : ack_inv n s -> onPacket p s = Ret s' -> ack_inv n s'.
Proof.
  intros I HP. unfold onPacket in HP.
  destruct (Typ (rc_header p)); try (eapply inv_onAck; [exact I|exact HP]);
    (eapply ack_inv_view; [|exact I]).
  - by apply view_onConnect in HP.
  - injection HP as <-. unfold onDisconnect. by rewrite view_onClose, view_destroy.
  - unfold new_cell in HP. destruct (eventHandlerStore.ev_getAll _ _) as [st hs]. by apply view_on_each in HP.
  - injection HP as <-. unfold onConnectError. destruct (rc_error_ok p); (rewrite view_emits by by repeat constructor); apply view_destroy.
  - unfold new_cell in HP. destruct (eventHandlerStore.ev_getAll _ _) as [st hs]. by apply view_on_each in HP.
Qed.

Lemma inv_exec n o s s' : (n < 2 ^ 64 - 1)%Z -> ack_inv n s -> exec o s = Some s' -> ack_inv (n + 1) s'.
Proof.
  intros Hn I HX.
  assert (forall m, returned m = Some s' -> m = Ret s') as HR by (intros [a| |]; cbn; congruence).
  assert (ack_inv (n + 1) s) as I' by (eapply inv_weaken; [|exact I]; lia).
  destruct o; cbn [exec] in HX; try apply HR in HX; try (injection HX as <-).
  - unfold e_Emit in HX. destruct (refused e v); [done|]. by eapply inv_emit.
  - by eapply inv_emit.
  - destruct (refused e v); [done|]. apply HR in HX. by eapply inv_emit_start.
  - by eapply inv_emit_start.
  - by apply inv_onAck_start.
  - eapply ack_inv_view; [|exact I']. apply view_Connect.
  - eapply ack_inv_view; [|exact I']. by eapply view_Disconnect.
  - by eapply ack_inv_onPacket.
  - eapply ack_inv_view; [|exact I']. by eapply view_sendAck.
  - eapply ack_inv_view; [|exact I']. reflexivity.
  - eapply ack_inv_view; [|exact I']. unfold SetAuth in HX. destruct data as [[a []]|]; [|done|]; by injection HX as <-.
  - eapply ack_inv_view; [|exact I']. apply view_iter, view_openFunc.
  - eapply ack_inv_view; [|exact I']. unfold errorFunc. destruct (connectedOrConnectPending _ _); [done|].
    apply view_emits. by repeat constructor.
  - eapply ack_inv_view; [|exact I']. apply view_iter. intros s0. apply view_onClose.
  - destruct (cs_tasks s !! i) as [t|] eqn:Ei; [|done]. cbn in HX. apply HR in HX. by eapply ack_inv_run_task.
Qed.

(** Any sequence of operations that return; the number of operations bounds the IDs. *)
Fixpoint exec_all (os : list op) (s : clientSocket) : option clientSocket :=
  match os with
  | [] => Some s
  | o :: os' => s ← exec o s; exec_all os' s
  end.

Lemma inv_exec_all n os s s' :
  (n + Z.of_nat (length os) < 2 ^ 64)%Z -> ack_inv n s -> exec_all os s = Some s' -> ack_inv (n + Z.of_nat (length os)) s'.
Proof.
  revert n s. induction os as [|o os IH]; intros n s Hn I; cbn [exec_all length].
  - intros [= <-]. eapply inv_weaken; [|exact I]. lia.
  - intros (s1 & H1 & H2)%bind_Some. cbn [length] in Hn.
    replace (n + Z.of_nat (S (length os)))%Z with (n + 1 + Z.of_nat (length os))%Z by lia.
    apply (IH (n + 1)%Z s1); [lia| |exact H2]. eapply inv_exec; [|exact I|exact H1]. lia.
Qed.

Lemma ack_inv_new config ns auth : ack_inv 0 (newClientSocket config ns auth).
Proof. constructor; cbn; [lia|set_solver|set_solver|constructor|set_solver|set_solver|constructor|constructor]. Qed.

(** C21: Every acknowledgement of the client is delivered at most once: whatever is emitted (with or without a timeout, by users or by the retry
    queue), whatever packets arrive (acknowledgements sent twice or never asked for included), and whenever the timers run, also between the start of a timer and the
    moment [emit] stores the handler, and between the moment [onAck] takes a handler out of the map and its call, after fewer than 2^64 operations no
    acknowledgement ID has been delivered twice to a user's function, be it with a reply or with a timeout; no ID is delivered that was not given out; and one that
    was delivered and is still awaited (the timer ran before the handler was stored) has a handler that has timed out and ignores the reply. Operations that
    panic or block forever end the schedule. *)
Theorem acks_delivered_once config ns auth os s :
  (Z.of_nat (length os) < 2 ^ 64)%Z -> exec_all os (newClientSocket config ns auth) = Some s ->
  NoDup (answered s) /\
  forall id, id ∈ answered s -> (id < cs_ackID (cs_ackState s))%Z /\
    (id ∈ cs_acks (cs_ackState s) -> exists h, lookup_ack id s = Some h /\ ah_timedOut h = true).
Proof.
  intros Hn HX. pose proof (inv_exec_all 0 os _ s Hn (ack_inv_new config ns auth) HX) as I.
  split; [apply (ai_nodup _ _ I)|]. intros id Hid. split; [by eapply ai_answered|].
  intros Ha. unfold lookup_ack. rewrite bool_decide_eq_true_2 by done. by apply (ai_acks _ _ I id (or_introl Ha)).
Qed.

(** Once the server has given the socket a private session ID, an event whose handler takes a
    string as its last parameter does not reach the handler: the argument is taken for the
    offset of the session and removed, and the call fails for want of an argument. *)
Theorem string_argument_lost h header values v str cell s p :
  pid s = Some p -> length values = length (eh_inputArgs h) -> last values = Some v -> rv_String v = Some str ->
  eventHandler_ack h = Ret false ->
  callEvent h header values cell s = Ret (emits [OError] (setLastOffset str s), false).
Proof.
  intros Hp Hl Hv Hs Ha. unfold callEvent, take_offset. rewrite Hp, Hv, Hs. unfold with_ack. rewrite Ha.
  assert (length values <> 0) by (by destruct values).
  destruct (ID header); cbn [mbind outcome_bind]; rewrite length_fmap, length_take, <- Hl;
    rewrite (proj2 (Nat.eqb_neq _ _)) by lia; reflexivity.
Qed.

End socket.

(** ** A concrete environment *)

(** Values are numbers, the negative ones stand for strings; a packet is encoded as its type and
    its ID (255 for none), and an event with a [nil] argument has an attachment. *)
Section concrete.
#[local] Open Scope list_scope.
#[local] Instance Z_value : ReflectValue Z := {
  rv_isPtr := fun _ => false; rv_Elem := id; rv_String := fun z => if (z <? 0)%Z then Some "str" else None;
  rv_CanInterface := fun _ => true }.

Definition ex_event_arg (_ : string) : any := AnyOther.

Definition ex_type (t : PacketType) : Z :=
  match t with
  | PacketTypeConnect => 0 | PacketTypeDisconnect => 1 | PacketTypeEvent => 2 | PacketTypeAck => 3
  | PacketTypeConnectError => 4 | PacketTypeBinaryEvent => 5 | PacketTypeBinaryAck => 6
  end.

Definition ex_nil (a : any) : bool := match a with AnyNil => true | _ => false end.

Definition ex_Encode (header : PacketHeader) (v : @payload Z any unit) : outcome unit (list bytes) :=
  Ret ([z2b (ex_type (Typ header)); z2b (default 255%Z (ID header))] ::
       match v with PEvent l => if existsb ex_nil l then [[x01]] else [] | _ => [] end).

Definition ex_env : @environment Z any unit := mkEnv ex_Encode (fun _ _ => []) (fun _ _ => false) (fun _ => None).

Definition ex_packet (typ id : Z) : eioparser.Packet := eioparser.mkPacket false eioparser.PacketTypeMessage [z2b typ; z2b id].

Definition ex_socket (ackTimeout : Z) : @clientSocket Z any unit := newClientSocket (mkSocketConfig 0 ackTimeout) "/" None.

Definition ex_run := @exec_all Z any unit Z_value id ex_event_arg ex_env.

Definition ex_received (typ : PacketType) (id : option Z) (values : list Z) : @received Z :=
  mkReceived (mkPacketHeader typ "/" id 0) "ev" (fun _ => Ret values) (Ret (Some ("sid", "pid"))) true.

Definition ex_ack : any := AnyFunc 7 [TInterface true; TOther] 0.
Definition ex_handler (ptr : Z) (params : list gotype) : eventHandler := mkEventHandler ptr params.
Definition ex_handlers (hs : list eventHandler) : @op Z any unit :=
  OpOn (fold_left (fun st h => eventHandlerStore.ev_on "ev" h st) hs eventHandlerStore.newEventHandlerStore).

Lemma buffered_in_order_witness :
  let l := [(Volatile, "a", [AnyOther]); (Timeout 0, "b", [ex_ack]); (Timeout 0, "c", [AnyNil]); (Timeout 5, "d", [ex_ack])] in
  wire id ex_event_arg ex_env "/" 0 l = [ex_packet 2 0; ex_packet 2 255;
    eioparser.mkPacket true eioparser.PacketTypeMessage [x01]; ex_packet 2 1] /\
  exists s1 s2 errs, emit_all id ex_event_arg ex_env l (ex_socket 0) = Ret s1 /\
    onConnect ex_env (Ret (Some ("sid", ""))) s1 = Ret s2 /\
    Forall (fun e => e = OError) errs /\ cs_out s1 = cs_out (ex_socket 0) ++ errs /\
    cs_out s2 = cs_out s1 ++
      flushed ((si_packet <$> cs_sendBuffer (cs_buffers (ex_socket 0))) ++ wire id ex_event_arg ex_env "/" 0 l) ++
      [OConnectHandlers; ODrain] /\
    cs_sendBuffer (cs_buffers s2) = [].
Proof.
  split; [vm_compute; reflexivity|]. apply buffered_in_order; [discriminate|constructor; [reflexivity..|]; cbn; lia| |done..].
  repeat constructor.
Defined.

Lemma acks_delivered_once_witness :
  let os := [OpConnect manager.clientConnStateConnected; OpEmit (Timeout 0) "a" [ex_ack]; OpEmitStart (Timeout 5) "b" [ex_ack];
             OpPacket (ex_received PacketTypeAck (Some 0%Z) [1; 2]%Z); OpPacket (ex_received PacketTypeAck (Some 0%Z) [1; 2]%Z); OpRun 1; OpRun 1;
             OpPacket (ex_received PacketTypeAck (Some 1%Z) [1]%Z)] in
  exists s, ex_run os (ex_socket 0) = Some s /\ answered s = [0; 1]%Z /\ NoDup (answered s) /\
  forall id, id ∈ answered s -> (id < cs_ackID (cs_ackState s))%Z.
Proof.
  intros os. destruct (ex_run os (ex_socket 0)) as [s|] eqn:E; [|vm_compute in E; discriminate E].
  exists s. split; [reflexivity|]. split.
  - assert (Some (answered s) = Some [0; 1]%Z) as [= HE]; [|exact HE].
    change (Some (answered s)) with (answered <$> Some s). rewrite <- E. vm_compute. reflexivity.
  - destruct (acks_delivered_once id ex_event_arg ex_env (mkSocketConfig 0 0) "/" None os s) as [HN HI]; [cbn; lia|exact E|].
    split; [exact HN|]. intros id Hid. by apply HI.
Defined.

(** A timer that runs before [emit] has stored the handler leaves it in the map for good: the user's function was told of the timeout, and the ID is
    still awaited. *)
Theorem timeout_before_store :
  exists s, ex_run [OpEmitStart (Timeout 5) "a" [ex_ack]; OpRun 0; OpRun 0] (ex_socket 0) = Some s /\
    answered s = [0]%Z /\ timers s = [] /\ cs_acks (cs_ackState s) = {[0%Z]}.
Proof. eexists. split; [vm_compute; reflexivity|]. vm_compute. repeat split. Qed.

Lemma string_argument_lost_witness :
  exists s, ex_run [OpPacket (ex_received PacketTypeConnect None [])] (ex_socket 0) = Some s /\
  callEvent ex_env (ex_handler 1 [TOther]) (mkPacketHeader PacketTypeEvent "/" None 0) [-1]%Z 0 s =
  Ret (emits [OError] (setLastOffset "str" s), false).
Proof.
  eexists. split; [vm_compute; reflexivity|].
  by apply (string_argument_lost ex_env (ex_handler 1 [TOther]) (mkPacketHeader PacketTypeEvent "/" None 0) [-1]%Z (-1)%Z "str" 0 _ "pid").
Defined.

(** Four schedules in which the client's socket goes wrong. (1) Two handlers of one event that asks for
    an acknowledgement, when the event is dispatched before the CONNECT packet: [emitBuffered] returns
    in the middle, what was emitted before stays in the send buffer while the socket is
    connected, and both handlers are called again with the same event after the next reconnection.
    (2) An event with an attachment, emitted with a timeout while disconnected: when the timeout passes the
    user is not told, and every later [Emit] of the disconnected socket blocks forever. (3) After
    [Connect] was called twice before the connection was there, [Disconnect] does not stop
    the socket: it sends CONNECT when the manager opens. (4) What is emitted while the CONNECT packet is
    pending goes out before it, and before what was emitted earlier. *)
Theorem client_socket_goes_wrong :
  let h1 := ex_handler 1 [TOther] in let h2 := ex_handler 2 [TOther] in
  let connect := OpPacket (ex_received PacketTypeConnect None []) in
  (exists s, ex_run [ex_handlers [h1; h2]; OpEmit (Timeout 0) "a" [AnyOther]; OpConnect manager.clientConnStateConnected; OpRun 0;
      OpPacket (ex_received PacketTypeEvent (Some 5%Z) [1%Z]); connect;
      OpManagerClose "transport close"; OpManagerOpen; OpRun 0; connect] (ex_socket 0) = Some s /\
    state s = clientSocketConnStateConnected /\ si_packet <$> cs_sendBuffer (cs_buffers s) = [ex_packet 2 255] /\
    omap (fun e => match e with OCall h args => Some (h, args) | _ => None end) (cs_out s) =
      [(h1, [HVal 1%Z]); (h2, [HVal 1%Z]); (h1, [HVal 1%Z]); (h2, [HVal 1%Z])]) /\
  (exists s, ex_run [OpEmit (Timeout 5) "a" [AnyNil; ex_ack]; OpRun 0] (ex_socket 0) = Some s /\
    answered s = [] /\ timers s = [] /\ cs_acks (cs_ackState s) = ∅ /\
    emit id ex_event_arg ex_env "b" 0 false false [AnyOther] s = Panic Blocked) /\
  (exists s, ex_run [OpConnect manager.clientConnStateDisconnected; OpConnect manager.clientConnStateConnecting; OpDisconnect false;
      OpManagerOpen; OpRun 0] (ex_socket 0) = Some s /\
    cs_out s = [OManagerOpen; OManagerOpen; OManagerDestroy; OPacket [ex_packet 0 255]]) /\
  (exists s, ex_run [OpEmit (Timeout 0) "a" [AnyOther]; OpConnect manager.clientConnStateConnected; OpEmit (Timeout 0) "b" [ex_ack];
      OpRun 0; connect] (ex_socket 0) = Some s /\
    cs_out s = [OManagerOpen; OPacket [ex_packet 2 0]; OPacket [ex_packet 0 255]; OPacket [ex_packet 2 255];
                OConnectHandlers; ODrain]).
Proof.
  cbn zeta. split; [|split; [|split]].
  all: eexists; split; [vm_compute; reflexivity|]; vm_compute; repeat split; reflexivity.
Qed.
End concrete.
End clientsocket.
