(* ===== verification/SioServer.v ===== *)
(** * The Socket.IO server ([server.go], [server_conn.go], [server_socket.go], [namespace.go],
      [middleware.go])

    Connections, namespaces and the sockets that join them. A socket is found in three places,
    the store of its connection, the store of its namespace and the rooms of the namespace's adapter:
    the file is about keeping them in step. The adapter is an interface. *)

From Stdlib Require Import Strings.Ascii.
From S2P Require Import Prelude SioPacket EioPacket Handlers Events MapSet Adapter Stores Dispatch.

Module sioserver.
Import parser handler reserved dispatch serverSocketStore.
#[local] Open Scope string_scope.

(** ** Reasons ([reasons.go]) *)

Definition ReasonForcedClose : string := "forced close".
Definition ReasonTransportClose : string := "transport close".
Definition ReasonTransportError : string := "transport error".
Definition ReasonPingTimeout : string := "ping timeout".
Definition ReasonServerShuttingDown : string := "server shutting down".
Definition ReasonForcedServerClose : string := "forced server close".
Definition ReasonClientNamespaceDisconnect : string := "client namespace disconnect".
Definition ReasonServerNamespaceDisconnect : string := "server namespace disconnect".

Definition recoverableDisconnectReasons : gset string :=
  list_to_set [ReasonTransportError; ReasonTransportClose; ReasonForcedClose; ReasonPingTimeout; ReasonServerShuttingDown;
               ReasonForcedServerClose].

(** ** What a namespace asks of its adapter *)

(** A session to persist, and what restoring gives: the packets that were missed are either
    encoded already, or a header and its data. *)
Record SessionToPersist := mkSession { SID : string; PID : string; Rooms : list string }.

Class SocketAdapter (Ad A : Type) := {
  ad_new : Ad;
  ad_AddAll : string -> list string -> Ad -> Ad;
  ad_Delete : string -> string -> Ad -> Ad;
  ad_DeleteAll : string -> Ad -> Ad;
  ad_SocketRooms : string -> Ad -> option (list string);
  ad_Broadcast : PacketHeader -> list A -> string -> Ad -> Ad;
  ad_PersistSession : SessionToPersist -> Ad -> Ad;
  ad_RestoreSession : string -> string -> Ad -> Ad * option (SessionToPersist * list (list bytes + PacketHeader * list A));
  ad_in : Ad -> string -> string -> bool;              (* for specifications: is a socket in a room? *)
}.

(** What it promises. *)
Class LawfulSocketAdapter (Ad A : Type) `{SocketAdapter Ad A} := {
  ad_ok : Ad -> Prop;
  ad_ok_new : ad_ok ad_new;
  ad_ok_AddAll sid rs a : ad_ok a -> ad_ok (ad_AddAll sid rs a);
  ad_ok_Delete sid room a : ad_ok a -> ad_ok (ad_Delete sid room a);
  ad_ok_DeleteAll sid a : ad_ok a -> ad_ok (ad_DeleteAll sid a);
  ad_ok_Broadcast h v room a : ad_ok a -> ad_ok (ad_Broadcast h v room a);
  ad_in_new room sid : ad_in ad_new room sid = false;
  ad_in_AddAll sid rs a room sid' :
    ad_in (ad_AddAll sid rs a) room sid' = ad_in a room sid' || bool_decide (sid' = sid /\ room ∈ rs);
  ad_in_Delete sid room a room' sid' :
    ad_in (ad_Delete sid room a) room' sid' = true -> ad_in a room' sid' = true;
  ad_in_DeleteAll sid a room sid' :
    ad_ok a -> ad_in (ad_DeleteAll sid a) room sid' = ad_in a room sid' && bool_decide (sid' <> sid);
  ad_in_Broadcast h v r a room sid : ad_in (ad_Broadcast h v r a) room sid = ad_in a room sid;
}.

(** ** Middlewares of sockets *)

(** What [checkMiddlewareFunc] asks of a function: the types of its parameters and results. *)
Inductive param_type :=
  | PString
  | PSlice (interfaces : bool)
  | POther.

Record func_type := mkFuncType {
  ft_isFunc : bool;
  ft_in : list param_type;
  ft_variadic : bool;
  ft_out : list bool;          (* is the result an interface that is an error? *)
}.

Definition checkMiddlewareFunc (f : func_type) : bool :=
  ft_isFunc f &&
  match ft_in f, ft_out f with
  | [PString; PSlice true], [true] => true
  | _, _ => false
  end.

Section server.
(** [V]: decoded values; [A]: what users emit; [Ad]: adapters; [NM], [SM]: the middlewares of
    namespaces and of sockets; [ME]: what a middleware of a namespace returns to refuse. *)
Context {V A Ad NM SM ME : Type} `{ReflectValue V} `{SocketAdapter Ad A}.

(** ** State *)

(** The fields of a [*serverSocket] that are never written after [newServerSocket]; [s_ptr] is the
    identity of the object. *)
Record serverSocket := mkSocket {
  s_ptr : nat;
  s_id : string;
  s_pid : string;
  s_recovered : bool;
  s_nsp : string;
  s_conn : nat;
}.

(** The fields that are: [ss_joins] is false once [join] was replaced, [ss_closed] once
    [closeOnce] was used. *)
Record socketState := mkSocketState {
  ss_socket : serverSocket;              (* the fields above *)
  ss_connected : bool;
  ss_joins : bool;
  ss_closed : bool;
  ss_acks : gset Z;                      (* the keys of [s.acks] *)
  ss_ackHandlers : gmap Z ackHandler;    (* the handler registered under each ID *)
  ss_handlers : eventHandlerStore.eventHandlerStore eventHandler;
  ss_middlewares : list SM;
}.

Record serverConn := mkConn {
  sc_sockets : serverSocketStore serverSocket;
  sc_nsps : gset string;
  sc_closed : bool;          (* [closeOnce] was used *)
  sc_eioClosed : bool;       (* the Engine.IO socket was closed *)
}.

Record Namespace := mkNamespace {
  n_sockets : gmap string serverSocket;
  n_adapter : Ad;
  n_ackID : Z;
  n_middlewares : list NM;
}.

(** Durations are in nanoseconds. *)
Record ServerConfig := mkServerConfig {
  ConnectTimeout : Z;
  AcceptAnyNamespace : bool;
  RecoveryEnabled : bool;
  MaxDisconnectionDuration : Z;
  UseMiddlewares : bool;
}.

Definition DefaultConnectTimeout : Z := 45 * 10 ^ 9.
Definition DefaultMaxDisconnectionDuration : Z := 120 * 10 ^ 9.

(** What [NewServer] makes of the configuration. *)
Definition with_defaults (config : ServerConfig) : ServerConfig :=
  mkServerConfig
    (if (ConnectTimeout config =? 0)%Z then DefaultConnectTimeout else ConnectTimeout config)
    (AcceptAnyNamespace config) (RecoveryEnabled config)
    (if RecoveryEnabled config && (MaxDisconnectionDuration config =? 0)%Z then DefaultMaxDisconnectionDuration
     else MaxDisconnectionDuration config)
    (UseMiddlewares config).

Inductive payload :=
  | PEvent (v : list A)
  | PSidInfo (sid pid : string)
  | PConnectError (message : string + ME)
  | PAck (v : list V)
  | PNil.

Inductive effect :=
  | ESend (c : nat) (packets : list eioparser.Packet)            (* [eioPacketQueue.add] *)
  | EQueueClose (c : nat)                                        (* [closePacketQueue] *)
  | EError (s : serverSocket)
  | EConnection (s : serverSocket)                               (* the connection handlers run *)
  | ECall (s : serverSocket) (h : eventHandler) (args : list (harg V))
  | EAckCall (s : serverSocket) (id : Z) (args : list V)
  | EAckTimeout (s : serverSocket) (id : Z)
  | EBroadcast (s : serverSocket) (header : PacketHeader) (v : list A)
  | EDisconnecting (s : serverSocket) (reason : string)
  | EDisconnect (s : serverSocket) (reason : string)
  | ENewNamespace (name : string)
  | EEioServerClose.

(** A packet that was received. [rc_auth] is the decoded authentication data. *)
Record received := mkReceived {
  rc_header : PacketHeader;
  rc_eventName : string;
  rc_decode : list gotype -> option (list V);
  rc_auth : option string;
}.

(** The goroutines: the one of [onParserFinish]; what is left of it after [nsp.add] has returned
    a socket; the one that calls the connection handlers; [go c.eio.Close()]; the one that waits for
    the connect timeout; the one that waits for the timeout of an acknowledgement. *)
Inductive task :=
  | TParsed (c : nat) (p : received)
  | TStore (s : serverSocket)
  | TConnection (s : serverSocket)
  | TEioClose (c : nat)
  | TConnectTimeout (c : nat)
  | TAckTimeout (s : serverSocket) (id : Z).

Record Server := mkServer {
  sv_config : ServerConfig;
  sv_namespaces : gmap string Namespace;
  sv_conns : list serverConn;
  sv_sockets : list socketState;
  sv_ids : list (option string);        (* what [GenerateBase64ID] returns next; [None] is an error *)
  sv_tasks : list task;
  sv_cells : list bool;                 (* [sent] of each received event *)
  sv_out : list effect;
}.

(** What the environment decides: [Encode]; [json.Unmarshal] of the recovery fields; what the
    middlewares and the handlers of the users do (the rooms a middleware joins, its verdict; the calls of the
    acknowledgement function before the handler returns, whether it panics); and in which
    order a Go map is traversed. A middleware of a socket is a function value: its signature, whether a
    value is a [[]any], and what the function returns ([true] is a nil error). *)
Record environment := mkEnv {
  env_Encode : PacketHeader -> payload -> option (list bytes);
  env_recovery : string -> option (string * string);
  env_nsp_middleware : NM -> serverSocket -> string -> list string * option ME;
  env_signature : SM -> func_type;
  env_any_slice : V -> bool;
  env_socket_middleware : SM -> list V -> bool;
  env_acks : eventHandler -> list (harg V) -> list (list V);
  env_panics : eventHandler -> list (harg V) -> bool;
  env_ack_invoke : list (arg V) -> option string;
  env_order : gmap string serverSocket -> list serverSocket;
}.
Context (env : environment).

Definition newSocketState (s : serverSocket) : socketState :=
  mkSocketState s false true false ∅ ∅ eventHandlerStore.newEventHandlerStore [].

Definition newConn : serverConn := mkConn newServerSocketStore ∅ false false.

Definition newNamespace : Namespace := mkNamespace ∅ ad_new 0 [].

Definition NewServer (config : ServerConfig) (ids : list (option string)) : Server :=
  mkServer (with_defaults config) ∅ [] [] ids [] [] [].

Definition upd_namespaces (f : gmap string Namespace -> gmap string Namespace) (w : Server) : Server :=
  mkServer (sv_config w) (f (sv_namespaces w)) (sv_conns w) (sv_sockets w) (sv_ids w) (sv_tasks w) (sv_cells w) (sv_out w).

Definition upd_conns (f : list serverConn -> list serverConn) (w : Server) : Server :=
  mkServer (sv_config w) (sv_namespaces w) (f (sv_conns w)) (sv_sockets w) (sv_ids w) (sv_tasks w) (sv_cells w) (sv_out w).

Definition upd_sockets (f : list socketState -> list socketState) (w : Server) : Server :=
  mkServer (sv_config w) (sv_namespaces w) (sv_conns w) (f (sv_sockets w)) (sv_ids w) (sv_tasks w) (sv_cells w) (sv_out w).

Definition upd_ids (f : list (option string) -> list (option string)) (w : Server) : Server :=
  mkServer (sv_config w) (sv_namespaces w) (sv_conns w) (sv_sockets w) (f (sv_ids w)) (sv_tasks w) (sv_cells w) (sv_out w).

Definition upd_tasks (f : list task -> list task) (w : Server) : Server :=
  mkServer (sv_config w) (sv_namespaces w) (sv_conns w) (sv_sockets w) (sv_ids w) (f (sv_tasks w)) (sv_cells w) (sv_out w).

Definition upd_cells (f : list bool -> list bool) (w : Server) : Server :=
  mkServer (sv_config w) (sv_namespaces w) (sv_conns w) (sv_sockets w) (sv_ids w) (sv_tasks w) (f (sv_cells w)) (sv_out w).

Definition emits (l : list effect) (w : Server) : Server :=
  mkServer (sv_config w) (sv_namespaces w) (sv_conns w) (sv_sockets w) (sv_ids w) (sv_tasks w) (sv_cells w) (app (sv_out w) l).

Definition go (t : task) (w : Server) : Server := upd_tasks (fun ts => app ts [t]) w.

(** One object of each kind. *)
Definition upd_nsp (name : string) (f : Namespace -> Namespace) : Server -> Server := upd_namespaces (alter f name).
Definition upd_conn (c : nat) (f : serverConn -> serverConn) : Server -> Server := upd_conns (alter f c).
Definition upd_socket (s : serverSocket) (f : socketState -> socketState) : Server -> Server := upd_sockets (alter f (s_ptr s)).

Definition upd_adapter (name : string) (f : Ad -> Ad) : Server -> Server :=
  upd_nsp name (fun n => mkNamespace (n_sockets n) (f (n_adapter n)) (n_ackID n) (n_middlewares n)).

Definition set_store (st : serverSocketStore serverSocket) (c : serverConn) : serverConn :=
  mkConn st (sc_nsps c) (sc_closed c) (sc_eioClosed c).

Definition set_connected (b : bool) (x : socketState) : socketState :=
  mkSocketState (ss_socket x) b (ss_joins x) (ss_closed x) (ss_acks x) (ss_ackHandlers x) (ss_handlers x) (ss_middlewares x).

Definition stop_joins (x : socketState) : socketState :=
  mkSocketState (ss_socket x) (ss_connected x) false (ss_closed x) (ss_acks x) (ss_ackHandlers x) (ss_handlers x) (ss_middlewares x).

Definition set_closed (x : socketState) : socketState :=
  mkSocketState (ss_socket x) (ss_connected x) (ss_joins x) true (ss_acks x) (ss_ackHandlers x) (ss_handlers x) (ss_middlewares x).

Definition set_acks (acks : gset Z) (hs : gmap Z ackHandler) (x : socketState) : socketState :=
  mkSocketState (ss_socket x) (ss_connected x) (ss_joins x) (ss_closed x) acks hs (ss_handlers x) (ss_middlewares x).

Definition set_handlers (st : eventHandlerStore.eventHandlerStore eventHandler) (x : socketState) : socketState :=
  mkSocketState (ss_socket x) (ss_connected x) (ss_joins x) (ss_closed x) (ss_acks x) (ss_ackHandlers x) st (ss_middlewares x).

Definition set_middlewares (fs : list SM) (x : socketState) : socketState :=
  mkSocketState (ss_socket x) (ss_connected x) (ss_joins x) (ss_closed x) (ss_acks x) (ss_ackHandlers x) (ss_handlers x) fs.

Definition Connected (s : serverSocket) (w : Server) : bool :=
  match sv_sockets w !! s_ptr s with Some x => ss_connected x | None => false end.

(** ** Sending *)

(** [c.sockets.getAll()]. *)
Definition conn_sockets (c : nat) (w : Server) : list serverSocket :=
  match sv_conns w !! c with Some x => env_order env (socketsByID (sc_sockets x)) | None => [] end.

Definition conn_onError (c : nat) (w : Server) : Server := emits (EError <$> conn_sockets c w) w.

Definition onFatalError (c : nat) (w : Server) : Server := go (TEioClose c) (conn_onError c w).

Definition sendBuffers (c : nat) (bufs : list bytes) (w : Server) : Server :=
  match message_packets bufs with
  | Ret None => w
  | Ret (Some packets) => emits [ESend c packets] w
  | _ => onFatalError c w
  end.

Definition connectError (message : string + ME) (nsp : string) (c : nat) (w : Server) : Server :=
  match env_Encode env (mkPacketHeader PacketTypeConnectError nsp None 0) (PConnectError message) with
  | None => onFatalError c w
  | Some bufs => sendBuffers c bufs w
  end.

(** [Encode] and [conn.sendBuffers], of a socket. *)
Definition encode_and_send (s : serverSocket) (header : PacketHeader) (v : payload) (w : Server) : Server :=
  match env_Encode env header v with
  | None => emits [EError s] w
  | Some bufs => sendBuffers (s_conn s) bufs w
  end.

Definition sendControlPacket (typ : PacketType) (v : payload) (s : serverSocket) (w : Server) : Server :=
  encode_and_send s (mkPacketHeader typ (s_nsp s) None 0) v w.

Definition sendAckPacket (id : Z) (values : list V) (s : serverSocket) (w : Server) : Server :=
  if forallb rv_CanInterface values then
    encode_and_send s (mkPacketHeader PacketTypeAck (s_nsp s) (Some id) 0) (PAck values) w
  else emits [EError s] w.

(** ** Rooms *)

Definition Join (rooms : list string) (s : serverSocket) (w : Server) : Server :=
  match sv_sockets w !! s_ptr s with
  | Some x => if ss_joins x then upd_adapter (s_nsp s) (ad_AddAll (s_id s) rooms) w else w
  | None => w
  end.

Definition Leave (room : string) (s : serverSocket) : Server -> Server := upd_adapter (s_nsp s) (ad_Delete (s_id s) room).

Definition leaveAll (s : serverSocket) : Server -> Server := upd_adapter (s_nsp s) (ad_DeleteAll (s_id s)).

(** ** Closing *)

Definition conn_remove (s : serverSocket) : Server -> Server :=
  upd_conn (s_conn s) (fun c =>
    match getByID (s_id s) (sc_sockets c) with
    | Some _ => mkConn (removeByID s_nsp (s_id s) (sc_sockets c)) (sc_nsps c ∖ {[s_nsp s]}) (sc_closed c) (sc_eioClosed c)
    | None => c
    end).

Definition nsp_remove (s : serverSocket) : Server -> Server :=
  upd_nsp (s_nsp s) (fun n => mkNamespace (delete (s_id s) (n_sockets n)) (n_adapter n) (n_ackID n) (n_middlewares n)).

(** [PersistSession], with the rooms the socket is in. *)
Definition persist (s : serverSocket) : Server -> Server :=
  upd_adapter (s_nsp s) (fun a => ad_PersistSession (mkSession (s_id s) (s_pid s) (default [] (ad_SocketRooms (s_id s) a))) a).

Definition onClose (reason : string) (s : serverSocket) (w : Server) : Server :=
  match sv_sockets w !! s_ptr s with
  | None => w
  | Some x =>
      if ss_closed x then w
      else
        let w := upd_socket s set_closed w in
        if negb (ss_connected x) then w
        else
          let w := emits [EDisconnecting s reason] w in
          let w := if RecoveryEnabled (sv_config w) && bool_decide (reason ∈ recoverableDisconnectReasons) then persist s w else w in
          let w := upd_socket s stop_joins w in
          let w := leaveAll s w in
          let w := conn_remove s (nsp_remove s w) in
          let w := upd_socket s (set_connected false) w in
          emits [EDisconnect s reason] w
  end.

(** [c.sockets.getAndRemoveAll()], and a loop over what it returns. *)
Definition for_each_removed (f : serverSocket -> Server -> Server) (c : nat) (w : Server) : Server :=
  let sockets := conn_sockets c w in
  fold_left (fun w s => f s w) sockets (upd_conn c (set_store newServerSocketStore) w).

Definition conn_onClose (reason : string) (c : nat) (w : Server) : Server :=
  match sv_conns w !! c with
  | None => w
  | Some x =>
      if sc_closed x then w
      else
        let w := upd_conn c (fun x => mkConn (sc_sockets x) (sc_nsps x) true (sc_eioClosed x)) w in
        emits [EQueueClose c] (for_each_removed (onClose reason) c w)
  end.

(** The Engine.IO socket closes once, and calls [OnClose]; [c.eio.Close()] closes it. *)
Definition eio_closed (reason : string) (c : nat) (w : Server) : Server :=
  match sv_conns w !! c with
  | None => w
  | Some x =>
      if sc_eioClosed x then w
      else conn_onClose reason c (upd_conn c (fun x => mkConn (sc_sockets x) (sc_nsps x) (sc_closed x) true) w)
  end.

Definition eio_Close : nat -> Server -> Server := eio_closed ReasonForcedClose.

Definition conn_close (c : nat) (w : Server) : Server :=
  conn_onClose ReasonForcedServerClose c (emits [EQueueClose c] (eio_Close c w)).

(** [Disconnect(false)], [disconnectAll] and [Disconnect]. *)
Definition disconnect_nsp (s : serverSocket) (w : Server) : Server :=
  if Connected s w then onClose ReasonServerNamespaceDisconnect s (sendControlPacket PacketTypeDisconnect PNil s w) else w.

Definition disconnectAll (c : nat) (w : Server) : Server := for_each_removed disconnect_nsp c w.

Definition Disconnect (close : bool) (s : serverSocket) (w : Server) : Server :=
  if negb (Connected s w) then w
  else if close then conn_close (s_conn s) (disconnectAll (s_conn s) w)
  else disconnect_nsp s w.

(** ** Connecting to a namespace *)

Definition GenerateBase64ID (w : Server) : Server * option string :=
  match sv_ids w with
  | x :: ids => (upd_ids (fun _ => ids) w, x)
  | [] => (w, None)
  end.

(** [newServerSocket]: the packets that were missed are sent; the error of [Encode] ends it. *)
Fixpoint send_missed (s : serverSocket) (missed : list (list bytes + PacketHeader * list A)) (w : Server) : Server * bool :=
  match missed with
  | [] => (w, true)
  | inl bufs :: missed' => send_missed s missed' (sendBuffers (s_conn s) bufs w)
  | inr (header, v) :: missed' =>
      match env_Encode env header (PEvent v) with
      | None => (w, false)
      | Some bufs => send_missed s missed' (sendBuffers (s_conn s) bufs w)
      end
  end.

Definition alloc (id pid : string) (recovered : bool) (nsp : string) (c : nat) (w : Server) : Server * serverSocket :=
  let s := mkSocket (length (sv_sockets w)) id pid recovered nsp c in
  (upd_sockets (fun l => app l [newSocketState s]) w, s).

Definition newServerSocket (c : nat) (nsp : string)
    (previousSession : option (SessionToPersist * list (list bytes + PacketHeader * list A))) (w : Server)
  : Server * option serverSocket :=
  match previousSession with
  | Some (session, missed) =>
      let '(w, s) := alloc (SID session) (PID session) true nsp c w in
      let '(w, ok) := send_missed s missed (Join (Rooms session) s w) in
      (w, if ok then Some s else None)
  | None =>
      let '(w, id) := GenerateBase64ID w in
      match id with
      | None => (w, None)
      | Some id =>
          if RecoveryEnabled (sv_config w) then
            let '(w, pid) := GenerateBase64ID w in
            match pid with
            | None => (w, None)
            | Some pid => let '(w, s) := alloc id pid false nsp c w in (w, Some s)
            end
          else let '(w, s) := alloc id "" false nsp c w in (w, Some s)
      end
  end.

(** [onConnect] and [doConnect]. *)
Definition onConnect (s : serverSocket) (w : Server) : Server :=
  let w := Join [s_id s] s w in
  let w := sendControlPacket PacketTypeConnect (PSidInfo (s_id s) (s_pid s)) s w in
  upd_socket s (set_connected true) w.

Definition doConnect (s : serverSocket) (w : Server) : Server :=
  let w := upd_nsp (s_nsp s) (fun n => mkNamespace (<[s_id s := s]> (n_sockets n)) (n_adapter n) (n_ackID n) (n_middlewares n)) w in
  go (TConnection s) (onConnect s w).

(** A middleware of the namespace may make the socket join rooms before it decides. *)
Fixpoint runMiddlewares (fs : list NM) (auth : string) (s : serverSocket) (w : Server) : Server * option ME :=
  match fs with
  | [] => (w, None)
  | f :: fs' =>
      let '(rooms, verdict) := env_nsp_middleware env f s auth in
      let w := match rooms with [] => w | _ => Join rooms s w end in
      match verdict with
      | Some err => (w, Some err)
      | None => runMiddlewares fs' auth s w
      end
  end.

Inductive add_error :=
  | InvalidAuth
  | NoSocket                 (* [newServerSocket] failed *)
  | Refused (err : ME).

Definition restore (nsp sid offset : string) (w : Server)
  : Server * option (SessionToPersist * list (list bytes + PacketHeader * list A)) :=
  match sv_namespaces w !! nsp with
  | None => (w, None)
  | Some n => let '(a, r) := ad_RestoreSession sid offset (n_adapter n) in (upd_adapter nsp (fun _ => a) w, r)
  end.

Definition add (c : nat) (nsp : string) (auth : string) (w : Server) : Server * (serverSocket + add_error) :=
  match env_recovery env auth with
  | None => (w, inr InvalidAuth)
  | Some (sid, offset) =>
      let '(w, session) := if RecoveryEnabled (sv_config w) then restore nsp sid offset w else (w, None) in
      let '(w, s) := newServerSocket c nsp session w in
      match s with
      | None => (w, inr NoSocket)
      | Some s =>
          if RecoveryEnabled (sv_config w) && negb (UseMiddlewares (sv_config w)) && s_recovered s then (doConnect s w, inl s)
          else
            let '(w, refused) := runMiddlewares (match sv_namespaces w !! nsp with Some n => n_middlewares n | None => [] end) auth s w in
            match refused with
            | Some err => (w, inr (Refused err))
            | None => (doConnect s w, inl s)
            end
      end
  end.

(** [c.sockets.set(socket); c.nsps.set(nsp)]. *)
Definition store_socket (s : serverSocket) : Server -> Server :=
  upd_conn (s_conn s) (fun c => mkConn (ss_set s_id s_nsp s (sc_sockets c)) (sc_nsps c ∪ {[s_nsp s]}) (sc_closed c) (sc_eioClosed c)).

(** [connect], up to the return of [nsp.add]: the socket, if there is one, is still to be stored. *)
Definition connect (c : nat) (p : received) (w : Server) : Server * option serverSocket :=
  let name := parser.Namespace (rc_header p) in
  let '(w, found) :=
    match sv_namespaces w !! name with
    | Some _ => (w, true)
    | None => if AcceptAnyNamespace (sv_config w) then (upd_namespaces (insert name newNamespace) w, true) else (w, false)
    end in
  if negb found then (connectError (inl "namespace was not created") name c w, None)
  else
    match rc_auth p with
    | None => (onFatalError c w, None)
    | Some auth =>
        let '(w, r) := add c name auth w in
        match r with
        | inl s => (w, Some s)
        | inr (Refused err) => (connectError (inr err) name c w, None)
        | inr InvalidAuth => (connectError (inl "invalid auth") name c w, None)
        | inr NoSocket => (connectError (inl "no socket") name c w, None)
        end
    end.

(** ** Events and acknowledgements *)

Definition sendAck (cell : nat) (id : Z) (values : list V) (s : serverSocket) (w : Server) : Server :=
  match sv_cells w !! cell with
  | Some false => sendAckPacket id values s (upd_cells (insert cell true) w)
  | _ => w
  end.

(** [callMiddlewareFunc]: [reflect] panics when the values are not arguments of the function, and the panic is
    made an error. The function gets the values of the handler's parameters. *)
Definition is_string_value (v : V) : bool := match rv_String v with Some _ => true | None => false end.

Definition accepts (f : SM) (values : list V) : bool :=
  match values with
  | [] => false
  | v :: rest =>
      is_string_value v &&
      match ft_variadic (env_signature env f), rest with
      | true, _ => true
      | false, [r] => env_any_slice env r
      | false, _ => false
      end
  end.

Definition callMiddlewareFunc (f : SM) (values : list V) : bool := accepts f values && env_socket_middleware env f values.

Definition callMiddlewares (fs : list SM) (values : list V) : bool := forallb (fun f => callMiddlewareFunc f values) fs.

Definition onEvent (s : serverSocket) (header : PacketHeader) (decode : list gotype -> option (list V)) (cell : nat)
    (w : Server) (h : eventHandler) : Server :=
  match decode (eh_inputArgs h) with
  | None => emits [EError s] w
  | Some values =>
      match convert_values (eh_inputArgs h) values, sv_sockets w !! s_ptr s with
      | Some values, Some x =>
          if negb (callMiddlewares (ss_middlewares x) values) then emits [EError s] w
          else if negb (ss_connected x) then w
          else
            match with_ack h (ID header) cell values with
            | Ret (args, hasAckFunc) =>
                let w := emits [ECall s h args] w in
                let w := match ID header with
                         | Some id => if hasAckFunc then fold_left (fun w v => sendAck cell id v s w) (env_acks env h args) w else w
                         | None => w
                         end in
                if env_panics env h args then emits [EError s] w else w
            | _ => w
            end
      | _, _ => emits [EError s] w
      end
  end.

Definition onAck (s : serverSocket) (header : PacketHeader) (decode : list gotype -> option (list V)) (w : Server) : Server :=
  match ID header, sv_sockets w !! s_ptr s with
  | Some id, Some x =>
      match (if bool_decide (id ∈ ss_acks x) then ss_ackHandlers x !! id else None) with
      | None => emits [EError s] w
      | Some ack =>
          let w := upd_socket s (fun x => set_acks (ss_acks x ∖ {[id]}) (ss_ackHandlers x) x) w in
          let inputArgs := if ah_hasError ack then drop 1 (ah_inputArgs ack) else ah_inputArgs ack in
          match decode inputArgs with
          | None => emits [EError s] w
          | Some values =>
              match convert_values inputArgs values with
              | None => emits [EError s] w
              | Some values =>
                  let '(ack', called, err) := ack_call (env_ack_invoke env) values ack in
                  let w := upd_socket s (fun x => set_acks (ss_acks x) (<[id := ack']> (ss_ackHandlers x)) x) w in
                  let w := match called with [] => w | _ => emits [EAckCall s id values] w end in
                  match err with Some _ => emits [EError s] w | None => w end
              end
          end
      end
  | _, _ => emits [EError s] w
  end.

(** The timeout of an acknowledgement. *)
Definition ack_expired (s : serverSocket) (id : Z) (w : Server) : Server :=
  match sv_sockets w !! s_ptr s with
  | None => w
  | Some x =>
      match ss_ackHandlers x !! id with
      | None => w
      | Some h =>
          let '(h', effects) := ack_timeout (V := V) h in
          match effects with
          | [] => w
          | _ =>
              emits [EAckTimeout s id]
                (upd_socket s (fun x => set_acks (ss_acks x ∖ {[id]}) (<[id := h']> (ss_ackHandlers x)) x) w)
          end
      end
  end.

(** [onPacket] of a socket; [false]: an error is returned. *)
Definition onPacket (s : serverSocket) (p : received) (w : Server) : Server * bool :=
  match Typ (rc_header p) with
  | PacketTypeEvent | PacketTypeBinaryEvent =>
      let cell := length (sv_cells w) in
      let w := upd_cells (fun l => app l [false]) w in
      match sv_sockets w !! s_ptr s with
      | None => (w, true)
      | Some x =>
          let '(st, hs) := eventHandlerStore.ev_getAll (rc_eventName p) (ss_handlers x) in
          let w := upd_socket s (set_handlers st) w in
          (fold_left (onEvent s (rc_header p) (rc_decode p) cell) hs w, true)
      end
  | PacketTypeAck | PacketTypeBinaryAck => (onAck s (rc_header p) (rc_decode p) w, true)
  | PacketTypeDisconnect => (onClose ReasonClientNamespaceDisconnect s w, true)
  | PacketTypeConnect | PacketTypeConnectError => (w, false)
  end.

(** The goroutine of [onParserFinish]. *)
Definition onParserFinish (c : nat) (p : received) (w : Server) : Server * option serverSocket :=
  match sv_conns w !! c with
  | None => (w, None)
  | Some x =>
      let h := rc_header p in
      let h := if String.eqb (parser.Namespace h) "" then mkPacketHeader (Typ h) "/" (ID h) (Attachments h) else h in
      let p := mkReceived h (rc_eventName p) (rc_decode p) (rc_auth p) in
      match Typ h, getByNsp (parser.Namespace h) (sc_sockets x) with
      | PacketTypeConnect, None => connect c p w
      | PacketTypeConnect, Some _ | PacketTypeConnectError, _ | _, None => (conn_close c w, None)
      | _, Some s => let '(w, ok) := onPacket s p w in (if ok then w else onFatalError c w, None)
      end
  end.

(** ** Emitting from the server *)

Definition nextAckID (nsp : string) (w : Server) : Server * Z :=
  match sv_namespaces w !! nsp with
  | None => (w, 0%Z)
  | Some n => (upd_nsp nsp (fun n => mkNamespace (n_sockets n) (n_adapter n) (wrap_u 64 (n_ackID n + 1)) (n_middlewares n)) w, n_ackID n)
  end.

Definition registerAckHandler (f : any) (timeout : Z) (s : serverSocket) (w : Server) : outcome unit (Server * Z) :=
  let '(w, id) := nextAckID (s_nsp s) w in
  match (if (timeout =? 0)%Z then newAckHandler f false else newAckHandlerWithTimeout f) with
  | Ret h =>
      let w := upd_socket s (fun x => set_acks ({[id]} ∪ ss_acks x) (<[id := h]> (ss_ackHandlers x)) x) w in
      Ret (if (timeout =? 0)%Z then w else go (TAckTimeout s id) w, id)
  | Err _ => Panic (UserPanic "ack handler")
  | Panic why => Panic why
  end.

Definition emit (any_of : A -> any) (event_arg : string -> A) (eventName : string) (timeout : Z) (v : list A) (s : serverSocket)
    (w : Server) : outcome unit Server :=
  if IsEventReservedForServer eventName then Panic (UserPanic "sio: Emit: attempted to emit a reserved event")
  else
    let v := event_arg eventName :: v in
    let send id v w :=
      let header := mkPacketHeader PacketTypeEvent (s_nsp s) id 0 in
      if RecoveryEnabled (sv_config w) then
        emits [EBroadcast s header v] (upd_adapter (s_nsp s) (ad_Broadcast header v (s_id s)) w)
      else encode_and_send s header (PEvent v) w in
    match last v with
    | None => Panic IndexRange
    | Some f =>
        match any_of f with
        | AnyFunc _ _ _ =>
            '(w, ackID) ← registerAckHandler (any_of f) timeout s w; Ret (send (Some ackID) (take (length v - 1) v) w)
        | _ => Ret (send None v w)
        end
    end.

(** ** The server *)

Definition normalize (namespace : string) : string :=
  match namespace with
  | String c _ => if Ascii.eqb c "/"%char then namespace else "/" ++ namespace
  | EmptyString => "/"
  end.

Definition Of (namespace : string) (w : Server) : Server :=
  let namespace := normalize namespace in
  match sv_namespaces w !! namespace with
  | Some _ => w
  | None =>
      let w := upd_namespaces (insert namespace newNamespace) w in
      if String.eqb namespace "/" then w else emits [ENewNamespace namespace] w
  end.

Definition Use (nsp : string) (f : NM) : Server -> Server :=
  upd_nsp nsp (fun n => mkNamespace (n_sockets n) (n_adapter n) (n_ackID n) (app (n_middlewares n) [f])).

Definition onEIOSocket (w : Server) : Server :=
  go (TConnectTimeout (length (sv_conns w))) (upd_conns (fun l => app l [newConn]) w).

(** [Close]: the sockets of the main namespace are closed, then Engine.IO. *)
Definition Close (w : Server) : Server :=
  let w := Of "/" w in
  let sockets := match sv_namespaces w !! "/" with Some n => env_order env (n_sockets n) | None => [] end in
  emits [EEioServerClose] (fold_left (fun w s => onClose ReasonServerShuttingDown s w) sockets w).

Definition run_task (t : task) (w : Server) : Server :=
  match t with
  | TParsed c p => let '(w, r) := onParserFinish c p w in match r with Some s => go (TStore s) w | None => w end
  | TStore s => store_socket s w
  | TConnection s => emits [EConnection s] w
  | TEioClose c => eio_Close c w
  | TConnectTimeout c =>
      match sv_conns w !! c with
      | Some x => if bool_decide (sc_nsps x = ∅) then conn_close c w else w
      | None => w
      end
  | TAckTimeout s id => ack_expired s id w
  end.

(** [Use] of a socket panics for a function that cannot be a middleware. *)
Definition socket_Use (f : SM) (s : serverSocket) (w : Server) : outcome unit Server :=
  if checkMiddlewareFunc (env_signature env f) then Ret (upd_socket s (fun x => set_middlewares (app (ss_middlewares x) [f]) x) w)
  else Panic (UserPanic "function signature").

(** The goroutine of a packet when nothing else runs until it is done. *)
Definition handle (c : nat) (p : received) (w : Server) : Server :=
  let '(w, r) := onParserFinish c p w in match r with Some s => store_socket s w | None => w end.

(** ** Schedules *)

Section schedules.
Context (any_of : A -> any) (event_arg : string -> A).

Inductive op :=
  | OpAccept                                                  (* a new Engine.IO connection *)
  | OpArrive (c : nat) (p : received)                         (* a packet was parsed: its goroutine starts *)
  | OpHandle (c : nat) (p : received)                         (* a packet was parsed, and is handled at once *)
  | OpRun (i : nat)
  | OpEioClosed (reason : string) (c : nat)
  | OpEioError (c : nat)
  | OpParserError (c : nat)
  | OpOf (name : string)
  | OpUse (nsp : string) (f : NM)
  | OpClose
  | OpEmit (eventName : string) (timeout : Z) (v : list A) (s : serverSocket)
  | OpJoin (rooms : list string) (s : serverSocket)
  | OpLeave (room : string) (s : serverSocket)
  | OpDisconnect (close : bool) (s : serverSocket)
  | OpOn (st : eventHandlerStore.eventHandlerStore eventHandler) (s : serverSocket)
  | OpSocketUse (f : SM) (s : serverSocket)
  | OpLateAck (cell : nat) (id : Z) (values : list V) (s : serverSocket).

(** The sockets that users have been given. *)
Definition given (s : serverSocket) (w : Server) : Prop := EConnection s ∈ sv_out w.

(** [step]: one operation; those of the users are on sockets they were given. *)
Inductive step : op -> Server -> Server -> Prop :=
  | step_accept w : step OpAccept w (onEIOSocket w)
  | step_arrive c p w : step (OpArrive c p) w (go (TParsed c p) w)
  | step_handle c p w x : sv_conns w !! c = Some x -> sc_closed x = false -> step (OpHandle c p) w (handle c p w)
  | step_run i t w : sv_tasks w !! i = Some t -> step (OpRun i) w (run_task t (upd_tasks (delete i) w))
  | step_eioClosed reason c w : step (OpEioClosed reason c) w (eio_closed reason c w)
  | step_eioError c w : step (OpEioError c) w (conn_onError c w)
  | step_parserError c w : step (OpParserError c) w (onFatalError c w)
  | step_of name w : step (OpOf name) w (Of name w)
  | step_use nsp f w : step (OpUse nsp f) w (Use nsp f w)
  | step_close w : step OpClose w (Close w)
  | step_emit name timeout v s w w' :
      given s w -> emit any_of event_arg name timeout v s w = Ret w' -> step (OpEmit name timeout v s) w w'
  | step_join rooms s w : given s w -> step (OpJoin rooms s) w (Join rooms s w)
  | step_leave room s w : given s w -> step (OpLeave room s) w (Leave room s w)
  | step_disconnect close s w : given s w -> step (OpDisconnect close s) w (Disconnect close s w)
  | step_on st s w : given s w -> step (OpOn st s) w (upd_socket s (set_handlers st) w)
  | step_socketUse f s w w' : given s w -> socket_Use f s w = Ret w' -> step (OpSocketUse f s) w w'
  | step_lateAck cell id values s w : given s w -> step (OpLateAck cell id values s) w (sendAck cell id values s w).

Inductive steps (allowed : op -> bool) : Server -> Server -> Prop :=
  | steps_refl w : steps allowed w w
  | steps_cons o w1 w2 w3 : allowed o = true -> step o w1 w2 -> steps allowed w2 w3 -> steps allowed w1 w3.
End schedules.
End server.
Arguments Server V A Ad NM SM : clear implicits.
Arguments environment V A NM SM ME : clear implicits.
End sioserver.
