(* ===== verification/SioServerInv.v ===== *)
(** * The stores and the rooms of the server agree

    The invariant of the Socket.IO server: what connections, namespaces and adapters record of a
    socket is the same. It holds when the goroutine of a packet is not interleaved with others;
    what happens otherwise is in the file on races. *)

From S2P Require Import Prelude SioPacket EioPacket Handlers Events MapSet Adapter Stores Dispatch SioServer.

Module serverinv.
Import parser handler reserved dispatch serverSocketStore sioserver.

Section inv.
Context {V A Ad NM SM ME : Type} `{ReflectValue V} `{LawfulSocketAdapter Ad A}.
Context (env : environment V A NM SM ME) (any_of : A -> any) (event_arg : string -> A).
Implicit Types (w : Server V A Ad NM SM) (s : serverSocket).

(** Every socket of a map is visited. *)
Definition order_ok : Prop := forall m s, s ∈ env_order env m <-> exists sid, m !! sid = Some s.

(** The middlewares of namespaces do not use the socket. *)
Definition no_joins : Prop := forall f s auth, (env_nsp_middleware env f s auth).1 = [].

(** ** What is known of a socket *)

Definition known s w : Prop := exists x, sv_sockets w !! s_ptr s = Some x /\ ss_socket x = s.

Definition in_nsp s w : Prop := exists n, sv_namespaces w !! s_nsp s = Some n /\ n_sockets n !! s_id s = Some s.

Definition in_conn s w : Prop :=
  exists x, sv_conns w !! s_conn s = Some x /\ sc_closed x = false /\ socketsByID (sc_sockets x) !! s_id s = Some s.

(** Users have it, or will be given it. *)
Definition announced s w : Prop := given s w \/ TConnection s ∈ sv_tasks w.

Definition sequential_task (t : @task V) : Prop := match t with TParsed _ _ | TStore _ => False | _ => True end.

(** ** The invariant *)

(** [D]: sockets of a namespace that are not in the store of their connection, because they are about to be
    stored or to be closed. *)
Record inv (D : serverSocket -> Prop) w : Prop := mkInv {
  i_recovery : RecoveryEnabled (sv_config w) = false;
  i_conn : forall c x, sv_conns w !! c = Some x ->
    consistent s_id s_nsp (sc_sockets x) /\ (sc_closed x = true -> sc_sockets x = newServerSocketStore) /\
    forall sid s, socketsByID (sc_sockets x) !! sid = Some s -> s_conn s = c /\ in_nsp s w;
  i_nsp : forall name n, sv_namespaces w !! name = Some n ->
    ad_ok (n_adapter n) /\
    (forall sid s, n_sockets n !! sid = Some s ->
       s_id s = sid /\ s_nsp s = name /\ known s w /\ Connected s w = true /\ (in_conn s w \/ D s)) /\
    (forall room sid, ad_in (n_adapter n) room sid = true -> is_Some (n_sockets n !! sid));
  i_object : forall p x, sv_sockets w !! p = Some x ->
    s_ptr (ss_socket x) = p /\ (ss_connected x = true -> ss_closed x = false /\ in_nsp (ss_socket x) w);
  i_unique : forall p q x y, sv_sockets w !! p = Some x -> sv_sockets w !! q = Some y ->
    s_id (ss_socket x) = s_id (ss_socket y) -> p = q;
  i_ids : NoDup (omap id (sv_ids w));
  i_fresh : forall id p x, Some id ∈ sv_ids w -> sv_sockets w !! p = Some x -> s_id (ss_socket x) <> id;
  i_announced : forall s, announced s w ->
    exists x, sv_sockets w !! s_ptr s = Some x /\ ss_socket x = s /\ (ss_connected x = true \/ ss_joins x = false);
  i_tasks : forall t, t ∈ sv_tasks w -> sequential_task t;
}.

Lemma inv_mono (D D' : serverSocket -> Prop) w : (forall s, in_nsp s w -> D s -> D' s) -> inv D w -> inv D' w.
Proof.
  intros HD [I1 I2 I3 I4 IU I5 I6 I7 I8]. constructor; try assumption.
  intros name n Hn. destruct (I3 name n Hn) as (Ha & Hs & Hr). split; [done|]. split; [|done].
  intros sid s Hsid. destruct (Hs sid s Hsid) as (E1 & E2 & Hk & Hc & HD'). repeat (split; [done|]).
  destruct HD' as [?|HDs]; [by left|]. right. apply HD; [|done]. exists n. by rewrite E2, E1.
Qed.

(** ** Changes that do not matter to the invariant *)

(** What the invariant sees of an object and of a namespace. *)
Definition socket_view (x : @socketState SM) : serverSocket * bool * bool * bool :=
  (ss_socket x, ss_connected x, ss_joins x, ss_closed x).

Definition nsp_same (n n' : @Namespace Ad NM) : Prop :=
  n_sockets n' = n_sockets n /\ (ad_ok (n_adapter n) -> ad_ok (n_adapter n')) /\
  (forall room sid, ad_in (n_adapter n') room sid = true -> ad_in (n_adapter n) room sid = true \/ is_Some (n_sockets n !! sid)).

Definition harmless (t : @task V) : Prop := match t with TParsed _ _ | TStore _ | TConnection _ => False | _ => True end.

Record same w w' : Prop := mkSame {
  sm_config : sv_config w' = sv_config w;
  sm_conns : sv_conns w' = sv_conns w;
  sm_ids : sv_ids w' = sv_ids w;
  sm_sockets : forall p, socket_view <$> sv_sockets w' !! p = socket_view <$> sv_sockets w !! p;
  sm_nsps : forall name, option_Forall2 nsp_same (sv_namespaces w !! name) (sv_namespaces w' !! name);
  sm_tasks : forall t, t ∈ sv_tasks w' -> t ∈ sv_tasks w \/ harmless t;
  sm_out : forall s, EConnection s ∈ sv_out w' -> EConnection s ∈ sv_out w;
}.

#[export] Instance nsp_same_refl : Reflexive nsp_same.
Proof. intros n. repeat split; auto. Qed.

Lemma nsp_same_trans n1 n2 n3 : nsp_same n1 n2 -> nsp_same n2 n3 -> nsp_same n1 n3.
Proof.
  intros (E1 & A1 & R1) (E2 & A2 & R2). split; [congruence|]. split; [auto|].
  intros room sid [Hr|Hr]%R2; [by apply R1|]. right. by rewrite <- E1.
Qed.

#[export] Instance same_refl : Reflexive same.
Proof. intros w. constructor; auto. intros name. destruct (sv_namespaces w !! name); constructor. reflexivity. Qed.

Lemma same_trans w1 w2 w3 : same w1 w2 -> same w2 w3 -> same w1 w3.
Proof.
  intros S1 S2. constructor.
  - rewrite (sm_config _ _ S2). apply S1.
  - rewrite (sm_conns _ _ S2). apply S1.
  - rewrite (sm_ids _ _ S2). apply S1.
  - intros p. rewrite (sm_sockets _ _ S2). apply S1.
  - intros name. pose proof (sm_nsps _ _ S1 name) as N1. pose proof (sm_nsps _ _ S2 name) as N2.
    destruct N1; inversion N2; subst; constructor. by eapply nsp_same_trans.
  - intros t Ht. apply S2 in Ht as [Ht|?]; [|by right]. by apply S1.
  - intros s Hs. by apply S1, S2.
Qed.

Lemma same_object w w' p x' :
  same w w' -> sv_sockets w' !! p = Some x' -> exists x, sv_sockets w !! p = Some x /\ socket_view x' = socket_view x.
Proof.
  intros S Hx. pose proof (sm_sockets _ _ S p) as E. rewrite Hx in E.
  destruct (sv_sockets w !! p) as [x|]; [|done]. exists x. split; [done|]. by apply (inj Some) in E.
Qed.

Lemma same_object' w w' p x :
  same w w' -> sv_sockets w !! p = Some x -> exists x', sv_sockets w' !! p = Some x' /\ socket_view x' = socket_view x.
Proof.
  intros S Hx. pose proof (sm_sockets _ _ S p) as E. rewrite Hx in E.
  destruct (sv_sockets w' !! p) as [x'|]; [|done]. exists x'. split; [done|]. by apply (inj Some) in E.
Qed.

Lemma same_known w w' s : same w w' -> known s w -> known s w'.
Proof.
  intros S (x & Hx & Es). destruct (same_object' _ _ _ _ S Hx) as (x' & Hx' & [= E1 _ _ _]). exists x'. split; [done|congruence].
Qed.

Lemma same_connected w w' s : same w w' -> Connected s w' = Connected s w.
Proof.
  intros S. unfold Connected. pose proof (sm_sockets _ _ S (s_ptr s)) as E.
  destruct (sv_sockets w' !! s_ptr s), (sv_sockets w !! s_ptr s); cbn in E; try done. by injection E.
Qed.

Lemma same_in_nsp w w' s : same w w' -> in_nsp s w -> in_nsp s w'.
Proof.
  intros S (n & Hn & Hs). pose proof (sm_nsps _ _ S (s_nsp s)) as N. rewrite Hn in N. inversion N as [? n' (E & _) E1 E2|]; subst.
  exists n'. split; [done|]. by rewrite E.
Qed.

Lemma same_inv D w w' : same w w' -> inv D w -> inv D w'.
Proof.
  intros S [I1 I2 I3 I4 IU I5 I6 I7 I8]. constructor.
  - by rewrite (sm_config _ _ S).
  - rewrite (sm_conns _ _ S). intros c x Hx. destruct (I2 c x Hx) as (Hc & Hcl & Hs). split; [done|]. split; [done|].
    intros sid s Hsid. destruct (Hs sid s Hsid). split; [done|]. by eapply same_in_nsp.
  - intros name n' Hn'. pose proof (sm_nsps _ _ S name) as N. rewrite Hn' in N. inversion N as [n ? (E & Ha & Hr) E1 E2|]; subst.
    destruct (I3 name n (eq_sym E1)) as (Ha0 & Hs0 & Hr0). split; [auto|]. rewrite E. split.
    + intros sid s Hsid. destruct (Hs0 sid s Hsid) as (? & ? & ? & Hc & HD). repeat (split; [done|]).
      split; [by eapply same_known|]. split; [by rewrite (same_connected _ _ _ S)|].
      destruct HD as [(x & ?)|?]; [left|by right]. exists x. by rewrite (sm_conns _ _ S).
    + intros room sid [Hin|?]%Hr; [by eapply Hr0|done].
  - intros p x' Hx'. destruct (same_object _ _ _ _ S Hx') as (x & Hx & [= E1 E2 E3 E4]).
    destruct (I4 p x Hx) as [Hp Hc]. rewrite E1, E2, E4. split; [done|]. intros Hcon. destruct (Hc Hcon).
    split; [done|]. by eapply same_in_nsp.
  - intros p q x' y' Hx' Hy'. destruct (same_object _ _ _ _ S Hx') as (x & Hx & [= -> _ _ _]).
    destruct (same_object _ _ _ _ S Hy') as (y & Hy & [= -> _ _ _]). by eapply IU.
  - by rewrite (sm_ids _ _ S).
  - intros i p x' Hi Hx'. rewrite (sm_ids _ _ S) in Hi. destruct (same_object _ _ _ _ S Hx') as (x & Hx & [= E1 _ _ _]).
    rewrite E1. by eapply I6.
  - intros s Hs. destruct (I7 s) as (x & Hx & Es & Hj).
    { destruct Hs as [Hs|Hs]; [left; by apply (sm_out _ _ S)|]. apply (sm_tasks _ _ S) in Hs as [Hs|[]]. by right. }
    destruct (same_object' _ _ _ _ S Hx) as (x' & Hx' & [= E1 E2 E3 _]). exists x'. rewrite E1, E2, E3. done.
  - intros t Ht. apply (sm_tasks _ _ S) in Ht as [Ht|Ht]; [by apply I8|]. by destruct t.
Qed.

Definition quiet (e : @effect V A) : Prop := match e with EConnection _ => False | _ => True end.

Lemma same_emits l w : Forall quiet l -> same w (emits l w).
Proof.
  intros HF. destruct (same_refl w) as [S1 S2 S3 S4 S5 S6 S7]. constructor; try assumption.
  intros s [Hs|Hs]%elem_of_app; [done|]. rewrite Forall_forall in HF. by apply HF in Hs.
Qed.

Lemma same_go t w : harmless t -> same w (go t w).
Proof.
  intros Ht. destruct (same_refl w) as [S1 S2 S3 S4 S5 S6 S7]. constructor; try assumption.
  intros u [Hu| ->%list_elem_of_singleton]%elem_of_app; [by left|by right].
Qed.

Lemma same_upd_cells f w : same w (upd_cells f w).
Proof. by destruct (same_refl w) as [S1 S2 S3 S4 S5 S6 S7]. Qed.

Lemma same_upd_socket s f w : (forall x, socket_view (f x) = socket_view x) -> same w (upd_socket s f w).
Proof.
  intros Hf. destruct (same_refl w) as [S1 S2 S3 S4 S5 S6 S7]. constructor; try assumption.
  intros p. cbn. destruct (decide (p = s_ptr s)) as [->|Hne].
  - rewrite list_lookup_alter_eq. destruct (sv_sockets w !! s_ptr s) as [x|]; [|done].
    change (Some (socket_view (f x)) = Some (socket_view x)). by rewrite Hf.
  - by rewrite list_lookup_alter_ne.
Qed.

Lemma same_upd_nsp name f w : (forall n, nsp_same n (f n)) -> same w (upd_nsp name f w).
Proof.
  intros Hf. destruct (same_refl w) as [S1 S2 S3 S4 S5 S6 S7]. constructor; try assumption.
  intros name'. cbn. destruct (decide (name' = name)) as [->|Hne].
  - rewrite lookup_alter_eq. destruct (sv_namespaces w !! name); constructor. apply Hf.
  - rewrite lookup_alter_ne by done. apply S5.
Qed.

Lemma same_upd_adapter name f w :
  (forall a, ad_ok a -> ad_ok (f a)) -> (forall a room sid, ad_in (f a) room sid = true -> ad_in a room sid = true) ->
  same w (upd_adapter name f w).
Proof. intros H1' H2'. apply same_upd_nsp. intros n. repeat split; cbn; auto. Qed.

Lemma same_conn_onError c w : same w (conn_onError env c w).
Proof. apply same_emits. apply Forall_fmap, Forall_forall. done. Qed.

Lemma same_onFatalError c w : same w (onFatalError env c w).
Proof. eapply same_trans; [apply same_conn_onError|by apply same_go]. Qed.

Lemma same_sendBuffers c bufs w : same w (sendBuffers env c bufs w).
Proof.
  unfold sendBuffers. rewrite message_packets_Ret. destruct bufs; [reflexivity|]. apply same_emits. by repeat constructor.
Qed.

Lemma same_connectError m nsp c w : same w (connectError env m nsp c w).
Proof. unfold connectError. destruct (env_Encode env _ _); [apply same_sendBuffers|apply same_onFatalError]. Qed.

Lemma same_error s w : same w (emits [EError s] w).
Proof. apply same_emits. by repeat constructor. Qed.

Lemma same_encode_and_send s header v w : same w (encode_and_send env s header v w).
Proof. unfold encode_and_send. destruct (env_Encode env _ _); [apply same_sendBuffers|apply same_error]. Qed.

Lemma same_sendAckPacket id values s w : same w (sendAckPacket env id values s w).
Proof. unfold sendAckPacket. destruct (forallb _ _); [apply same_encode_and_send|apply same_error]. Qed.

Lemma same_sendAck cell id values s w : same w (sendAck env cell id values s w).
Proof.
  unfold sendAck. destruct (sv_cells w !! cell) as [[]|]; [reflexivity| |reflexivity].
  eapply same_trans; [apply same_upd_cells|apply same_sendAckPacket].
Qed.

Lemma same_fold {B} (f : Server V A Ad NM SM -> B -> Server V A Ad NM SM) l w :
  (forall w b, same w (f w b)) -> same w (fold_left f l w).
Proof.
  intros Hf. revert w. induction l as [|b l IH]; intros w; [reflexivity|]. cbn.
  eapply same_trans; [apply Hf|apply IH].
Qed.

Lemma same_onEvent s header decode cell w h : same w (onEvent env s header decode cell w h).
Proof.
  unfold onEvent. destruct (decode _) as [values|]; [|apply same_error].
  destruct (convert_values _ _) as [values'|], (sv_sockets w !! s_ptr s) as [x|]; try apply same_error.
  destruct (negb (callMiddlewares _ _ _)); [apply same_error|]. destruct (negb _); [reflexivity|].
  destruct (with_ack _ _ _ _) as [[args b]| |]; [|reflexivity..]. cbn zeta.
  eapply same_trans; [apply (same_emits [ECall s h args]); by repeat constructor|].
  set (w1 := match ID header with Some _ => _ | None => _ end).
  assert (same (emits [ECall s h args] w) w1) as S1.
  { subst w1. destruct (ID header) as [id|]; [|reflexivity]. destruct b; [|reflexivity].
    apply same_fold. intros w0 v. apply same_sendAck. }
  eapply same_trans; [exact S1|]. destruct (env_panics _ _ _); [apply same_error|reflexivity].
Qed.

Lemma same_onAck s header decode w : same w (onAck env s header decode w).
Proof.
  unfold onAck. destruct (ID header) as [id|], (sv_sockets w !! s_ptr s) as [x|]; try apply same_error.
  destruct (if bool_decide _ then _ else _) as [ack|]; [|apply same_error]. cbn zeta.
  eapply same_trans; [apply (same_upd_socket s (fun x => set_acks (ss_acks x ∖ {[id]}) (ss_ackHandlers x) x)); reflexivity|].
  destruct (decode _) as [values|]; [|apply same_error]. destruct (convert_values _ _) as [values'|]; [|apply same_error].
  destruct (ack_call _ _ _) as [[ack' called] err].
  eapply same_trans; [apply (same_upd_socket s (fun x => set_acks (ss_acks x) (<[id:=ack']> (ss_ackHandlers x)) x)); reflexivity|].
  destruct called, err; try apply same_error; try reflexivity; [|apply same_emits; by repeat constructor].
  eapply same_trans; [apply same_emits|apply same_error]. by repeat constructor.
Qed.

Lemma same_ack_expired s id w : same w (ack_expired s id w).
Proof.
  unfold ack_expired. destruct (sv_sockets w !! s_ptr s) as [x|]; [|reflexivity].
  destruct (ss_ackHandlers x !! id) as [h|]; [|reflexivity]. destruct (ack_timeout h) as [h' effects].
  destruct effects; [reflexivity|]. eapply same_trans; [|apply same_emits; by repeat constructor].
  by apply same_upd_socket.
Qed.

Lemma same_Leave room s w : same w (Leave room s w).
Proof. apply same_upd_adapter; [intros a; apply ad_ok_Delete|intros a room' sid; apply ad_in_Delete]. Qed.

Lemma same_emit name timeout v s w w' : emit env any_of event_arg name timeout v s w = Ret w' -> same w w'.
Proof.
  unfold emit. destruct (IsEventReservedForServer name); [done|]. destruct (last _) as [f|]; [|done].
  assert (forall id v w, same w (if RecoveryEnabled (sv_config w) then
      emits [EBroadcast s (mkPacketHeader PacketTypeEvent (s_nsp s) id 0) v]
        (upd_adapter (s_nsp s) (ad_Broadcast (mkPacketHeader PacketTypeEvent (s_nsp s) id 0) v (s_id s)) w)
      else encode_and_send env s (mkPacketHeader PacketTypeEvent (s_nsp s) id 0) (PEvent v) w)) as HS.
  { intros i l w0. destruct (RecoveryEnabled _); [|apply same_encode_and_send].
    eapply same_trans; [apply same_upd_adapter|apply same_emits; by repeat constructor].
    - intros a. apply ad_ok_Broadcast.
    - intros a room sid. by rewrite ad_in_Broadcast. }
  destruct (any_of f) as [|ptr params n|]; [by intros [= <-]; apply HS| |by intros [= <-]; apply HS].
  intros ([w1 i] & HR & [= <-])%outcome_bind_Ret. eapply same_trans; [|apply HS].
  unfold registerAckHandler, nextAckID in HR.
  destruct (sv_namespaces w !! s_nsp s) as [n0|];
    (destruct (if (timeout =? 0)%Z then _ else _) as [h| |]; [|done..]); injection HR as <- <-.
  - destruct (timeout =? 0)%Z; [|eapply same_trans; [|by apply same_go]];
      (eapply same_trans; [|by apply same_upd_socket]); apply same_upd_nsp; intros n1; repeat split; auto.
  - destruct (timeout =? 0)%Z; [|eapply same_trans; [|by apply same_go]]; by apply same_upd_socket.
Qed.

(** ** Rooms *)

Lemma in_nsp_connected D w s : inv D w -> in_nsp s w -> known s w /\ Connected s w = true.
Proof. intros I (n & Hn & Hs). by destruct (i_nsp _ _ I _ _ Hn) as (_ & Hns & _); destruct (Hns _ _ Hs) as (_ & _ & ? & ? & _). Qed.

Lemma connected_in_nsp D w s : inv D w -> known s w -> Connected s w = true -> in_nsp s w.
Proof.
  intros I (x & Hx & Es) Hc. unfold Connected in Hc. rewrite Hx in Hc.
  destruct (i_object _ _ I _ _ Hx) as [_ Ho]. rewrite <- Es. by apply Ho.
Qed.

Lemma same_Join D rooms s w :
  inv D w -> announced s w -> same w (Join rooms s w).
Proof.
  intros I Ha. destruct (i_announced _ _ I s Ha) as (x & Hx & Es & Hj). unfold Join. rewrite Hx.
  destruct (ss_joins x) eqn:Ej; [|reflexivity]. destruct Hj as [Hc|]; [|done].
  destruct (i_object _ _ I _ _ Hx) as [_ Ho]. destruct (Ho Hc) as [_ (n0 & Hn0 & Hs0)]. rewrite Es in Hn0, Hs0.
  destruct (same_refl w) as [S1 S2 S3 S4 S5 S6 S7]. constructor; try assumption.
  intros name. cbn. destruct (decide (name = s_nsp s)) as [->|Hne].
  - rewrite lookup_alter_eq, Hn0. cbn. constructor. split; [done|]. split; cbn; [apply ad_ok_AddAll|].
    intros room sid. rewrite ad_in_AddAll. intros [?|Hd]%orb_prop; [by left|]. apply bool_decide_eq_true in Hd as [-> _].
    right. by exists s.
  - rewrite lookup_alter_ne by done. apply S5.
Qed.

(** ** Closing a socket *)

Definition removed_from (s : serverSocket) (c : serverConn) : serverConn :=
  match getByID (s_id s) (sc_sockets c) with
  | Some _ => mkConn (removeByID s_nsp (s_id s) (sc_sockets c)) (sc_nsps c ∖ {[s_nsp s]}) (sc_closed c) (sc_eioClosed c)
  | None => c
  end.

Definition left_by (s : serverSocket) (n : @Namespace Ad NM) : Namespace :=
  mkNamespace (delete (s_id s) (n_sockets n)) (ad_DeleteAll (s_id s) (n_adapter n)) (n_ackID n) (n_middlewares n).

Definition closed_state (reason : string) s w : Server V A Ad NM SM :=
  mkServer (sv_config w) (alter (left_by s) (s_nsp s) (sv_namespaces w)) (alter (removed_from s) (s_conn s) (sv_conns w))
    (alter (fun x => set_connected false (stop_joins (set_closed x))) (s_ptr s) (sv_sockets w)) (sv_ids w) (sv_tasks w) (sv_cells w)
    ((sv_out w ++ [EDisconnecting s reason]) ++ [EDisconnect s reason]).

(** The updates of a state that is given by its fields. *)
Lemma emits_mk l (cfg : ServerConfig) (ns : gmap string (@Namespace Ad NM)) cs (ss : list (@socketState SM)) ids ts cells out :
  emits (V := V) (A := A) l (mkServer cfg ns cs ss ids ts cells out) = mkServer cfg ns cs ss ids ts cells (out ++ l).
Proof. reflexivity. Qed.

Lemma upd_socket_mk s f (cfg : ServerConfig) (ns : gmap string (@Namespace Ad NM)) cs (ss : list (@socketState SM)) ids ts cells out :
  upd_socket (V := V) (A := A) s f (mkServer cfg ns cs ss ids ts cells out) = mkServer cfg ns cs (alter f (s_ptr s) ss) ids ts cells out.
Proof. reflexivity. Qed.

Lemma leaveAll_mk s (cfg : ServerConfig) (ns : gmap string (@Namespace Ad NM)) cs (ss : list (@socketState SM)) ids ts cells out :
  leaveAll (V := V) (A := A) s (mkServer cfg ns cs ss ids ts cells out) =
  mkServer cfg (alter (fun n => mkNamespace (n_sockets n) (ad_DeleteAll (s_id s) (n_adapter n)) (n_ackID n) (n_middlewares n)) (s_nsp s) ns)
    cs ss ids ts cells out.
Proof. reflexivity. Qed.

Lemma nsp_remove_mk s (cfg : ServerConfig) (ns : gmap string (@Namespace Ad NM)) cs (ss : list (@socketState SM)) ids ts cells out :
  nsp_remove (V := V) (A := A) s (mkServer cfg ns cs ss ids ts cells out) =
  mkServer cfg (alter (fun n => mkNamespace (delete (s_id s) (n_sockets n)) (n_adapter n) (n_ackID n) (n_middlewares n)) (s_nsp s) ns)
    cs ss ids ts cells out.
Proof. reflexivity. Qed.

Lemma conn_remove_mk s (cfg : ServerConfig) (ns : gmap string (@Namespace Ad NM)) cs (ss : list (@socketState SM)) ids ts cells out :
  conn_remove (V := V) (A := A) s (mkServer cfg ns cs ss ids ts cells out) =
  mkServer cfg ns (alter (removed_from s) (s_conn s) cs) ss ids ts cells out.
Proof. reflexivity. Qed.

(** What [onClose] amounts to when sessions are not kept. *)
Lemma onClose_eq reason s w x :
  RecoveryEnabled (sv_config w) = false -> sv_sockets w !! s_ptr s = Some x ->
  onClose reason s w =
    if ss_closed x then w else if ss_connected x then closed_state reason s w else upd_socket s set_closed w.
Proof.
  destruct w as [cfg ns cs ss ids ts cells out]. unfold closed_state, onClose.
  cbn [sv_config sv_namespaces sv_conns sv_sockets sv_ids sv_tasks sv_cells sv_out]. intros HR ->.
  destruct (ss_closed x); [done|]. destruct (ss_connected x); [|done]. cbn [negb]. cbv zeta.
  rewrite upd_socket_mk, emits_mk. cbn [sv_config]. rewrite HR. cbn [andb].
  rewrite upd_socket_mk, leaveAll_mk, nsp_remove_mk, conn_remove_mk, upd_socket_mk, emits_mk.
  rewrite !list_alter_alter_eq, alter_alter_eq. reflexivity.
Qed.

Lemma known_unique D w s s' : inv D w -> known s w -> known s' w -> s_id s = s_id s' -> s = s'.
Proof.
  intros I (x & Hx & Ex) (y & Hy & Ey) E. assert (s_ptr s = s_ptr s') as Ep.
  { eapply (i_unique _ _ I); [exact Hx|exact Hy|]. by rewrite Ex, Ey. }
  rewrite Ep in Hx. congruence.
Qed.

Lemma known_ptr w s s' : known s w -> known s' w -> s_ptr s = s_ptr s' -> s = s'.
Proof. intros (x & Hx & Ex) (y & Hy & Ey) E. rewrite E in Hx. congruence. Qed.

Lemma closed_known reason s s' w : known s' w -> known s' (closed_state reason s w).
Proof.
  intros (x & Hx & Es). destruct (decide (s_ptr s' = s_ptr s)) as [E|Hne].
  - exists (set_connected false (stop_joins (set_closed x))). cbn. by rewrite <- E, list_lookup_alter_eq, Hx.
  - exists x. cbn. by rewrite list_lookup_alter_ne.
Qed.

Lemma closed_in_nsp reason D s s' w :
  inv D w -> known s w -> s' <> s -> in_nsp s' w -> in_nsp s' (closed_state reason s w).
Proof.
  intros I Hk Hne Hs'. destruct (in_nsp_connected _ _ _ I Hs') as [Hk' _]. destruct Hs' as (n & Hn & Hs').
  assert (s_id s' <> s_id s) as Hid by (intros E; apply Hne; by eapply known_unique).
  unfold in_nsp. cbn. destruct (decide (s_nsp s' = s_nsp s)) as [E|Hd].
  - exists (left_by s n). rewrite <- E, lookup_alter_eq, Hn. split; [done|]. cbn. by rewrite lookup_delete_ne.
  - exists n. by rewrite lookup_alter_ne by done.
Qed.

Lemma closed_connected reason s s' w :
  known s w -> known s' w -> s' <> s -> Connected s' (closed_state reason s w) = Connected s' w.
Proof.
  intros Hk Hk' Hne. unfold Connected. cbn. rewrite list_lookup_alter_ne; [done|]. intros E. by apply Hne, (known_ptr w).
Qed.

Lemma closed_in_conn reason D s s' w :
  inv D w -> known s w -> known s' w -> s' <> s -> in_conn s' w -> in_conn s' (closed_state reason s w).
Proof.
  intros I Hk Hk' Hne (x & Hx & Hcl & Hs').
  assert (s_id s' <> s_id s) as Hid by (intros E; apply Hne; by eapply known_unique).
  unfold in_conn. cbn. destruct (decide (s_conn s' = s_conn s)) as [E|Hd].
  - exists (removed_from s x). rewrite <- E, list_lookup_alter_eq, Hx. split; [done|]. unfold removed_from.
    destruct (getByID (s_id s) (sc_sockets x)) as [s0|] eqn:Eg; [|done]. split; [done|]. unfold removeByID, getByID in *. rewrite Eg.
    cbn. by rewrite lookup_delete_ne.
  - exists x. by rewrite list_lookup_alter_ne by done.
Qed.

Lemma closed_inv reason D s w :
  inv D w -> known s w -> Connected s w = true -> inv (fun x => D x /\ x <> s) (closed_state reason s w).
Proof.
  intros I Hk Hc. assert (I0 := I). destruct I as [I1 I2 I3 I4 IU I5 I6 I7 I8].
  pose proof (connected_in_nsp _ _ _ I0 Hk Hc) as (n0 & Hn0 & Hs0). constructor; cbn; try assumption.
  - intros c x' Hx'. apply list_lookup_alter_Some in Hx' as [(-> & x & Hx & ->)|[Hne Hx]].
    + destruct (I2 _ _ Hx) as (Hco & Hcl & Hs). unfold removed_from. destruct (getByID (s_id s) (sc_sockets x)) as [s1|] eqn:Eg; cbn.
      * split; [by apply consistent_remove|]. split; [intros Hc'; rewrite (Hcl Hc') in Eg; unfold getByID in Eg; cbn in Eg; by rewrite lookup_empty in Eg|].
        intros sid s' Hs'. unfold removeByID, getByID in *. rewrite Eg in Hs'. cbn in Hs'. apply lookup_delete_Some in Hs' as [Hne Hs'].
        destruct (Hs _ _ Hs') as [? ?]. split; [done|]. eapply closed_in_nsp; [done..| |done].
        intros ->. destruct Hco as [Hco _]. destruct (Hco _ _ Hs') as [E _]. congruence.
      * split; [done|]. split; [done|]. intros sid s' Hs'. destruct (Hs _ _ Hs') as [? ?]. split; [done|].
        eapply closed_in_nsp; [done..| |done]. intros ->. destruct Hco as [Hco _]. destruct (Hco _ _ Hs') as [E _].
        unfold getByID in Eg. congruence.
    + destruct (I2 _ _ Hx) as (Hco & Hcl & Hs). split; [done|]. split; [done|]. intros sid s' Hs'. destruct (Hs _ _ Hs') as [? ?].
      split; [done|]. eapply closed_in_nsp; [done..| |done]. intros ->. congruence.
  - assert (forall name n sid s', sv_namespaces w !! name = Some n -> n_sockets n !! sid = Some s' -> s' <> s ->
      s_id s' = sid /\ s_nsp s' = name /\ known s' (closed_state reason s w) /\
      Connected s' (closed_state reason s w) = true /\ (in_conn s' (closed_state reason s w) \/ (D s' /\ s' <> s))) as HX.
    { intros name n sid s' Hn Hs' Hne. destruct (I3 _ _ Hn) as (_ & Hs & _). destruct (Hs _ _ Hs') as (? & ? & Hk' & Hc' & HD).
      split; [done|]. split; [done|]. split; [by apply closed_known|]. split; [by rewrite closed_connected|].
      destruct HD as [Hic|HD]; [left; by eapply closed_in_conn|right; done]. }
    intros name n' Hn'. apply lookup_alter_Some in Hn' as [(<- & n & Hn & ->)|[Hne Hn]].
    + destruct (I3 _ _ Hn) as (Ha & Hs & Hr). split; [by apply ad_ok_DeleteAll|]. cbn. split.
      * intros sid s' [Hne Hs']%lookup_delete_Some. eapply HX; [exact Hn|exact Hs'|]. intros ->.
        destruct (Hs _ _ Hs') as [? _]. congruence.
      * intros room sid. rewrite ad_in_DeleteAll by done. intros [Hin Hne]%andb_prop. apply bool_decide_eq_true in Hne.
        rewrite lookup_delete_ne by done. by eapply Hr.
    + destruct (I3 _ _ Hn) as (Ha & Hs & Hr). split; [done|]. split; [|done].
      intros sid s' Hs'. eapply HX; [exact Hn|exact Hs'|]. intros ->. destruct (Hs _ _ Hs') as (_ & ? & _). congruence.
  - intros p x' Hx'. apply list_lookup_alter_Some in Hx' as [(-> & x & Hx & ->)|[Hne Hx]].
    + cbn. split; [by apply I4|done].
    + destruct (I4 _ _ Hx) as [Ep Ho]. split; [done|]. intros Hcx. destruct (Ho Hcx). split; [done|].
      eapply closed_in_nsp; [done..| |done]. intros <-. congruence.
  - intros p q x' y' Hx' Hy'.
    assert (forall p x', alter (fun x => set_connected false (stop_joins (set_closed x))) (s_ptr s) (sv_sockets w) !! p = Some x' ->
      exists x, sv_sockets w !! p = Some x /\ ss_socket x' = ss_socket x) as HY.
    { intros p0 x0 [(-> & x & Hx & ->)|[Hne Hx]]%list_lookup_alter_Some; eauto. }
    destruct (HY _ _ Hx') as (x & Hx & ->), (HY _ _ Hy') as (y & Hy & ->). by eapply IU.
  - intros i p x' Hi [(-> & x & Hx & ->)|[Hne Hx]]%list_lookup_alter_Some; [cbn|]; by eapply I6.
  - intros s' Hs'. destruct (I7 s') as (x & Hx & Es & Hj).
    { destruct Hs' as [Hs'|Hs']; [left|by right]. unfold given in *. cbn in Hs'. rewrite !elem_of_app in Hs'.
      by destruct Hs' as [[?|Hf]|Hf]; [|apply list_elem_of_singleton in Hf..]. }
    destruct (decide (s_ptr s' = s_ptr s)) as [E|Hne].
    + eexists. rewrite <- E, list_lookup_alter_eq, Hx. cbn. split; [reflexivity|]. split; [done|]. by right.
    + exists x. by rewrite list_lookup_alter_ne.
Qed.

(** A socket that was never connected is marked as closed. *)
Lemma set_closed_inv D s w : inv D w -> Connected s w = false -> inv D (upd_socket s set_closed w).
Proof.
  intros I Hc. destruct I as [I1 I2 I3 I4 IU I5 I6 I7 I8].
  assert (forall p x', sv_sockets (upd_socket s set_closed w) !! p = Some x' ->
    exists x, sv_sockets w !! p = Some x /\ ss_socket x' = ss_socket x /\ ss_connected x' = ss_connected x /\
      (ss_connected x = true -> ss_closed x' = ss_closed x)) as HV.
  { intros p x' [(-> & x & Hx & ->)|[Hne Hx]]%list_lookup_alter_Some; [exists x|exists x'; done].
    repeat (split; [done|]). unfold Connected in Hc. rewrite Hx in Hc. congruence. }
  assert (forall s', known s' w -> known s' (upd_socket s set_closed w)) as HK.
  { intros s' (x & Hx & Es). destruct (decide (s_ptr s' = s_ptr s)) as [E|Hne].
    - exists (set_closed x). cbn. by rewrite <- E, list_lookup_alter_eq, Hx.
    - exists x. cbn. by rewrite list_lookup_alter_ne. }
  assert (forall s', Connected s' w = true -> Connected s' (upd_socket s set_closed w) = true) as HC.
  { intros s'. unfold Connected. cbn. destruct (decide (s_ptr s' = s_ptr s)) as [->|Hne].
    - rewrite list_lookup_alter_eq. by destruct (sv_sockets w !! s_ptr s).
    - by rewrite list_lookup_alter_ne. }
  constructor; try assumption.
  - intros name n Hn. destruct (I3 _ _ Hn) as (Ha & Hs & Hr). split; [done|]. split; [|done].
    intros sid s' Hs'. destruct (Hs _ _ Hs') as (? & ? & ? & ? & ?). repeat (split; [by auto|]). done.
  - intros p x' Hx'. destruct (HV _ _ Hx') as (x & Hx & E1 & E2 & E3). destruct (I4 _ _ Hx) as [Hp Ho].
    rewrite E1, E2. split; [done|]. intros Hcx. destruct (Ho Hcx). by rewrite (E3 Hcx).
  - intros p q x' y' Hx' Hy'. destruct (HV _ _ Hx') as (x & Hx & -> & _), (HV _ _ Hy') as (y & Hy & -> & _). by eapply IU.
  - intros i p x' Hi Hx'. destruct (HV _ _ Hx') as (x & Hx & -> & _). by eapply I6.
  - intros s' Hs'. destruct (I7 s' Hs') as (x & Hx & Es & Hj). cbn. destruct (decide (s_ptr s' = s_ptr s)) as [E|Hne].
    + exists (set_closed x). by rewrite <- E, list_lookup_alter_eq, Hx.
    + exists x. by rewrite list_lookup_alter_ne.
Qed.

(** Closing a socket removes it from [D]. *)
Definition minus (D : serverSocket -> Prop) s : serverSocket -> Prop := fun x => D x /\ x <> s.

Lemma inv_minus D s w : inv D w -> Connected s w = false -> inv (minus D s) w.
Proof.
  intros I Hc. eapply inv_mono; [|exact I]. intros x Hx HD. split; [done|]. intros ->.
  destruct (in_nsp_connected _ _ _ I Hx). congruence.
Qed.

Definition closes (f : serverSocket -> Server V A Ad NM SM -> Server V A Ad NM SM) : Prop :=
  forall D s w, inv D w -> known s w -> inv (minus D s) (f s w) /\ forall s', known s' w -> known s' (f s w).

Lemma closes_onClose reason : closes (onClose reason).
Proof.
  intros D s w I Hk. assert (Hk' := Hk). destruct Hk' as (x & Hx & Es). rewrite (onClose_eq reason s w x (i_recovery _ _ I) Hx).
  assert (Connected s w = ss_connected x) as Ec by (unfold Connected; by rewrite Hx).
  destruct (i_object _ _ I _ _ Hx) as [_ Ho].
  destruct (ss_closed x) eqn:Ecl; [|destruct (ss_connected x) eqn:Ecn].
  - split; [|done]. apply inv_minus; [done|]. rewrite Ec. destruct (ss_connected x); [by destruct (Ho eq_refl)|done].
  - split; [by apply closed_inv|]. intros s'. apply closed_known.
  - split.
    + assert (inv D (upd_socket s set_closed w)) as I' by (by apply set_closed_inv). apply inv_minus; [done|].
      unfold Connected. cbn. rewrite list_lookup_alter_eq, Hx. cbn. done.
    + intros s' (y & Hy & Ey). destruct (decide (s_ptr s' = s_ptr s)) as [E|Hne].
      * exists (set_closed y). cbn. by rewrite <- E, list_lookup_alter_eq, Hy.
      * exists y. cbn. by rewrite list_lookup_alter_ne.
Qed.

Lemma closes_disconnect_nsp : closes (disconnect_nsp env).
Proof.
  intros D s w I Hk. unfold disconnect_nsp. destruct (Connected s w) eqn:Ec.
  - pose proof (same_encode_and_send s (mkPacketHeader PacketTypeDisconnect (s_nsp s) None 0) PNil w) as S.
    unfold sendControlPacket. destruct (closes_onClose ReasonServerNamespaceDisconnect D s _ (same_inv _ _ _ S I) (same_known _ _ _ S Hk)) as [I' Hk'].
    split; [exact I'|]. intros s' Hs'. by apply Hk', (same_known _ _ _ S).
  - split; [by apply inv_minus|done].
Qed.

Lemma fold_closes f l D w :
  closes f -> inv D w -> (forall s, s ∈ l -> known s w) ->
  inv (fun x => D x /\ x ∉ l) (fold_left (fun w s => f s w) l w).
Proof.
  intros Hf. revert D w. induction l as [|s l IH]; intros D w I Hk; cbn.
  - eapply inv_mono; [|exact I]. intros x _ HD. split; [done|]. apply not_elem_of_nil.
  - destruct (Hf D s w I) as [I' Hk']; [apply Hk; by constructor|].
    eapply inv_mono; [|apply (IH _ _ I')].
    + intros x _ [[HD Hne] Hl]. split; [done|]. rewrite elem_of_cons. tauto.
    + intros s' Hs'. apply Hk', Hk. by constructor.
Qed.

(** ** Closing a connection *)

(** The sockets of a connection leave its store. *)
Lemma detach_inv D c g w :
  order_ok -> inv D w -> (forall x, sc_sockets (g x) = newServerSocketStore) ->
  inv (fun s => D s \/ s ∈ conn_sockets env c w) (upd_conn c g w).
Proof.
  intros HO I Hg. destruct I as [I1 I2 I3 I4 IU I5 I6 I7 I8]. constructor; try assumption.
  - intros c' x' [(-> & x & Hx & ->)|[Hne Hx]]%list_lookup_alter_Some; [|by apply I2].
    rewrite Hg. split; [apply consistent_new|]. split; [done|]. intros sid s. cbn. by rewrite lookup_empty.
  - intros name n Hn. destruct (I3 _ _ Hn) as (Ha & Hs & Hr). split; [done|]. split; [|done].
    intros sid s Hsid. destruct (Hs _ _ Hsid) as (E1 & E2 & ? & ? & HD). repeat (split; [done|]).
    destruct HD as [(x & Hx & Hcl & Hin)|?]; [|right; by left].
    destruct (decide (s_conn s = c)) as [E|Hne].
    + right. right. unfold conn_sockets. rewrite <- E, Hx. apply HO. eauto.
    + left. exists x. cbn. by rewrite list_lookup_alter_ne.
Qed.

Lemma conn_sockets_known D c w s : order_ok -> inv D w -> s ∈ conn_sockets env c w -> known s w.
Proof.
  intros HO I. unfold conn_sockets. destruct (sv_conns w !! c) as [x|] eqn:Ex; [|by intros ?%not_elem_of_nil].
  intros [sid Hs]%HO. destruct (i_conn _ _ I _ _ Ex) as (_ & _ & Hin). destruct (Hin _ _ Hs) as [_ Hn].
  by destruct (in_nsp_connected _ _ _ I Hn).
Qed.

Lemma known_upd_conn c g w s : known s w -> known s (upd_conn c g w).
Proof. done. Qed.

Lemma detach_fold f c g w :
  order_ok -> closes f -> inv (fun _ => False) w -> (forall x, sc_sockets (g x) = newServerSocketStore) ->
  inv (fun _ => False) (fold_left (fun w s => f s w) (conn_sockets env c w) (upd_conn c g w)).
Proof.
  intros HO Hf I Hg. eapply inv_mono; [|apply (fold_closes f _ (fun s => False \/ s ∈ conn_sockets env c w))].
  - intros x _ [[[]|Hx] Hn]. by destruct (Hn Hx).
  - exact Hf.
  - by apply detach_inv.
  - intros s Hs. apply known_upd_conn. by eapply conn_sockets_known.
Qed.

Lemma upd_conn_compose c f g w : upd_conn c f (upd_conn c g w) = upd_conn c (fun x => f (g x)) w.
Proof. destruct w. unfold upd_conn, upd_conns. cbn. f_equal. apply list_alter_alter_eq. Qed.

Lemma inv_conn_onClose reason c w : order_ok -> inv (fun _ => False) w -> inv (fun _ => False) (conn_onClose env reason c w).
Proof.
  intros HO I. unfold conn_onClose. destruct (sv_conns w !! c) as [x|] eqn:Ex; [|done]. destruct (sc_closed x); [done|].
  eapply same_inv; [apply same_emits; by repeat constructor|]. unfold for_each_removed. cbn zeta. rewrite upd_conn_compose.
  replace (conn_sockets env c (upd_conn c (fun x => mkConn (sc_sockets x) (sc_nsps x) true (sc_eioClosed x)) w))
    with (conn_sockets env c w); [apply detach_fold; [done|apply closes_onClose|done|done]|].
  unfold conn_sockets. cbn. by rewrite list_lookup_alter_eq, Ex.
Qed.

(** The flags of a connection that the invariant does not speak of. *)
Lemma inv_upd_conn D c g w :
  (forall x, sc_sockets (g x) = sc_sockets x /\ sc_closed (g x) = sc_closed x) -> inv D w -> inv D (upd_conn c g w).
Proof.
  intros Hg [I1 I2 I3 I4 IU I5 I6 I7 I8]. constructor; try assumption.
  - intros c' x' [(-> & x & Hx & ->)|[Hne Hx]]%list_lookup_alter_Some; [|by apply I2].
    destruct (Hg x) as [-> ->]. by apply I2.
  - intros name n Hn. destruct (I3 _ _ Hn) as (Ha & Hs & Hr). split; [done|]. split; [|done].
    intros sid s Hsid. destruct (Hs _ _ Hsid) as (? & ? & ? & ? & HD). repeat (split; [done|]).
    destruct HD as [(x & Hx & Hcl & Hin)|?]; [left|by right]. destruct (decide (s_conn s = c)) as [E|Hne].
    + exists (g x). cbn. rewrite <- E, list_lookup_alter_eq, Hx. destruct (Hg x) as [-> ->]. done.
    + exists x. cbn. by rewrite list_lookup_alter_ne.
Qed.

Lemma inv_eio_closed reason c w : order_ok -> inv (fun _ => False) w -> inv (fun _ => False) (eio_closed env reason c w).
Proof.
  intros HO I. unfold eio_closed. destruct (sv_conns w !! c); [|done]. destruct (sc_eioClosed _); [done|].
  apply inv_conn_onClose; [done|]. by apply inv_upd_conn.
Qed.

Lemma inv_conn_close c w : order_ok -> inv (fun _ => False) w -> inv (fun _ => False) (conn_close env c w).
Proof.
  intros HO I. apply inv_conn_onClose; [done|]. eapply same_inv; [apply same_emits; by repeat constructor|].
  by apply inv_eio_closed.
Qed.

Lemma inv_disconnectAll c w : order_ok -> inv (fun _ => False) w -> inv (fun _ => False) (disconnectAll env c w).
Proof. intros HO I. apply detach_fold; [done|apply closes_disconnect_nsp|done|done]. Qed.

Lemma inv_Disconnect close s w : order_ok -> inv (fun _ => False) w -> known s w -> inv (fun _ => False) (Disconnect env close s w).
Proof.
  intros HO I Hk. unfold Disconnect. destruct (negb (Connected s w)); [done|]. destruct close.
  - by apply inv_conn_close, inv_disconnectAll.
  - destruct (closes_disconnect_nsp _ s w I Hk) as [I' _]. eapply inv_mono; [|exact I']. by intros x _ [[] _].
Qed.

(** ** Connecting *)

Lemma inv_new_nsp D name w :
  sv_namespaces w !! name = None -> inv D w -> inv D (upd_namespaces (insert name newNamespace) w).
Proof.
  intros Hn [I1 I2 I3 I4 IU I5 I6 I7 I8].
  assert (forall s, in_nsp s w -> in_nsp s (upd_namespaces (insert name newNamespace) w)) as HN.
  { intros s (n & Hs & Hi). exists n. cbn. split; [|done]. rewrite lookup_insert_ne; [done|]. intros ->. congruence. }
  constructor; try assumption.
  - intros c x Hx. destruct (I2 _ _ Hx) as (? & ? & Hs). split; [done|]. split; [done|]. intros sid s Hsid.
    destruct (Hs _ _ Hsid). auto.
  - cbn. intros name' n' [[<- <-]|[Hne Hn']]%lookup_insert_Some; [|by apply I3]. cbn. split; [apply ad_ok_new|]. split.
    + intros sid s. by rewrite lookup_empty.
    + intros room sid. by rewrite ad_in_new.
  - intros p x Hx. destruct (I4 _ _ Hx) as [Hp Ho]. split; [done|]. intros Hc. destruct (Ho Hc). auto.
Qed.

Definition unused (id : string) w : Prop := forall p x, sv_sockets w !! p = Some x -> s_id (ss_socket x) <> id.

Lemma generate_inv D w :
  inv D w -> let '(w', r) := GenerateBase64ID w in
  inv D w' /\ sv_namespaces w' = sv_namespaces w /\ sv_conns w' = sv_conns w /\ sv_config w' = sv_config w /\
  forall id, r = Some id -> unused id w' /\ Some id ∉ sv_ids w'.
Proof.
  intros I. unfold GenerateBase64ID. destruct (sv_ids w) as [|o ids] eqn:E; [split; [exact I|]; done|].
  pose proof (i_ids _ _ I) as HN. pose proof (i_fresh _ _ I) as HF. rewrite E in HN, HF. split.
  - destruct I as [I1 I2 I3 I4 IU I5 I6 I7 I8]. constructor; try assumption.
    + cbn. destruct o; cbn in HN; [by apply NoDup_cons in HN as [_ ?]|done].
    + intros i p x Hi. cbn in Hi. apply HF. by constructor.
  - split; [done|]. split; [done|]. split; [done|]. intros id ->. split.
    + intros p x Hx. eapply HF; [by constructor|exact Hx].
    + cbn in *. apply NoDup_cons in HN as [Hn _]. intros Hi. apply Hn. apply list_elem_of_omap. by exists (Some id).
Qed.

Lemma alloc_inv D id pid recovered nsp c w :
  inv D w -> unused id w -> Some id ∉ sv_ids w ->
  let '(w', s) := alloc id pid recovered nsp c w in
  inv D w' /\ sv_sockets w' !! s_ptr s = Some (newSocketState s) /\ s_id s = id /\ s_nsp s = nsp /\ s_conn s = c /\
  s_recovered s = recovered /\
  sv_namespaces w' = sv_namespaces w /\ sv_conns w' = sv_conns w /\ sv_config w' = sv_config w.
Proof.
  intros I HU Hid. unfold alloc. set (s := mkSocket _ _ _ _ _ _).
  assert (forall p x, (sv_sockets w ++ [newSocketState (SM := SM) s]) !! p = Some x ->
    sv_sockets w !! p = Some x \/ (p = length (sv_sockets w) /\ x = newSocketState s)) as HV.
  { intros p x Hx. apply lookup_app_Some in Hx as [Hx|[Hl Hx]]; [by left|]. right.
    apply list_lookup_singleton_Some in Hx as [E <-]. split; [lia|done]. }
  assert (forall p x, sv_sockets w !! p = Some x -> (sv_sockets w ++ [newSocketState (SM := SM) s]) !! p = Some x) as HL
    by (intros p x; apply lookup_app_l_Some).
  split; [|cbn; rewrite lookup_app_r, Nat.sub_diag by done; done].
  destruct I as [I1 I2 I3 I4 IU I5 I6 I7 I8]. constructor; try assumption; cbn.
  - intros name n Hn. destruct (I3 _ _ Hn) as (? & Hs & ?). split; [done|]. split; [|done].
    intros sid s' Hs'. destruct (Hs _ _ Hs') as (? & ? & (y & Hy & Ey) & Hc & ?). repeat (split; [done|]).
    split; [exists y; auto|]. split; [|done]. unfold Connected in *. cbn. rewrite Hy in Hc. by rewrite (HL _ _ Hy).
  - intros p x [Hx|[-> ->]]%HV; [by apply I4|done].
  - intros p q x y [Hx|[-> ->]]%HV [Hy|[-> ->]]%HV; cbn; [by eapply IU| | |done].
    + intros E. by destruct (HU _ _ Hx).
    + intros E. by destruct (HU _ _ Hy).
  - intros i p x Hi [Hx|[-> ->]]%HV; [by eapply I6|]. cbn. intros ->. done.
  - intros s' Hs'. destruct (I7 s' Hs') as (x & Hx & ?). exists x. auto.
Qed.

(** [doConnect], without the packet that is sent and the goroutine that is started. *)
Definition joined_by (s : serverSocket) (n : @Namespace Ad NM) : Namespace :=
  mkNamespace (<[s_id s := s]> (n_sockets n)) (ad_AddAll (s_id s) [s_id s] (n_adapter n)) (n_ackID n) (n_middlewares n).

Definition connected_state s w : Server V A Ad NM SM :=
  upd_socket s (set_connected true) (upd_nsp (s_nsp s) (joined_by s) w).

Lemma connected_inv D s w x n :
  inv D w -> sv_sockets w !! s_ptr s = Some x -> ss_socket x = s -> ss_connected x = false -> ss_closed x = false ->
  sv_namespaces w !! s_nsp s = Some n -> n_sockets n !! s_id s = None ->
  inv (fun s' => D s' \/ s' = s) (connected_state s w).
Proof.
  intros I Hx Es Hco Hcl Hn Hid. destruct I as [I1 I2 I3 I4 IU I5 I6 I7 I8].
  assert (forall p y', sv_sockets (connected_state s w) !! p = Some y' ->
    (p = s_ptr s /\ y' = set_connected true x) \/ (p <> s_ptr s /\ sv_sockets w !! p = Some y')) as HV.
  { intros p y' [(-> & y & Hy & ->)|[Hne Hy]]%list_lookup_alter_Some; [left|right; done]. cbn in Hy. by rewrite Hx in Hy; injection Hy as <-. }
  assert (sv_sockets (connected_state s w) !! s_ptr s = Some (set_connected true x)) as Hs by (cbn; by rewrite list_lookup_alter_eq, Hx).
  assert (forall p, p <> s_ptr s -> sv_sockets (connected_state s w) !! p = sv_sockets w !! p) as Hns
    by (intros p Hp; cbn; by rewrite list_lookup_alter_ne).
  assert (in_nsp s (connected_state s w)) as Hin.
  { exists (joined_by s n). cbn. rewrite lookup_alter_eq, Hn. split; [done|]. cbn. by rewrite lookup_insert_eq. }
  assert (forall s', in_nsp s' w -> in_nsp s' (connected_state s w)) as HN.
  { intros s' (n' & Hn' & Hi). unfold in_nsp. cbn. destruct (decide (s_nsp s' = s_nsp s)) as [E|Hne].
    - exists (joined_by s n'). rewrite <- E, lookup_alter_eq, Hn'. split; [done|]. cbn. rewrite lookup_insert_ne; [done|].
      intros E'. rewrite E, Hn in Hn'. injection Hn' as <-. rewrite E', Hi in Hid. done.
    - exists n'. by rewrite lookup_alter_ne by done. }
  assert (forall s', known s' w -> Connected s' w = true ->
    known s' (connected_state s w) /\ Connected s' (connected_state s w) = true) as HK.
  { intros s' (y & Hy & Ey) Hc. unfold Connected in *. rewrite Hy in Hc.
    destruct (decide (s_ptr s' = s_ptr s)) as [E|Hne]; [rewrite E in Hy; congruence|].
    unfold known. rewrite !Hns by done. rewrite Hy. eauto. }
  constructor; try assumption.
  - intros c y Hy. destruct (I2 _ _ Hy) as (? & ? & Hss). split; [done|]. split; [done|]. intros sid s' Hs'.
    destruct (Hss _ _ Hs'). auto.
  - intros name n'. cbn. intros [(<- & n0 & Hn0 & ->)|[Hne Hn']]%lookup_alter_Some.
    + rewrite Hn in Hn0. injection Hn0 as <-. destruct (I3 _ _ Hn) as (Ha & Hss & Hr). cbn. split; [by apply ad_ok_AddAll|]. split.
      * intros sid s' [[<- <-]|[Hne Hs']]%lookup_insert_Some.
        -- repeat (split; [done|]). split; [by exists (set_connected true x)|]. split; [unfold Connected; by rewrite Hs|]. right. by right.
        -- destruct (Hss _ _ Hs') as (? & ? & Hk & Hc & HD). destruct (HK _ Hk Hc). repeat (split; [done|]).
           destruct HD as [?|?]; [by left|right; by left].
      * intros room sid. rewrite ad_in_AddAll. intros [Hr'%Hr|Hd]%orb_prop.
        -- destruct (decide (sid = s_id s)) as [->|Hne]; [by rewrite lookup_insert_eq|by rewrite lookup_insert_ne].
        -- apply bool_decide_eq_true in Hd as [-> _]. by rewrite lookup_insert_eq.
    + destruct (I3 _ _ Hn') as (Ha & Hss & Hr). split; [done|]. split; [|done].
      intros sid s' Hs'. destruct (Hss _ _ Hs') as (? & ? & Hk & Hc & HD). destruct (HK _ Hk Hc). repeat (split; [done|]).
      destruct HD as [?|?]; [by left|right; by left].
  - intros p y' [(-> & ->)|[Hne Hy]]%HV.
    + cbn. rewrite Es. by destruct (I4 _ _ Hx).
    + destruct (I4 _ _ Hy) as [Hp Ho]. split; [done|]. intros Hc. destruct (Ho Hc). auto.
  - intros p q y' z' [(-> & ->)|[Hne Hy]]%HV [(-> & ->)|[Hne' Hz]]%HV; cbn; try done; intros E; by eapply IU.
  - intros i p y' Hi [(-> & ->)|[Hne Hy]]%HV; cbn; by eapply I6.
  - intros s' Hs'. destruct (I7 s' Hs') as (y & Hy & Ey & Hj). destruct (decide (s_ptr s' = s_ptr s)) as [E|Hne].
    + exists (set_connected true x). rewrite E. rewrite E, Hx in Hy. injection Hy as <-. split; [done|]. split; [done|]. by left.
    + exists y. by rewrite Hns.
Qed.

Lemma same_upd_socket_cong s f w w' :
  (forall x y, socket_view x = socket_view y -> socket_view (f x) = socket_view (f y)) -> same w w' ->
  same (upd_socket s f w) (upd_socket s f w').
Proof.
  intros Hf [S1 S2 S3 S4 S5 S6 S7]. constructor; try assumption. intros p. cbn. specialize (S4 p).
  destruct (decide (p = s_ptr s)) as [->|Hne].
  - rewrite !list_lookup_alter_eq. destruct (sv_sockets w' !! s_ptr s), (sv_sockets w !! s_ptr s); try done.
    apply (inj Some) in S4. exact (f_equal Some (Hf _ _ S4)).
  - by rewrite !list_lookup_alter_ne.
Qed.

Lemma inv_go_connection D s w x :
  inv D w -> sv_sockets w !! s_ptr s = Some x -> ss_socket x = s -> ss_connected x = true -> inv D (go (TConnection s) w).
Proof.
  intros [I1 I2 I3 I4 IU I5 I6 I7 I8] Hx Es Hc. constructor; try assumption.
  - intros s' [Hs'|Hs']; [apply I7; by left|]. apply elem_of_app in Hs' as [Hs'|Hs']; [apply I7; by right|].
    apply list_elem_of_singleton in Hs' as [= ->]. exists x. auto.
  - intros t [Ht| ->%list_elem_of_singleton]%elem_of_app; [by apply I8|done].
Qed.

Lemma doConnect_inv D s w n :
  inv D w -> sv_sockets w !! s_ptr s = Some (newSocketState s) ->
  sv_namespaces w !! s_nsp s = Some n -> n_sockets n !! s_id s = None ->
  inv (fun s' => D s' \/ s' = s) (doConnect env s w) /\ in_nsp s (doConnect env s w) /\ sv_conns (doConnect env s w) = sv_conns w.
Proof.
  intros I Hx Hn Hid. set (w1 := upd_adapter (s_nsp s) (ad_AddAll (s_id s) [s_id s])
    (upd_nsp (s_nsp s) (fun n => mkNamespace (<[s_id s := s]> (n_sockets n)) (n_adapter n) (n_ackID n) (n_middlewares n)) w)).
  assert (doConnect env s w = go (TConnection s) (upd_socket s (set_connected true)
    (sendControlPacket env PacketTypeConnect (PSidInfo (s_id s) (s_pid s)) s w1))) as ->.
  { unfold doConnect, onConnect, Join. cbn zeta. cbn [sv_sockets upd_nsp upd_namespaces]. by rewrite Hx. }
  assert (upd_socket s (set_connected true) w1 = connected_state s w) as E1.
  { unfold connected_state. f_equal. subst w1. destruct w as [cfg ns cs ss ids ts cells out].
    unfold upd_adapter, upd_nsp, upd_namespaces. cbn [sv_config sv_namespaces sv_conns sv_sockets sv_ids sv_tasks sv_cells sv_out].
    f_equal. apply alter_alter_eq. }
  pose proof (same_upd_socket_cong s (set_connected true) w1 _ ltac:(intros x y [= E2 E3 E4 E5]; unfold socket_view; cbn; congruence)
    (same_encode_and_send s (mkPacketHeader PacketTypeConnect (s_nsp s) None 0) (PSidInfo (s_id s) (s_pid s)) w1)) as S.
  rewrite E1 in S. pose proof (connected_inv D s w _ n I Hx eq_refl eq_refl eq_refl Hn Hid) as IC.
  assert (sv_sockets (connected_state s w) !! s_ptr s = Some (set_connected true (newSocketState s))) as Hs
    by (cbn; by rewrite list_lookup_alter_eq, Hx).
  destruct (same_object' _ _ _ _ S Hs) as (x' & Hx' & [= E2 E3 E4 E5]).
  split; [|split].
  - eapply inv_go_connection; [exact (same_inv _ _ _ S IC)|exact Hx'|exact E2|exact E3].
  - assert (in_nsp s (connected_state s w)) as (n' & Hn' & Hi).
    { exists (joined_by s n). cbn. rewrite lookup_alter_eq, Hn. split; [done|]. cbn. by rewrite lookup_insert_eq. }
    pose proof (same_in_nsp _ _ s S (ex_intro _ n' (conj Hn' Hi))) as (n'' & ? & ?). by exists n''.
  - exact (sm_conns _ _ S).
Qed.

Lemma store_inv D s w x :
  inv (fun s' => D s' \/ s' = s) w -> in_nsp s w -> sv_conns w !! s_conn s = Some x -> sc_closed x = false ->
  fresh s_id s_nsp s (sc_sockets x) -> inv D (store_socket s w).
Proof.
  intros I Hin Hx Hcl HF. destruct I as [I1 I2 I3 I4 IU I5 I6 I7 I8]. constructor; try assumption.
  - intros c x' [(-> & y & Hy & ->)|[Hne Hy]]%list_lookup_alter_Some; [|by apply I2].
    rewrite Hx in Hy. injection Hy as <-. destruct (I2 _ _ Hx) as (Hco & Hemp & Hs). cbn.
    split; [by apply consistent_set|]. split; [congruence|].
    intros sid s' [[<- <-]|[Hne Hs']]%lookup_insert_Some; [done|by apply (Hs sid)].
  - intros name n Hn. destruct (I3 _ _ Hn) as (Ha & Hs & Hr). split; [done|]. split; [|done].
    intros sid s' Hs'. destruct (Hs _ _ Hs') as (E1 & E2 & ? & ? & HD). repeat (split; [done|]).
    unfold in_conn. cbn. destruct HD as [(y & Hy & Hcy & Hiy)|[HD| ->]]; [left|by right|left].
    + destruct (decide (s_conn s' = s_conn s)) as [E|Hne].
      * rewrite E, list_lookup_alter_eq, Hx. eexists. split; [reflexivity|]. cbn. split; [done|].
        rewrite E, Hx in Hy. injection Hy as <-. rewrite lookup_insert_ne; [done|]. intros E'.
        destruct HF as [HF _]. rewrite E', Hiy in HF. done.
      * exists y. by rewrite list_lookup_alter_ne.
    + rewrite list_lookup_alter_eq, Hx. eexists. split; [reflexivity|]. cbn. split; [done|]. by rewrite lookup_insert_eq.
Qed.

Lemma runMiddlewares_same fs auth s w : no_joins -> (runMiddlewares env fs auth s w).1 = w.
Proof.
  intros HJ. induction fs as [|f fs IH]; [done|]. cbn. specialize (HJ f s auth).
  destruct (env_nsp_middleware env f s auth) as [rooms verdict]. cbn in HJ. subst rooms. by destruct verdict.
Qed.

(** [nsp.add]: either nothing that matters changes, or a new socket is in the namespace. *)
Lemma add_inv c name auth w n :
  no_joins -> inv (fun _ => False) w -> sv_namespaces w !! name = Some n ->
  let '(w', r) := add env c name auth w in
  sv_conns w' = sv_conns w /\
  match r with
  | inr _ => inv (fun _ => False) w'
  | inl s => inv (fun s' => False \/ s' = s) w' /\ in_nsp s w' /\ s_nsp s = name /\ s_conn s = c /\
      forall c' x sid s', sv_conns w !! c' = Some x -> socketsByID (sc_sockets x) !! sid = Some s' -> sid <> s_id s
  end.
Proof.
  intros HJ I Hn. unfold add. destruct (env_recovery env auth) as [[sid offset]|]; [|done].
  rewrite (i_recovery _ _ I). unfold newServerSocket. cbn zeta.
  pose proof (generate_inv _ _ I) as HG. destruct (GenerateBase64ID w) as [w1 [id|]]; destruct HG as (I1 & En & Ec & Eg & HU);
    [|done]. destruct (HU id eq_refl) as [Hun Hid]. rewrite (i_recovery _ _ I1).
  pose proof (alloc_inv _ id "" false name c w1 I1 Hun Hid) as HA. destruct (alloc _ _ _ _ _ _) as [w2 s].
  destruct HA as (I2 & Hs & E1 & E2 & E3 & E4 & En2 & Ec2 & Eg2). rewrite (i_recovery _ _ I2). cbn [andb].
  pose proof (runMiddlewares_same (match sv_namespaces w2 !! name with Some n => n_middlewares n | None => [] end) auth s w2 HJ) as HM.
  destruct (runMiddlewares _ _ _ _ _) as [w3 refused]. cbn in HM. subst w3.
  destruct refused as [err|]; [split; [congruence|done]|].
  assert (sv_namespaces w2 !! s_nsp s = Some n) as Hn2 by (rewrite En2, En, E2; done).
  assert (forall s', known s' w1 -> s_id s' <> s_id s) as HK by (intros s' (x & Hx & <-); rewrite E1; by eapply Hun).
  assert (n_sockets n !! s_id s = None) as Hfr.
  { destruct (n_sockets n !! s_id s) as [s'|] eqn:Es; [|done].
    destruct (i_nsp _ _ I1 name n) as (_ & Hns & _); [by rewrite En|]. destruct (Hns _ _ Es) as (Eid & _ & Hk & _).
    by destruct (HK s' Hk). }
  destruct (doConnect_inv _ s w2 n I2 Hs Hn2 Hfr) as (I3 & Hin & Ec3). split; [congruence|].
  repeat (split; [done|]). intros c' x sid' s' Hx Hsx ->.
  destruct (i_conn _ _ I1 c' x) as (Hco & _ & Hin'); [by rewrite Ec|]. destruct (Hin' _ _ Hsx) as [_ Hns].
  destruct (in_nsp_connected _ _ _ I1 Hns) as [Hk _]. destruct Hco as [Hco _]. destruct (Hco _ _ Hsx) as [Eid _].
  by destruct (HK s' Hk).
Qed.

Lemma connect_inv c p w x :
  no_joins -> inv (fun _ => False) w -> sv_conns w !! c = Some x -> sc_closed x = false ->
  getByNsp (parser.Namespace (rc_header p)) (sc_sockets x) = None ->
  let '(w', r) := connect env c p w in
  inv (fun _ => False) (match r with Some s => store_socket s w' | None => w' end).
Proof.
  intros HJ I Hx Hcl Hby. unfold connect. set (name := parser.Namespace (rc_header p)) in *.
  assert (exists w1 found, match sv_namespaces w !! name with
      | Some _ => (w, true)
      | None => if AcceptAnyNamespace (sv_config w) then (upd_namespaces (insert name newNamespace) w, true) else (w, false)
      end = (w1, found) /\ inv (fun _ => False) w1 /\ sv_conns w1 = sv_conns w /\
      (found = true -> exists n, sv_namespaces w1 !! name = Some n)) as (w1 & found & -> & I1 & Ec1 & Hf).
  { destruct (sv_namespaces w !! name) as [n|] eqn:En; [by exists w, true; eauto|].
    destruct (AcceptAnyNamespace _); [|by exists w, false]. eexists _, true. split; [done|].
    split; [by apply inv_new_nsp|]. split; [done|]. intros _. exists newNamespace. cbn. by rewrite lookup_insert_eq. }
  destruct found; cbn [negb]; [|exact (same_inv _ _ _ (same_connectError _ _ _ _) I1)].
  destruct (Hf eq_refl) as [n Hn]. destruct (rc_auth p) as [auth|]; [|exact (same_inv _ _ _ (same_onFatalError _ _) I1)].
  pose proof (add_inv c name auth w1 n HJ I1 Hn) as HA. destruct (add env c name auth w1) as [w2 [s|err]].
  - destruct HA as (Ec2 & I2 & Hin & E1 & E2 & Hfr). eapply store_inv; [exact I2|exact Hin| |exact Hcl|].
    + rewrite Ec2, Ec1, E2. exact Hx.
    + split; [|rewrite E1; exact Hby].
      destruct (socketsByID (sc_sockets x) !! s_id s) as [s'|] eqn:Es; [|done].
      exfalso. rewrite <- Ec1 in Hx. by eapply Hfr.
  - destruct HA as [Ec2 I2]. destruct err; exact (same_inv _ _ _ (same_connectError _ _ _ _) I2).
Qed.

(** ** Every step *)

Lemma inv_onPacket s p w : inv (fun _ => False) w -> known s w -> inv (fun _ => False) (onPacket env s p w).1.
Proof.
  intros I Hk. unfold onPacket. destruct (Typ (rc_header p)); cbn [fst]; try done.
  - destruct (closes_onClose ReasonClientNamespaceDisconnect _ s w I Hk) as [I' _]. eapply inv_mono; [|exact I']. by intros y _ [[] _].
  - set (w1 := upd_cells _ w). assert (same w w1) as S1 by apply same_upd_cells.
    destruct (sv_sockets w1 !! s_ptr s) as [x|]; [|exact (same_inv _ _ _ S1 I)].
    destruct (eventHandlerStore.ev_getAll _ _) as [st hs]. cbn [fst]. eapply same_inv; [|exact I].
    eapply same_trans; [exact S1|]. eapply same_trans; [|apply same_fold; intros w0 h; apply same_onEvent].
    by apply same_upd_socket.
  - eapply same_inv; [apply same_onAck|exact I].
  - set (w1 := upd_cells _ w). assert (same w w1) as S1 by apply same_upd_cells.
    destruct (sv_sockets w1 !! s_ptr s) as [x|]; [|exact (same_inv _ _ _ S1 I)].
    destruct (eventHandlerStore.ev_getAll _ _) as [st hs]. cbn [fst]. eapply same_inv; [|exact I].
    eapply same_trans; [exact S1|]. eapply same_trans; [|apply same_fold; intros w0 h; apply same_onEvent].
    by apply same_upd_socket.
  - eapply same_inv; [apply same_onAck|exact I].
Qed.

Lemma inv_handle c p w x :
  order_ok -> no_joins -> inv (fun _ => False) w -> sv_conns w !! c = Some x -> sc_closed x = false ->
  inv (fun _ => False) (handle env c p w).
Proof.
  intros HO HJ I Hx Hcl. unfold handle, onParserFinish. rewrite Hx. cbn zeta.
  set (h := if String.eqb (parser.Namespace (rc_header p)) "" then _ else _).
  set (p' := mkReceived h _ _ _). change h with (rc_header p').
  destruct (getByNsp (parser.Namespace (rc_header p')) (sc_sockets x)) as [s|] eqn:Eg.
  - assert (known s w) as Hk.
    { destruct (i_conn _ _ I _ _ Hx) as ((_ & Hco) & _ & Hs). destruct (Hco _ _ Eg) as [_ Hid]. destruct (Hs _ _ Hid) as [_ Hn].
      by destruct (in_nsp_connected _ _ _ I Hn). }
    pose proof (inv_onPacket s p' w I Hk) as IP. pose proof (inv_conn_close c w HO I) as IC.
    destruct (Typ (rc_header p')); try exact IC; (destruct (onPacket env s p' w) as [w1 []]; cbn [fst] in IP;
      [exact IP|exact (same_inv _ _ _ (same_onFatalError _ _) IP)]).
  - pose proof (inv_conn_close c w HO I) as IC. destruct (Typ (rc_header p')); try exact IC.
    pose proof (connect_inv c p' w x HJ I Hx Hcl Eg) as HC. by destruct (connect env c p' w) as [w1 [s|]].
Qed.

Lemma announced_known D s w : inv D w -> announced s w -> known s w.
Proof. intros I Ha. destruct (i_announced _ _ I s Ha) as (x & Hx & Es & _). by exists x. Qed.

Lemma inv_Of D name w : inv D w -> inv D (Of name w).
Proof.
  intros I. unfold Of. cbn zeta. destruct (sv_namespaces w !! normalize name) as [n|] eqn:En; [done|].
  pose proof (inv_new_nsp D _ w En I) as I1. destruct (String.eqb _ _); [done|].
  eapply same_inv; [|exact I1]. apply same_emits. by repeat constructor.
Qed.

Lemma inv_Close w : order_ok -> inv (fun _ => False) w -> inv (fun _ => False) (Close env w).
Proof.
  intros HO I. unfold Close. cbn zeta. pose proof (inv_Of _ "/" w I) as I1. set (w1 := Of "/" w) in *.
  eapply same_inv; [apply same_emits; by repeat constructor|].
  eapply inv_mono; [|apply (fold_closes (onClose ReasonServerShuttingDown) _ (fun _ => False) w1 (closes_onClose _) I1)].
  - by intros s _ [[] _].
  - intros s Hs. destruct (sv_namespaces w1 !! "/"%string) as [n|] eqn:En; [|by apply not_elem_of_nil in Hs].
    apply HO in Hs as [sid Hs]. destruct (i_nsp _ _ I1 _ _ En) as (_ & Hns & _). by destruct (Hns _ _ Hs) as (_ & _ & ? & _).
Qed.

Lemma inv_onEIOSocket D w : inv D w -> inv D (onEIOSocket w).
Proof.
  intros I. eapply same_inv; [by apply same_go|]. destruct I as [I1 I2 I3 I4 IU I5 I6 I7 I8].
  assert (forall c x, (sv_conns w ++ [newConn]) !! c = Some x -> sv_conns w !! c = Some x \/ x = newConn) as HV.
  { intros c x [Hx|[Hl Hx]]%lookup_app_Some; [by left|]. apply list_lookup_singleton_Some in Hx as [_ <-]. by right. }
  constructor; try assumption.
  - intros c x [Hx| ->]%HV; [by apply I2|]. split; [apply consistent_new|]. split; [done|]. intros sid s. cbn. by rewrite lookup_empty.
  - intros name n Hn. destruct (I3 _ _ Hn) as (? & Hs & ?). split; [done|]. split; [|done]. intros sid s Hsid.
    destruct (Hs _ _ Hsid) as (? & ? & ? & ? & [(x & Hx & ?)|?]); repeat (split; [done|]); [left|by right].
    exists x. split; [|done]. by apply lookup_app_l_Some.
Qed.

Lemma inv_drop_task D i w : inv D w -> inv D (upd_tasks (delete i) w).
Proof.
  intros [I1 I2 I3 I4 IU I5 I6 I7 I8]. constructor; try assumption.
  - intros s [Hs|Hs]; apply I7; [by left|right]. cbn in Hs. apply list_elem_of_lookup in Hs as [j Hj].
    apply list_elem_of_lookup. destruct (decide (j < i)); [rewrite list_lookup_delete_lt in Hj by done|rewrite list_lookup_delete_ge in Hj by lia]; eauto.
  - intros t Ht. apply I8. cbn in Ht. apply list_elem_of_lookup in Ht as [j Hj].
    apply list_elem_of_lookup. destruct (decide (j < i)); [rewrite list_lookup_delete_lt in Hj by done|rewrite list_lookup_delete_ge in Hj by lia]; eauto.
Qed.

Lemma inv_run_task i t w :
  order_ok -> inv (fun _ => False) w -> sv_tasks w !! i = Some t -> inv (fun _ => False) (run_task env t (upd_tasks (delete i) w)).
Proof.
  intros HO I Ht. pose proof (inv_drop_task _ i w I) as I1. assert (t ∈ sv_tasks w) as Hin by (apply list_elem_of_lookup; eauto).
  pose proof (i_tasks _ _ I t Hin) as Hseq. destruct t as [c p|s|s|c|c|s id]; cbn [run_task]; try done.
  - destruct (i_announced _ _ I s (or_intror Hin)) as (x & Hx & Es & Hj).
    destruct I1 as [I1 I2 I3 I4 IU I5 I6 I7 I8]. constructor; try assumption.
    intros s' [Hs'|Hs']; [|apply I7; by right]. apply elem_of_app in Hs' as [Hs'|Hs']; [apply I7; by left|].
    apply list_elem_of_singleton in Hs' as [= ->]. exists x. auto.
  - by apply inv_eio_closed.
  - destruct (sv_conns _ !! c); [|done]. destruct (bool_decide _); [|done]. by apply inv_conn_close.
  - eapply same_inv; [apply same_ack_expired|exact I1].
Qed.

Lemma same_socket_Use f s w w' : socket_Use env f s w = Ret w' -> same w w'.
Proof. unfold socket_Use. destruct (checkMiddlewareFunc _); [|discriminate]. intros [= <-]. by apply same_upd_socket. Qed.

Definition sequential (o : @op V A NM SM) : bool := match o with OpArrive _ _ => false | _ => true end.

Lemma inv_step o w w' :
  order_ok -> no_joins -> sequential o = true -> step env any_of event_arg o w w' -> inv (fun _ => False) w -> inv (fun _ => False) w'.
Proof.
  intros HO HJ Hseq HS I. destruct HS as [w|c p w|c p w x Hx Hcl|i t w Ht|reason c w|c w|c w|name w|nsp f w|w|name timeout v s w w' Hg HE
    |rooms s w Hg|room s w Hg|close s w Hg|st s w Hg|f s w w' Hg Hf|cell id values s w Hg]; try done.
  - by apply inv_onEIOSocket.
  - by eapply inv_handle.
  - by apply inv_run_task.
  - by apply inv_eio_closed.
  - eapply same_inv; [apply same_conn_onError|exact I].
  - eapply same_inv; [apply same_onFatalError|exact I].
  - by apply inv_Of.
  - eapply same_inv; [|exact I]. apply same_upd_nsp. intros n. repeat split; auto.
  - by apply inv_Close.
  - eapply same_inv; [by eapply same_emit|exact I].
  - eapply same_inv; [eapply same_Join; [exact I|by left]|exact I].
  - eapply same_inv; [apply same_Leave|exact I].
  - apply inv_Disconnect; [done..|]. eapply announced_known; [exact I|by left].
  - eapply same_inv; [by apply same_upd_socket|exact I].
  - eapply same_inv; [by eapply same_socket_Use|exact I].
  - eapply same_inv; [apply same_sendAck|exact I].
Qed.

Lemma server_inv_new config ids :
  RecoveryEnabled config = false -> NoDup (omap id ids) -> inv (fun _ => False) (NewServer config ids).
Proof.
  intros HR HN. constructor; cbn; try done.
  - intros s [Hs|Hs]; by apply not_elem_of_nil in Hs.
  - intros t Ht. by apply not_elem_of_nil in Ht.
Qed.

Lemma inv_steps w w' :
  order_ok -> no_joins -> steps env any_of event_arg sequential w w' -> inv (fun _ => False) w -> inv (fun _ => False) w'.
Proof. intros HO HJ. induction 1 as [|o w1 w2 w3 Ho HS HSS IH]; [done|]. intros I. by apply IH, (inv_step o w1). Qed.
End inv.
End serverinv.
