(* ===== verification/SioServerSafety.v ===== *)
(** * Theorems about the Socket.IO server

    What holds of the server's sockets in every schedule and in sequential schedules, the
    in-memory adapter as an implementation of the interface, concrete runs, and the schedules in
    which the stores do not agree. *)

From S2P Require Import Prelude SioPacket EioPacket Handlers Events MapSet Adapter Stores Dispatch SioServer SioServerInv.

Module serversafety.
Import parser handler reserved dispatch serverSocketStore sioserver serverinv.

(** ** Handlers of a disconnection run at most once, in every schedule *)

Section once.
Context {V A Ad NM SM ME : Type} `{ReflectValue V} `{SocketAdapter Ad A}.
Context (env : environment V A NM SM ME) (any_of : A -> any) (event_arg : string -> A).
Implicit Types (w : Server V A Ad NM SM) (s : serverSocket).

Definition disconnected (e : @effect V A) : option nat := match e with EDisconnect s _ => Some (s_ptr s) | _ => None end.

Definition disconnects w : list nat := omap disconnected (sv_out w).

Definition closed_object p w : Prop := exists x, sv_sockets w !! p = Some x /\ ss_closed x = true.

Record once_inv w : Prop := mkOnce {
  o_nodup : NoDup (disconnects w);
  o_closed : forall p, p ∈ disconnects w -> closed_object p w;
}.

(** What does not disconnect a socket. *)
Record calm w w' : Prop := mkCalm {
  cl_out : disconnects w' = disconnects w;
  cl_closed : forall p, closed_object p w -> closed_object p w';
}.

#[local] Instance calm_refl : Reflexive calm.
Proof. by intros w. Qed.

Lemma calm_trans w1 w2 w3 : calm w1 w2 -> calm w2 w3 -> calm w1 w3.
Proof. intros [O1 C1] [O2 C2]. split; [congruence|auto]. Qed.

Lemma calm_once w w' : calm w w' -> once_inv w -> once_inv w'.
Proof. intros [EO HC] [HN Hcl]. split; rewrite EO; auto. Qed.

Lemma calm_eq w w' : sv_out w' = sv_out w -> sv_sockets w' = sv_sockets w -> calm w w'.
Proof. intros E1 E2. split; unfold disconnects, closed_object; by rewrite ?E1, ?E2. Qed.

Lemma calm_emits l w : Forall (fun e => disconnected e = None) l -> calm w (emits l w).
Proof.
  intros HF. split; [|done]. unfold disconnects. cbn. rewrite omap_app.
  replace (omap disconnected l) with (@nil nat); [apply app_nil_r|].
  induction HF as [|e l He HF IH]; [done|]. cbn. by rewrite He.
Qed.

Lemma calm_upd_socket s f w : (forall x, ss_closed x = true -> ss_closed (f x) = true) -> calm w (upd_socket s f w).
Proof.
  intros Hf. split; [done|]. intros p (x & Hx & Hc). unfold closed_object. cbn. destruct (decide (p = s_ptr s)) as [->|Hne].
  - exists (f x). rewrite list_lookup_alter_eq, Hx. auto.
  - exists x. by rewrite list_lookup_alter_ne.
Qed.

Lemma calm_fold {B} (f : Server V A Ad NM SM -> B -> Server V A Ad NM SM) l w :
  (forall w b, calm w (f w b)) -> calm w (fold_left f l w).
Proof.
  intros Hf. revert w. induction l as [|b l IH]; intros w; [reflexivity|]. cbn. eapply calm_trans; [apply Hf|apply IH].
Qed.

(** A step of the kinds above, before or after others. *)
Ltac calm1 :=
  first [ reflexivity | apply calm_eq; reflexivity | apply calm_emits; by repeat constructor
        | apply calm_upd_socket; done | assumption ].
Ltac calm_then tac := eapply calm_trans; [|tac].

Lemma calm_go t w : calm w (go t w).
Proof. by apply calm_eq. Qed.

Lemma calm_upd_namespaces f w : calm w (upd_namespaces f w).
Proof. by apply calm_eq. Qed.

Lemma calm_upd_conns f w : calm w (upd_conns f w).
Proof. by apply calm_eq. Qed.

Lemma calm_conn_onError c w : calm w (conn_onError env c w).
Proof. apply calm_emits. by apply Forall_fmap, Forall_forall. Qed.

Lemma calm_onFatalError c w : calm w (onFatalError env c w).
Proof. calm_then ltac:(apply calm_go). apply calm_conn_onError. Qed.

Lemma calm_sendBuffers c bufs w : calm w (sendBuffers env c bufs w).
Proof. unfold sendBuffers. rewrite message_packets_Ret. destruct bufs; calm1. Qed.

Lemma calm_connectError m nsp c w : calm w (connectError env m nsp c w).
Proof. unfold connectError. destruct (env_Encode env _ _); [apply calm_sendBuffers|apply calm_onFatalError]. Qed.

Lemma calm_encode s header v w : calm w (encode_and_send env s header v w).
Proof. unfold encode_and_send. destruct (env_Encode env _ _); [apply calm_sendBuffers|calm1]. Qed.

Lemma calm_sendAck cell id values s w : calm w (sendAck env cell id values s w).
Proof.
  unfold sendAck, sendAckPacket. destruct (sv_cells w !! cell) as [[]|]; [calm1| |calm1].
  eapply (calm_trans _ (upd_cells (insert cell true) w)); [by apply calm_eq|]. destruct (forallb _ _); [apply calm_encode|calm1].
Qed.

Lemma calm_Join rooms s w : calm w (Join rooms s w).
Proof. unfold Join. destruct (sv_sockets w !! s_ptr s) as [x|]; [|calm1]. destruct (ss_joins x); calm1. Qed.

Lemma calm_onEvent s header decode cell w h : calm w (onEvent env s header decode cell w h).
Proof.
  unfold onEvent. destruct (decode _) as [values|]; [|calm1].
  destruct (convert_values _ _) as [values'|], (sv_sockets w !! s_ptr s) as [x|]; try calm1.
  destruct (negb (callMiddlewares _ _ _)); [calm1|]. destruct (negb _); [calm1|].
  destruct (with_ack _ _ _ _) as [[args b]| |]; [|calm1..]. cbn zeta.
  set (w1 := match ID header with Some _ => _ | None => _ end).
  assert (calm w w1) as S1.
  { eapply calm_trans; [apply (calm_emits [ECall s h args]); by repeat constructor|].
    subst w1. destruct (ID header) as [id|]; [|calm1]. destruct b; [|calm1]. apply calm_fold. intros w0 v. apply calm_sendAck. }
  destruct (env_panics _ _ _); [|done]. calm_then ltac:(apply calm_emits; by repeat constructor). done.
Qed.

Lemma calm_onAck s header decode w : calm w (onAck env s header decode w).
Proof.
  unfold onAck. destruct (ID header) as [id|], (sv_sockets w !! s_ptr s) as [x|]; try calm1.
  destruct (if bool_decide _ then _ else _) as [ack|]; [|calm1]. cbn zeta.
  eapply calm_trans; [by apply (calm_upd_socket s (fun x => set_acks (ss_acks x ∖ {[id]}) (ss_ackHandlers x) x))|].
  destruct (decode _) as [values|]; [|calm1]. destruct (convert_values _ _) as [values'|]; [|calm1].
  destruct (ack_call _ _ _) as [[ack' called] err].
  eapply calm_trans; [by apply (calm_upd_socket s (fun x => set_acks (ss_acks x) (<[id:=ack']> (ss_ackHandlers x)) x))|].
  destruct called, err; try calm1. calm_then ltac:(apply calm_emits; by repeat constructor). calm1.
Qed.

Lemma calm_ack_expired s id w : calm w (ack_expired s id w).
Proof.
  unfold ack_expired. destruct (sv_sockets w !! s_ptr s) as [x|]; [|calm1].
  destruct (ss_ackHandlers x !! id) as [h|]; [|calm1]. destruct (ack_timeout h) as [h' effects].
  destruct effects; [calm1|]. calm_then ltac:(apply calm_emits; by repeat constructor). calm1.
Qed.

Lemma calm_emit name timeout v s w w' : emit env any_of event_arg name timeout v s w = Ret w' -> calm w w'.
Proof.
  unfold emit. destruct (IsEventReservedForServer name); [done|]. destruct (last _) as [f|]; [|done].
  assert (forall id v w, calm w (if RecoveryEnabled (sv_config w) then
      emits [EBroadcast s (mkPacketHeader PacketTypeEvent (s_nsp s) id 0) v]
        (upd_adapter (s_nsp s) (ad_Broadcast (mkPacketHeader PacketTypeEvent (s_nsp s) id 0) v (s_id s)) w)
      else encode_and_send env s (mkPacketHeader PacketTypeEvent (s_nsp s) id 0) (PEvent v) w)) as HS.
  { intros i l w0. destruct (RecoveryEnabled _); [|apply calm_encode].
    calm_then ltac:(apply calm_emits; by repeat constructor). calm1. }
  destruct (any_of f) as [|ptr params n|]; [by intros [= <-]; apply HS| |by intros [= <-]; apply HS].
  intros ([w1 i] & HR & [= <-])%outcome_bind_Ret. eapply calm_trans; [|apply HS].
  unfold registerAckHandler, nextAckID in HR.
  destruct (sv_namespaces w !! s_nsp s) as [n0|];
    (destruct (if (timeout =? 0)%Z then _ else _) as [h| |]; [|done..]); injection HR as <- <-;
    (destruct (timeout =? 0)%Z; [|eapply calm_trans; [|apply calm_go]]);
    (eapply calm_trans; [|by apply calm_upd_socket]); calm1.
Qed.

Lemma calm_send_missed s missed w : calm w (send_missed env s missed w).1.
Proof.
  revert w. induction missed as [|[bufs|[header v]] missed IH]; intros w; cbn; [calm1| |].
  - eapply calm_trans; [apply calm_sendBuffers|apply IH].
  - destruct (env_Encode _ _ _); [|calm1]. eapply calm_trans; [apply calm_sendBuffers|apply IH].
Qed.

Lemma calm_alloc id pid r nsp c w : calm w (alloc id pid r nsp c w).1.
Proof.
  split; [done|]. intros p (x & Hx & Hc). exists x. split; [|done]. cbn. by apply lookup_app_l_Some.
Qed.

Lemma calm_generate w : calm w (GenerateBase64ID w).1.
Proof. unfold GenerateBase64ID. destruct (sv_ids w); calm1. Qed.

Lemma calm_newServerSocket c nsp prev w : calm w (newServerSocket env c nsp prev w).1.
Proof.
  unfold newServerSocket. destruct prev as [[session missed]|].
  - pose proof (calm_alloc (SID session) (PID session) true nsp c w) as C1. destruct (alloc _ _ _ _ _ _) as [w1 s].
    pose proof (calm_send_missed s missed (Join (Rooms session) s w1)) as C2. destruct (send_missed _ _ _ _) as [w2 ok]. cbn in *.
    eapply calm_trans; [exact C1|]. eapply calm_trans; [apply calm_Join|exact C2].
  - pose proof (calm_generate w) as C1. destruct (GenerateBase64ID w) as [w1 [id|]]; [|done]. cbn [fst] in C1.
    assert (forall w0 pid, calm w w0 -> calm w (alloc id pid false nsp c w0).1) as HA
      by (intros w0 pid C0; eapply calm_trans; [exact C0|apply calm_alloc]).
    destruct (RecoveryEnabled _).
    + pose proof (calm_generate w1) as C2. destruct (GenerateBase64ID w1) as [w2 [pid|]]; cbn [fst] in C2.
      * specialize (HA w2 pid (calm_trans _ _ _ C1 C2)). by destruct (alloc _ _ _ _ _ _).
      * by eapply calm_trans.
    + specialize (HA w1 "" C1)%string. by destruct (alloc _ _ _ _ _ _).
Qed.

Lemma calm_doConnect s w : calm w (doConnect env s w).
Proof.
  unfold doConnect, onConnect. calm_then ltac:(apply calm_go). calm_then ltac:(by apply calm_upd_socket).
  calm_then ltac:(apply calm_encode). calm_then ltac:(apply calm_Join). by apply calm_eq.
Qed.

Lemma calm_runMiddlewares fs auth s w : calm w (runMiddlewares env fs auth s w).1.
Proof.
  revert w. induction fs as [|f fs IH]; intros w; cbn [runMiddlewares]; [calm1|].
  destruct (env_nsp_middleware _ _ _ _) as [rooms verdict]. set (w1 := match rooms with [] => w | _ => _ end).
  assert (calm w w1) as C1 by (subst w1; destruct rooms; [calm1|apply calm_Join]).
  destruct verdict; [done|]. eapply calm_trans; [exact C1|apply IH].
Qed.

Lemma calm_add c nsp auth w : calm w (add env c nsp auth w).1.
Proof.
  unfold add. destruct (env_recovery _ _) as [[sid offset]|]; [|calm1].
  set (r := if RecoveryEnabled (sv_config w) then _ else _).
  assert (calm w r.1) as C1.
  { subst r. destruct (RecoveryEnabled _); [|calm1]. unfold restore. destruct (sv_namespaces w !! nsp); [|calm1].
    destruct (ad_RestoreSession _ _ _). calm1. }
  destruct r as [w1 session]. cbn [fst] in C1.
  pose proof (calm_newServerSocket c nsp session w1) as C2. destruct (newServerSocket _ _ _ _ _) as [w2 [s|]]; cbn [fst] in C2.
  - pose proof (calm_trans _ _ _ C1 C2) as C3. destruct (_ && _ && _); [eapply calm_trans; [exact C3|apply calm_doConnect]|].
    pose proof (calm_runMiddlewares (match sv_namespaces w2 !! nsp with Some n => n_middlewares n | None => [] end) auth s w2) as C4.
    destruct (runMiddlewares _ _ _ _ _) as [w3 refused]. cbn [fst] in C4. pose proof (calm_trans _ _ _ C3 C4) as C5.
    destruct refused; [done|]. eapply calm_trans; [exact C5|apply calm_doConnect].
  - by eapply calm_trans.
Qed.

Lemma calm_connect c p w : calm w (connect env c p w).1.
Proof.
  unfold connect. set (name := parser.Namespace (rc_header p)).
  set (r := match sv_namespaces w !! name with Some _ => _ | None => _ end).
  assert (calm w r.1) as C1 by (subst r; destruct (sv_namespaces w !! name); [calm1|]; destruct (AcceptAnyNamespace _); calm1).
  destruct r as [w1 found]. cbn [fst] in C1. destruct found; cbn [negb]; [|eapply calm_trans; [exact C1|apply calm_connectError]].
  destruct (rc_auth p) as [auth|]; [|eapply calm_trans; [exact C1|apply calm_onFatalError]].
  pose proof (calm_add c name auth w1) as C2. destruct (add _ _ _ _ _) as [w2 r2]. cbn [fst] in C2.
  pose proof (calm_trans _ _ _ C1 C2) as C3.
  destruct r2 as [s|[]]; [exact C3|eapply calm_trans; [exact C3|apply calm_connectError]..].
Qed.

(** *** Closing *)

Lemma once_onClose reason s w : once_inv w -> once_inv (onClose reason s w).
Proof.
  intros I. unfold onClose. destruct (sv_sockets w !! s_ptr s) as [x|] eqn:Ex; [|done].
  destruct (ss_closed x) eqn:Ecl; [done|]. set (w1 := upd_socket s set_closed w).
  assert (closed_object (s_ptr s) w1) as Hc by (exists (set_closed x); cbn; by rewrite list_lookup_alter_eq, Ex).
  assert (calm w w1) as C1 by (by apply calm_upd_socket).
  assert (s_ptr s ∉ disconnects w) as Hn by (intros (y & Hy & Hcy)%(o_closed _ I); congruence).
  clearbody w1. destruct (negb _); [by eapply calm_once|]. cbv zeta.
  set (w2 := if RecoveryEnabled _ && _ then _ else _).
  assert (calm w1 w2) as C2.
  { eapply calm_trans; [apply (calm_emits [EDisconnecting s reason]); by repeat constructor|]. subst w2.
    destruct (RecoveryEnabled _ && _); calm1. }
  clearbody w2. set (w3 := upd_socket s (set_connected false) _).
  assert (calm w1 w3) as C3.
  { eapply calm_trans; [exact C2|]. subst w3. calm_then ltac:(by apply calm_upd_socket).
    calm_then ltac:(apply calm_upd_conns). calm_then ltac:(apply calm_upd_namespaces). calm_then ltac:(apply calm_upd_namespaces).
    by apply calm_upd_socket. }
  clearbody w3. destruct (calm_once _ _ (calm_trans _ _ _ C1 C3) I) as [HN HC].
  assert (disconnects (emits [EDisconnect s reason] w3) = disconnects w ++ [s_ptr s]) as ED.
  { unfold disconnects at 1. cbn. rewrite omap_app. cbn. by rewrite <- (cl_out _ _ C1), <- (cl_out _ _ C3). }
  split; rewrite ED.
  - apply NoDup_app. split; [apply I|]. split; [|apply NoDup_singleton]. by intros p Hp ->%list_elem_of_singleton.
  - intros p [Hp| ->%list_elem_of_singleton]%elem_of_app.
    + apply HC. by rewrite (cl_out _ _ C3), (cl_out _ _ C1).
    + by apply C3.
Qed.

Lemma once_fold {B} (f : B -> Server V A Ad NM SM -> Server V A Ad NM SM) l w :
  (forall b w, once_inv w -> once_inv (f b w)) -> once_inv w -> once_inv (fold_left (fun w b => f b w) l w).
Proof. intros Hf. revert w. induction l as [|b l IH]; intros w I; [done|]. cbn. by apply IH, Hf. Qed.

Lemma once_removed f c w :
  (forall s w, once_inv w -> once_inv (f s w)) -> once_inv w -> once_inv (for_each_removed env f c w).
Proof. intros Hf I. unfold for_each_removed. apply once_fold; [exact Hf|]. refine (calm_once _ _ _ I); by apply calm_eq. Qed.

Lemma once_conn_onClose reason c w : once_inv w -> once_inv (conn_onClose env reason c w).
Proof.
  intros I. unfold conn_onClose. destruct (sv_conns w !! c) as [x|]; [|done]. destruct (sc_closed x); [done|].
  eapply calm_once; [apply calm_emits; by repeat constructor|]. apply once_removed; [intros s w0; apply once_onClose|].
  refine (calm_once _ _ _ I); by apply calm_eq.
Qed.

Lemma once_eio_closed reason c w : once_inv w -> once_inv (eio_closed env reason c w).
Proof.
  intros I. unfold eio_closed. destruct (sv_conns w !! c) as [x|]; [|done]. destruct (sc_eioClosed x); [done|].
  apply once_conn_onClose. refine (calm_once _ _ _ I); by apply calm_eq.
Qed.

Lemma once_conn_close c w : once_inv w -> once_inv (conn_close env c w).
Proof.
  intros I. apply once_conn_onClose. eapply calm_once; [apply calm_emits; by repeat constructor|]. by apply once_eio_closed.
Qed.

Lemma once_disconnect_nsp s w : once_inv w -> once_inv (disconnect_nsp env s w).
Proof.
  intros I. unfold disconnect_nsp. destruct (Connected s w); [|done]. apply once_onClose. eapply calm_once; [apply calm_encode|exact I].
Qed.

Lemma once_onParserFinish c p w : once_inv w -> once_inv (onParserFinish env c p w).1.
Proof.
  intros I. unfold onParserFinish. destruct (sv_conns w !! c) as [x|]; [|done]. cbn zeta.
  set (h := if String.eqb (parser.Namespace (rc_header p)) "" then _ else _). set (p' := mkReceived h _ _ _).
  pose proof (once_conn_close c w I) as IC. pose proof (calm_once _ _ (calm_connect c p' w) I) as I1.
  destruct (getByNsp (parser.Namespace h) (sc_sockets x)) as [s|]; [|destruct (Typ h); [exact I1|exact IC..]].
  assert (once_inv (onPacket env s p' w).1) as IP.
  { unfold onPacket. destruct (Typ (rc_header p')); cbn [fst]; try done; [by apply once_onClose| | | |];
      try (eapply calm_once; [apply calm_onAck|exact I]);
      (set (w1 := upd_cells _ w); assert (once_inv w1) as I0 by (refine (calm_once _ _ _ I); by apply calm_eq);
       destruct (sv_sockets w1 !! s_ptr s); [|exact I0]; destruct (eventHandlerStore.ev_getAll _ _) as [st hs]; cbn [fst];
       eapply calm_once; [apply calm_fold; intros w0 h0; apply calm_onEvent|];
       eapply calm_once; [by apply calm_upd_socket|exact I0]). }
  destruct (Typ h); try exact IC; (destruct (onPacket env s p' w) as [w1 []]; cbn [fst] in *;
    [exact IP|eapply calm_once; [apply calm_onFatalError|exact IP]]).
Qed.

Lemma once_step o w w' : step env any_of event_arg o w w' -> once_inv w -> once_inv w'.
Proof.
  intros HS I. destruct HS as [w|c p w|c p w x Hx Hcl|i t w Ht|reason c w|c w|c w|name w|nsp f w|w|name timeout v s w w' Hg HE
    |rooms s w Hg|room s w Hg|close s w Hg|st s w Hg|f s w w' Hg Hf|cell id values s w Hg].
  - refine (calm_once _ _ _ I); by apply calm_eq.
  - refine (calm_once _ _ _ I); by apply calm_eq.
  - unfold handle. pose proof (once_onParserFinish c p w I) as IP. destruct (onParserFinish _ _ _ _) as [w1 [s|]]; [|exact IP].
    refine (calm_once _ _ _ IP); by apply calm_eq.
  - assert (once_inv (upd_tasks (delete i) w)) as I1 by (refine (calm_once _ _ _ I); by apply calm_eq).
    destruct t as [c p|s|s|c|c|s id]; cbn [run_task].
    + pose proof (once_onParserFinish c p _ I1) as IP. destruct (onParserFinish _ _ _ _) as [w1 [s|]]; [|exact IP].
      refine (calm_once _ _ _ IP); by apply calm_eq.
    + refine (calm_once _ _ _ I1); by apply calm_eq.
    + eapply calm_once; [apply calm_emits; by repeat constructor|exact I1].
    + by apply once_eio_closed.
    + destruct (sv_conns _ !! c); [|done]. destruct (bool_decide _); [|done]. by apply once_conn_close.
    + eapply calm_once; [apply calm_ack_expired|exact I1].
  - by apply once_eio_closed.
  - eapply calm_once; [apply calm_conn_onError|exact I].
  - eapply calm_once; [apply calm_onFatalError|exact I].
  - unfold Of. cbn zeta. destruct (sv_namespaces w !! _); [done|]. eapply calm_once; [|exact I].
    destruct (String.eqb _ _); [by apply calm_eq|]. calm_then ltac:(apply calm_emits; by repeat constructor). apply calm_upd_namespaces.
  - refine (calm_once _ _ _ I); by apply calm_eq.
  - unfold Close. cbn zeta. eapply calm_once; [apply calm_emits; by repeat constructor|]. apply once_fold; [intros s w0; apply once_onClose|].
    unfold Of. cbn zeta. destruct (sv_namespaces w !! _); [done|]. eapply calm_once; [|exact I].
    destruct (String.eqb _ _); [by apply calm_eq|]. calm_then ltac:(apply calm_emits; by repeat constructor). apply calm_upd_namespaces.
  - eapply calm_once; [by eapply calm_emit|exact I].
  - eapply calm_once; [apply calm_Join|exact I].
  - refine (calm_once _ _ _ I); by apply calm_eq.
  - unfold Disconnect. destruct (negb _); [done|]. destruct close; [|by apply once_disconnect_nsp].
    apply once_conn_close, once_removed; [intros s0 w0; apply once_disconnect_nsp|done].
  - eapply calm_once; [by apply calm_upd_socket|exact I].
  - unfold socket_Use in Hf. destruct (checkMiddlewareFunc _); simplify_eq. eapply calm_once; [by apply calm_upd_socket|exact I].
  - eapply calm_once; [apply calm_sendAck|exact I].
Qed.

(** A socket of the server is disconnected at most once: in every schedule, whatever packets arrive and
    in whatever order their goroutines run, however connections, namespaces and the server are
    closed and whatever users do with the sockets they were given, with or without recovery of
    sessions, the disconnect handlers of a socket run at most once, and only after
    its [closeOnce] was used. *)
Theorem disconnect_at_most_once config ids w :
  steps env any_of event_arg (fun _ => true) (NewServer config ids) w ->
  NoDup (disconnects w) /\ forall s reason, EDisconnect s reason ∈ sv_out w -> closed_object (s_ptr s) w.
Proof.
  intros HS. assert (once_inv w) as [HN HC].
  { assert (once_inv (NewServer (V := V) (A := A) (Ad := Ad) (NM := NM) (SM := SM) config ids)) as I0.
    { split; [constructor|]. intros p Hp. by apply not_elem_of_nil in Hp. }
    revert I0. induction HS as [|o w1 w2 w3 _ HS _ IH]; [done|]. intros I. by apply IH, (once_step o w1). }
  split; [done|]. intros s reason Hin. apply HC. apply list_elem_of_omap. by exists (EDisconnect s reason).
Qed.
End once.

(** ** The middlewares of a socket *)

Section middleware.
Context {V A Ad NM SM ME : Type} `{ReflectValue V} `{SocketAdapter Ad A}.
Context (env : environment V A NM SM ME).

(** C36: The middlewares of a socket, which are documented as functions of the event's name and arguments, do not get the
    name: they are called with the arguments of the handler. On a socket with a middleware, an event whose handler takes no
    parameter, or one that is not a string as its first, never reaches the handler. *)
Theorem middleware_rejects (s : serverSocket) header decode cell (w : Server V A Ad NM SM) h x f fs values :
  sv_sockets w !! s_ptr s = Some x -> ss_middlewares x = f :: fs ->
  decode (eh_inputArgs h) = Some values -> length values = length (eh_inputArgs h) ->
  match zip_with convert (eh_inputArgs h) values with [] => True | v :: _ => rv_String v = None end ->
  onEvent env s header decode cell w h = emits [EError s] w.
Proof.
  intros Hx Hf Hd Hl Hv. unfold onEvent, convert_values. rewrite Hd, Hl, Nat.eqb_refl, Hx, Hf. unfold callMiddlewares. cbn [forallb].
  unfold callMiddlewareFunc, accepts, is_string_value. destruct (zip_with _ _ _) as [|v rest]; [done|]. by rewrite Hv.
Qed.
End middleware.

(** ** The stores agree *)

Section agree.
Context {V A Ad NM SM ME : Type} `{ReflectValue V} `{LawfulSocketAdapter Ad A}.
Context (env : environment V A NM SM ME) (any_of : A -> any) (event_arg : string -> A).
Implicit Types (w : Server V A Ad NM SM) (s : serverSocket).

(** C5: The server's records of its sockets agree. When sessions are not recovered, middlewares of
    namespaces only decide, IDs are not generated twice and the goroutine of a packet is not interleaved
    with others, then in every reachable state: a socket in a namespace's store is connected and
    is in the store of its connection, which is not closed; a socket in the store of a connection is in
    the store of its namespace; a connected socket is in the store of its namespace; and only sockets of the namespace are in
    its rooms, so that a broadcast never goes to a socket that is gone. *)
Theorem stores_agree config ids w :
  order_ok env -> no_joins env -> RecoveryEnabled config = false -> NoDup (omap id ids) ->
  steps env any_of event_arg sequential (NewServer config ids) w ->
  (forall name n sid s, sv_namespaces w !! name = Some n -> n_sockets n !! sid = Some s ->
     s_id s = sid /\ s_nsp s = name /\ Connected s w = true /\
     exists x, sv_conns w !! s_conn s = Some x /\ sc_closed x = false /\ getByID sid (sc_sockets x) = Some s) /\
  (forall c x sid s, sv_conns w !! c = Some x -> getByID sid (sc_sockets x) = Some s ->
     s_conn s = c /\ exists n, sv_namespaces w !! s_nsp s = Some n /\ n_sockets n !! sid = Some s) /\
  (forall p x, sv_sockets w !! p = Some x -> ss_connected x = true ->
     exists n, sv_namespaces w !! s_nsp (ss_socket x) = Some n /\ n_sockets n !! s_id (ss_socket x) = Some (ss_socket x)) /\
  (forall name n room sid, sv_namespaces w !! name = Some n -> ad_in (n_adapter n) room sid = true ->
     is_Some (n_sockets n !! sid)).
Proof.
  intros HO HJ HR HN HS. pose proof (inv_steps _ _ _ _ _ HO HJ HS (server_inv_new _ _ HR HN)) as I. split; [|split; [|split]].
  - intros name n sid s Hn Hs. destruct (i_nsp _ _ I _ _ Hn) as (_ & Hns & _).
    destruct (Hns _ _ Hs) as (<- & E2 & _ & Hc & [Hin|[]]). repeat (split; [done|]). exact Hin.
  - intros c x sid s Hx Hs. destruct (i_conn _ _ I _ _ Hx) as ((Hco & _) & _ & Hin). destruct (Hin _ _ Hs) as [Hc Hn].
    split; [done|]. destruct (Hco _ _ Hs) as [<- _]. exact Hn.
  - intros p x Hx Hc. destruct (i_object _ _ I _ _ Hx) as [_ Ho]. by apply Ho.
  - intros name n room sid Hn Hin. destruct (i_nsp _ _ I _ _ Hn) as (_ & _ & Hr). by eapply Hr.
Qed.

(** ** What a CONNECT packet does *)

(** The specification of the middlewares: the first that refuses decides. *)
Definition first_refusal (fs : list NM) (auth : string) s : option ME :=
  head (omap (fun f => (env_nsp_middleware env f s auth).2) fs).

Lemma runMiddlewares_verdict fs auth s w :
  (runMiddlewares env fs auth s w).2 = first_refusal fs auth s.
Proof.
  revert w. induction fs as [|f fs IH]; intros w; [done|]. cbn. unfold first_refusal in *. cbn.
  destruct (env_nsp_middleware env f s auth) as [rooms [err|]]; [done|]. cbn. apply IH.
Qed.

(** C17: The answer to one CONNECT packet, handled on its own, that asks on an open connection for an existing
    namespace of which the connection has no socket yet, when connection state recovery is off, the auth data is
    valid JSON, an ID can be generated, the middlewares join no rooms and the answer can be encoded: exactly one
    packet is sent, and it is the truth. If no middleware refuses, it is a CONNECT packet with the ID of a new
    socket, which is then connected, in the stores of its connection and of its namespace and in the room of its
    own, and will be given to the connection handlers. If one refuses, it is a CONNECT_ERROR packet with the error
    of the first that did, the new socket is not connected, and the namespaces with their stores and rooms, the
    connections and the tasks are as they were. *)
Theorem connect_answered c p w x n auth rec id ids :
  no_joins env -> RecoveryEnabled (sv_config w) = false -> sv_conns w !! c = Some x -> sc_closed x = false ->
  Typ (rc_header p) = PacketTypeConnect -> parser.Namespace (rc_header p) <> ""%string ->
  getByNsp (parser.Namespace (rc_header p)) (sc_sockets x) = None ->
  sv_namespaces w !! parser.Namespace (rc_header p) = Some n -> rc_auth p = Some auth -> env_recovery env auth = Some rec ->
  sv_ids w = Some id :: ids ->
  let name := parser.Namespace (rc_header p) in
  let s := mkSocket (length (sv_sockets w)) id "" false name c in
  match first_refusal (n_middlewares n) auth s with
  | None =>
      forall buf bufs, env_Encode env (mkPacketHeader PacketTypeConnect name None 0) (PSidInfo id "") = Some (buf :: bufs) ->
      sv_out (handle env c p w) = sv_out w ++ [ESend c (message_of (buf :: bufs))] /\
      Connected s (handle env c p w) = true /\ in_nsp s (handle env c p w) /\ in_conn s (handle env c p w) /\
      (exists n', sv_namespaces (handle env c p w) !! name = Some n' /\ ad_in (n_adapter n') id id = true) /\
      sv_tasks (handle env c p w) = sv_tasks w ++ [TConnection s]
  | Some err =>
      forall buf bufs, env_Encode env (mkPacketHeader PacketTypeConnectError name None 0) (PConnectError (inr err)) = Some (buf :: bufs) ->
      sv_out (handle env c p w) = sv_out w ++ [ESend c (message_of (buf :: bufs))] /\
      sv_namespaces (handle env c p w) = sv_namespaces w /\ sv_conns (handle env c p w) = sv_conns w /\
      sv_tasks (handle env c p w) = sv_tasks w /\ Connected s (handle env c p w) = false
  end.
Proof.
  intros HJ HR Hx Hcl Ht Hne Hby Hn Ha Hrec Hids. cbv zeta.
  set (name := parser.Namespace (rc_header p)) in *. set (s := mkSocket _ _ _ _ _ _).
  set (w1 := upd_sockets (fun l => l ++ [newSocketState s]) (upd_ids (fun _ => ids) w)).
  assert (handle env c p w =
    match first_refusal (n_middlewares n) auth s with
    | Some err => connectError env (inr err) name c w1
    | None => store_socket s (doConnect env s w1)
    end) as ->.
  { unfold handle, onParserFinish. rewrite Hx. fold name. destruct (String.eqb_spec name ""); [done|]. cbv zeta. fold name. rewrite Ht, Hby.
    unfold connect. cbn [rc_header rc_auth]. fold name. rewrite Hn. cbn [negb]. rewrite Ha. unfold add. rewrite Hrec. destruct rec as [sid offset].
    rewrite HR. unfold newServerSocket, GenerateBase64ID. rewrite Hids. cbn [sv_config upd_ids]. rewrite HR. unfold alloc. cbn [sv_sockets upd_ids].
    fold s. change (upd_sockets (fun l => (l ++ [newSocketState s])%list) (upd_ids (fun _ => ids) w)) with w1.
    change (sv_config w1) with (sv_config w). rewrite HR. cbn [andb]. change (sv_namespaces w1) with (sv_namespaces w). rewrite Hn.
    pose proof (runMiddlewares_verdict (n_middlewares n) auth s w1) as EV. pose proof (runMiddlewares_same env (n_middlewares n) auth s w1 HJ) as ES.
    destruct (runMiddlewares _ _ _ _ _) as [w2 v]. cbn in EV, ES. subst w2 v. by destruct (first_refusal _ _ _). }
  assert (sv_sockets w1 !! s_ptr s = Some (newSocketState s)) as Hs by (cbn; by rewrite lookup_app_r, Nat.sub_diag).
  destruct (first_refusal (n_middlewares n) auth s) as [err|]; intros buf bufs HE.
  - unfold connectError. rewrite HE. unfold sendBuffers. rewrite message_packets_Ret. repeat (split; [done|]).
    unfold Connected. cbn. by rewrite lookup_app_r, Nat.sub_diag.
  - unfold doConnect, onConnect, Join. cbv zeta. change (sv_sockets (upd_nsp (s_nsp s) _ w1)) with (sv_sockets w1). rewrite Hs. cbn [ss_joins newSocketState].
    assert (env_Encode env (mkPacketHeader PacketTypeConnect (s_nsp s) None 0) (PSidInfo (s_id s) (s_pid s)) = Some (buf :: bufs)) as HE'
      by exact HE.
    unfold sendControlPacket, encode_and_send. rewrite HE'. unfold sendBuffers. rewrite message_packets_Ret. split; [done|].
    split; [unfold Connected; cbn; by rewrite list_lookup_alter_eq, lookup_app_r, Nat.sub_diag|].
    assert (forall m : gmap string (@Namespace Ad NM), m !! name = Some n ->
      alter (fun n => mkNamespace (n_sockets n) (ad_AddAll id [id] (n_adapter n)) (n_ackID n) (n_middlewares n)) name
        (alter (fun n => mkNamespace (<[id := s]> (n_sockets n)) (n_adapter n) (n_ackID n) (n_middlewares n)) name m) !! name =
      Some (mkNamespace (<[id := s]> (n_sockets n)) (ad_AddAll id [id] (n_adapter n)) (n_ackID n) (n_middlewares n))) as HA.
    { intros m Hm. by rewrite !lookup_alter_eq, Hm. }
    split; [|split; [|split; [|done]]].
    + eexists. cbn. split; [by apply HA|]. cbn. by rewrite lookup_insert_eq.
    + unfold in_conn. cbn. rewrite list_lookup_alter_eq, Hx. eexists. split; [reflexivity|]. cbn. split; [done|]. by rewrite lookup_insert_eq.
    + eexists. cbn. split; [by apply HA|]. cbn. rewrite ad_in_AddAll. rewrite (bool_decide_eq_true_2 (id = id /\ id ∈ [id])); [apply orb_true_r|].
      split; [done|]. by constructor.
Qed.
End agree.

(** ** The in-memory adapter implements the interface *)

Section inmemory.
Context {A : Type}.
Abbreviation ima := (adapter.inMemoryAdapter (gset string) (gset string)).

(** The rooms of a socket, in the order in which the set is visited. *)
Definition rooms_of (sid : string) (a : ima) : list string := elements (default ∅ (adapter.sids a !! sid)).

#[export] Instance inMemory_adapter : SocketAdapter ima A := {
  ad_new := adapter.newInMemoryAdapter;
  ad_AddAll := adapter.AddAll;
  ad_Delete := adapter.Delete;
  ad_DeleteAll sid a := adapter.DeleteAll sid (rooms_of sid a) a;
  ad_SocketRooms sid a := elements <$> adapter.SocketRooms sid (rooms_of sid a) a;
  ad_Broadcast _ _ _ a := a;
  ad_PersistSession _ a := a;
  ad_RestoreSession _ _ a := (a, None);
  ad_in := adapter.in_room;
}.

Lemma rooms_of_visits sid a : adapter.visits_rooms (rooms_of sid a) sid a.
Proof.
  intros room. unfold adapter.has_room, rooms_of. destruct (adapter.sids a !! sid) as [s|]; [|done]. cbn.
  intros Hc%bool_decide_eq_true. by apply elem_of_elements.
Qed.

#[export] Instance inMemory_lawful : LawfulSocketAdapter ima A.
Proof.
  refine {| ad_ok := adapter.wf |}.
  - apply adapter.wf_new.
  - intros sid rs a. apply adapter.wf_AddAll.
  - intros sid room a. apply adapter.wf_Delete.
  - intros sid a Ha. apply adapter.wf_DeleteAll; [done|apply rooms_of_visits].
  - done.
  - done.
  - intros sid rs a room sid'. cbn. rewrite adapter.in_room_AddAll, orb_comm. f_equal. by rewrite bool_decide_and.
  - intros sid room a room' sid'. cbn. rewrite adapter.in_room_Delete. by intros [_ ?]%andb_prop.
  - intros sid a room sid' Ha. cbn. rewrite adapter.in_room_DeleteAll by (done || apply rooms_of_visits).
    rewrite andb_comm. f_equal. by rewrite bool_decide_not.
  - done.
Qed.
End inmemory.

(** ** A concrete environment *)

Section concrete.
#[local] Open Scope string_scope.
#[local] Open Scope list_scope.

#[local] Instance Z_value : ReflectValue Z := {
  rv_isPtr := fun _ => false; rv_Elem := id; rv_String := fun _ => None; rv_CanInterface := fun _ => true }.

(** A middleware is given by the rooms it joins and its verdict; a packet is encoded as its type. *)
Definition nm : Type := list string * option string.

Definition ex_type (t : PacketType) : Z :=
  match t with
  | PacketTypeConnect => 0 | PacketTypeDisconnect => 1 | PacketTypeEvent => 2 | PacketTypeAck => 3
  | PacketTypeConnectError => 4 | PacketTypeBinaryEvent => 5 | PacketTypeBinaryAck => 6
  end.

Definition ex_env (joins : bool) : environment Z any nm unit string :=
  mkEnv (fun header _ => Some [[z2b (ex_type (Typ header))]]) (fun _ => Some ("", "")) (fun f _ _ => (if joins then f.1 else [], f.2))
    (fun _ => mkFuncType true [PString; PSlice true] true [true]) (fun _ => false) (fun _ _ => true)
    (fun _ _ => []) (fun _ _ => false) (fun _ => None) (fun m => (map_to_list m).*2).

Abbreviation ex_Server := (Server Z any (adapter.inMemoryAdapter (gset string) (gset string)) nm unit).

Lemma ex_order_ok joins : order_ok (ex_env joins).
Proof.
  intros m s. cbn. rewrite list_elem_of_fmap. split.
  - intros ([sid s'] & -> & Hin%elem_of_map_to_list). eauto.
  - intros [sid Hs]. exists (sid, s). split; [done|]. by apply elem_of_map_to_list.
Qed.

Definition ex_event_arg (_ : string) : any := AnyOther.

Definition ex_packet (typ : PacketType) : @received Z := mkReceived (mkPacketHeader typ "/" None 0) "ev" (fun _ => Some []) (Some "{}").

Definition ex_wire (typ : Z) : eioparser.Packet := eioparser.mkPacket false eioparser.PacketTypeMessage [z2b typ].

(** Running the operations that are not those of users. *)
Definition ex_exec (joins : bool) (o : @op Z any nm unit) (w : ex_Server) : option ex_Server :=
  match o with
  | OpAccept => Some (onEIOSocket w)
  | OpArrive c p => Some (go (TParsed c p) w)
  | OpHandle c p => x ← sv_conns w !! c; if sc_closed x then None else Some (handle (ex_env joins) c p w)
  | OpRun i => t ← sv_tasks w !! i; Some (run_task (ex_env joins) t (upd_tasks (delete i) w))
  | OpEioClosed reason c => Some (eio_closed (ex_env joins) reason c w)
  | OpOf name => Some (Of name w)
  | OpUse nsp f => Some (Use nsp f w)
  | OpClose => Some (Close (ex_env joins) w)
  | _ => None
  end.

Fixpoint ex_run (joins : bool) (os : list (@op Z any nm unit)) (w : ex_Server) : option ex_Server :=
  match os with
  | [] => Some w
  | o :: os' => w ← ex_exec joins o w; ex_run joins os' w
  end.

Lemma ex_exec_step joins o w w' : ex_exec joins o w = Some w' -> step (ex_env joins) id ex_event_arg o w w'.
Proof.
  destruct o; cbn [ex_exec]; try discriminate; try (intros [= <-]; constructor).
  - intros (x & Hx & HE)%bind_Some. destruct (sc_closed x) eqn:Ec; [discriminate HE|]. injection HE as <-. by econstructor.
  - intros (t0 & Ht & [= <-])%bind_Some. by constructor.
Qed.

Lemma ex_run_steps joins allowed os w w' :
  forallb allowed os = true -> ex_run joins os w = Some w' -> steps (ex_env joins) id ex_event_arg allowed w w'.
Proof.
  revert w. induction os as [|o os IH]; intros w; cbn [ex_run forallb].
  - intros _ [= <-]. constructor.
  - intros [Ho Hos]%andb_prop (w1 & HE & HR)%bind_Some. econstructor; [exact Ho|by apply ex_exec_step|by apply IH].
Qed.

(** What a run that returns shows. *)
Lemma ex_observe {B} (f : ex_Server -> B) (r : option ex_Server) v : f <$> r = Some v -> exists w, r = Some w /\ f w = v.
Proof. intros (w & Hw & ->)%fmap_Some. eauto. Qed.

Definition ex_new (ids : list (option string)) : ex_Server := NewServer (mkServerConfig 0 false false 0 false) ids.

(** A client connects to the main namespace, disconnects from it, and its connection is closed. *)
Definition ex_visit : list (@op Z any nm unit) :=
  [OpOf "/"; OpAccept; OpHandle 0 (ex_packet PacketTypeConnect); OpRun 1; OpHandle 0 (ex_packet PacketTypeDisconnect);
   OpEioClosed ReasonTransportClose 0; OpClose].

Lemma disconnect_at_most_once_witness :
  exists w, ex_run true ex_visit (ex_new [Some "a"]) = Some w /\ disconnects w = [0] /\
  NoDup (disconnects w) /\ forall s reason, EDisconnect s reason ∈ sv_out w -> closed_object (s_ptr s) w.
Proof.
  destruct (ex_observe disconnects (ex_run true ex_visit (ex_new [Some "a"])) [0]) as (w & E & HD); [vm_compute; reflexivity|].
  exists w. split; [exact E|]. split.
  - exact HD.
  - apply (disconnect_at_most_once (ex_env true) id ex_event_arg (mkServerConfig 0 false false 0 false) [Some "a"]).
    by apply (ex_run_steps true (fun _ => true) ex_visit).
Defined.

(** Two clients are in the main namespace; a third is refused; the first leaves. *)
Definition ex_session : list (@op Z any nm unit) :=
  [OpOf "/"; OpAccept; OpAccept; OpAccept; OpHandle 0 (ex_packet PacketTypeConnect); OpHandle 1 (ex_packet PacketTypeConnect);
   OpUse "/" ([], Some "no"); OpHandle 2 (ex_packet PacketTypeConnect); OpEioClosed ReasonTransportClose 0].

Definition members (w : ex_Server) : option (list string) := (fun n => (map_to_list (n_sockets n)).*1) <$> sv_namespaces w !! "/".

Lemma stores_agree_witness :
  exists w, ex_run false ex_session (ex_new [Some "a"; Some "b"; Some "c"]) = Some w /\ members w = Some ["b"] /\
  (forall name n sid s, sv_namespaces w !! name = Some n -> n_sockets n !! sid = Some s ->
     s_id s = sid /\ s_nsp s = name /\ Connected s w = true /\
     exists x, sv_conns w !! s_conn s = Some x /\ sc_closed x = false /\ getByID sid (sc_sockets x) = Some s) /\
  (forall c x sid s, sv_conns w !! c = Some x -> getByID sid (sc_sockets x) = Some s ->
     s_conn s = c /\ exists n, sv_namespaces w !! s_nsp s = Some n /\ n_sockets n !! sid = Some s) /\
  (forall p x, sv_sockets w !! p = Some x -> ss_connected x = true ->
     exists n, sv_namespaces w !! s_nsp (ss_socket x) = Some n /\ n_sockets n !! s_id (ss_socket x) = Some (ss_socket x)) /\
  (forall name n room sid, sv_namespaces w !! name = Some n -> ad_in (A := any) (n_adapter n) room sid = true ->
     is_Some (n_sockets n !! sid)).
Proof.
  destruct (ex_observe members (ex_run false ex_session (ex_new [Some "a"; Some "b"; Some "c"])) (Some ["b"])) as (w & E & HD);
    [vm_compute; reflexivity|].
  exists w. split; [exact E|]. split.
  - exact HD.
  - apply (stores_agree (ex_env false) id ex_event_arg (mkServerConfig 0 false false 0 false) [Some "a"; Some "b"; Some "c"]).
    + apply ex_order_ok.
    + intros f s auth. reflexivity.
    + reflexivity.
    + apply (bool_decide_unpack _). vm_compute. exact I.
    + by apply (ex_run_steps false sequential ex_session).
Defined.

Lemma middleware_rejects_witness :
  let s := mkSocket 0 "a" "" false "/" 0 in let h := mkEventHandler 1 [TOther] in
  let w := upd_sockets (fun _ => [set_middlewares [tt] (newSocketState s)]) (ex_new []) in
  onEvent (ex_env true) s (mkPacketHeader PacketTypeEvent "/" None 0) (fun _ => Some [5%Z]) 0 w h = emits [EError s] w.
Proof.
  exact (middleware_rejects (ex_env true) (mkSocket 0 "a" "" false "/" 0) (mkPacketHeader PacketTypeEvent "/" None 0) (fun _ => Some [5%Z]) 0
    (upd_sockets (fun _ => [set_middlewares [tt] (newSocketState (mkSocket 0 "a" "" false "/" 0))]) (ex_new []))
    (mkEventHandler 1 [TOther]) _ tt [] [5%Z] eq_refl eq_refl eq_refl eq_refl eq_refl).
Defined.

Definition ex_open : ex_Server := onEIOSocket (Of "/" (ex_new [Some "a"])).

Lemma connect_answered_witness :
  let c := ex_packet PacketTypeConnect in let w := ex_open in
  sv_out (handle (ex_env false) 0 c w) = sv_out w ++ [ESend 0 [ex_wire 0]] /\
  Connected (mkSocket 0 "a" "" false "/" 0) (handle (ex_env false) 0 c w) = true /\
  in_nsp (mkSocket 0 "a" "" false "/" 0) (handle (ex_env false) 0 c w) /\
  in_conn (mkSocket 0 "a" "" false "/" 0) (handle (ex_env false) 0 c w) /\
  (exists n', sv_namespaces (handle (ex_env false) 0 c w) !! "/" = Some n' /\ ad_in (A := any) (n_adapter n') "a" "a" = true) /\
  sv_tasks (handle (ex_env false) 0 c w) = sv_tasks w ++ [TConnection (mkSocket 0 "a" "" false "/" 0)].
Proof.
  exact (connect_answered (ex_env false) 0 (ex_packet PacketTypeConnect) ex_open newConn newNamespace "{}" ("", "") "a" []
    (fun _ _ _ => eq_refl) eq_refl eq_refl eq_refl eq_refl ltac:(discriminate) eq_refl eq_refl eq_refl eq_refl eq_refl [x00] [] eq_refl).
Defined.

(** Three schedules. *)
Definition ex_early_event : list (@op Z any nm unit) :=
  [OpOf "/"; OpAccept; OpArrive 0 (ex_packet PacketTypeConnect); OpRun 1; OpArrive 0 (ex_packet PacketTypeEvent); OpRun 3; OpRun 2].

Definition ex_late_connect : list (@op Z any nm unit) :=
  [OpOf "/"; OpAccept; OpArrive 0 (ex_packet PacketTypeConnect); OpEioClosed ReasonTransportClose 0; OpRun 1; OpRun 2].

Definition ex_refused : list (@op Z any nm unit) :=
  [OpOf "/"; OpUse "/" (["vip"], None); OpUse "/" ([], Some "no"); OpAccept; OpHandle 0 (ex_packet PacketTypeConnect)].

Definition ex_conn (w : ex_Server) : option (bool * option serverSocket) :=
  (fun x => (sc_closed x, getByNsp "/" (sc_sockets x))) <$> sv_conns w !! 0.

Definition ex_nsp (sid room : string) (w : ex_Server) : option (option serverSocket * bool) :=
  (fun n => (n_sockets n !! sid, ad_in (A := any) (n_adapter n) room sid)) <$> sv_namespaces w !! "/".

(** Three ways in which the server's records of its sockets come apart. (1) The event of a client that has just
    received its CONNECT reply is handled before the goroutine of its CONNECT packet has stored the socket: the
    connection is closed as if the client had misbehaved, and the socket stays, connected, in the namespace, in its room and
    in the store of the closed connection. (2) The same happens to the goroutine of a CONNECT packet that runs after the connection
    was closed. (3) A middleware makes the socket join a room, and the next refuses it: the room keeps
    the ID of a socket that does not exist. *)
Theorem stores_come_apart :
  let s := mkSocket 0 "a" "" false "/" 0 in
  let leaked w := ex_conn w = Some (true, Some s) /\ Connected s w = true /\ ex_nsp "a" "a" w = Some (Some s, true) in
  (exists w, ex_run true ex_early_event (ex_new [Some "a"]) = Some w /\ head (sv_out w) = Some (ESend 0 [ex_wire 0]) /\ leaked w) /\
  (exists w, ex_run true ex_late_connect (ex_new [Some "a"]) = Some w /\ leaked w) /\
  (exists w, ex_run true ex_refused (ex_new [Some "a"]) = Some w /\ ex_nsp "a" "vip" w = Some (None, true)).
Proof.
  cbv zeta. set (s := mkSocket 0 "a" "" false "/" 0). split; [|split].
  - destruct (ex_observe (fun w => (head (sv_out w), ex_conn w, Connected s w, ex_nsp "a" "a" w)) (ex_run true ex_early_event (ex_new [Some "a"]))
      (Some (ESend 0 [ex_wire 0]), Some (true, Some s), true, Some (Some s, true))) as (w & E & [= H1 H2 H3 H4]); [vm_compute; reflexivity|].
    by exists w.
  - destruct (ex_observe (fun w => (ex_conn w, Connected s w, ex_nsp "a" "a" w)) (ex_run true ex_late_connect (ex_new [Some "a"]))
      (Some (true, Some s), true, Some (Some s, true))) as (w & E & [= H2 H3 H4]); [vm_compute; reflexivity|].
    by exists w.
  - apply (ex_observe (ex_nsp "a" "vip")). vm_compute. reflexivity.
Qed.
End concrete.
End serversafety.
