(* ===== verification/SioClose.v ===== *)
(** * Concurrent closings of a socket of the server ([server_socket.go], [onClose])

    [SioServer.sioserver.onClose] is one step of the server. Here the same function is a
    sequence of steps, one per statement that touches shared state, called by any number of
    goroutines at once (a packet, the end of the connection, [Disconnect], [Close] of the
    server) and guarded by [closeOnce], which runs the body for one caller and makes the
    others wait until it is done. *)

From S2P Require Import Prelude SioPacket EioPacket Handlers Events MapSet Adapter Stores Dispatch SioServer SioServerInv SioServerSafety.

Module sioclose.
Import parser handler reserved dispatch serverSocketStore sioserver.

Section closing.
Context {V A Ad NM SM ME : Type} `{ReflectValue V} `{SocketAdapter Ad A}.
Context (env : environment V A NM SM ME).
Implicit Types (w : Server V A Ad NM SM) (s : serverSocket).

(** ** The body *)

(** The statements of the function that [closeOnce] guards, after the check of [Connected]. *)
Definition body s (reason : string) : list (Server V A Ad NM SM -> Server V A Ad NM SM) :=
  [ emits [EDisconnecting s reason];
    fun w => if RecoveryEnabled (sv_config w) && bool_decide (reason ∈ recoverableDisconnectReasons) then persist s w else w;
    upd_socket s stop_joins;
    leaveAll s;
    nsp_remove s;
    conn_remove s;
    upd_socket s (set_connected false);
    emits [EDisconnect s reason] ].

(** What the winner runs when it finds the socket as [w] has it. *)
Definition program s (reason : string) w : list (Server V A Ad NM SM -> Server V A Ad NM SM) :=
  if Connected s w then body s reason else [].

Definition run (fs : list (Server V A Ad NM SM -> Server V A Ad NM SM)) w : Server V A Ad NM SM := fold_left (fun w f => f w) fs w.

(** [sync.Once]: not used, its function running, its function returned. *)
Inductive once_state := OnceFree | OnceBusy | OnceDone.

(** [Do]: the state afterwards and whether the caller runs the function; [None]: it blocks. *)
Definition Do (o : once_state) : option (once_state * bool) :=
  match o with
  | OnceFree => Some (OnceBusy, true)
  | OnceBusy => None
  | OnceDone => Some (OnceDone, false)
  end.

(** A call of [onClose]: before [Do], before the check, in the body, returned. *)
Inductive call :=
  | Calls (reason : string)
  | Entered (reason : string)
  | Inside (reason : string) (todo : list (Server V A Ad NM SM -> Server V A Ad NM SM))
  | Returned (reason : string).

Record closing := mkClosing {
  cl_w : Server V A Ad NM SM;
  cl_once : once_state;
  cl_calls : list call;
}.

Definition with_call (i : nat) (c : call) (st : closing) : closing :=
  mkClosing (cl_w st) (cl_once st) (<[i := c]> (cl_calls st)).

Definition with_w w (st : closing) : closing := mkClosing w (cl_once st) (cl_calls st).

(** The end of [Do]: the use of [closeOnce] is recorded in the socket. *)
Definition finish s (st : closing) : closing := mkClosing (upd_socket s set_closed (cl_w st)) OnceDone (cl_calls st).

(** One step of call [i]. *)
Inductive advance s (i : nat) : closing -> closing -> Prop :=
  | ad_do reason o runs st :
      cl_calls st !! i = Some (Calls reason) -> Do (cl_once st) = Some (o, runs) ->
      advance s i st (with_call i (if runs : bool then Entered reason else Returned reason) (mkClosing (cl_w st) o (cl_calls st)))
  | ad_check reason st :
      cl_calls st !! i = Some (Entered reason) ->
      advance s i st (with_call i (Inside reason (program s reason (cl_w st))) st)
  | ad_body reason f todo st :
      cl_calls st !! i = Some (Inside reason (f :: todo)) ->
      advance s i st (with_call i (Inside reason todo) (with_w (f (cl_w st)) st))
  | ad_end reason st :
      cl_calls st !! i = Some (Inside reason []) -> advance s i st (with_call i (Returned reason) (finish s st)).

(** What others do meanwhile: sockets (this one too) join and leave rooms and are sent
    packets, other sockets connect and close, connections are accepted. *)
Inductive meanwhile s : Server V A Ad NM SM -> Server V A Ad NM SM -> Prop :=
  | mw_join rooms s' w : meanwhile s w (Join rooms s' w)
  | mw_leave room s' w : meanwhile s w (Leave room s' w)
  | mw_send s' header v w : meanwhile s w (encode_and_send env s' header v w)
  | mw_connect s' w : s_ptr s' <> s_ptr s -> meanwhile s w (doConnect env s' w)
  | mw_store s' w : meanwhile s w (store_socket s' w)
  | mw_accept w : meanwhile s w (onEIOSocket w)
  | mw_close reason s' w : s_ptr s' <> s_ptr s -> meanwhile s w (onClose reason s' w).

Section runs.
Context (others : Server V A Ad NM SM -> Server V A Ad NM SM -> Prop) (s : serverSocket).

Inductive cstep : closing -> closing -> Prop :=
  | cs_call reason st : cstep st (mkClosing (cl_w st) (cl_once st) (cl_calls st ++ [Calls reason]))
  | cs_advance i st st' : advance s i st st' -> cstep st st'
  | cs_others w' st : others (cl_w st) w' -> cstep st (with_w w' st).

Inductive creachable (w0 : Server V A Ad NM SM) : closing -> Prop :=
  | cr_start : creachable w0 (mkClosing w0 OnceFree [])
  | cr_step st st' : creachable w0 st -> cstep st st' -> creachable w0 st'.
End runs.

(** The statements one after the other, and the record of [closeOnce], are [onClose]. *)
Lemma onClose_body reason s w x :
  sv_sockets w !! s_ptr s = Some x -> ss_closed x = false ->
  onClose reason s w = upd_socket s set_closed (run (program s reason w) w).
Proof.
  intros Hx Hc. unfold onClose, program, Connected. rewrite Hx, Hc. destruct (ss_connected x); [|done]. cbn [negb].
  destruct w as [cfg ns cs ss ids ts cells out]. unfold run, body. cbn [fold_left emits sv_config upd_socket upd_sockets].
  assert (forall l : list (@socketState SM), alter set_closed (s_ptr s) (alter (set_connected false) (s_ptr s) (alter stop_joins (s_ptr s) l)) =
    alter (set_connected false) (s_ptr s) (alter stop_joins (s_ptr s) (alter set_closed (s_ptr s) l))) as HC.
  { intros l. generalize (s_ptr s) as i. induction l as [|y l IH]; intros [|i]; [done..|]. cbn. f_equal. apply IH. }
  destruct (RecoveryEnabled cfg && _); cbn; unfold upd_socket, upd_sockets; cbn; by rewrite HC.
Qed.

(** ** Who is inside *)

Definition reason_of (c : call) : string :=
  match c with Calls r | Entered r | Inside r _ | Returned r => r end.

(** Exactly one caller is inside while the function runs; nobody has returned before it is done. *)
Definition guarded (st : closing) : Prop :=
  match cl_once st with
  | OnceFree => forall i c, cl_calls st !! i = Some c -> exists r, c = Calls r
  | OnceBusy =>
      exists k, (exists c, cl_calls st !! k = Some c /\ match c with Entered _ | Inside _ _ => True | _ => False end) /\
        forall i c, i <> k -> cl_calls st !! i = Some c -> exists r, c = Calls r
  | OnceDone => forall i c, cl_calls st !! i = Some c -> exists r, c = Calls r \/ c = Returned r
  end.

Definition inside (c : call) : bool := match c with Entered _ | Inside _ _ => true | _ => false end.

(** The caller inside, if there is one, is alone there. *)
Lemma inside_alone i c st :
  guarded st -> cl_calls st !! i = Some c -> inside c = true ->
  cl_once st = OnceBusy /\ forall j c', j <> i -> cl_calls st !! j = Some c' -> exists r, c' = Calls r.
Proof.
  unfold guarded. intros HG Hc Hi. destruct (cl_once st).
  - by destruct (HG _ _ Hc) as [r ->].
  - split; [done|]. destruct HG as (k & _ & HG). destruct (decide (i = k)) as [->|Hne]; [exact HG|].
    by destruct (HG _ _ Hne Hc) as [r ->].
  - by destruct (HG _ _ Hc) as (r & [-> | ->]).
Qed.

(** Moving the caller that is inside keeps it alone. *)
Lemma guarded_move i c c' w st :
  guarded st -> cl_calls st !! i = Some c -> inside c = true -> inside c' = true ->
  guarded (with_call i c' (with_w w st)).
Proof.
  intros HG Hc Hi Hi'. destruct (inside_alone i c st HG Hc Hi) as [EO Ha]. unfold guarded. cbn. rewrite EO.
  exists i. split.
  - exists c'. rewrite list_lookup_insert_eq by (by eapply lookup_lt_Some). split; [done|]. by destruct c'.
  - intros j cj Hj. rewrite list_lookup_insert_ne by done. by apply Ha.
Qed.

Lemma guarded_advance s i st st' : guarded st -> advance s i st st' -> guarded st'.
Proof.
  intros HG HA. destruct HA as [reason o runs st Hc Hd|reason st Hc|reason f todo st Hc|reason st Hc];
    pose proof (lookup_lt_Some _ _ _ Hc) as Hlt.
  - unfold guarded, Do in *. destruct (cl_once st) eqn:EO; simplify_eq; cbn.
    + exists i. split; [eexists; by rewrite list_lookup_insert_eq|]. intros j c Hj. rewrite list_lookup_insert_ne by done. apply HG.
    + intros j c. destruct (decide (j = i)) as [->|Hj]; [rewrite list_lookup_insert_eq by done; intros [= <-]; eauto|].
      rewrite list_lookup_insert_ne by done. apply HG.
  - by apply (guarded_move i (Entered reason) _ (cl_w st) st).
  - by apply (guarded_move i (Inside reason (f :: todo)) _ (f (cl_w st)) st).
  - destruct (inside_alone i _ st HG Hc eq_refl) as [_ Ha]. unfold guarded. cbn. intros j c.
    destruct (decide (j = i)) as [->|Hj]; [rewrite list_lookup_insert_eq by done; intros [= <-]; eauto|].
    rewrite list_lookup_insert_ne by done. intros Hjc. destruct (Ha _ _ Hj Hjc) as [r ->]. eauto.
Qed.

Lemma guarded_call reason st : guarded st -> guarded (mkClosing (cl_w st) (cl_once st) (cl_calls st ++ [Calls reason])).
Proof.
  assert (forall i c, (cl_calls st ++ [Calls reason]) !! i = Some c -> cl_calls st !! i = Some c \/ c = Calls reason) as HL.
  { intros i c [Hc|[_ Hc]]%lookup_app_Some; [by left|right]. by apply list_lookup_singleton_Some in Hc as [_ <-]. }
  unfold guarded. cbn. destruct (cl_once st); intros HG.
  - intros i c [Hc| ->]%HL; eauto.
  - destruct HG as (k & (c & Hc & Hi) & HG). exists k. split; [exists c; split; [by apply lookup_app_l_Some|done]|].
    intros j c' Hj [Hc'| ->]%HL; eauto.
  - intros i c [Hc| ->]%HL; eauto.
Qed.

Lemma guarded_step others s st st' : guarded st -> cstep others s st st' -> guarded st'.
Proof. intros HG HS. destruct HS as [reason st|i st st' HA|w' st _]; [by apply guarded_call|by eapply guarded_advance|exact HG]. Qed.

Lemma creachable_guarded others s w0 st : creachable others s w0 st -> guarded st.
Proof. induction 1 as [|st st' _ IH HS]; [intros i c Hc; discriminate|by eapply guarded_step]. Qed.

(** A call that has returned did so after the function was done. *)
Lemma returned_done i r st : guarded st -> cl_calls st !! i = Some (Returned r) -> cl_once st = OnceDone.
Proof.
  unfold guarded. intros HG Hc. destruct (cl_once st); [|destruct HG as (k & (c & Hk & Hi) & HG)|done].
  - by destruct (HG _ _ Hc).
  - destruct (decide (i = k)) as [->|Hne]; [|by destruct (HG _ _ Hne Hc)]. rewrite Hc in Hk. by injection Hk as <-.
Qed.

(** ** Every call returns *)

Definition work1 (c : call) : nat :=
  match c with Calls _ => 11 | Entered _ => 10 | Inside _ todo => S (length todo) | Returned _ => 0 end.

Fixpoint total (l : list call) : nat := match l with [] => 0 | c :: l => work1 c + total l end.

Definition work (st : closing) : nat := total (cl_calls st).

Lemma work_insert i c c' (l : list call) :
  l !! i = Some c -> work1 c' < work1 c -> total (<[i := c']> l) < total l.
Proof.
  revert i. induction l as [|x l IH]; intros [|i] Hc Hw; try done; cbn.
  - injection Hc as ->. lia.
  - apply Nat.add_lt_mono_l. exact (IH i Hc Hw).
Qed.

Lemma advance_work s i st st' : advance s i st st' -> work st' < work st.
Proof.
  destruct 1 as [reason o runs st Hc Hd|reason st Hc|reason f todo st Hc|reason st Hc]; unfold work; cbn [cl_calls with_call with_w finish];
    eapply work_insert; try exact Hc; cbn.
  - destruct runs; cbn; lia.
  - unfold program. destruct (Connected s (cl_w st)); cbn; lia.
  - lia.
  - lia.
Qed.

(** While a call has not returned, some call can go on. *)
Lemma advance_possible s i c st :
  guarded st -> cl_calls st !! i = Some c -> (forall r, c <> Returned r) -> exists j st', advance s j st st'.
Proof.
  intros HG Hc Hr. destruct c as [r|r|r [|f todo]|r]; [|by eexists _, _; eapply ad_check|by eexists _, _; eapply ad_end|
    by eexists _, _; eapply ad_body|by destruct (Hr r)].
  destruct (cl_once st) eqn:EO.
  - eexists _, _. eapply ad_do; [exact Hc|]. by rewrite EO.
  - unfold guarded in HG. rewrite EO in HG. destruct HG as (k & (ck & Hk & Hi) & _). destruct ck as [|r'|r' [|f todo]|]; try done.
    + by eexists _, _; eapply ad_check.
    + by eexists _, _; eapply ad_end.
    + by eexists _, _; eapply ad_body.
  - eexists _, _. eapply ad_do; [exact Hc|]. by rewrite EO.
Qed.

(** ** What is announced *)

(** The reasons the disconnect handlers of a socket were called with. *)
Definition said s (es : list (@effect V A)) : list string :=
  omap (fun e => match e with EDisconnect s' r => if decide (s_ptr s' = s_ptr s) then Some r else None | _ => None end) es.

Definition announced s w : list string := said s (sv_out w).

(** What neither announces [s] nor changes whether it is connected. *)
Record quiet s w w' : Prop := mkQuiet {
  q_out : announced s w' = announced s w;
  q_connected : Connected s w' = Connected s w;
}.

Lemma quiet_trans s w1 w2 w3 : quiet s w1 w2 -> quiet s w2 w3 -> quiet s w1 w3.
Proof. intros [E1 C1] [E2 C2]. split; congruence. Qed.

Lemma quiet_eq s w w' : sv_out w' = sv_out w -> sv_sockets w' = sv_sockets w -> quiet s w w'.
Proof. intros E1 E2. split; unfold announced, Connected; by rewrite ?E1, ?E2. Qed.

Lemma announced_emits s l w : announced s (emits l w) = announced s w ++ said s l.
Proof. apply omap_app. Qed.

Lemma quiet_emits s l w : said s l = [] -> quiet s w (emits l w).
Proof. intros E. split; [|done]. by rewrite announced_emits, E, app_nil_r. Qed.

Lemma quiet_upd_socket s s' f w :
  s_ptr s' <> s_ptr s \/ (forall x, ss_connected (f x) = ss_connected x) -> quiet s w (upd_socket s' f w).
Proof.
  intros Hf. split; [done|]. unfold Connected. cbn. destruct (decide (s_ptr s' = s_ptr s)) as [E|Hne].
  - destruct Hf as [Hf|Hf]; [done|]. rewrite E, list_lookup_alter_eq. destruct (sv_sockets w !! s_ptr s); [apply Hf|done].
  - by rewrite list_lookup_alter_ne.
Qed.

Lemma said_errors s l : said s (EError <$> l) = [].
Proof. induction l; [done|exact IHl]. Qed.

Lemma quiet_sendBuffers s c bufs w : quiet s w (sendBuffers env c bufs w).
Proof.
  unfold sendBuffers. destruct (message_packets bufs) as [[ps|]| |]; [by apply quiet_emits|by apply quiet_eq|..];
    (apply (quiet_trans s w (conn_onError env c w)); [apply quiet_emits, said_errors|by apply quiet_eq]).
Qed.

Lemma quiet_encode s s' header v w : quiet s w (encode_and_send env s' header v w).
Proof. unfold encode_and_send. destruct (env_Encode env header v); [apply quiet_sendBuffers|by apply quiet_emits]. Qed.

Lemma quiet_Join s rooms s' w : quiet s w (Join rooms s' w).
Proof. unfold Join. destruct (sv_sockets w !! s_ptr s') as [x|]; [destruct (ss_joins x)|]; by apply quiet_eq. Qed.

Lemma quiet_onClose s reason s' w : s_ptr s' <> s_ptr s -> quiet s w (onClose reason s' w).
Proof.
  intros Hne. destruct (sv_sockets w !! s_ptr s') as [x|] eqn:Ex; [|unfold onClose; rewrite Ex; by apply quiet_eq].
  destruct (ss_closed x) eqn:Ec; [unfold onClose; rewrite Ex, Ec; by apply quiet_eq|].
  rewrite (onClose_body reason s' w x Ex Ec). eapply quiet_trans; [|apply (quiet_upd_socket s s' set_closed); by left].
  unfold program. destruct (Connected s' w); [|by apply quiet_eq].
  assert (Forall (fun f => forall w0, quiet s w0 (f w0)) (body s' reason)) as HF.
  { unfold body. repeat (apply Forall_cons_2; [intros w0|]); [..|constructor].
    all: try (by apply quiet_eq); try (apply quiet_emits; cbn; by rewrite ?decide_False).
    all: try (apply quiet_upd_socket; by left). destruct (_ && _); by apply quiet_eq. }
  clear -HF. revert w. induction HF as [|f fs Hf _ IH]; intros w; [by apply quiet_eq|].
  cbn [run fold_left]. eapply quiet_trans; [apply Hf|apply IH].
Qed.

Lemma quiet_meanwhile s w w' : meanwhile s w w' -> quiet s w w'.
Proof.
  intros [rooms s' w0|room s' w0|s' header v w0|s' w0 Hne|s' w0|w0|reason s' w0 Hne].
  - apply quiet_Join.
  - by apply quiet_eq.
  - apply quiet_encode.
  - unfold doConnect, onConnect. set (w1 := upd_nsp _ _ w0). eapply (quiet_trans s w0 w1); [by apply quiet_eq|].
    eapply quiet_trans; [apply (quiet_Join s [s_id s'] s')|]. eapply quiet_trans; [apply quiet_encode|].
    eapply quiet_trans; [apply (quiet_upd_socket s s' (set_connected true)); by left|by apply quiet_eq].
  - by apply quiet_eq.
  - by apply quiet_eq.
  - by apply quiet_onClose.
Qed.

(** What each statement of the body does to it. *)
Lemma body_statement s r n f w :
  body s r !! n = Some f ->
  announced s (f w) = announced s w ++ (if n =? 7 then [r] else []) /\
  Connected s (f w) = if n =? 6 then false else Connected s w.
Proof.
  intros Hf. assert (forall b : bool, quiet s w (if b then persist s w else w)) as HP by (intros []; by apply quiet_eq).
  destruct n as [|[|[|[|[|[|[|[|n]]]]]]]]; [injection Hf as <-..|done]; cbn [Nat.eqb]; rewrite ?app_nil_r.
  - split; [rewrite announced_emits; apply app_nil_r|done].
  - split; apply HP.
  - destruct (quiet_upd_socket s s stop_joins w) as [E1 E2]; [by right|by split].
  - done.
  - done.
  - done.
  - split; [done|]. unfold Connected. cbn. rewrite list_lookup_alter_eq. by destruct (sv_sockets w !! s_ptr s).
  - split; [|done]. rewrite announced_emits. cbn. by rewrite decide_True.
Qed.

(** How far the winner is, and what has been announced by then. *)
Definition told s (st : closing) : Prop :=
  match cl_once st with
  | OnceFree => announced s (cl_w st) = [] /\ Connected s (cl_w st) = true
  | OnceBusy =>
      exists k r,
        (cl_calls st !! k = Some (Entered r) /\ announced s (cl_w st) = [] /\ Connected s (cl_w st) = true) \/
        exists n, n <= 8 /\ cl_calls st !! k = Some (Inside r (drop n (body s r))) /\
          announced s (cl_w st) = (if n <=? 7 then [] else [r]) /\ Connected s (cl_w st) = (n <=? 6)
  | OnceDone =>
      exists k c, cl_calls st !! k = Some c /\ announced s (cl_w st) = [reason_of c] /\ Connected s (cl_w st) = false
  end.

(** The caller inside is the one [told] speaks of. *)
Lemma told_inside s i c st :
  guarded st -> told s st -> cl_calls st !! i = Some c -> inside c = true ->
  (exists r, c = Entered r /\ announced s (cl_w st) = [] /\ Connected s (cl_w st) = true) \/
  exists r n, n <= 8 /\ c = Inside r (drop n (body s r)) /\
    announced s (cl_w st) = (if n <=? 7 then [] else [r]) /\ Connected s (cl_w st) = (n <=? 6).
Proof.
  intros HG HT Hc Hi. destruct (inside_alone i c st HG Hc Hi) as [EO Ha]. unfold told in HT. rewrite EO in HT.
  assert (forall k c', cl_calls st !! k = Some c' -> inside c' = true -> c' = c) as HU.
  { intros k c' Hk Hi'. destruct (decide (k = i)) as [->|Hne]; [congruence|]. by destruct (Ha _ _ Hne Hk) as [r ->]. }
  destruct HT as (k & r & [(Hk & HA & HC)|(n & Hn & Hk & HA & HC)]).
  - left. exists r. split; [|done]. symmetry. by apply (HU k).
  - right. exists r, n. split; [done|]. split; [|done]. symmetry. by apply (HU k).
Qed.

Lemma told_do s i r o (runs : bool) st :
  told s st -> cl_calls st !! i = Some (Calls r) -> Do (cl_once st) = Some (o, runs) ->
  told s (with_call i (if runs then Entered r else Returned r) (mkClosing (cl_w st) o (cl_calls st))).
Proof.
  intros HT Hc Hd. pose proof (lookup_lt_Some _ _ _ Hc) as Hlt. unfold told, Do in *. destruct (cl_once st); simplify_eq; cbn.
  - destruct HT as [HA HC]. exists i, r. left. by rewrite list_lookup_insert_eq.
  - destruct HT as (k & c & Hk & HA & HC). destruct (decide (k = i)) as [->|Hne].
    + exists i, (Returned r). rewrite list_lookup_insert_eq by done. rewrite Hc in Hk. by injection Hk as <-.
    + exists k, c. by rewrite list_lookup_insert_ne.
Qed.

Lemma told_advance s i st st' : guarded st -> told s st -> advance s i st st' -> told s st'.
Proof.
  intros HG HT HA. destruct HA as [reason o runs st Hc Hd|reason st Hc|reason f todo st Hc|reason st Hc];
    [by apply told_do|..]; pose proof (lookup_lt_Some _ _ _ Hc) as Hlt; pose proof (told_inside s i _ st HG HT Hc eq_refl) as HX;
    pose proof (proj1 (inside_alone i _ st HG Hc eq_refl)) as EO.
  - destruct HX as [(r & [= <-] & HA & HC)|(r & n & _ & [=] & _)]. unfold told. cbn. rewrite EO. exists i, reason. right. exists 0.
    rewrite list_lookup_insert_eq by done. unfold program. rewrite HC. split; [lia|done].
  - destruct HX as [(r & [=] & _)|(r & n & Hn & [= <- Hd] & HA & HC)]. unfold told. cbn. rewrite EO. exists i, reason. right.
    assert (body s reason !! n = Some f /\ drop (S n) (body s reason) = todo) as [Hf Ht].
    { rewrite <- (Nat.add_0_r n) at 1. rewrite <- lookup_drop, <- Hd. split; [done|].
      replace (S n) with (n + 1) by lia. by rewrite <- drop_drop, <- Hd. }
    pose proof (lookup_lt_Some _ _ _ Hf) as Hlt'. change (length (body s reason)) with 8 in Hlt'.
    destruct (body_statement s reason n f (cl_w st) Hf) as [E1 E2]. exists (S n). rewrite list_lookup_insert_eq, E1, E2, HA, HC, Ht by done.
    split; [lia|]. split; [done|]. clear -Hlt'. by destruct n as [|[|[|[|[|[|[|[|n]]]]]]]]; [..|lia].
  - destruct HX as [(r & [=] & _)|(r & n & Hn & [= <- Hd] & HA & HC)]. unfold told. cbn. exists i, (Returned reason).
    rewrite list_lookup_insert_eq by done. split; [done|].
    assert (n = 8) as ->.
    { apply (f_equal length) in Hd. rewrite length_drop in Hd. change (length (body s reason)) with 8 in Hd. cbn in Hd. lia. }
    destruct (quiet_upd_socket s s set_closed (cl_w st)) as [E1 E2]; [by right|].
    change (announced s (upd_socket s set_closed (cl_w st)) = [reason] /\ Connected s (upd_socket s set_closed (cl_w st)) = false).
    by rewrite E1, E2.
Qed.

Lemma closing_told_step s st st' : guarded st -> told s st -> cstep (meanwhile s) s st st' -> told s st'.
Proof.
  intros HG HT HS. destruct HS as [reason st|i st st' HA|w' st HM]; [|by eapply told_advance|].
  - assert (forall k c, cl_calls st !! k = Some c -> (cl_calls st ++ [Calls reason]) !! k = Some c) as HL by (intros k c; apply lookup_app_l_Some).
    unfold told in *. cbn. destruct (cl_once st); [done|..].
    + destruct HT as (k & r & [(Hk & HT)|(n & Hn & Hk & HT)]); exists k, r; [left|right; exists n]; split_and!; try done; try apply HT; by apply HL.
    + destruct HT as (k & c & Hk & HT). exists k, c. split; [by apply HL|done].
  - apply quiet_meanwhile in HM as [E1 E2]. unfold told in *. cbn. destruct (cl_once st); rewrite E1, E2; exact HT.
Qed.

(** ** Properties *)


(** How far the winner is, when nobody else touches the server. *)
Definition partway s w0 (st : closing) : Prop :=
  match cl_once st with
  | OnceFree => cl_w st = w0
  | OnceBusy =>
      exists k r, (cl_calls st !! k = Some (Entered r) /\ cl_w st = w0) \/
        exists n, cl_calls st !! k = Some (Inside r (drop n (program s r w0))) /\ cl_w st = run (take n (program s r w0)) w0
  | OnceDone => exists k c, cl_calls st !! k = Some c /\ cl_w st = onClose (reason_of c) s w0
  end.

(** The caller inside is the one [partway] speaks of. *)
Lemma partway_inside s w0 i c st :
  guarded st -> partway s w0 st -> cl_calls st !! i = Some c -> inside c = true ->
  (exists r, c = Entered r /\ cl_w st = w0) \/
  exists r n, c = Inside r (drop n (program s r w0)) /\ cl_w st = run (take n (program s r w0)) w0.
Proof.
  intros HG HT Hc Hi. destruct (inside_alone i c st HG Hc Hi) as [EO Ha]. unfold partway in HT. rewrite EO in HT.
  assert (forall k c', cl_calls st !! k = Some c' -> inside c' = true -> c' = c) as HU.
  { intros k c' Hk Hi'. destruct (decide (k = i)) as [->|Hne]; [congruence|]. by destruct (Ha _ _ Hne Hk) as [r ->]. }
  destruct HT as (k & r & [(Hk & HW)|(n & Hk & HW)]).
  - left. exists r. split; [|done]. symmetry. by apply (HU k).
  - right. exists r, n. split; [|done]. symmetry. by apply (HU k).
Qed.

Lemma run_snoc fs f w : run (fs ++ [f]) w = f (run fs w).
Proof. unfold run. by rewrite fold_left_app. Qed.

Lemma partway_advance s w0 x i st st' :
  sv_sockets w0 !! s_ptr s = Some x -> ss_closed x = false ->
  guarded st -> partway s w0 st -> advance s i st st' -> partway s w0 st'.
Proof.
  intros Hx Hcl HG HT HA. destruct HA as [reason o runs st Hc Hd|reason st Hc|reason f todo st Hc|reason st Hc];
    pose proof (lookup_lt_Some _ _ _ Hc) as Hlt;
    [|pose proof (partway_inside s w0 i _ st HG HT Hc eq_refl) as HX; pose proof (proj1 (inside_alone i _ st HG Hc eq_refl)) as EO..].
  - unfold partway, Do in *. destruct (cl_once st); simplify_eq; cbn.
    + exists i, reason. left. by rewrite list_lookup_insert_eq.
    + destruct HT as (k & c & Hk & HW). destruct (decide (k = i)) as [->|Hne].
      * exists i, (Returned reason). rewrite list_lookup_insert_eq by done. rewrite Hc in Hk. by injection Hk as <-.
      * exists k, c. by rewrite list_lookup_insert_ne.
  - destruct HX as [(r & [= <-] & HW)|(r & n & [=] & _)]. unfold partway. cbn. rewrite EO. exists i, reason. right. exists 0.
    rewrite list_lookup_insert_eq by done. by rewrite HW.
  - destruct HX as [(r & [=] & _)|(r & n & [= <- Hd] & HW)]. unfold partway. cbn. rewrite EO. exists i, reason. right. exists (S n).
    assert (program s reason w0 !! n = Some f) as Hf by (rewrite <- (Nat.add_0_r n), <- lookup_drop, <- Hd; done).
    rewrite list_lookup_insert_eq by done. rewrite (take_S_r _ _ _ Hf), run_snoc, <- HW. split; [|done]. do 2 f_equal.
    replace (S n) with (n + 1) by lia. by rewrite <- drop_drop, <- Hd.
  - destruct HX as [(r & [=] & _)|(r & n & [= <- Hd] & HW)]. unfold partway. cbn. exists i, (Returned reason).
    rewrite list_lookup_insert_eq by done. split; [done|]. cbn. rewrite HW, (onClose_body reason s w0 x Hx Hcl).
    apply (f_equal length) in Hd. rewrite length_drop in Hd. cbn in Hd. by rewrite take_ge by lia.
Qed.

End closing.

(** ** Two callers *)

Section witness.
Import serversafety.
#[local] Existing Instance Z_value.
#[local] Open Scope string_scope.
#[local] Open Scope list_scope.

Definition ex_socket : serverSocket := mkSocket 0 "a" "" false "/" 0.

Abbreviation ex_adapter := (adapter.inMemoryAdapter (gset string) (gset string)).

Definition ex_connected : Server Z any ex_adapter nm unit := handle (ex_env false) 0 (ex_packet PacketTypeConnect) ex_open.

Abbreviation ex_closing := (@closing Z any ex_adapter nm unit).

(** Two calls are made. *)
Definition ex_two : ex_closing := mkClosing ex_connected OnceFree [Calls "first"; Calls "second"].

(** The step of call [i], if it has one. *)
Definition ex_advance (i : nat) (st : ex_closing) : option ex_closing :=
  c ← cl_calls st !! i;
  match c with
  | Calls r => '(o, runs) ← Do (cl_once st);
      Some (with_call i (if runs : bool then Entered r else Returned r) (mkClosing (cl_w st) o (cl_calls st)))
  | Entered r => Some (with_call i (Inside r (program ex_socket r (cl_w st))) st)
  | Inside r (f :: todo) => Some (with_call i (Inside r todo) (with_w (f (cl_w st)) st))
  | Inside r [] => Some (with_call i (Returned r) (finish ex_socket st))
  | Returned _ => None
  end.

Fixpoint ex_schedule (js : list nat) (st : ex_closing) : option ex_closing :=
  match js with [] => Some st | i :: js => st ← ex_advance i st; ex_schedule js st end.

Lemma ex_advance_step i st st' : ex_advance i st = Some st' -> advance ex_socket i st st'.
Proof.
  unfold ex_advance. intros (c & Hc & HE)%bind_Some. destruct c as [r|r|r [|f todo]|r]; simplify_eq; [|by econstructor..].
  apply bind_Some in HE as ([o runs] & Hd & [= <-]). by econstructor.
Qed.

Lemma ex_schedule_reaches others js st st' :
  creachable others ex_socket ex_connected st -> ex_schedule js st = Some st' -> creachable others ex_socket ex_connected st'.
Proof.
  revert st. induction js as [|i js IH]; intros st HR; cbn [ex_schedule]; [by intros [= <-]|].
  intros (st1 & HE & HS)%bind_Some. apply (IH st1); [|done]. apply (cr_step _ _ _ st); [done|].
  apply (cs_advance _ _ i). by apply ex_advance_step.
Qed.

Lemma ex_two_reachable others : creachable others ex_socket ex_connected ex_two.
Proof.
  apply (cr_step _ _ _ (mkClosing ex_connected OnceFree [Calls "first"])); [|exact (cs_call _ _ "second" _)].
  apply (cr_step _ _ _ (mkClosing ex_connected OnceFree [])); [constructor|exact (cs_call _ _ "first" _)].
Qed.

(** The second caller is blocked in the middle of the first one's body, and passes afterwards. *)
Definition ex_order : list nat := repeat 1 11 ++ [0].


End witness.
End sioclose.
