(* ===== verification/SioServerFeed.v ===== *)
(** * From the connection to the goroutines of packets ([server_conn.go], [onEIOPacket])

    The packets of an Engine.IO session feed the parser of the connection, which calls [onParserFinish] for every packet it has
    reassembled; that starts a goroutine, a task of the server. *)

From S2P Require Import Prelude SioPacket EioPacket JsonHeader JsonParser Handlers Events MapSet Adapter Stores Dispatch SioServer SioServerInv SioServerSafety.

Module serverfeed.
Import parser jsonparser reassembly handler dispatch sioserver.
#[local] Existing Instance eioparser.PacketType_eq_decision.

Section feed.
Context {J : Type} `{JSONSerializer J}.
Context {V A Ad NM SM ME : Type} `{ReflectValue V} `{SocketAdapter Ad A}.
Context (env : environment V A NM SM ME).
(** The [decode] closure, and the authentication data it gives for a CONNECT. *)
Context (decode : PacketHeader -> list bytes -> list gotype -> option (list V)) (auth : list bytes -> option string).
Implicit Types (w : Server V A Ad NM SM).

Definition received_of (f : finished) : received :=
  let '(header, eventName, buffers) := f in mkReceived header eventName (decode header buffers) (auth buffers).

(** [onEIOPacket] of the connection [c], under [parserMu]: packets that are not messages are skipped; the first error of the
    parser closes the connection and returns. *)
Fixpoint onEIOPacket (c : nat) (packets : list eioparser.Packet) (p : Parser) w : outcome unit (Parser * Server V A Ad NM SM) :=
  match packets with
  | [] => Ret (p, w)
  | packet :: packets =>
      if bool_decide (eioparser.Typ packet = eioparser.PacketTypeMessage) then
        match Add p (eioparser.Data packet) with
        | (p, Ret None) => onEIOPacket c packets p w
        | (p, Ret (Some f)) => onEIOPacket c packets p (go (TParsed c (received_of f)) w)
        | (p, Err _) => Ret (p, onFatalError env c w)
        | (_, Panic why) => Panic why
        end
      else onEIOPacket c packets p w
  end.

(** The data of the messages. *)
Definition messages_of (packets : list eioparser.Packet) : list bytes :=
  eioparser.Data <$> List.filter (fun p => bool_decide (eioparser.Typ p = eioparser.PacketTypeMessage)) packets.

(** The goroutines of packets that were reassembled. *)
Definition dispatch_all (c : nat) (fs : list finished) w : Server V A Ad NM SM :=
  fold_left (fun w f => go (TParsed c (received_of f)) w) fs w.

(** [onEIOPacket] is the feeding of the messages to the parser, with a goroutine for each packet finished. *)
Lemma onEIOPacket_feed c packets p w :
  onEIOPacket c packets p w =
  match feed p (messages_of packets) with
  | (p', fs, None) => Ret (p', dispatch_all c fs w)
  | (p', fs, Some (Panic why)) => Panic why
  | (p', fs, Some _) => Ret (p', onFatalError env c (dispatch_all c fs w))
  end.
Proof.
  unfold messages_of. revert p w. induction packets as [|packet packets IH]; intros p w; [done|].
  cbn [onEIOPacket List.filter]. destruct (bool_decide _); [|apply IH]. cbn [fmap list_fmap feed].
  destruct (Add p (eioparser.Data packet)) as [p1 [[f|]|e|why]]; [| |done|done].
  - rewrite IH. unfold messages_of. destruct (feed p1 _) as [[p2 fs] [[[]|e|why]|]]; done.
  - rewrite IH. unfold messages_of. destruct (feed p1 _) as [[p2 fs] [[[]|e|why]|]]; done.
Qed.

Lemma dispatch_all_tasks c fs w :
  dispatch_all c fs w = upd_tasks (fun ts => app ts ((fun f => TParsed c (received_of f)) <$> fs)) w.
Proof.
  revert w. induction fs as [|f fs IH]; intros w; cbn.
  - destruct w. unfold upd_tasks. cbn. by rewrite app_nil_r.
  - unfold dispatch_all in IH. rewrite IH. unfold go, upd_tasks. cbn. by rewrite <- app_assoc.
Qed.

(** The calls of [onEIOPacket], one after the other. *)
Fixpoint onEIOPackets (c : nat) (calls : list (list eioparser.Packet)) (p : Parser) w : outcome unit (Parser * Server V A Ad NM SM) :=
  match calls with
  | [] => Ret (p, w)
  | packets :: calls => '(p, w) ← onEIOPacket c packets p w; onEIOPackets c calls p w
  end.

Lemma messages_of_app l1 l2 : messages_of (l1 ++ l2) = messages_of l1 ++ messages_of l2.
Proof. unfold messages_of. by rewrite List.filter_app, fmap_app. Qed.

(** What a prefix of messages does when the whole is read without an error. *)
Lemma feed_split p ms1 ms2 p'' fs :
  feed p (ms1 ++ ms2) = (p'', fs, None) ->
  exists p' f1 f2, feed p ms1 = (p', f1, None) /\ feed p' ms2 = (p'', f2, None) /\ fs = f1 ++ f2.
Proof.
  revert p fs. induction ms1 as [|m ms1 IH]; intros p fs; cbn [feed app].
  - intros HF. by exists p, [], fs.
  - destruct (Add p m) as [q [fin|e|why]]; [|discriminate|discriminate].
    destruct (feed q (ms1 ++ ms2)) as [[q' fs'] er] eqn:Eq. intros [= -> <- ->].
    destruct (IH q fs' Eq) as (p' & f1 & f2 & -> & H2 & ->). exists p'.
    destruct fin as [f|]; [exists (f :: f1), f2|exists f1, f2]; done.
Qed.

Lemma onEIOPackets_feed c calls p p' fs w :
  feed p (messages_of (concat calls)) = (p', fs, None) -> onEIOPackets c calls p w = Ret (p', dispatch_all c fs w).
Proof.
  revert p fs w. induction calls as [|packets calls IH]; intros p fs w; cbn [concat onEIOPackets].
  - cbn. by intros [= <- <-].
  - rewrite messages_of_app. intros (p1 & f1 & f2 & HF1 & HF2 & ->)%feed_split. rewrite onEIOPacket_feed, HF1. cbn [mbind outcome_bind].
    rewrite (IH _ _ _ HF2). unfold dispatch_all. by rewrite fold_left_app.
Qed.

(** A call of [onEIOPacket] is a sequence of the server's steps: packets that arrive, and at most one error. *)
Lemma onEIOPacket_steps any_of event_arg c packets p w p' w' :
  onEIOPacket c packets p w = Ret (p', w') ->
  steps env any_of event_arg (fun o => match o with OpArrive c' _ | OpParserError c' => c' =? c | _ => false end) w w'.
Proof.
  revert p w. induction packets as [|packet packets IH]; intros p w; cbn [onEIOPacket].
  - intros [= _ <-]. apply steps_refl.
  - destruct (bool_decide _); [|apply IH]. destruct (Add p _) as [p1 [[f|]|e|why]]; [| | |discriminate].
    + intros HS. eapply steps_cons; [|apply step_arrive|by eapply IH]. apply Nat.eqb_refl.
    + apply IH.
    + intros [= _ <-]. eapply steps_cons; [|apply step_parserError|apply steps_refl]. apply Nat.eqb_refl.
Qed.

End feed.
(** The messages of packets, whatever the calls they arrive in. *)
Lemma dispatched {J} `{JSONSerializer J} {V A Ad NM SM ME} `{ReflectValue V} `{SocketAdapter Ad A} (env : environment V A NM SM ME)
    decode auth c calls p (w : Server V A Ad NM SM) pkts sent :
  p_r p = None ->
  Forall (fun '(text, atts, (header, eventName, bufs)) =>
    exists buf, parseHeader text = Ret (header, buf, eventName) /\ bufs = buf :: atts /\
      (if IsBinary header then Attachments header = Z.of_nat (length atts) else atts = []) /\
      (Attachments header <= max_int64)%Z /\
      (p_maxAttachments p <= 0 \/ Attachments header <= p_maxAttachments p)%Z) pkts ->
  Forall2 (fun '(text, atts, _) packets => message_packets (text :: atts) = Ret (Some packets)) pkts sent ->
  List.filter (fun q => bool_decide (eioparser.Typ q = eioparser.PacketTypeMessage)) (concat calls) = concat sent ->
  onEIOPackets env decode auth c calls p w =
    Ret (p, upd_tasks (fun ts => app ts ((fun pkt => TParsed c (received_of decode auth (snd pkt))) <$> pkts)) w).
Proof.
  intros Hr HF HS HC.
  assert (messages_of (concat calls) = concat ((fun '(text, atts, _) => text :: atts) <$> pkts)) as HM.
  { unfold messages_of. rewrite HC. clear HC HF. induction HS as [|[[text atts] f] packets pkts sent HP HS IH]; [done|].
    cbn [concat fmap list_fmap]. rewrite fmap_app, IH. f_equal.
    rewrite message_packets_Ret in HP. injection HP as <-. cbn. f_equal.
    rewrite <- list_fmap_compose. clear. induction atts; cbn; [done|by f_equal]. }
  erewrite onEIOPackets_feed; [|rewrite HM; by apply feed_all]. f_equal. f_equal.
  rewrite dispatch_all_tasks. unfold upd_tasks. by rewrite <- list_fmap_compose.
Qed.

(** ** Properties *)

(** C15: What a client sends reaches the server's goroutines packet by packet. The buffers of Socket.IO packets, each turned into Engine.IO messages as the sending side
    does ([message_packets]: the text, then the attachments as binary), arrive in one or several calls of [onEIOPacket], cut anywhere and mixed with packets that are not
    messages. Then for each packet one goroutine is started, in their order, with its header, its event and its buffers; the parser is idle again,
    and nothing else of the server has changed. *)
Theorem messages_dispatched {J} `{JSONSerializer J} {V A Ad NM SM ME} `{ReflectValue V} `{SocketAdapter Ad A} (env : environment V A NM SM ME)
    decode auth c calls p (w : Server V A Ad NM SM) pkts sent :
  p_r p = None ->
  Forall (fun '(text, atts, (header, eventName, bufs)) =>
    exists buf, parseHeader text = Ret (header, buf, eventName) /\ bufs = buf :: atts /\
      (if IsBinary header then Attachments header = Z.of_nat (length atts) else atts = []) /\
      (Attachments header <= max_int64)%Z /\
      (p_maxAttachments p <= 0 \/ Attachments header <= p_maxAttachments p)%Z) pkts ->
  Forall2 (fun '(text, atts, _) packets => message_packets (text :: atts) = Ret (Some packets)) pkts sent ->
  List.filter (fun q => bool_decide (eioparser.Typ q = eioparser.PacketTypeMessage)) (concat calls) = concat sent ->
  onEIOPackets env decode auth c calls p w =
    Ret (p, upd_tasks (fun ts => app ts ((fun pkt => TParsed c (received_of decode auth (snd pkt))) <$> pkts)) w).
Proof. apply dispatched. Qed.

(** An event with two attachments and a DISCONNECT, in two calls, with a PONG in between. *)
Lemma messages_dispatched_witness :
  let msg b d := eioparser.mkPacket b eioparser.PacketTypeMessage d in
  let decode := fun (_ : PacketHeader) (_ : list bytes) (_ : list gotype) => Some ([] : list Z) in
  let auth := fun _ : list bytes => None in
  @onEIOPackets _ plain_serializer _ _ _ _ _ _ (serversafety.ex_env false) decode auth 0
    [[msg false sample_text; eioparser.mkPacket false eioparser.PacketTypePong []; msg true [x01]]; [msg true [x02]; msg false (to_bytes "1/admin,")]]
    (NewParser 0) serversafety.ex_open =
  Ret (NewParser 0, upd_tasks (fun ts => app ts
    [TParsed 0 (received_of decode auth (sample_header, "hi"%string, [sample_json; [x01]; [x02]]));
     TParsed 0 (received_of decode auth (mkPacketHeader PacketTypeDisconnect "/admin" None 0, ""%string, [[]]))]) serversafety.ex_open).
Proof.
  intros msg decode auth.
  pose (pkts := [(sample_text, [[x01]; [x02]], (sample_header, "hi"%string, [sample_json; [x01]; [x02]]));
                 (to_bytes "1/admin,", [], (mkPacketHeader PacketTypeDisconnect "/admin" None 0, ""%string, [[]]))]).
  pose proof (@messages_dispatched _ plain_serializer _ _ _ _ _ _ serversafety.Z_value serversafety.inMemory_adapter (serversafety.ex_env false) decode auth 0
    [[msg false sample_text; eioparser.mkPacket false eioparser.PacketTypePong []; msg true [x01]]; [msg true [x02]; msg false (to_bytes "1/admin,")]]
    (NewParser 0) serversafety.ex_open pkts
    [[msg false sample_text; msg true [x01]; msg true [x02]]; [msg false (to_bytes "1/admin,")]]) as HW.
  apply HW.
  - reflexivity.
  - repeat apply Forall_cons_2; [exists sample_json|exists []|by apply Forall_nil_2].
    all: split; [vm_compute; reflexivity|]; split; [reflexivity|]; split; [reflexivity|];
      split; [vm_compute; discriminate|left; reflexivity].
  - repeat constructor.
  - reflexivity.
Defined.

End serverfeed.
