(* ===== verification/EndToEnd.v ===== *)
(** * From one side to the other ([client_socket.go], [parser/json], [server_conn.go], [server_socket.go])

    Client and server with the JSON parser between them: an event emitted by a client's socket is encoded, sent as
    Engine.IO messages, reassembled by the parser of the server's connection, and given to the handlers; when it asks
    for an acknowledgement, what the handler answers goes the same way back to the function that was passed to
    [Emit]. The models of the two sockets and of the parser, each in a file of its own, are put together here: the
    environments of the sockets get the parser's [Encode], and the packets they receive its [decode]. *)

From S2P Require Import Prelude SioPacket EioPacket JsonHeader JsonParser JsonBinary JsonText JsonAttachments JsonAcks Handlers Events Dispatch.
From S2P Require Import MapSet Adapter Stores ClientManager ClientSocket SioServer SioServerInv SioServerSafety SioServerFeed.

Module endtoend.
Import parser jsonparser reassembly binary jsontext attachments acks handler dispatch.
#[local] Existing Instance eioparser.PacketType_eq_decision.

(** ** Values *)

(** Decoded values are the Go values of [JsonBinary]. [Elem] is called on pointers that [decode] has made. *)
#[export] Instance gval_value : ReflectValue gval := {
  rv_isPtr v := match v with GPtr _ _ => true | _ => false end;
  rv_Elem v := match v with GPtr _ (Some w) => w | _ => v end;
  rv_String v := match v with GString s => Some s | _ => None end;
  rv_CanInterface _ := true;
}.

(** What users pass to [Emit]: values, and a function to be called with the answer. *)
Inductive emitted := EVal (v : gval) | EFun (f : any).

Definition any_of (e : emitted) : any := match e with EVal _ => AnyOther | EFun f => f end.

Definition event_arg (name : string) : emitted := EVal (GString name).

(** Functions are not JSON. *)
Definition values_of (es : list emitted) : option (list gval) :=
  mapM (fun e => match e with EVal v => Some v | EFun _ => None end) es.

Section endtoend.
Context `{AckJSON}.

(** ** The parser in the environments of the sockets *)

Definition sent {E} (o : outcome E (list bytes)) : outcome unit (list bytes) :=
  match o with Ret b => Ret b | Err _ => Err tt | Panic why => Panic why end.

(** [Encode] of the client, for all but the data of a CONNECT. *)
Definition client_Encode {Auth} (max : Z) (connect : PacketHeader -> @clientsocket.payload gval emitted Auth -> outcome unit (list bytes))
    (header : PacketHeader) (v : @clientsocket.payload gval emitted Auth) : outcome unit (list bytes) :=
  match v with
  | clientsocket.PEvent es => match values_of es with Some args => sent (Encode max header (Some (ack_value args))).2 | None => Err tt end
  | clientsocket.PAck args => sent (Encode max header (Some (ack_value args))).2
  | clientsocket.PNil => sent (Encode max header None).2
  | clientsocket.PConnect _ _ => connect header v
  end.

(** [Encode] of the server, for all but what is sent when a client connects. *)
Definition server_Encode {ME} (max : Z) (connect : PacketHeader -> @sioserver.payload gval emitted ME -> option (list bytes))
    (header : PacketHeader) (v : @sioserver.payload gval emitted ME) : option (list bytes) :=
  let ok o := match o with Ret b => Some b | _ => None end in
  match v with
  | sioserver.PEvent es => args ← values_of es; ok (Encode max header (Some (ack_value args))).2
  | sioserver.PAck args => ok (Encode max header (Some (ack_value args))).2
  | sioserver.PNil => ok (Encode max header None).2
  | sioserver.PSidInfo _ _ | sioserver.PConnectError _ => connect header v
  end.

(** The [decode] of a packet at the parameters of a handler; [types] tells the Go types of the parameters. *)
Context (types : list gotype -> list gty).

Definition decode_at (header : PacketHeader) (buffers : list bytes) (params : list gotype) : outcome error (list gval) :=
  decode header buffers (Some <$> types params).

Definition server_decode (header : PacketHeader) (buffers : list bytes) (params : list gotype) : option (list gval) :=
  match decode_at header buffers params with Ret vs => Some vs | _ => None end.

Definition client_decode (header : PacketHeader) (buffers : list bytes) (params : list gotype) : outcome unit (list gval) :=
  match decode_at header buffers params with Ret vs => Ret vs | Err _ => Err tt | Panic why => Panic why end.

(** Parameters that take the values, which have their types. *)
Definition takes (params : list gotype) (args : list gval) : Prop :=
  types params = typeOf <$> args /\ Forall2 (fun t a => is_ptr_type t = is_ptr (typeOf a)) params args.

(** What the parameters get of the decoded values. *)
Definition unboxed (a v : gval) : gval := if negb (is_ptr (typeOf a)) && rv_isPtr v then rv_Elem v else v.

(** A parameter that is no pointer gets what the decoded pointer points to: the value that was sent. *)
Lemma received_unboxed a v : sendable_arg a -> received a v -> reorder a (unboxed a v).
Proof.
  intros (Hw & _ & Hnil & _) (u & -> & Hu). unfold unboxed. cbn [rv_isPtr gval_value].
  destruct a as [| | | | | | | |e [w|]| |]; cbn [typeOf is_ptr negb andb rv_Elem gval_value target] in *; try exact Hu; [|by destruct (Hnil e)].
  cbn [wf] in Hw. apply andb_prop in Hw as [<-%bool_decide_eq_true _]. by constructor.
Qed.

Lemma convert_unboxed params args vals :
  Forall2 (fun t a => is_ptr_type t = is_ptr (typeOf a)) params args -> length vals = length args ->
  convert_values params vals = Some (zip_with unboxed args vals).
Proof.
  intros Hp Hl. unfold convert_values. rewrite Hl, <- (Forall2_length _ _ _ Hp), Nat.eqb_refl. f_equal. clear Hl. revert vals.
  induction Hp as [|t a params args Ht Hp IH]; intros [|v vals]; try done. cbn [zip_with].
  rewrite IH. f_equal. unfold convert, unboxed. by rewrite Ht.
Qed.

Lemma unboxed_delivered args vals :
  Forall sendable_arg args -> Forall2 received args vals -> Forall2 reorder args (zip_with unboxed args vals).
Proof.
  intros Ha Hv. induction Hv as [|a v args vals Hv Hvs IH]; [constructor|]. apply Forall_cons in Ha as [Ha1 Ha2].
  cbn [zip_with]. constructor; [|by apply IH]. by apply received_unboxed.
Qed.

(** ** The server's side *)

Section server.
Context {Ad NM SM ME : Type} `{!sioserver.SocketAdapter Ad emitted}.
Context (env : sioserver.environment gval emitted NM SM ME).
Implicit Types (w : sioserver.Server gval emitted Ad NM SM).

(** The connection [c] has the connected socket [s], without middlewares, in the namespace. *)
Record listens (c : nat) (s : sioserver.serverSocket) (x : sioserver.socketState) w : Prop := mkListens {
  ls_conn : exists conn, sioserver.sv_conns w !! c = Some conn /\
    serverSocketStore.getByNsp (sioserver.s_nsp s) (sioserver.sc_sockets conn) = Some s;
  ls_socket : sioserver.sv_sockets w !! sioserver.s_ptr s = Some x;
  ls_connected : sioserver.ss_connected x = true;
  ls_middlewares : sioserver.ss_middlewares x = [];
}.

Definition is_event_type (t : PacketType) : bool := match t with PacketTypeEvent | PacketTypeBinaryEvent => true | _ => false end.

Definition is_message (q : eioparser.Packet) : bool := bool_decide (eioparser.Typ q = eioparser.PacketTypeMessage).

(** What [onPacket] has done before it calls the handlers. *)
Definition prepared (s : sioserver.serverSocket) st w : sioserver.Server gval emitted Ad NM SM :=
  sioserver.upd_socket s (sioserver.set_handlers st) (sioserver.upd_cells (fun l => app l [false]) w).

Lemma run_event c s x w header name decode auth st hs :
  listens c s x w -> is_event_type (Typ header) = true -> Namespace header = sioserver.s_nsp s -> Namespace header <> ""%string ->
  eventHandlerStore.ev_getAll name (sioserver.ss_handlers x) = (st, hs) ->
  sioserver.run_task env (sioserver.TParsed c (sioserver.mkReceived header name decode auth)) w =
  fold_left (sioserver.onEvent env s header decode (length (sioserver.sv_cells w))) hs (prepared s st w).
Proof.
  intros [(conn & Hc & Hg) Hx _ _] Ht Hn Hne Hst. cbn [sioserver.run_task]. unfold sioserver.onParserFinish.
  rewrite Hc. cbn [sioserver.rc_header]. rewrite (proj2 (String.eqb_neq _ _) Hne), Hn, Hg.
  assert (sioserver.onPacket env s (sioserver.mkReceived header name decode auth) w =
    (fold_left (sioserver.onEvent env s header decode (length (sioserver.sv_cells w))) hs (prepared s st w), true)) as HP.
  { unfold sioserver.onPacket. cbn [sioserver.rc_header sioserver.rc_eventName sioserver.rc_decode].
    assert (sioserver.sv_sockets (sioserver.upd_cells (fun l => app l [false]) w) !! sioserver.s_ptr s = Some x) as -> by exact Hx.
    rewrite Hst. by destruct (Typ header). }
  cbn [sioserver.rc_eventName sioserver.rc_decode sioserver.rc_auth]. by destruct (Typ header); try discriminate; rewrite HP.
Qed.

Lemma prepared_socket c s x w st :
  listens c s x w -> sioserver.sv_sockets (prepared s st w) !! sioserver.s_ptr s = Some (sioserver.set_handlers st x).
Proof. intros [_ Hx _ _]. cbn. rewrite list_lookup_alter_eq. cbn. by rewrite Hx. Qed.

(** A call of a handler, and the report of its panic. *)
Definition called (s : sioserver.serverSocket) (args : list (harg gval)) (h : eventHandler) : list (@sioserver.effect gval emitted) :=
  sioserver.ECall s h args :: (if sioserver.env_panics env h args then [sioserver.EError s] else []).

Lemma emits_emits l1 l2 w : sioserver.emits l2 (sioserver.emits l1 w) = sioserver.emits (app l1 l2) w.
Proof. unfold sioserver.emits. cbn. by rewrite <- app_assoc. Qed.

Lemma onEvent_calls s x w header decode cell h vals0 vals :
  sioserver.sv_sockets w !! sioserver.s_ptr s = Some x -> sioserver.ss_connected x = true -> sioserver.ss_middlewares x = [] ->
  ID header = None -> decode (eh_inputArgs h) = Some vals0 -> convert_values (eh_inputArgs h) vals0 = Some vals ->
  sioserver.onEvent env s header decode cell w h = sioserver.emits (called s (HVal <$> vals) h) w.
Proof.
  intros Hx Hc Hm Hi Hd Hv. unfold sioserver.onEvent. rewrite Hd, Hv, Hx, Hm. cbn [sioserver.callMiddlewares forallb negb].
  unfold with_ack, called. rewrite Hc, Hi. cbn [negb]. by destruct (sioserver.env_panics _ _ _); rewrite ?emits_emits.
Qed.

Lemma onEvent_all s x header decode cell hs vals w :
  sioserver.sv_sockets w !! sioserver.s_ptr s = Some x -> sioserver.ss_connected x = true -> sioserver.ss_middlewares x = [] ->
  ID header = None ->
  Forall (fun h => exists vals0, decode (eh_inputArgs h) = Some vals0 /\ convert_values (eh_inputArgs h) vals0 = Some vals) hs ->
  fold_left (sioserver.onEvent env s header decode cell) hs w =
  sioserver.emits (concat (called s (HVal <$> vals) <$> hs)) w.
Proof.
  intros Hx Hc Hm Hi HF. revert w Hx. induction HF as [|h hs (vals0 & Hd & Hv) HF IH]; intros w Hx; cbn [fold_left fmap list_fmap concat].
  - unfold sioserver.emits. destruct w. cbn. by rewrite app_nil_r.
  - rewrite (onEvent_calls _ _ _ _ _ _ _ _ _ Hx Hc Hm Hi Hd Hv), IH by exact Hx. by rewrite emits_emits.
Qed.

(** One packet, in whatever calls its messages arrive. *)
Lemma server_receives decode auth c calls p w text atts header name buf :
  p_r p = None -> parseHeader text = Ret (header, buf, name) ->
  (if IsBinary header then Attachments header = Z.of_nat (length atts) else atts = []) ->
  (Attachments header <= max_int64)%Z -> (p_maxAttachments p <= 0 \/ Attachments header <= p_maxAttachments p)%Z ->
  List.filter is_message (concat calls) = message_of (text :: atts) ->
  serverfeed.onEIOPackets env decode auth c calls p w =
    Ret (p, sioserver.go (sioserver.TParsed c (sioserver.mkReceived header name (decode header (buf :: atts)) (auth (buf :: atts)))) w).
Proof.
  intros Hr Hp Hn Hm Hmp HC.
  rewrite (serverfeed.dispatched env decode auth c calls p w [(text, atts, (header, name, buf :: atts))] [message_of (text :: atts)]); try done.
  - constructor; [|constructor]. by exists buf.
  - constructor; [|constructor]. by rewrite message_packets_Ret.
  - cbn. by rewrite app_nil_r.
Qed.
End server.

(** The number of attachments a header announces is that of the values with binary data. *)
Lemma event_header_counts h args :
  Typ h = PacketTypeEvent -> Attachments h = 0%Z ->
  (if IsBinary (normalize (event_header h args)) then Attachments (normalize (event_header h args)) = Z.of_nat (length (args_leaves args))
   else args_leaves args = []) /\
  Attachments (normalize (event_header h args)) = Z.of_nat (length (args_leaves args)) /\
  is_event_type (Typ (normalize (event_header h args))) = true /\
  Namespace (normalize (event_header h args)) = (if bool_decide (Namespace h = "") then "/"%string else Namespace h) /\
  ID (normalize (event_header h args)) = ID h.
Proof.
  intros Ht H0'. unfold event_header. destruct (args_leaves args) as [|b bs].
  - unfold IsBinary. cbn. rewrite Ht. by split_and!.
  - by split_and!.
Qed.

(** ** The client's side *)

Section client.
Context {Auth : Type} (env : @clientsocket.environment gval emitted Auth).
Implicit Types (cs : @clientsocket.clientSocket gval emitted Auth).

(** The socket is connected, and has no retry queue. *)
Definition sends_at_once cs : Prop :=
  clientsocket.is_connected (clientsocket.state cs) = true /\ (clientsocket.Retries (clientsocket.cs_config cs) <= 0)%Z.

Lemma values_of_EVal args : values_of (EVal <$> args) = Some args.
Proof. unfold values_of. induction args as [|a args IH]; [done|]. cbn in *. by rewrite IH. Qed.

Lemma send_connected volatile header v bufs cs :
  clientsocket.is_connected (clientsocket.state cs) = true -> clientsocket.env_Encode env header v = Ret bufs -> bufs <> [] ->
  clientsocket.encode_and_send env header v volatile false cs = Ret (clientsocket.emits [clientsocket.OPacket (message_of bufs)] cs).
Proof.
  intros Hc HE Hne. unfold clientsocket.encode_and_send, clientsocket.sendBuffers. rewrite HE, message_packets_Ret.
  destruct bufs; [done|]. by rewrite Hc.
Qed.

Lemma Emit_event cs name args :
  sends_at_once cs -> reserved.IsEventReservedForClient name = false -> name <> ""%string ->
  clientsocket.Emit any_of event_arg env name (EVal <$> args) cs =
  clientsocket.encode_and_send env (mkPacketHeader PacketTypeEvent (clientsocket.cs_namespace cs) None 0)
    (clientsocket.PEvent (EVal <$> GString name :: args)) false false cs.
Proof.
  intros [_ Hr] Hn Hne. unfold clientsocket.Emit, clientsocket.emit. rewrite Hn, (proj2 (String.eqb_neq _ _) Hne).
  rewrite (proj2 (Z.ltb_ge _ _) Hr). cbn [andb].
  change (event_arg name :: (EVal <$> args)) with (EVal <$> (GString name :: args)). rewrite fmap_last.
  destruct (last (GString name :: args)) as [f|] eqn:El; [done|]. by apply last_None in El.
Qed.
End client.

(** The limits of the two parsers on attachments. *)
Definition within_limits (max maxp : Z) (args : list gval) : Prop :=
  let n := Z.of_nat (length (args_leaves args)) in (n < max_int64)%Z /\ (max <= 0 \/ n <= max)%Z /\ (maxp <= 0 \/ n <= maxp)%Z.

(** The JSON package refuses what [Encode] gives it of the value: the value with its placeholders. *)
Definition refused (max : Z) (h : PacketHeader) (v : gval) : bool :=
  match (Encode max h (Some v)).1.2 with
  | Some v' => match json_Encode v' with None => true | Some _ => false end
  | None => false
  end.

(** What is encoded of an event: the packet's text and attachments, which the other side's parser reads, or an error. *)
Lemma event_on_wire max maxp id nsp name args :
  Forall sendable_arg args -> wf_namespace nsp = true -> nsp <> ""%string ->
  match id with Some i => (0 <= i <= max_uint64)%Z | None => True end ->
  last (to_bytes name) <> Some x5c -> text_valid name = true -> within_limits max maxp args ->
  let h := mkPacketHeader PacketTypeEvent nsp id 0 in
  let header := normalize (event_header h args) in
  (refused max h (event_value name args) = true /\ exists e, (Encode max h (Some (event_value name args))).2 = Err e) \/
  refused max h (event_value name args) = false /\
  exists s text vals ds, (Encode max h (Some (event_value name args))).2 = Ret (s :: args_leaves args) /\
    parseHeader s = Ret (header, text, name) /\ Namespace header = nsp /\
    length ds = length args /\ Forall sent_exactly ds /\ json_Encode (event_value name ds) = Some (text ++ [x0a]) /\
    decode header (text :: args_leaves args) (map (fun a => Some (typeOf a)) args) = Ret vals /\ Forall2 received args vals.
Proof.
  intros Ha Hns Hne Hid Hname Hutf (Hm & Hmax & Hmaxp) h header.
  assert (wf_header h = true) as Hw.
  { unfold wf_header. cbn. rewrite Hns. destruct id as [i|]; [|done]. cbn. rewrite andb_true_r. unfold max_uint64 in *. lia. }
  destruct (event_carried max h name args (mkParser None maxp) Ha eq_refl Hw Hname Hutf eq_refl Hm Hmax Hmaxp) as (v' & res & HE & HR).
  unfold refused. rewrite HE. cbn [fst snd]. destruct (json_Encode v') as [out|] eqn:Ej; [|left; split; [done|]; by exists errJSON].
  destruct HR as (s & text & vals & ds & -> & Hl & Hex & -> & Hp & -> & _ & Hd & Hv). right. split; [done|]. exists s, text, vals, ds.
  destruct (event_header_counts h args eq_refl eq_refl) as (_ & _ & _ & Hn & _). subst header. rewrite Hn. cbn.
  by rewrite bool_decide_false.
Qed.

(** *** Events *)

(** C2: An event emitted by a client is handled by the server. The client's socket is connected, without retry queue
    ([Retries] <= 0). The name is not reserved, not empty, valid UTF-8 and does not end in a backslash; the
    arguments are of sendable types and carried exactly by JSON (valid UTF-8, a key per struct field), the
    attachments within both limits, the server's parser idle. [Emit] reports an error when the JSON package
    refuses the arguments, else it sends messages such that, in whatever calls of [onEIOPacket] they arrive and
    with whatever in between, one goroutine is started and the parser is idle again. When that runs, while the
    connection has a connected socket without middlewares in the namespace and the event's handlers have
    parameters of exactly the arguments' types, each is called once, in the order of registration, with the
    arguments emitted (up to the order of maps); nothing else happens but the reports of handlers that panic. *)
Theorem event_handled {Ad NM SM ME Auth} `{!sioserver.SocketAdapter Ad emitted} (senv : sioserver.environment gval emitted NM SM ME) max connect
    acks panics invoke auth (cs : @clientsocket.clientSocket gval emitted Auth) name args c p :
  let cenv := clientsocket.mkEnv (client_Encode max connect) acks panics invoke in
  let nsp := clientsocket.cs_namespace cs in
  sends_at_once cs -> reserved.IsEventReservedForClient name = false -> name <> ""%string -> last (to_bytes name) <> Some x5c -> text_valid name = true ->
  wf_namespace nsp = true -> nsp <> ""%string ->
  Forall sendable_arg args -> within_limits max (p_maxAttachments p) args -> p_r p = None ->
  let no := refused max (mkPacketHeader PacketTypeEvent nsp None 0) (event_value name args) in
  (no = true /\ clientsocket.Emit any_of event_arg cenv name (EVal <$> args) cs = Ret (clientsocket.emits [clientsocket.OError] cs)) \/
  no = false /\
  exists packets, clientsocket.Emit any_of event_arg cenv name (EVal <$> args) cs =
      Ret (clientsocket.emits [clientsocket.OPacket packets] cs) /\
    forall calls, List.filter is_message (concat calls) = packets ->
    exists t vals, Forall2 reorder args vals /\
      (forall w : sioserver.Server gval emitted Ad NM SM,
         serverfeed.onEIOPackets senv server_decode auth c calls p w = Ret (p, sioserver.go t w)) /\
      forall (w : sioserver.Server gval emitted Ad NM SM) s x st hs,
        listens c s x w -> sioserver.s_nsp s = nsp ->
        eventHandlerStore.ev_getAll name (sioserver.ss_handlers x) = (st, hs) ->
        Forall (fun h => takes (eh_inputArgs h) args) hs ->
        sioserver.run_task senv t w = sioserver.emits (concat (called senv s (HVal <$> vals) <$> hs)) (prepared s st w).
Proof.
  intros cenv nsp Hs Hr Hn Hb Hu Hns Hnse Ha Hlim Hp no.
  rewrite (Emit_event cenv cs name args Hs Hr Hn).
  assert (clientsocket.env_Encode cenv (mkPacketHeader PacketTypeEvent nsp None 0) (clientsocket.PEvent (EVal <$> GString name :: args)) =
    sent (Encode max (mkPacketHeader PacketTypeEvent nsp None 0) (Some (event_value name args))).2) as HE.
  { cbn [clientsocket.env_Encode cenv client_Encode]. by rewrite values_of_EVal. }
  destruct (event_on_wire max (p_maxAttachments p) None nsp name args Ha Hns Hnse I Hb Hu Hlim)
    as [(Hno & e & Ee)|(Hno & text & buf & vals & ds & Er & Hh & Hnsp & _ & _ & _ & Hd & Hv)].
  { left. split; [exact Hno|]. unfold clientsocket.encode_and_send. fold nsp. by rewrite HE, Ee. }
  right. split; [exact Hno|]. exists (message_of (text :: args_leaves args)). split.
  { apply send_connected; [apply Hs| |done]. fold nsp. by rewrite HE, Er. }
  intros calls HC. destruct (event_header_counts (mkPacketHeader PacketTypeEvent nsp None 0) args eq_refl eq_refl) as (Hcnt & Hatt & Htyp & _ & Hid).
  set (header := normalize _) in *. destruct Hlim as (Hm & _ & Hmp).
  eexists _, (zip_with unboxed args vals). split; [by apply unboxed_delivered|]. split.
  { intros w. eapply server_receives; try done; lia. }
  intros w s x st hs HL Hsn Hst HF. rewrite (run_event senv c s x w _ _ _ _ st hs HL Htyp); [|congruence|congruence|exact Hst].
  eapply (onEvent_all senv s); [by eapply prepared_socket|apply HL|apply HL|exact Hid|].
  eapply Forall_impl; [exact HF|]. intros h [Hty Hpt]. exists vals. split.
  - unfold server_decode, decode_at. rewrite Hty, <- list_fmap_compose.
    change (Some ∘ typeOf <$> args) with (map (fun a => Some (typeOf a)) args). by rewrite Hd.
  - apply convert_unboxed; [done|]. symmetry. by eapply Forall2_length.
Qed.

(** *** Requests *)

(** A handler that takes the arguments and, last, a function to answer with. *)
Definition takes_request (h : eventHandler) (args : list gval) : Prop :=
  exists params, eh_inputArgs h = params ++ [TFunc 0] /\ types (eh_inputArgs h) = (typeOf <$> args) ++ [binary.TFunc] /\
    Forall2 (fun t a => is_ptr_type t = is_ptr (typeOf a)) params args.

Lemma convert_request params args vals :
  Forall2 (fun t a => is_ptr_type t = is_ptr (typeOf a)) params args -> length vals = length args ->
  convert_values (params ++ [TFunc 0]) (vals ++ [newPointer (GFunc None)]) = Some (zip_with unboxed args vals ++ [GFunc None]).
Proof.
  intros Hp Hl. pose proof (convert_unboxed params args vals Hp Hl) as HC. unfold convert_values in *.
  pose proof (Forall2_length _ _ _ Hp) as Hl'. rewrite !length_app, Hl, Hl' in *. cbn [length]. rewrite !Nat.eqb_refl in *.
  injection HC as HC. by rewrite zip_with_app, HC by lia.
Qed.

Section answering.
Context {Ad NM SM ME : Type} `{!sioserver.SocketAdapter Ad emitted}.
Context (env : sioserver.environment gval emitted NM SM ME).
Implicit Types (w : sioserver.Server gval emitted Ad NM SM).

(** Only the first answer is sent. *)
Lemma sendAck_again cell id s w more :
  sioserver.sv_cells w !! cell = Some true ->
  fold_left (fun w v => sioserver.sendAck env cell id v s w) more w = w.
Proof.
  intros Hc. induction more as [|v more IH]; [done|]. cbn [fold_left]. unfold sioserver.sendAck at 2. by rewrite Hc.
Qed.

(** What is sent for an answer, or the error of [Encode]. *)
Definition answer_effects (s : sioserver.serverSocket) (id : Z) (reply : list gval) : list (@sioserver.effect gval emitted) :=
  match sioserver.env_Encode env (mkPacketHeader PacketTypeAck (sioserver.s_nsp s) (Some id) 0) (sioserver.PAck reply) with
  | None => [sioserver.EError s]
  | Some [] => []
  | Some bufs => [sioserver.ESend (sioserver.s_conn s) (message_of bufs)]
  end.

Lemma sendAckPacket_effects id reply s w :
  sioserver.sendAckPacket env id reply s w = sioserver.emits (answer_effects s id reply) w.
Proof.
  unfold sioserver.sendAckPacket. rewrite (proj2 (forallb_forall _ _)) by done.
  unfold sioserver.encode_and_send, answer_effects. destruct (sioserver.env_Encode _ _ _) as [bufs|]; [|done].
  unfold sioserver.sendBuffers. rewrite message_packets_Ret. destruct bufs; [|done].
  destruct w. unfold sioserver.emits. cbn. by rewrite app_nil_r.
Qed.

Lemma onEvent_answers s x w header decode cell h id params vals0 vals v reply more :
  sioserver.sv_sockets w !! sioserver.s_ptr s = Some x -> sioserver.ss_connected x = true -> sioserver.ss_middlewares x = [] ->
  ID header = Some id -> eh_inputArgs h = params ++ [TFunc 0] ->
  decode (eh_inputArgs h) = Some vals0 -> convert_values (eh_inputArgs h) vals0 = Some (vals ++ [v]) ->
  sioserver.sv_cells w !! cell = Some false ->
  sioserver.env_acks env h ((HVal <$> vals) ++ [HAck cell id]) = reply :: more ->
  sioserver.onEvent env s header decode cell w h =
  sioserver.emits (sioserver.ECall s h ((HVal <$> vals) ++ [HAck cell id]) :: answer_effects s id reply ++
      (if sioserver.env_panics env h ((HVal <$> vals) ++ [HAck cell id]) then [sioserver.EError s] else []))
    (sioserver.upd_cells (insert cell true) w).
Proof.
  intros Hx Hc Hm Hi Hin Hd Hv Hcell Hacks. unfold sioserver.onEvent. rewrite Hd, Hv, Hx, Hm.
  cbn [sioserver.callMiddlewares forallb negb]. rewrite Hc. cbn [negb].
  assert (with_ack h (ID header) cell (vals ++ [v]) = Ret ((HVal <$> vals) ++ [HAck cell id], true)) as ->.
  { unfold with_ack, eventHandler_ack. rewrite Hi, Hin, last_snoc. cbn. rewrite length_app. cbn [length].
    rewrite Nat.add_sub, take_app_length. by destruct vals. }
  rewrite Hi, Hacks. cbn [fold_left]. 
  assert (forall w', sioserver.sv_cells w' = sioserver.sv_cells w -> sioserver.sendAck env cell id reply s w' =
    sioserver.emits (answer_effects s id reply) (sioserver.upd_cells (insert cell true) w')) as HS.
  { intros w' Hw. unfold sioserver.sendAck. by rewrite Hw, Hcell, sendAckPacket_effects. }
  rewrite HS by done. rewrite sendAck_again.
  2: { cbn. by rewrite list_lookup_insert_eq by by eapply lookup_lt_Some. }
  change (sioserver.upd_cells (insert cell true) (sioserver.emits [sioserver.ECall s h ((HVal <$> vals) ++ [HAck cell id])] w))
    with (sioserver.emits [sioserver.ECall s h ((HVal <$> vals) ++ [HAck cell id])] (sioserver.upd_cells (insert cell true) w)).
  destruct (sioserver.env_panics _ _ _); rewrite !emits_emits; [|by rewrite app_nil_r]. cbn [app]. by rewrite <- ?app_assoc.
Qed.
End answering.

Section asking.
Context {Auth : Type} (env : @clientsocket.environment gval emitted Auth).
Implicit Types (cs : @clientsocket.clientSocket gval emitted Auth).

(** The socket with an acknowledgement registered under the next ID. *)
Definition awaiting (ah : ackHandler) cs : @clientsocket.clientSocket gval emitted Auth :=
  let a := clientsocket.cs_ackState cs in
  let id := clientsocket.cs_ackID a in
  clientsocket.with_acks
    (clientsocket.mkAcks ({[id]} ∪ clientsocket.cs_acks a) (<[id := ah]> (clientsocket.cs_ackHandlers a)) (wrap_u 64 (id + 1))
       (clientsocket.cs_cells a)) cs.

Lemma awaiting_lookup ah l cs :
  clientsocket.lookup_ack (clientsocket.cs_ackID (clientsocket.cs_ackState cs)) (clientsocket.emits l (awaiting ah cs)) = Some ah.
Proof. unfold clientsocket.lookup_ack. cbn. rewrite bool_decide_true by set_solver. apply lookup_insert_eq. Qed.

Lemma Emit_request cs name args f ah :
  sends_at_once cs -> (clientsocket.AckTimeout (clientsocket.cs_config cs) <= 0)%Z ->
  reserved.IsEventReservedForClient name = false -> name <> ""%string -> newAckHandler f false = Ret ah ->
  clientsocket.Emit any_of event_arg env name ((EVal <$> args) ++ [EFun f]) cs =
  clientsocket.encode_and_send env
    (mkPacketHeader PacketTypeEvent (clientsocket.cs_namespace cs) (Some (clientsocket.cs_ackID (clientsocket.cs_ackState cs))) 0)
    (clientsocket.PEvent (EVal <$> GString name :: args)) false false (awaiting ah cs).
Proof.
  intros [_ Hr] Ht Hn Hne Hf. unfold clientsocket.Emit, clientsocket.emit. rewrite Hn, (proj2 (String.eqb_neq _ _) Hne).
  rewrite (proj2 (Z.ltb_ge _ _) Hr). cbn [andb].
  change (event_arg name :: (EVal <$> args) ++ [EFun f]) with ((EVal <$> GString name :: args) ++ [EFun f]).
  rewrite last_snoc, length_app. cbn [length]. rewrite Nat.add_sub, take_app_length.
  assert (clientsocket.is_func any_of (EFun f) = true) as ->.
  { unfold clientsocket.is_func. cbn. by destruct f. }
  unfold clientsocket.registerAckHandler, clientsocket.startAckHandler. rewrite (proj2 (Z.ltb_ge _ _) Ht). cbn [andb Z.eqb any_of clientsocket.nextAckID].
  by rewrite Hf.
Qed.

Lemma newAckHandler_fresh f ah : newAckHandler f false = Ret ah -> ah_hasError ah = false /\ ah_timedOut ah = false.
Proof. unfold newAckHandler. destruct f; try discriminate. destruct (checkAckFunc _ _); try discriminate. by intros [= <-]. Qed.

Definition is_ack_type (t : PacketType) : bool := match t with PacketTypeAck | PacketTypeBinaryAck => true | _ => false end.

(** The function that was passed to [Emit] is called with the values, and is not awaited any more. *)
Lemma onPacket_ack cs header name decode info ok id ah vals0 vals :
  is_ack_type (Typ header) = true -> ID header = Some id ->
  clientsocket.lookup_ack id cs = Some ah -> ah_hasError ah = false -> ah_timedOut ah = false ->
  decode (ah_inputArgs ah) = Ret vals0 -> convert_values (ah_inputArgs ah) vals0 = Some vals ->
  exists cs', clientsocket.onPacket env (clientsocket.mkReceived header name decode info ok) cs = Ret cs' /\
    clientsocket.cs_out cs' = clientsocket.cs_out cs ++ clientsocket.OAckCall id vals ::
      (match clientsocket.env_ack_invoke env (ArgVal <$> vals) with Some _ => [clientsocket.OError] | None => [] end) /\
    clientsocket.lookup_ack id cs' = None.
Proof.
  intros Ht Hi Hl He Hto Hd Hv.
  assert (clientsocket.onPacket env (clientsocket.mkReceived header name decode info ok) cs = clientsocket.onAck env header decode cs) as ->.
  { unfold clientsocket.onPacket. cbn [clientsocket.rc_header clientsocket.rc_decode]. by destruct (Typ header). }
  unfold clientsocket.onAck. rewrite Hi, Hl. unfold clientsocket.reply_ack.
  assert (clientsocket.cs_ackHandlers (clientsocket.cs_ackState (clientsocket.remove_ack id cs)) !! id = Some ah) as ->.
  { unfold clientsocket.lookup_ack in Hl. by destruct (bool_decide _). }
  rewrite He, Hd, Hv. unfold ack_call. rewrite Hto, He.
  eexists. split; [reflexivity|]. split.
  - destruct (clientsocket.env_ack_invoke _ _); cbn; [by rewrite <- app_assoc|done].
  - destruct (clientsocket.env_ack_invoke _ _); unfold clientsocket.lookup_ack; cbn; rewrite bool_decide_false by set_solver; done.
Qed.

(** *** The manager *)

Definition is_ping (r : manager.received) : bool := match r with manager.RPing => true | _ => false end.

(** What the packets lead to, but for the pings. *)
Lemma manager_feeds has_socket packets p p' fs :
  feed p (serverfeed.messages_of packets) = (p', fs, None) ->
  exists rs, manager.onEIOPacket has_socket packets p = (p', Ret rs) /\
    List.filter (fun r => negb (is_ping r)) rs = concat (manager.onParserFinish has_socket <$> fs).
Proof.
  unfold serverfeed.messages_of. revert p fs. induction packets as [|q packets IH]; intros p fs; cbn [List.filter manager.onEIOPacket].
  - cbn. intros [= <- <-]. by exists [].
  - destruct (eioparser.Typ q) eqn:Eq; cbn [fmap list_fmap feed].
    all: try rewrite bool_decide_false by done; try (rewrite bool_decide_true by done); cbn [fmap list_fmap feed].
    all: try exact (IH p fs).
    + intros HF. destruct (IH p fs HF) as (rs & -> & Hrs). by exists (manager.RPing :: rs).
    + destruct (Add p (eioparser.Data q)) as [p1 [fin|e|why]]; [|discriminate|discriminate].
      destruct (feed p1 _) as [[p2 fs'] er] eqn:EF. intros [= <- <- ->].
      destruct (IH p1 fs' EF) as (rs & -> & Hrs). eexists. split; [reflexivity|].
      rewrite List.filter_app, Hrs. destruct fin as [f|]; [|done]. cbn [fmap list_fmap concat]. f_equal.
      unfold manager.onParserFinish. destruct f as [[h name] bufs]. by destruct (has_socket _).
Qed.

(** The calls of [onEIOPacket] of the manager, one after the other. *)
Fixpoint client_calls (has_socket : string -> bool) (calls : list (list eioparser.Packet)) (p : Parser) : Parser * outcome unit (list manager.received) :=
  match calls with
  | [] => (p, Ret [])
  | packets :: calls =>
      match manager.onEIOPacket has_socket packets p with
      | (p, Ret rs) => let '(p, rest) := client_calls has_socket calls p in (p, rest ← rest; Ret (rs ++ rest))
      | r => r
      end
  end.

Lemma client_calls_feed has_socket calls p p' fs :
  feed p (serverfeed.messages_of (concat calls)) = (p', fs, None) ->
  exists rs, client_calls has_socket calls p = (p', Ret rs) /\
    List.filter (fun r => negb (is_ping r)) rs = concat (manager.onParserFinish has_socket <$> fs).
Proof.
  revert p fs. induction calls as [|packets calls IH]; intros p fs; cbn [concat client_calls].
  - cbn. intros [= <- <-]. by exists [].
  - rewrite serverfeed.messages_of_app. intros (p1 & f1 & f2 & HF1 & HF2 & ->)%serverfeed.feed_split.
    destruct (manager_feeds has_socket _ _ _ _ HF1) as (rs1 & -> & H1), (IH _ _ HF2) as (rs2 & -> & H2).
    eexists. split; [reflexivity|]. by rewrite List.filter_app, H1, H2, fmap_app, concat_app.
Qed.
End asking.

(** *** The answer on its way *)

Lemma ack_header_counts h args :
  Typ h = PacketTypeAck -> Attachments h = 0%Z -> Namespace h <> ""%string ->
  let header := normalize (ack_header h args) in
  (if IsBinary header then Attachments header = Z.of_nat (length (args_leaves args)) else args_leaves args = []) /\
  Attachments header = Z.of_nat (length (args_leaves args)) /\ is_ack_type (Typ header) = true /\
  Namespace header = Namespace h /\ ID header = ID h.
Proof.
  intros Ht H0' Hn. unfold ack_header, normalize. destruct (args_leaves args) as [|b bs].
  - unfold IsBinary. cbn. rewrite Ht, (bool_decide_false (Namespace h = ""%string)) by done. by split_and!.
  - cbn. rewrite (bool_decide_false (Namespace h = ""%string)) by done. by split_and!.
Qed.

(** One packet that arrives at the client, in whatever calls of [onEIOPacket], is given to the socket of its namespace. *)
Lemma client_receives p has_socket calls text atts header name buf :
  p_r p = None -> parseHeader text = Ret (header, buf, name) ->
  (if IsBinary header then Attachments header = Z.of_nat (length atts) else atts = []) ->
  (Attachments header <= max_int64)%Z -> (p_maxAttachments p <= 0 \/ Attachments header <= p_maxAttachments p)%Z ->
  Namespace header <> ""%string -> has_socket (Namespace header) = true ->
  List.filter is_message (concat calls) = message_of (text :: atts) ->
  exists rs, client_calls has_socket calls p = (p, Ret rs) /\
    List.filter (fun r => negb (is_ping r)) rs = [manager.RSocket (Namespace header) (header, name, buf :: atts)].
Proof.
  intros Hp Hs Hc Hm Hmp Hne Hso HC.
  assert (feed p (serverfeed.messages_of (concat calls)) = (p, [(header, name, buf :: atts)], None)) as HF.
  { assert (serverfeed.messages_of (concat calls) = text :: atts) as ->.
    { unfold serverfeed.messages_of. change (fun q : eioparser.Packet => bool_decide _) with is_message. rewrite HC. cbn. f_equal.
      rewrite <- list_fmap_compose. clear. induction atts; cbn; [done|by f_equal]. }
    pose proof (feed_all p [(text, atts, (header, name, buf :: atts))] Hp) as HA.
    cbn in HA. rewrite app_nil_r in HA. apply HA. constructor; [|constructor]. by exists buf. }
  destruct (client_calls_feed has_socket calls p p _ HF) as (rs & HR & Hrs). exists rs. split; [exact HR|]. rewrite Hrs.
  cbn [fmap list_fmap concat manager.onParserFinish]. rewrite (proj2 (String.eqb_neq _ _) Hne), Hso. cbn [app]. by destruct header.
Qed.

(** An answer that arrives at the client, whatever the calls of [onEIOPacket], is given to the socket of its namespace. *)
Lemma ack_arrives max p id nsp reply has_socket :
  Forall sendable_arg reply -> wf_namespace nsp = true -> nsp <> ""%string -> (0 <= id <= max_uint64)%Z ->
  within_limits max (p_maxAttachments p) reply -> p_r p = None -> has_socket nsp = true ->
  let h := mkPacketHeader PacketTypeAck nsp (Some id) 0 in
  (refused max h (ack_value reply) = true /\ exists e, (Encode max h (Some (ack_value reply))).2 = Err e) \/
  refused max h (ack_value reply) = false /\
  exists bufs header text vals, (Encode max h (Some (ack_value reply))).2 = Ret bufs /\ bufs <> [] /\
    is_ack_type (Typ header) = true /\ ID header = Some id /\
    decode header (text :: args_leaves reply) (map (fun a => Some (typeOf a)) reply) = Ret vals /\ Forall2 received reply vals /\
    forall calls, List.filter is_message (concat calls) = message_of bufs ->
    exists rs, client_calls has_socket calls p = (p, Ret rs) /\
      List.filter (fun r => negb (is_ping r)) rs = [manager.RSocket nsp (header, ""%string, text :: args_leaves reply)].
Proof.
  intros Ha Hns Hne Hid (Hm & Hmax & Hmaxp) Hp Hso h.
  assert (wf_header h = true) as Hw.
  { unfold wf_header. cbn. rewrite Hns. cbn. rewrite andb_true_r. unfold max_uint64 in *. lia. }
  destruct (ack_carried max h reply (p_maxAttachments p) Ha eq_refl Hw Hm Hmax Hmaxp) as (v' & res & HE & HR).
  unfold refused. rewrite HE. cbn [fst snd]. destruct (json_Encode v') as [out|]; [|left; split; [done|]; by exists errJSON].
  destruct HR as (s & text & vals & -> & Hs & Hd & Hv). right. split; [done|].
  destruct (ack_header_counts h reply eq_refl eq_refl Hne) as (Hc & Hatt & Ht & Hn & Hi). set (header := normalize _) in *.
  exists (s :: args_leaves reply), header, text, vals. split_and!; try done.
  assert (Namespace header = nsp) as Hn' by exact Hn. clear Hn. intros calls HC.
  destruct (client_receives p has_socket calls s (args_leaves reply) header ""%string text) as (rs & Hrs & Hf); rewrite ?Hn'; try done; try lia.
  exists rs. by rewrite Hf, Hn'.
Qed.

(** The packet as the client's socket gets it; [info] and [ok] are what is decoded of a CONNECT and of a CONNECT_ERROR. *)
Definition client_received (info : list bytes -> outcome unit (option (string * string))) (ok : list bytes -> bool) (f : finished)
  : @clientsocket.received gval :=
  let '(header, name, buffers) := f in
  clientsocket.mkReceived header name (client_decode header buffers) (info buffers) (ok buffers).

(** The server's half: the goroutine of the request calls the handler, and its first answer is sent. *)
Lemma request_runs {Ad NM SM ME} `{!sioserver.SocketAdapter Ad emitted} (senv : sioserver.environment gval emitted NM SM ME) auth
    (w : sioserver.Server gval emitted Ad NM SM) c s x st h header name buffers args vals id reply more :
  listens c s x w -> is_event_type (Typ header) = true -> Namespace header = sioserver.s_nsp s -> Namespace header <> ""%string ->
  eventHandlerStore.ev_getAll name (sioserver.ss_handlers x) = (st, [h]) -> ID header = Some id ->
  takes_request h args -> length vals = length args ->
  decode header buffers (map (fun a => Some (typeOf a)) args ++ [Some binary.TFunc]) = Ret (vals ++ [newPointer (GFunc None)]) ->
  let hargs := (HVal <$> zip_with unboxed args vals) ++ [HAck (length (sioserver.sv_cells w)) id] in
  sioserver.env_acks senv h hargs = reply :: more ->
  sioserver.sv_out (sioserver.run_task senv (sioserver.TParsed c (sioserver.mkReceived header name (server_decode header buffers) auth)) w) =
  sioserver.sv_out w ++ sioserver.ECall s h hargs :: answer_effects senv s id reply ++
    (if sioserver.env_panics senv h hargs then [sioserver.EError s] else []).
Proof.
  intros HL Ht Hn Hne Hst Hi (params & Hin & Hty & Hp) Hlen Hd hargs Hacks.
  rewrite (run_event senv c s x w _ _ _ _ st [h] HL Ht Hn Hne Hst). cbn [fold_left].
  rewrite (onEvent_answers senv s (sioserver.set_handlers st x) (prepared s st w) header _ _ h id params (vals ++ [newPointer (GFunc None)])
    (zip_with unboxed args vals) (GFunc None) reply more); try done.
  - by eapply prepared_socket.
  - apply HL.
  - apply HL.
  - unfold server_decode, decode_at. rewrite Hty, fmap_app, <- list_fmap_compose. cbn [fmap list_fmap].
    change (Some ∘ typeOf <$> args) with (map (fun a => Some (typeOf a)) args). by rewrite Hd.
  - rewrite Hin. by apply convert_request.
  - cbn. rewrite lookup_app_r, Nat.sub_diag by lia. done.
Qed.

(** C1: A request is answered. A connected client ([Retries] <= 0, [AckTimeout] <= 0) emits an event with a function
    last; the name is not reserved, not empty, valid UTF-8, not ending in a backslash. The server has one handler,
    with parameters of exactly the arguments' types and a function to answer with, which it first calls with
    [reply], of the types of the client's function. Arguments and [reply] are of sendable types and carried
    exactly by JSON; attachments are within limits, parsers idle. When JSON refuses the values an error is
    reported where they are; else the request arrives as one goroutine. When that runs, while the connection has a
    connected socket without middlewares in the namespace, the handler is called with the arguments, and the first
    answer alone is sent; when it arrives, in any calls, it is given to the socket of the namespace, and if the
    acknowledgement is still awaited the client's function is called with the answer and no longer awaited. *)
Theorem request_answered {Ad NM SM ME Auth} `{!sioserver.SocketAdapter Ad emitted} (senv : sioserver.environment gval emitted NM SM ME) smax sconnect
    cmax connect acks panics invoke auth info ok (cs : @clientsocket.clientSocket gval emitted Auth) name args f ah h reply has_socket c p p2 :
  let cenv := clientsocket.mkEnv (client_Encode cmax connect) acks panics invoke in
  let nsp := clientsocket.cs_namespace cs in
  let id := clientsocket.cs_ackID (clientsocket.cs_ackState cs) in
  sends_at_once cs -> (clientsocket.AckTimeout (clientsocket.cs_config cs) <= 0)%Z -> (0 <= id <= max_uint64)%Z ->
  reserved.IsEventReservedForClient name = false -> name <> ""%string -> last (to_bytes name) <> Some x5c -> text_valid name = true ->
  wf_namespace nsp = true -> nsp <> ""%string -> has_socket nsp = true ->
  Forall sendable_arg args -> within_limits cmax (p_maxAttachments p) args -> p_r p = None -> takes_request h args ->
  Forall sendable_arg reply -> within_limits smax (p_maxAttachments p2) reply -> p_r p2 = None ->
  newAckHandler f false = Ret ah -> takes (ah_inputArgs ah) reply ->
  (forall header v, sioserver.env_Encode senv header v = server_Encode smax sconnect header v) ->
  (forall vals cell, Forall2 reorder args vals -> exists more, sioserver.env_acks senv h ((HVal <$> vals) ++ [HAck cell id]) = reply :: more) ->
  let no := refused cmax (mkPacketHeader PacketTypeEvent nsp (Some id) 0) (event_value name args) in
  let no_reply := refused smax (mkPacketHeader PacketTypeAck nsp (Some id) 0) (ack_value reply) in
  exists cs1, clientsocket.Emit any_of event_arg cenv name ((EVal <$> args) ++ [EFun f]) cs = Ret cs1 /\
    clientsocket.lookup_ack id cs1 = Some ah /\
    ((no = true /\ clientsocket.cs_out cs1 = clientsocket.cs_out cs ++ [clientsocket.OError]) \/
     no = false /\
     exists packets, clientsocket.cs_out cs1 = clientsocket.cs_out cs ++ [clientsocket.OPacket packets] /\
     forall calls, List.filter is_message (concat calls) = packets ->
     exists t vals, Forall2 reorder args vals /\
       (forall w : sioserver.Server gval emitted Ad NM SM,
          serverfeed.onEIOPackets senv server_decode auth c calls p w = Ret (p, sioserver.go t w)) /\
       forall (w : sioserver.Server gval emitted Ad NM SM) s x st,
         listens c s x w -> sioserver.s_nsp s = nsp -> eventHandlerStore.ev_getAll name (sioserver.ss_handlers x) = (st, [h]) ->
         let hargs := (HVal <$> vals) ++ [HAck (length (sioserver.sv_cells w)) id] in
         exists answer, sioserver.sv_out (sioserver.run_task senv t w) =
             sioserver.sv_out w ++ sioserver.ECall s h hargs :: answer ++ (if sioserver.env_panics senv h hargs then [sioserver.EError s] else []) /\
           ((no_reply = true /\ answer = [sioserver.EError s]) \/
            no_reply = false /\
            exists rpackets fin rvals, answer = [sioserver.ESend (sioserver.s_conn s) rpackets] /\ Forall2 reorder reply rvals /\
              (forall calls', List.filter is_message (concat calls') = rpackets ->
               exists rs, client_calls has_socket calls' p2 = (p2, Ret rs) /\
                 List.filter (fun r => negb (is_ping r)) rs = [manager.RSocket nsp fin]) /\
              forall cs2 : @clientsocket.clientSocket gval emitted Auth, clientsocket.lookup_ack id cs2 = Some ah ->
              exists cs3, clientsocket.onPacket cenv (client_received info ok fin) cs2 = Ret cs3 /\
                clientsocket.cs_out cs3 = clientsocket.cs_out cs2 ++ clientsocket.OAckCall id rvals ::
                  (match invoke (ArgVal <$> rvals) with Some _ => [clientsocket.OError] | None => [] end) /\
                clientsocket.lookup_ack id cs3 = None)).
Proof.
  intros cenv nsp id Hs Hto Hid Hr Hn Hb Hu Hns Hnse Hso Ha Hlim Hp Hreq Har Hlimr Hp2 Hf [Htyr Hpr] HSE Hans no no_reply.
  rewrite (Emit_request cenv cs name args f ah Hs Hto Hr Hn Hf). fold nsp id.
  assert (clientsocket.env_Encode cenv (mkPacketHeader PacketTypeEvent nsp (Some id) 0) (clientsocket.PEvent (EVal <$> GString name :: args)) =
    sent (Encode cmax (mkPacketHeader PacketTypeEvent nsp (Some id) 0) (Some (event_value name args))).2) as HE.
  { cbn [clientsocket.env_Encode cenv client_Encode]. by rewrite values_of_EVal. }
  destruct (event_on_wire cmax (p_maxAttachments p) (Some id) nsp name args Ha Hns Hnse Hid Hb Hu Hlim)
    as [(Hno & e & Ee)|(Hno & text & buf & vals & ds & Er & Hh & Hnsp & Hlen & Hex & Hj & Hd & Hv)].
  { exists (clientsocket.emits [clientsocket.OError] (awaiting ah cs)). split; [|split; [apply awaiting_lookup|by left]].
    unfold clientsocket.encode_and_send. by rewrite HE, Ee. }
  exists (clientsocket.emits [clientsocket.OPacket (message_of (text :: args_leaves args))] (awaiting ah cs)).
  split; [apply send_connected; [apply Hs|by rewrite HE, Er|done]|]. split; [apply awaiting_lookup|]. right.
  split; [exact Hno|]. eexists. split; [reflexivity|]. intros calls HC.
  destruct (event_header_counts (mkPacketHeader PacketTypeEvent nsp (Some id) 0) args eq_refl eq_refl) as (Hcnt & Hatt & Htyp & _ & Hhid).
  set (header := normalize (event_header _ args)) in *. destruct Hlim as (Hm & _ & Hmp).
  assert (length vals = length args) as Hvl by (symmetry; by eapply Forall2_length).
  assert (IsEvent header = true) as HIE by (unfold IsEvent; by destruct (Typ header)).
  pose proof (decode_request name ds buf header (args_leaves args) (map (fun a => Some (typeOf a)) args) vals Hu Hex HIE
    ltac:(by rewrite length_map) Hj Hd) as Hdr.
  eexists _, (zip_with unboxed args vals). split; [by apply unboxed_delivered|]. split.
  { intros w. eapply server_receives; try done; lia. }
  intros w s x st HL Hsn Hst hargs. destruct (Hans (zip_with unboxed args vals) (length (sioserver.sv_cells w))) as (more & Hmore);
    [by apply unboxed_delivered|].
  exists (answer_effects senv s id reply). split.
  { apply (request_runs senv _ w c s x st h header name _ args vals id reply more); try done; congruence. }
  unfold answer_effects. rewrite HSE, Hsn. cbn [server_Encode].
  destruct (ack_arrives smax p2 id nsp reply has_socket Har Hns Hnse Hid Hlimr Hp2 Hso)
    as [(Hnr & e & ->)|(Hnr & bufs & rh & rtext & rvals & -> & Hne & Hrt & Hri & Hrd & Hrv & Harr)]; [by left|].
  right. split; [exact Hnr|]. exists (message_of bufs), (rh, ""%string, rtext :: args_leaves reply), (zip_with unboxed reply rvals).
  split; [by destruct bufs|]. split; [by apply unboxed_delivered|]. split; [exact Harr|].
  intros cs2 Hl. assert (ah_hasError ah = false /\ ah_timedOut ah = false) as [Hhe Hht].
  { by apply (newAckHandler_fresh f). }
  eapply (onPacket_ack cenv cs2 rh ""%string _ _ _ id ah rvals); try done.
  - unfold client_decode, decode_at. rewrite Htyr, <- list_fmap_compose.
    change (Some ∘ typeOf <$> reply) with (map (fun a => Some (typeOf a)) reply). by rewrite Hrd.
  - apply convert_unboxed; [done|]. symmetry. by eapply Forall2_length.
Qed.

(** *** Events of the server *)

Section pushed.
Context {Auth : Type} (env : @clientsocket.environment gval emitted Auth).
Implicit Types (cs : @clientsocket.clientSocket gval emitted Auth).

Definition client_called (args : list (harg gval)) (h : eventHandler) : list (@clientsocket.effect gval emitted) :=
  clientsocket.OCall h args :: (if clientsocket.env_panics env h args then [clientsocket.OError] else []).

(** What [onPacket] has done before it calls the handlers. *)
Definition client_prepared (st : eventHandlerStore.eventHandlerStore eventHandler) cs : @clientsocket.clientSocket gval emitted Auth :=
  clientsocket.with_handlers st (clientsocket.new_cell ∅ cs).1.

Lemma client_onEvent_calls cs header decode cell h vals0 vals :
  clientsocket.is_connected (clientsocket.state cs) = true -> clientsocket.pid cs = None -> ID header = None ->
  decode (eh_inputArgs h) = Ret vals0 -> convert_values (eh_inputArgs h) vals0 = Some vals ->
  clientsocket.onEvent env h header decode cell cs = Ret (clientsocket.emits (client_called (HVal <$> vals) h) cs, false).
Proof.
  intros Hc Hpid Hi Hd Hv. unfold clientsocket.onEvent. rewrite Hd, Hv, Hc. unfold clientsocket.callEvent, clientsocket.take_offset.
  rewrite Hpid. unfold with_ack. rewrite Hi. cbn [mbind outcome_bind].
  assert (length (HVal <$> vals) = length (eh_inputArgs h)) as ->.
  { rewrite length_fmap. unfold convert_values in Hv. destruct (Nat.eqb_spec (length vals0) (length (eh_inputArgs h))); [|discriminate].
    injection Hv as <-. rewrite length_zip_with. lia. }
  rewrite Nat.eqb_refl. cbn [negb]. unfold client_called.
  destruct (clientsocket.env_panics _ _ _); [|done]. unfold clientsocket.emits. cbn. by rewrite <- app_assoc.
Qed.

Lemma on_each_calls cs header decode cell hs vals :
  clientsocket.is_connected (clientsocket.state cs) = true -> clientsocket.pid cs = None -> ID header = None ->
  Forall (fun h => exists vals0, decode (eh_inputArgs h) = Ret vals0 /\ convert_values (eh_inputArgs h) vals0 = Some vals) hs ->
  clientsocket.on_each env hs header decode cell cs = Ret (clientsocket.emits (concat (client_called (HVal <$> vals) <$> hs)) cs).
Proof.
  intros Hc Hpid Hi HF. revert cs Hc Hpid. induction HF as [|h hs (vals0 & Hd & Hv) HF IH]; intros cs Hc Hpid; cbn [clientsocket.on_each fmap list_fmap concat].
  - unfold clientsocket.emits. destruct cs. cbn. by rewrite app_nil_r.
  - rewrite (client_onEvent_calls cs header decode cell h vals0 vals Hc Hpid Hi Hd Hv). cbn [mbind outcome_bind].
    rewrite IH by done. unfold clientsocket.emits. cbn. by rewrite <- app_assoc.
Qed.

Lemma client_runs_event cs header name decode info ok st hs vals :
  is_event_type (Typ header) = true -> clientsocket.is_connected (clientsocket.state cs) = true -> clientsocket.pid cs = None -> ID header = None ->
  eventHandlerStore.ev_getAll name (clientsocket.cs_handlers cs) = (st, hs) ->
  Forall (fun h => exists vals0, decode (eh_inputArgs h) = Ret vals0 /\ convert_values (eh_inputArgs h) vals0 = Some vals) hs ->
  clientsocket.onPacket env (clientsocket.mkReceived header name decode info ok) cs =
    Ret (clientsocket.emits (concat (client_called (HVal <$> vals) <$> hs)) (client_prepared st cs)).
Proof.
  intros Ht Hc Hpid Hi Hst HF.
  assert (clientsocket.on_each env hs header decode (length (clientsocket.cs_cells (clientsocket.cs_ackState cs))) (client_prepared st cs) =
    Ret (clientsocket.emits (concat (client_called (HVal <$> vals) <$> hs)) (client_prepared st cs))) as HE by by apply on_each_calls.
  unfold clientsocket.onPacket. cbn [clientsocket.rc_header clientsocket.rc_eventName clientsocket.rc_decode clientsocket.new_cell].
  cbn [clientsocket.cs_handlers clientsocket.with_acks]. rewrite Hst. destruct (Typ header); try discriminate; exact HE.
Qed.
End pushed.

(** C3: An event emitted by the server is handled by the client. Without connection state recovery, for a name that is
    not reserved, is valid UTF-8 and does not end in a backslash, and for arguments of sendable types that JSON
    carries exactly (valid UTF-8, a key per struct field), with attachments within both limits, [Emit] of a
    server's socket reports an error when the JSON package refuses the arguments, and otherwise sends messages
    such that, in whatever calls of the manager's [onEIOPacket] they arrive at an idle parser, one packet is given
    to the client's socket of the namespace; and a connected socket without a session to recover, whose handlers
    of the event have parameters of exactly the arguments' types, then calls each of them once, in the order of
    registration, with the arguments emitted (up to the order of maps). *)
Theorem push_handled {Ad NM SM ME Auth} `{!sioserver.SocketAdapter Ad emitted} (senv : sioserver.environment gval emitted NM SM ME) smax sconnect
    (cenv : @clientsocket.environment gval emitted Auth) info ok has_socket (w : sioserver.Server gval emitted Ad NM SM) s timeout name args p :
  let nsp := sioserver.s_nsp s in
  sioserver.RecoveryEnabled (sioserver.sv_config w) = false ->
  (forall header v, sioserver.env_Encode senv header v = server_Encode smax sconnect header v) ->
  reserved.IsEventReservedForServer name = false -> last (to_bytes name) <> Some x5c -> text_valid name = true ->
  wf_namespace nsp = true -> nsp <> ""%string -> has_socket nsp = true ->
  Forall sendable_arg args -> within_limits smax (p_maxAttachments p) args -> p_r p = None ->
  let no := refused smax (mkPacketHeader PacketTypeEvent nsp None 0) (event_value name args) in
  (no = true /\ sioserver.emit senv any_of event_arg name timeout (EVal <$> args) s w = Ret (sioserver.emits [sioserver.EError s] w)) \/
  no = false /\
  exists packets fin vals,
    sioserver.emit senv any_of event_arg name timeout (EVal <$> args) s w =
      Ret (sioserver.emits [sioserver.ESend (sioserver.s_conn s) packets] w) /\
    Forall2 reorder args vals /\
    (forall calls, List.filter is_message (concat calls) = packets ->
     exists rs, client_calls has_socket calls p = (p, Ret rs) /\
       List.filter (fun r => negb (is_ping r)) rs = [manager.RSocket nsp fin]) /\
    forall cs st hs,
      clientsocket.is_connected (clientsocket.state cs) = true -> clientsocket.pid cs = None ->
      eventHandlerStore.ev_getAll name (clientsocket.cs_handlers cs) = (st, hs) -> Forall (fun h => takes (eh_inputArgs h) args) hs ->
      clientsocket.onPacket cenv (client_received info ok fin) cs =
        Ret (clientsocket.emits (concat (client_called cenv (HVal <$> vals) <$> hs)) (client_prepared st cs)).
Proof.
  intros nsp Hrec HSE Hr Hb Hu Hns Hne Hso Ha Hlim Hp no.
  assert (sioserver.emit senv any_of event_arg name timeout (EVal <$> args) s w =
    Ret (sioserver.encode_and_send senv s (mkPacketHeader PacketTypeEvent nsp None 0) (sioserver.PEvent (EVal <$> GString name :: args)) w)) as ->.
  { unfold sioserver.emit. rewrite Hr. change (event_arg name :: (EVal <$> args)) with (EVal <$> (GString name :: args)).
    rewrite fmap_last, Hrec. destruct (last (GString name :: args)) as [f|] eqn:El; [done|]. by apply last_None in El. }
  unfold sioserver.encode_and_send. rewrite HSE. unfold server_Encode. rewrite values_of_EVal. cbn [mbind option_bind].
  change (ack_value (GString name :: args)) with (event_value name args).
  destruct (event_on_wire smax (p_maxAttachments p) None nsp name args Ha Hns Hne I Hb Hu Hlim)
    as [(Hno & e & ->)|(Hno & text & buf & vals & ds & -> & Hh & Hnsp & _ & _ & _ & Hd & Hv)]; [by left|].
  right. split; [exact Hno|]. destruct (event_header_counts (mkPacketHeader PacketTypeEvent nsp None 0) args eq_refl eq_refl) as (Hcnt & Hatt & Htyp & _ & Hid).
  set (header := normalize (event_header _ args)) in *. destruct Hlim as (Hm & _ & Hmp).
  exists (message_of (text :: args_leaves args)), (header, name, buf :: args_leaves args), (zip_with unboxed args vals).
  split; [unfold sioserver.sendBuffers; by rewrite message_packets_Ret|]. split; [by apply unboxed_delivered|]. split.
  { intros calls HC.
    destruct (client_receives p has_socket calls text (args_leaves args) header name buf) as (rs & Hrs & Hf); rewrite ?Hnsp; try done; try lia.
    exists rs. by rewrite Hf, Hnsp. }
  intros cs st hs Hc Hpid Hst HF. apply client_runs_event; try done.
  eapply Forall_impl; [exact HF|]. intros h [Hty Hpt]. exists vals. split.
  - unfold client_decode, decode_at. rewrite Hty, <- list_fmap_compose.
    change (Some ∘ typeOf <$> args) with (map (fun a => Some (typeOf a)) args). by rewrite Hd.
  - apply convert_unboxed; [done|]. symmetry. by eapply Forall2_length.
Qed.
End endtoend.

(** ** Samples *)

Section samples.
#[local] Existing Instance json_package.
#[local] Existing Instance package_ack.
#[local] Existing Instance serversafety.inMemory_adapter.

(** A handler that takes a [Binary], one that also takes a function to answer with, and the function of a client. *)
Definition sample_types (params : list gotype) : list gty :=
  match params with
  | [TOther] => [TBytes true]
  | [TOther; TFunc 0] => [TBytes true; binary.TFunc]
  | _ => []
  end.

Definition sample_handler : eventHandler := mkEventHandler 1 [TOther].
Definition sample_answerer : eventHandler := mkEventHandler 2 [TOther; TFunc 0].
Definition sample_ackfun : any := AnyFunc 3 [TOther] 0.
Definition sample_request : list gval := [GBytes true [x01; x02]].
Definition sample_reply : list gval := [GBytes true [x03]].

Lemma sample_sendable b : Forall sendable_arg [GBytes true b].
Proof. repeat constructor. discriminate. Qed.

Definition sample_cenv : @clientsocket.environment gval emitted unit :=
  clientsocket.mkEnv (client_Encode 0 (fun _ _ => Err tt)) (fun _ _ => []) (fun _ _ => false) (fun _ => None).

Definition sample_client : @clientsocket.clientSocket gval emitted unit :=
  clientsocket.set_state clientsocket.clientSocketConnStateConnected
    (clientsocket.newClientSocket (clientsocket.mkSocketConfig 0 0) "/" None).

Definition sample_senv : sioserver.environment gval emitted unit unit unit :=
  sioserver.mkEnv (server_Encode 0 (fun _ _ => None)) (fun _ => None) (fun _ _ _ => ([], None))
    (fun _ => sioserver.mkFuncType true [] false []) (fun _ => false) (fun _ _ => true)
    (fun h _ => if (eh_rv h =? 2)%Z then [sample_reply; []] else []) (fun _ _ => false) (fun _ => None) (fun m => (map_to_list m).*2).

Definition sample_socket : sioserver.serverSocket := sioserver.mkSocket 0 "a" "" false "/" 0.

Definition sample_state (h : eventHandler) : @sioserver.socketState unit :=
  sioserver.set_handlers (eventHandlerStore.ev_on "hi" h eventHandlerStore.newEventHandlerStore)
    (sioserver.set_connected true (sioserver.newSocketState sample_socket)).

(** A connection with a socket in the namespace, which handles the event. *)
Definition sample_world (h : eventHandler) : sioserver.Server gval emitted (adapter.inMemoryAdapter (gset string) (gset string)) unit unit :=
  sioserver.mkServer (sioserver.mkServerConfig 0 false false 0 false) ∅
    [sioserver.mkConn (serverSocketStore.ss_set sioserver.s_id sioserver.s_nsp sample_socket serverSocketStore.newServerSocketStore) {["/"%string]} false false]
    [sample_state h] [] [] [] [].

Definition sent_packets (o : outcome unit (@clientsocket.clientSocket gval emitted unit)) : list eioparser.Packet :=
  match o with Ret s => match last (clientsocket.cs_out s) with Some (clientsocket.OPacket l) => l | _ => [] end | _ => [] end.

Definition wire_of (out : list (@sioserver.effect gval emitted)) : list eioparser.Packet :=
  match out with [_; sioserver.ESend _ l] => l | _ => [] end.

(** What the server's last goroutine sends. *)
Definition answered (o : outcome unit (Parser * sioserver.Server gval emitted (adapter.inMemoryAdapter (gset string) (gset string)) unit unit)) : list eioparser.Packet :=
  match o with
  | Ret (_, w) =>
      match last (sioserver.sv_tasks w) with
      | Some t => wire_of (sioserver.sv_out (sioserver.run_task sample_senv t (sample_world sample_answerer)))
      | None => []
      end
  | _ => []
  end.

Definition pushed (o : outcome unit (sioserver.Server gval emitted (adapter.inMemoryAdapter (gset string) (gset string)) unit unit)) : list eioparser.Packet :=
  match o with Ret w => match last (sioserver.sv_out w) with Some (sioserver.ESend _ l) => l | _ => [] end | _ => [] end.

Lemma sample_listens h : listens 0 sample_socket (sample_state h) (sample_world h).
Proof. split; [|done..]. eexists. split; [reflexivity|]. cbn. by rewrite lookup_insert_eq. Qed.

Lemma sample_getAll h :
  eventHandlerStore.ev_getAll "hi" (sioserver.ss_handlers (sample_state h)) =
  (eventHandlerStore.ev_on "hi" h eventHandlerStore.newEventHandlerStore, [h]).
Proof. reflexivity. Qed.

(** The text and the attachment arrive in two calls, with a PING in between. *)
Lemma event_handled_witness :
  exists m1 m2 t vals,
    clientsocket.Emit any_of event_arg sample_cenv "hi" (EVal <$> sample_request) sample_client =
      Ret (clientsocket.emits [clientsocket.OPacket [m1; m2]] sample_client) /\
    Forall2 reorder sample_request vals /\
    serverfeed.onEIOPackets sample_senv (server_decode sample_types) (fun _ => None) 0
      [[m1; eioparser.mkPacket false eioparser.PacketTypePing []]; [m2]] (NewParser 0) (sample_world sample_handler) =
      Ret (NewParser 0, sioserver.go t (sample_world sample_handler)) /\
    sioserver.sv_out (sioserver.run_task sample_senv t (sample_world sample_handler)) =
      [sioserver.ECall sample_socket sample_handler (HVal <$> vals)].
Proof.
  destruct (event_handled sample_types (Ad := adapter.inMemoryAdapter (gset string) (gset string)) sample_senv 0 (fun _ _ => Err tt) (fun _ _ => []) (fun _ _ => false)
    (fun _ => None) (fun _ => None) sample_client "hi" sample_request 0 (NewParser 0)) as [[HN _]|(_ & packets & HE & HR)].
  - by split.
  - vm_compute. reflexivity.
  - discriminate.
  - vm_compute. discriminate.
  - reflexivity.
  - reflexivity.
  - discriminate.
  - apply sample_sendable.
  - split; [reflexivity|]. by split; left.
  - reflexivity.
  - vm_compute in HN. discriminate.
  - assert (exists m1 m2, packets = [m1; m2] /\ is_message m1 = true /\ is_message m2 = true) as (m1 & m2 & -> & H1 & H2).
    { pose proof (f_equal sent_packets HE) as HP. cbn [sent_packets] in HP. vm_compute in HP. eexists _, _. split; [symmetry; exact HP|]. by vm_compute. }
    destruct (HR [[m1; eioparser.mkPacket false eioparser.PacketTypePing []]; [m2]]) as (t & vals & Hv & Hw & Hrun).
    { cbn. by rewrite H1, H2. }
    exists m1, m2, t, vals. split; [exact HE|]. split; [exact Hv|]. split; [apply Hw|].
    rewrite (Hrun _ _ _ _ _ (sample_listens sample_handler) eq_refl (sample_getAll sample_handler)); [reflexivity|].
    repeat constructor.
Defined.

(** The answer arrives in one call, behind a PING. *)
Lemma request_answered_witness :
  exists cs1 cs3 m1 m2 r1 r2 t vals fin rvals rs,
    clientsocket.Emit any_of event_arg sample_cenv "hi" ((EVal <$> sample_request) ++ [EFun sample_ackfun]) sample_client = Ret cs1 /\
    clientsocket.cs_out cs1 = [clientsocket.OPacket [m1; m2]] /\
    serverfeed.onEIOPackets sample_senv (server_decode sample_types) (fun _ => None) 0 [[m1]; [m2]] (NewParser 0) (sample_world sample_answerer) =
      Ret (NewParser 0, sioserver.go t (sample_world sample_answerer)) /\
    Forall2 reorder sample_request vals /\
    sioserver.sv_out (sioserver.run_task sample_senv t (sample_world sample_answerer)) =
      [sioserver.ECall sample_socket sample_answerer ((HVal <$> vals) ++ [HAck 0 0]); sioserver.ESend 0 [r1; r2]] /\
    client_calls (fun _ => true) [[eioparser.mkPacket false eioparser.PacketTypePing []; r1; r2]] (NewParser 0) = (NewParser 0, Ret rs) /\
    List.filter (fun r => negb (is_ping r)) rs = [manager.RSocket "/" fin] /\
    clientsocket.onPacket sample_cenv (client_received sample_types (fun _ => Err tt) (fun _ => false) fin) cs1 = Ret cs3 /\
    clientsocket.cs_out cs3 = clientsocket.cs_out cs1 ++ [clientsocket.OAckCall 0 rvals] /\ Forall2 reorder sample_reply rvals.
Proof.
  destruct (request_answered sample_types (Ad := adapter.inMemoryAdapter (gset string) (gset string)) sample_senv 0 (fun _ _ => None) 0 (fun _ _ => Err tt)
    (fun _ _ => []) (fun _ _ => false) (fun _ => None) (fun _ => None) (fun _ => Err tt) (fun _ => false) sample_client "hi" sample_request sample_ackfun
    (mkAckHandler [TOther] false false false) sample_answerer sample_reply (fun _ => true) 0 (NewParser 0) (NewParser 0))
    as (cs1 & HE & Hl & [[HN _]|(_ & packets & HO & HR)]).
  - by split.
  - reflexivity.
  - by vm_compute.
  - vm_compute. reflexivity.
  - discriminate.
  - vm_compute. discriminate.
  - reflexivity.
  - reflexivity.
  - discriminate.
  - reflexivity.
  - apply sample_sendable.
  - split; [reflexivity|]. by split; left.
  - reflexivity.
  - exists [TOther]. by repeat constructor.
  - apply sample_sendable.
  - split; [reflexivity|]. by split; left.
  - reflexivity.
  - reflexivity.
  - by repeat constructor.
  - reflexivity.
  - intros vals cell _. by exists [[]].
  - vm_compute in HN. discriminate.
  - pose proof (f_equal sent_packets HE) as HP. unfold sent_packets at 2 in HP. rewrite HO in HP. vm_compute in HP. cbn [last] in HP.
    subst packets. match type of HR with context [_ = [?m1; ?m2]] => set (p1 := m1) in *; set (p2 := m2) in * end.
    destruct (HR [[p1]; [p2]] eq_refl) as (t & vals & Hv & Hw & Hrun).
    destruct (Hrun _ _ _ _ (sample_listens sample_answerer) eq_refl (sample_getAll sample_answerer)) as (answer & Hout & HA).
    pose proof (f_equal answered (Hw (sample_world sample_answerer))) as HP2.
    change (answered (Ret (NewParser 0, sioserver.go t (sample_world sample_answerer))))
      with (wire_of (sioserver.sv_out (sioserver.run_task sample_senv t (sample_world sample_answerer)))) in HP2.
    rewrite Hout in HP2. vm_compute in HP2.
    destruct HA as [[HN _]|(_ & rpackets & fin & rvals & -> & Hrv & Harr & Hcl)]; [vm_compute in HN; discriminate|]. cbn in HP2. subst rpackets.
    match type of Harr with context [_ = [?r1; ?r2]] => set (q1 := r1) in *; set (q2 := r2) in * end.
    destruct (Harr [[eioparser.mkPacket false eioparser.PacketTypePing []; q1; q2]] eq_refl) as (rs & Hrs & Hf).
    destruct (Hcl cs1 Hl) as (cs3 & Hon & Hout3 & _).
    exists cs1, cs3, p1, p2, q1, q2, t, vals, fin, rvals, rs. split_and!; try done.
Defined.

Definition sample_listener : @clientsocket.clientSocket gval emitted unit :=
  clientsocket.with_handlers (eventHandlerStore.ev_once "hi" sample_handler (eventHandlerStore.ev_on "hi" sample_handler eventHandlerStore.newEventHandlerStore)) sample_client.

(** Two handlers, one of them for one time; the messages arrive in two calls. *)
Lemma push_handled_witness :
  exists m1 m2 fin vals rs,
    sioserver.emit sample_senv any_of event_arg "hi" 0 (EVal <$> sample_request) sample_socket (sample_world sample_handler) =
      Ret (sioserver.emits [sioserver.ESend 0 [m1; m2]] (sample_world sample_handler)) /\
    Forall2 reorder sample_request vals /\
    client_calls (fun _ => true) [[m1]; [m2; eioparser.mkPacket false eioparser.PacketTypePing []]] (NewParser 0) = (NewParser 0, Ret rs) /\
    List.filter (fun r => negb (is_ping r)) rs = [manager.RSocket "/" fin] /\
    exists cs, clientsocket.onPacket sample_cenv (client_received sample_types (fun _ => Err tt) (fun _ => false) fin) sample_listener = Ret cs /\
      clientsocket.cs_out cs = [clientsocket.OCall sample_handler (HVal <$> vals); clientsocket.OCall sample_handler (HVal <$> vals)].
Proof.
  destruct (push_handled sample_types (Ad := adapter.inMemoryAdapter (gset string) (gset string)) sample_senv 0 (fun _ _ => None) sample_cenv
    (fun _ => Err tt) (fun _ => false) (fun _ => true) (sample_world sample_handler) sample_socket 0 "hi" sample_request (NewParser 0))
    as [[HN _]|(_ & packets & fin & vals & HE & Hv & Harr & Hcl)].
  - reflexivity.
  - reflexivity.
  - vm_compute. reflexivity.
  - vm_compute. discriminate.
  - reflexivity.
  - reflexivity.
  - discriminate.
  - reflexivity.
  - apply sample_sendable.
  - split; [reflexivity|]. by split; left.
  - reflexivity.
  - vm_compute in HN. discriminate.
  - pose proof (f_equal pushed HE) as HP. change (pushed (Ret (sioserver.emits [sioserver.ESend (sioserver.s_conn sample_socket) packets] (sample_world sample_handler)))) with packets in HP.
    vm_compute in HP. subst packets. match type of HE with context [sioserver.ESend _ [?m1; ?m2]] => set (p1 := m1) in *; set (p2 := m2) in * end.
    destruct (Harr [[p1]; [p2; eioparser.mkPacket false eioparser.PacketTypePing []]] eq_refl) as (rs & Hrs & Hf).
    exists p1, p2, fin, vals, rs. split_and!; try done.
    eexists. split; [eapply (Hcl sample_listener); [reflexivity|reflexivity|reflexivity|by repeat constructor]|reflexivity].
Defined.
End samples.
End endtoend.
